(* ===== verification/_CoqProject ===== *)
-Q . S2P
Prelude.v
Float64.v
FloatAdd.v
Encoding.v
CoreTypes.v
Framing.v
Codec.v
Transport.v
WireSession.v
Fom.v
Merge.v
Exception.v
Proto.v
State.v
Subscription.v
Handles.v
Routing.v
TimeCoord.v
Handler.v
Tso.v
TimeMgmt.v
Declaration.v
Ddm.v
ObjectMgmt.v
DataFlow.v
Causality.v
Ownership.v
SyncPoints.v
FederationMgmt.v
Persistence.v
SaveRestore.v
Advisories.v
Lookup.v
Dispatch.v
Isolation.v
Members.v
Confinement.v
Server.v
Atomicity.v
Sessions.v
Connections.v
Answers.v
Ledger.v
Delivery.v
FedHandles.v
Callbacks.v
Ambassador.v
Requests.v
Services.v
Federate.v
System.v
Backpressure.v
Rtiexec.v
