(* ===== verification/Prelude.v ===== *)
(** * hla4-rs: verification development

    hla4-rs is a run-time infrastructure (RTI) for IEEE 1516 distributed
    simulation.  Federates connect to an RTI node over the FedPro protocol,
    create and join federations, declare what they publish and subscribe,
    register objects, exchange updates and interactions, and coordinate
    logical time, ownership, synchronization, save and restore.

    ** The program and its parts

    A federate uses [hla-federate]: a typed method of [RtiAmbassador] builds a
    protobuf request and waits for the response, and a pump task hands
    callbacks to the federate's implementation of [FederateAmbassador].
    Requests, responses and callbacks travel in frames ([hla-wire]:
    [framing.rs], [codec.rs]) over a byte stream or a WebSocket
    ([transport.rs], [ws.rs]), after a handshake ([session.rs]).  On the side
    of the node, a task per connection ([hla-rti/src/lib.rs]) hands a request
    to [dispatch_call] ([hla-rti/src/dispatch/mod.rs]), which has one arm per
    request and calls a service handler of [hla-rti/src/dispatch/].  A handler
    reads and changes the federation of the caller's membership, and returns a
    response and the callbacks to send to other federates, which [routing.rs]
    addresses.  A session whose connection is lost is suspended and can be
    resumed within a window; a janitor resigns the federates of those that are
    not.  A federation is created from FOM modules that [hla-omt] parses and
    merges.  [hla-encoding] has the data types federates put in values.
    [rtiexec] ([hla-cli]) runs a node until a signal comes.

    ** Files

    - [Prelude]: results, the handler monad, machine integers, bytes, list and
      map lemmas, tactics.
    - [Float64], [FloatAdd]: IEEE 754 binary64 on bit patterns: order as an
      integer key, monotonicity of rounded addition.
    - [Encoding]: [hla-encoding].
    - [CoreTypes]: [hla-core] ([handle.rs], [time.rs], [lib.rs]).
    - [Framing], [Codec]: [hla-wire/src/framing.rs], [codec.rs].  [Transport]:
      [transport.rs], [ws.rs].  [WireSession]: [session.rs], [call.rs].
    - [Fom], [Merge]: [hla-omt/src/lib.rs], [xml.rs], [merge.rs].
    - [Exception], [Proto], [State], [Handles]: exception names, protobuf
      messages, the records of [hla-rti/src/lib.rs], [session.rs],
      [metrics.rs], and the handle codecs of [handles.rs].
    - [Subscription]: [SubscriptionMatrix] of [lib.rs].
    - [Routing]: [routing.rs].  [TimeCoord]: [time.rs].
    - [Handler]: the frame of a service handler, a weakest-precondition
      calculus for it, and the classes [Respects] and [AddsCallbacks] by which
      effects state what they leave alone.
    - [Tso], [DataFlow]: [dispatch/data_flow.rs].  [TimeMgmt]:
      [dispatch/time_mgmt.rs].  [Declaration]: [dispatch/declaration.rs].
      [Ddm]: [dispatch/ddm_matching.rs], [ddm_lifecycle.rs], and the region
      services of [restore.rs].  [ObjectMgmt]: [dispatch/object_mgmt.rs].
      [Ownership]: [dispatch/ownership.rs].  [SyncPoints]:
      [dispatch/sync_points.rs].  [FederationMgmt]:
      [dispatch/federation_mgmt.rs].  [Persistence]: [persistence.rs].
      [SaveRestore]: [dispatch/save.rs], [restore.rs].  [Advisories]:
      [dispatch/advisories.rs], [directed.rs].  [Lookup]:
      [dispatch/handle_lookup.rs], [instance_lookup.rs], [introspection.rs].
    - [Dispatch]: all arms of [dispatch_call], a definition per section of
      the source.
    - [Causality], [Isolation], [Members], [Confinement], [Atomicity]:
      properties that span the services.
    - [Server]: the server part of [hla-rti/src/lib.rs].  [Sessions]: the
      table of sessions as its abstract specification, and the simulation.
      [Connections]: limits, connection table, channels.  [Answers]: what the
      server puts on the transport of one session.  [Ledger]: what all sessions
      owe, send and receive over a run.  [Delivery]: a call and a
      handshake between [WireSession] and [Server].
    - [FedHandles], [Callbacks], [Ambassador], [Services]: [hla-federate]
      ([handles.rs], [callbacks.rs], [ambassador.rs]).  [Requests]: what a
      connection puts on its transport.  [Federate]: the messages of
      [hla-federate] and [hla-rti] match.
    - [System]: a [Server] and any number of [Ambassador]s joined by
      transports, as one transition system.  [Backpressure]: the same with
      transports of limited capacity.
    - [Rtiexec]: [hla-cli/src/main.rs] with [RtiNode::run].

    ** How the model corresponds to the code

    A Rust function is a Rocq function of the same name.  A handler is a
    computation of [Handler], a state monad with early return over
    [DispatchState]: the node, the session context, the callbacks queued so
    far and the files on disk.  [return] in the source is [ret_early] or one of
    [some_or_return], [ok_or_return], [return_if].  A handler runs to
    completion on this state: in the source it holds no lock across an
    [await], and the interleavings considered are sequences of whole calls by
    any sessions.  Tasks are explicit in [Server] and [Ambassador]: a task is
    at a point where it waits, an event takes it from there to the next one,
    and a list of events is one interleaving.  Sockets, clocks and the
    scheduler are events; a bounded channel that is full makes a send wait.
    Between two points where it waits a task takes one step, also where the
    source takes and releases a lock more than once: claiming a number and
    registering the waiter of a call; removing an expired session and its
    federate; taking a frame from a channel and writing it.  A writer is ready
    whenever it has a frame; a transport that does not accept bytes is an
    event that does not come, and [Backpressure] gives transports a capacity.
    In [System] a transport is the list of frames put on it and a position up
    to which the other side has read; either side may see it fail at any time.
    [Arc<Federation>] is a reference into the heap [fed_heap] of
    the node, so a federation that was destroyed by name lives on for whoever
    still holds it, as in the source.

    Integers keep their width: counters wrap ([fetch_add32], [fetch_add64]),
    reference counts of the subscription matrix are 32-bit, times are binary64
    with rounding, infinities and NaN.  [HashMap] and [HashSet] are [gmap] and
    [gset]; Rust leaves their iteration order open, the model uses the order
    of [map_to_list], and the theorems speak of who is called back, and of
    the order of callbacks to one federate, not of the order across
    federates.  Exception detail strings are kept as the values they are
    formatted from ([Details]).

    ** Parameters

    Code that is not part of the repository is a class argument: [Prost]
    (protobuf encoding of a callback), [QuickXml] (XML text to the raw
    object-model tree), [Serde] with [SerdeLaw] (JSON of a snapshot; reading
    what was written gives it back) and [Os] (whether creating a directory,
    writing and reading succeed), [ProstCalls] (decoding of requests and
    encoding of responses on the node) and [ProstClient] (encoding of requests
    and decoding of responses and callbacks in the federate library).
    [save_then_restore] assumes [SerdeLaw]; the theorems of [Federate] assume,
    for the one message they are about, that decoding it gives back what was
    encoded (for an exception: its name, with the rendered text).

    ** Fuel

    [try_grant] (time advances), the walk up the interaction classes and the
    inheritance chain, and the assignment of class handles recurse on data, so
    they take fuel.  [try_grant_terminates] shows that one round per federate
    and one more suffices and that more changes nothing;
    [merge_modules_total] that merging always returns; the walks get the
    number of classes, enough because [merge_modules_wf] gives each parent a
    smaller handle ([inheritance_iter_ancestors], [interaction_walk_spec]).

    ** Bounds

    The theorems on runs of the server ([Sessions], [Connections], [Ledger],
    [Delivery]) and on the types of the node ([Members]) assume of every step that no
    64-bit session number and no 32-bit federate handle is about to wrap and
    that the classes of submitted FOM modules fit the handle space
    ([bounded], [handles_left], [small_request]).  Channels hold 128 frames as
    in the source.  Nothing is assumed on the number of calls of a federate
    connection: its sequence numbers may come round.  Only where a call is
    followed through the whole system ([System]) are there fewer calls on the
    connection than sequence numbers ([unwrapped]).

    ** What the theorems show

    - Wire: the header codec is exact; the stream decoder is independent of
      how the bytes are chunked and agrees with the direct reader; outbound
      sequence numbers are handed out once each under any interleaving; both
      transports are queues of frames, the byte stream up to the first packet
      over 32 MiB; client and server agree on a handshake whatever the first
      frame is.
    - Data types: the string codec is exact, with its error on every other
      input, and values round-trip in sequence.
    - Server: every interleaving of its tasks is a run of the session table;
      in every reachable state sessions and federates match, no federate is
      left behind (but for the two resume paths recorded below), and, with the
      same exception, once all connections are gone and the window has passed
      a janitor that runs reclaims every federate; an address within its limit is never turned away;
      under every interleaving a session offers, in order, what it owes for
      the frames it read (responses, callbacks, control answers) and nothing
      else, and while the writer of a connection runs its transport carries
      exactly what was offered to it, of which a failing writer loses the end;
      no task waits for another but through a transport;
      the node's handshake is that of the wire library.
    - System: under every interleaving of the server, all federates and other
      peers, the requests of a federate are executed in order and once each, a
      call returns what its own execution answered, a call that waits is at
      one of the places it passes and can be moved on from there, and
      the callbacks that ran are the first ones its connection took, in
      order.
    - Process: [rtiexec] exits cleanly only after its signal task has returned,
      and can always exit then; it suspends no session and runs no janitor.
    - Dispatcher: every request keeps the node well typed, reaches only the
      caller's federation and its members' connections, and leaves everything
      as it was when it fails.
    - Federate library: a call returns the response to its own request, under
      any interleaving, and returns when its connection ends; every service
      understands every answer of the dispatcher; every callback the RTI
      builds runs the method it is for with the data it carries; an update
      arrives at the subscribers as it was sent.
    - FOM: merging is total and gives a well-formed forest of classes.
    - Subscriptions: the matrix with its reference counts refines a set of
      triples; the declaration services keep the matrix and the federates' own
      records in agreement and send the advisories at the first and last
      subscription.
    - Time: LBTS is the greatest lower bound of the regulators' promises;
      granting terminates, never passes LBTS, never lowers it and leaves
      nothing grantable pending; queued messages up to a granted time are
      delivered, in order, before the grant; no constrained federate gets
      ahead of LBTS under the timed services, so accepted updates are never in
      a federate's past.
    - Objects: registration, update, interaction, deletion, directed
      interactions, acquisition and divestiture each reach exactly the
      federates they should, and change exactly what they should.
    - Regions: the overlap test is exact, ranges stay non-empty.
    - Synchronization, save and restore: points are barriers; a save completes
      when everyone has reported; what it wrote a restore applies, with
      federates matched by name.
    - Federations: create, join and resign keep the registry well formed; no
      call reaches a federation the caller is neither in nor joining, and a
      session outside all federations changes nothing but by create, destroy
      and join.

    Theorems without a claim number at the end of a file show, on a concrete
    run, behaviour of the code that departs from what it means to do.

    ** What is not modelled

    The code prost generates ([hla-fedpro-proto]); the option grammar of the
    command line, apart from the bind address; TLS and WebSocket upgrades,
    which succeed or fail as an event says; logging; the
    periods of timers (a tick may come at any time); the methods of
    [hla-rti/src/lib.rs] that exist for tests only; callbacks of a federate that
    wait for a call of their own connection (the pump awaits the callback, so
    such a call never returns); the detached tasks of a
    federate connection that is dropped without [disconnect]. *)

From Stdlib Require Export ZArith Lia.
From Stdlib Require Export Strings.Byte.
From stdpp Require Export base tactics list gmap strings sets fin_maps fin_sets.

#[global] Open Scope Z_scope.

(** ** Results: Rust's [Result<A, E>] *)

Inductive result (E A : Type) : Type :=
| Ok (a : A)
| Err (e : E).
Arguments Ok {E A} a.
Arguments Err {E A} e.

#[export] Instance result_ret E : MRet (result E) := λ A a, Ok a.
#[export] Instance result_bind E : MBind (result E) :=
  λ A B f r, match r with Ok a => f a | Err e => Err e end.
#[export] Instance result_fmap E : FMap (result E) :=
  λ A B f r, match r with Ok a => Ok (f a) | Err e => Err e end.

(** [r.map_err(f)] *)
Definition map_err {E F A} (f : E → F) (r : result E A) : result F A :=
  match r with Ok a => Ok a | Err e => Err (f e) end.

(** [r.ok()] *)
Definition ok {E A} (r : result E A) : option A :=
  match r with Ok a => Some a | Err _ => None end.

(** [o.ok_or(e)] *)
Definition ok_or {E A} (o : option A) (e : E) : result E A :=
  match o with Some a => Ok a | None => Err e end.

(** ** The handler monad

    A service handler mutates the node, its session context and the list of
    outgoing callbacks, and may [return] early.  [M S R A] is a state monad
    over [S] with early return of a value of [R]: the state changes made
    before the early return are kept, as in the code. *)

Definition M (S R A : Type) : Type := S → S * (R + A).

#[export] Instance M_ret S R : MRet (M S R) := λ A a s, (s, inr a).
#[export] Instance M_bind S R : MBind (M S R) :=
  λ A B f m s, match m s with (s', inr a) => f a s' | (s', inl r) => (s', inl r) end.

Definition ret_early {S R A} (r : R) : M S R A := λ s, (s, inl r).
Definition gets {S R A} (f : S → A) : M S R A := λ s, (s, inr (f s)).
Definition modify {S R} (f : S → S) : M S R unit := λ s, (f s, inr tt).

(** [match o { Some(a) => a, None => return r }] *)
Definition some_or_return {S R A} (o : option A) (r : R) : M S R A :=
  match o with Some a => mret a | None => ret_early r end.

(** [match r { Ok(a) => a, Err(e) => return f(e) }] *)
Definition ok_or_return {S R E A} (x : result E A) (f : E → R) : M S R A :=
  match x with Ok a => mret a | Err e => ret_early (f e) end.

(** [if b { return r }] *)
Definition return_if {S R} (b : bool) (r : R) : M S R unit :=
  if b then ret_early r else mret tt.

(** Run a handler body: its value is the early return, if any, and the value
    of its last expression otherwise. *)
Definition run {S R} (m : M S R R) (s : S) : S * R :=
  match m s with (s', inl r) => (s', r) | (s', inr r) => (s', r) end.

Section monad_lemmas.
Context {S R : Type}.
Implicit Types s : S.

Lemma bind_ret {A B} (a : A) (f : A → M S R B) s : (mret a ≫= f) s = f a s.
Proof. done. Qed.
Lemma bind_early {A B} (r : R) (f : A → M S R B) s :
  ((ret_early r : M S R A) ≫= f) s = (s, inl r).
Proof. done. Qed.
Lemma bind_gets {A B} (g : S → A) (f : A → M S R B) s : (gets g ≫= f) s = f (g s) s.
Proof. done. Qed.
Lemma bind_modify {B} (g : S → S) (f : unit → M S R B) s : (modify g ≫= f) s = f tt (g s).
Proof. done. Qed.
Lemma bind_some_or_return {A B} (o : option A) r (f : A → M S R B) s :
  (some_or_return o r ≫= f) s = match o with Some a => f a s | None => (s, inl r) end.
Proof. by destruct o. Qed.
Lemma bind_ok_or_return {E A B} (x : result E A) g (f : A → M S R B) s :
  (ok_or_return x g ≫= f) s = match x with Ok a => f a s | Err e => (s, inl (g e)) end.
Proof. by destruct x. Qed.
Lemma bind_return_if {B} (b : bool) r (f : unit → M S R B) s :
  (return_if b r ≫= f) s = if b then (s, inl r) else f tt s.
Proof. by destruct b. Qed.
End monad_lemmas.

(** The rewriting base that runs a handler one statement at a time. *)
Create HintDb hla discriminated.
Create Rewrite HintDb hla_run.
#[export] Hint Rewrite @bind_ret @bind_early @bind_gets @bind_modify
  @bind_some_or_return @bind_ok_or_return @bind_return_if : hla_run.

Ltac run_step := autorewrite with hla_run; cbn beta iota.

(** ** Booleans *)

Lemma bool_false_iff (b : bool) (P : Prop) : (b = true ↔ P) → b = false ↔ ¬ P.
Proof. destruct b; intuition congruence. Qed.

(** ** Lists *)

Lemma elem_of_concat {A} (x : A) (ls : list (list A)) :
  x ∈ concat ls ↔ ∃ l, x ∈ l ∧ l ∈ ls.
Proof.
  induction ls as [|l ls IH]; simpl; [set_solver|]. rewrite elem_of_app, IH. set_solver.
Qed.

(** ** Machine integers

    A [w]-bit integer is a [Z]; [wrap_u] and [wrap_s] are the wrap-around of
    the release profile, [u_in] and [s_in] the ranges of the types. *)

Definition wrap_u (w : Z) (z : Z) : Z := z mod 2 ^ w.
Definition wrap_s (w : Z) (z : Z) : Z := (z + 2 ^ (w - 1)) mod 2 ^ w - 2 ^ (w - 1).
Definition u_in (w : Z) (z : Z) : Prop := 0 ≤ z < 2 ^ w.
Definition s_in (w : Z) (z : Z) : Prop := - 2 ^ (w - 1) ≤ z < 2 ^ (w - 1).

Definition u32_MAX : Z := 2 ^ 32 - 1.
Definition i32_MIN : Z := - 2 ^ 31.
Definition i32_MAX : Z := 2 ^ 31 - 1.

Lemma wrap_u_id w z : u_in w z → wrap_u w z = z.
Proof. intros H. by apply Z.mod_small. Qed.

Lemma wrap_u_range w z : 0 ≤ w → u_in w (wrap_u w z).
Proof. intros Hw. apply Z.mod_pos_bound. by apply Z.pow_pos_nonneg. Qed.

Lemma pow_half w : 0 < w → 2 ^ w = 2 * 2 ^ (w - 1).
Proof. intros Hw. rewrite <- Z.pow_succ_r by lia. f_equal. lia. Qed.

Lemma wrap_s_id w z : 0 < w → s_in w z → wrap_s w z = z.
Proof.
  intros Hw [H1 H2]. unfold wrap_s. pose proof (pow_half w Hw).
  rewrite Z.mod_small; lia.
Qed.

Lemma wrap_s_wrap_u w z : 0 < w → wrap_s w (wrap_u w z) = wrap_s w z.
Proof.
  intros Hw. unfold wrap_s, wrap_u. f_equal. by rewrite Zplus_mod_idemp_l.
Qed.

Lemma wrap_u_wrap_s w z : 0 < w → wrap_u w (wrap_s w z) = wrap_u w z.
Proof.
  intros Hw. unfold wrap_s, wrap_u. rewrite Zminus_mod_idemp_l. f_equal. lia.
Qed.

Lemma wrap_s_range w z : 0 < w → s_in w (wrap_s w z).
Proof.
  intros Hw. unfold wrap_s, s_in. pose proof (pow_half w Hw).
  pose proof (Z.mod_pos_bound (z + 2 ^ (w - 1)) (2 ^ w)
    ltac:(apply Z.pow_pos_nonneg; lia)). lia.
Qed.

(** ** Bytes and big-endian integers: [to_be_bytes] / [from_be_bytes] *)

Definition byte_val (b : byte) : Z := Z.of_N (Byte.to_N b).
Definition byte_of_Z (z : Z) : byte := default x00 (Byte.of_N (Z.to_N (z mod 256))).

Fixpoint to_be_bytes (n : nat) (z : Z) : list byte :=
  match n with
  | O => []
  | S n' => to_be_bytes n' (z / 256) ++ [byte_of_Z z]
  end.

Definition from_be_bytes (l : list byte) : Z :=
  foldl (λ acc b, acc * 256 + byte_val b) 0 l.

Definition from_be_bytes_signed (l : list byte) : Z :=
  wrap_s (8 * Z.of_nat (length l)) (from_be_bytes l).

Lemma byte_val_range b : 0 ≤ byte_val b < 256.
Proof. unfold byte_val. pose proof (Byte.to_N_bounded b). lia. Qed.

Lemma byte_val_of_Z z : byte_val (byte_of_Z z) = z mod 256.
Proof.
  unfold byte_val, byte_of_Z. pose proof (Z.mod_pos_bound z 256 ltac:(lia)) as Hb.
  destruct (Byte.of_N (Z.to_N (z mod 256))) as [b|] eqn:E; simpl.
  - apply Byte.to_of_N in E. rewrite E, Z2N.id; lia.
  - apply Byte.of_N_None_iff in E. lia.
Qed.

Lemma byte_of_Z_val b : byte_of_Z (byte_val b) = b.
Proof.
  unfold byte_of_Z. rewrite Z.mod_small by apply byte_val_range.
  unfold byte_val. rewrite N2Z.id. by rewrite Byte.of_to_N.
Qed.

Lemma byte_val_inj b c : byte_val b = byte_val c → b = c.
Proof. intros H. rewrite <- (byte_of_Z_val b), H. apply byte_of_Z_val. Qed.

#[export] Instance byte_eq_dec : EqDecision byte := Byte.byte_eq_dec.
#[export] Instance byte_countable : Countable byte.
Proof.
  apply (inj_countable' Byte.to_N (λ n, default x00 (Byte.of_N n))).
  intros b. by rewrite Byte.of_to_N.
Qed.
#[export] Instance byte_inhabited : Inhabited byte := populate x00.

Lemma length_to_be_bytes n z : length (to_be_bytes n z) = n.
Proof. revert z. induction n as [|n IH]; intros z; [done|]. cbn [to_be_bytes]. rewrite length_app, IH. simpl. lia. Qed.

Lemma from_be_bytes_snoc l b : from_be_bytes (l ++ [b]) = from_be_bytes l * 256 + byte_val b.
Proof. unfold from_be_bytes. by rewrite foldl_app. Qed.

Lemma pow256_S n : 256 ^ Z.of_nat (S n) = 256 * 256 ^ Z.of_nat n.
Proof. rewrite Nat2Z.inj_succ, Z.pow_succ_r by lia. done. Qed.

Lemma pow256_pos n : 0 < 256 ^ Z.of_nat n.
Proof. apply Z.pow_pos_nonneg; lia. Qed.

Lemma pow256_pow2 n : 256 ^ Z.of_nat n = 2 ^ (8 * Z.of_nat n).
Proof. rewrite Z.pow_mul_r by lia. done. Qed.

Lemma from_to_be_bytes n z : from_be_bytes (to_be_bytes n z) = z mod 256 ^ Z.of_nat n.
Proof.
  revert z. induction n as [|n IH]; intros z; [by rewrite Z.mod_1_r|].
  cbn [to_be_bytes]. rewrite from_be_bytes_snoc, IH, byte_val_of_Z, pow256_S.
  pose proof (pow256_pos n).
  rewrite (Z.rem_mul_r z 256) by lia. lia.
Qed.

Lemma from_be_bytes_range l : 0 ≤ from_be_bytes l < 256 ^ Z.of_nat (length l).
Proof.
  induction l as [|b l IH] using rev_ind; [done|].
  rewrite from_be_bytes_snoc, length_app. cbn [length]. rewrite Nat.add_1_r, pow256_S.
  pose proof (byte_val_range b). lia.
Qed.

Lemma to_from_be_bytes l : to_be_bytes (length l) (from_be_bytes l) = l.
Proof.
  induction l as [|b l IH] using rev_ind; [done|].
  rewrite from_be_bytes_snoc, length_app. cbn [length]. rewrite Nat.add_1_r. cbn [to_be_bytes].
  pose proof (byte_val_range b) as Hb.
  rewrite Z.div_add_l by lia. rewrite (Z.div_small (byte_val b)) by done.
  rewrite Z.add_0_r, IH. do 2 f_equal.
  apply byte_val_inj. rewrite byte_val_of_Z, Z.add_comm, Z.mod_add by lia.
  by rewrite Z.mod_small.
Qed.

(** Two's complement: encoding is insensitive to the wrap, so one codec
    serves signed and unsigned integers. *)
Lemma to_be_bytes_mod n z : to_be_bytes n (z mod 256 ^ Z.of_nat n) = to_be_bytes n z.
Proof.
  rewrite <- (from_to_be_bytes n z).
  rewrite <- (length_to_be_bytes n z) at 1. apply to_from_be_bytes.
Qed.

#[global] Arguments to_be_bytes : simpl never.

Lemma from_to_be_bytes_u n z :
  u_in (8 * Z.of_nat n) z → from_be_bytes (to_be_bytes n z) = z.
Proof. intros H. rewrite from_to_be_bytes, pow256_pow2. by apply wrap_u_id. Qed.

Lemma from_to_be_bytes_s n z :
  (0 < n)%nat → s_in (8 * Z.of_nat n) z → from_be_bytes_signed (to_be_bytes n z) = z.
Proof.
  intros Hn H. unfold from_be_bytes_signed.
  rewrite length_to_be_bytes, from_to_be_bytes, pow256_pow2.
  fold (wrap_u (8 * Z.of_nat n) z). rewrite wrap_s_wrap_u by lia. apply wrap_s_id; [lia|done].
Qed.

Lemma to_from_be_bytes_signed l : (0 < length l)%nat → to_be_bytes (length l) (from_be_bytes_signed l) = l.
Proof.
  intros Hl. unfold from_be_bytes_signed.
  rewrite <- to_be_bytes_mod, pow256_pow2. fold (wrap_u (8 * Z.of_nat (length l)) (wrap_s (8 * Z.of_nat (length l)) (from_be_bytes l))).
  rewrite wrap_u_wrap_s by lia. unfold wrap_u. rewrite <- pow256_pow2, to_be_bytes_mod.
  apply to_from_be_bytes.
Qed.
