(* ===== verification/Float64.v ===== *)
(** * Binary64 floating point

    Logical time travels as [f64]: [hla-core/src/time.rs] wraps it and
    [hla-rti] computes with it.  A value is its 64-bit pattern, so that the
    wire codec is exact (NaN payloads included); arithmetic and comparison
    decode the pattern into the IEEE 754 specification floats of the standard
    library.  The main lemma is [f64_compare_key]: on numbers, the IEEE order
    is the integer order of a signed magnitude key, which reduces every
    ordering argument about times to linear integer arithmetic. *)

From Corelib Require Import SpecFloat.
From S2P Require Import Prelude.

Record f64 := F64 { f64_bits : Z }.

#[export] Instance f64_eq_dec : EqDecision f64.
Proof. solve_decision. Defined.
#[export] Instance f64_inhabited : Inhabited f64 := populate (F64 0).

(** ** Fields of the bit pattern *)

Definition f64_sign (x : f64) : bool := Z.testbit (f64_bits x) 63.
Definition f64_expo (x : f64) : Z := (f64_bits x / 2 ^ 52) mod 2 ^ 11.
Definition f64_mant (x : f64) : Z := f64_bits x mod 2 ^ 52.

Definition f64_sf (x : f64) : spec_float :=
  if f64_expo x =? 2047 then
    if f64_mant x =? 0 then S754_infinity (f64_sign x) else S754_nan
  else if f64_expo x =? 0 then
    match f64_mant x with
    | Zpos m => S754_finite (f64_sign x) m (-1074)
    | _ => S754_zero (f64_sign x)
    end
  else S754_finite (f64_sign x) (Z.to_pos (2 ^ 52 + f64_mant x)) (f64_expo x - 1075).

Definition sign_bit (s : bool) : Z := if s then 2 ^ 63 else 0.

Definition f64_of_sf (x : spec_float) : f64 :=
  F64 match x with
      | S754_zero s => sign_bit s
      | S754_infinity s => sign_bit s + 2047 * 2 ^ 52
      | S754_nan => 2047 * 2 ^ 52 + 2 ^ 51
      | S754_finite s m e =>
          if Zpos m <? 2 ^ 52 then sign_bit s + Zpos m
          else sign_bit s + (e + 1075) * 2 ^ 52 + (Zpos m - 2 ^ 52)
      end.

(** ** The operations the code uses *)

Definition f64_add (x y : f64) : f64 := f64_of_sf (SFadd 53 1024 (f64_sf x) (f64_sf y)).
Definition f64_ltb (x y : f64) : bool := SFltb (f64_sf x) (f64_sf y).
Definition f64_leb (x y : f64) : bool := SFleb (f64_sf x) (f64_sf y).
Definition f64_eqb (x y : f64) : bool := SFeqb (f64_sf x) (f64_sf y).
Definition f64_gtb (x y : f64) : bool := f64_ltb y x.
Definition f64_geb (x y : f64) : bool := f64_leb y x.

Definition is_nan (x : f64) : bool := (f64_expo x =? 2047) && negb (f64_mant x =? 0).
Definition is_finite (x : f64) : bool := negb (f64_expo x =? 2047).

(** [f64::min]: a NaN operand is ignored. *)
Definition f64_min (x y : f64) : f64 :=
  if is_nan x then y else if is_nan y then x else if f64_ltb y x then y else x.

Definition f64_INFINITY : f64 := F64 (2047 * 2 ^ 52).
Definition f64_ZERO : f64 := F64 0.
Definition f64_EPSILON : f64 := F64 (971 * 2 ^ 52).

(** [f64::total_cmp], as the standard library computes it: the bits as an
    [i64], the magnitude bits flipped when the sign bit is set. *)
Definition total_key (x : f64) : Z :=
  let left := wrap_s 64 (f64_bits x) in
  wrap_s 64 (Z.lxor left (Z.shiftr (wrap_u 64 (Z.shiftr left 63)) 1)).
Definition f64_total_cmp (x y : f64) : comparison := Z.compare (total_key x) (total_key y).

Definition f64_to_be_bytes (x : f64) : list byte := to_be_bytes 8 (f64_bits x).
Definition f64_from_be_bytes (l : list byte) : f64 := F64 (from_be_bytes l).

(** ** Order by key *)

Definition f64_mag (x : f64) : Z := f64_bits x mod 2 ^ 63.
Definition f64_key (x : f64) : Z := if f64_sign x then - f64_mag x else f64_mag x.

Lemma f64_expo_range x : 0 ≤ f64_expo x < 2048.
Proof. apply Z.mod_pos_bound. done. Qed.
Lemma f64_mant_range x : 0 ≤ f64_mant x < 2 ^ 52.
Proof. apply Z.mod_pos_bound. done. Qed.
Lemma f64_mag_fields x : f64_mag x = f64_expo x * 2 ^ 52 + f64_mant x.
Proof.
  unfold f64_mag, f64_expo, f64_mant.
  change (2 ^ 63) with (2 ^ 52 * 2 ^ 11). rewrite Z.rem_mul_r by done. lia.
Qed.

(** What [f64_sf] yields, by class, with the magnitude as an integer. *)
Lemma f64_sf_cases x :
  (f64_sf x = S754_nan ∧ is_nan x = true)
  ∨ (f64_sf x = S754_infinity (f64_sign x) ∧ is_nan x = false ∧ is_finite x = false ∧ f64_mag x = 2047 * 2 ^ 52)
  ∨ (f64_sf x = S754_zero (f64_sign x) ∧ is_nan x = false ∧ is_finite x = true ∧ f64_mag x = 0)
  ∨ (∃ m e, f64_sf x = S754_finite (f64_sign x) m e ∧ is_nan x = false ∧ is_finite x = true
      ∧ ((e = -1074 ∧ Zpos m < 2 ^ 52 ∧ f64_mag x = Zpos m)
         ∨ (-1074 ≤ e ≤ 971 ∧ 2 ^ 52 ≤ Zpos m < 2 ^ 53
            ∧ f64_mag x = (e + 1074) * 2 ^ 52 + Zpos m))).
Proof.
  pose proof (f64_expo_range x). pose proof (f64_mant_range x). pose proof (f64_mag_fields x).
  unfold f64_sf, is_nan, is_finite.
  destruct (Z.eqb_spec (f64_expo x) 2047) as [He|He]; simpl.
  { destruct (Z.eqb_spec (f64_mant x) 0) as [Hm|Hm]; simpl; [right; left|by left].
    split_and!; [done..|]. rewrite H1, He, Hm. done. }
  destruct (Z.eqb_spec (f64_expo x) 0) as [He0|He0].
  - destruct (f64_mant x) as [|m|m] eqn:Hm; [do 2 right; left|do 3 right|lia].
    + split_and!; [done..|]. lia.
    + exists m, (-1074). split_and!; [done..|]. left. lia.
  - do 3 right. exists (Z.to_pos (2 ^ 52 + f64_mant x)), (f64_expo x - 1075).
    split_and!; [done..|]. right. rewrite Z2Pos.id by lia. lia.
Qed.

Lemma SFcompare_finite_pos m1 e1 m2 e2 k1 k2 :
  ((e1 = -1074 ∧ Zpos m1 < 2 ^ 52 ∧ k1 = Zpos m1)
    ∨ (-1074 ≤ e1 ≤ 971 ∧ 2 ^ 52 ≤ Zpos m1 < 2 ^ 53 ∧ k1 = (e1 + 1074) * 2 ^ 52 + Zpos m1)) →
  ((e2 = -1074 ∧ Zpos m2 < 2 ^ 52 ∧ k2 = Zpos m2)
    ∨ (-1074 ≤ e2 ≤ 971 ∧ 2 ^ 52 ≤ Zpos m2 < 2 ^ 53 ∧ k2 = (e2 + 1074) * 2 ^ 52 + Zpos m2)) →
  match e1 ?= e2 with Lt => Lt | Gt => Gt | Eq => Pos.compare_cont Eq m1 m2 end = (k1 ?= k2).
Proof.
  intros H1 H2. change (Pos.compare_cont Eq m1 m2) with (Zpos m1 ?= Zpos m2).
  destruct (Z.compare_spec e1 e2); symmetry.
  - subst e2. destruct (Z.compare_spec (Zpos m1) (Zpos m2));
      [apply Z.compare_eq_iff|apply Z.compare_lt_iff|apply Z.compare_gt_iff]; lia.
  - apply Z.compare_lt_iff. lia.
  - apply Z.compare_gt_iff. lia.
Qed.

Lemma f64_compare_key x y :
  SFcompare (f64_sf x) (f64_sf y)
  = if is_nan x || is_nan y then None else Some (f64_key x ?= f64_key y).
Proof.
  unfold f64_key.
  destruct (f64_sf_cases x) as [[-> ->]|[(-> & -> & _ & Hx)|[(-> & -> & _ & Hx)|(m1 & e1 & -> & -> & _ & Hx)]]];
  destruct (f64_sf_cases y) as [[-> ->]|[(-> & -> & _ & Hy)|[(-> & -> & _ & Hy)|(m2 & e2 & -> & -> & _ & Hy)]]];
  try done;
  destruct (f64_sign x), (f64_sign y); simpl; f_equal; symmetry;
  first [ by symmetry; apply SFcompare_finite_pos
        | rewrite <- (SFcompare_finite_pos _ _ _ _ _ _ Hx Hy);
          destruct (e1 ?= e2); simpl; idtac
        | idtac ];
  try (first [apply Z.compare_eq_iff; lia | apply Z.compare_lt_iff; lia | apply Z.compare_gt_iff; lia]).
  rewrite Z.compare_opp, Z.compare_antisym.
  rewrite <- (SFcompare_finite_pos _ _ _ _ _ _ Hx Hy). by destruct (e1 ?= e2).
Qed.

Lemma f64_ltb_key x y :
  f64_ltb x y = true ↔ is_nan x = false ∧ is_nan y = false ∧ f64_key x < f64_key y.
Proof.
  unfold f64_ltb, SFltb. rewrite f64_compare_key.
  destruct (is_nan x), (is_nan y); simpl; [intuition congruence..|].
  destruct (Z.compare_spec (f64_key x) (f64_key y)); intuition (congruence || lia).
Qed.

Lemma f64_leb_key x y :
  f64_leb x y = true ↔ is_nan x = false ∧ is_nan y = false ∧ f64_key x ≤ f64_key y.
Proof.
  unfold f64_leb, SFleb. rewrite f64_compare_key.
  destruct (is_nan x), (is_nan y); simpl; [intuition congruence..|].
  destruct (Z.compare_spec (f64_key x) (f64_key y)); intuition (congruence || lia).
Qed.

Lemma f64_eqb_key x y :
  f64_eqb x y = true ↔ is_nan x = false ∧ is_nan y = false ∧ f64_key x = f64_key y.
Proof.
  unfold f64_eqb, SFeqb. rewrite f64_compare_key.
  destruct (is_nan x), (is_nan y); simpl; [intuition congruence..|].
  destruct (Z.compare_spec (f64_key x) (f64_key y)); intuition (congruence || lia).
Qed.

(** On numbers the boolean comparisons are total. *)
Lemma f64_ltb_false x y :
  is_nan x = false → is_nan y = false → f64_ltb x y = false ↔ f64_key y ≤ f64_key x.
Proof.
  intros Hx Hy. rewrite (bool_false_iff _ _ (f64_ltb_key x y)). intuition lia.
Qed.

Lemma f64_leb_false x y :
  is_nan x = false → is_nan y = false → f64_leb x y = false ↔ f64_key y < f64_key x.
Proof.
  intros Hx Hy. rewrite (bool_false_iff _ _ (f64_leb_key x y)). intuition lia.
Qed.

Lemma f64_eqb_refl x : is_nan x = false → f64_eqb x x = true.
Proof. intros. by apply f64_eqb_key. Qed.

Lemma is_finite_not_nan x : is_finite x = true → is_nan x = false.
Proof. unfold is_finite, is_nan. by destruct (f64_expo x =? 2047). Qed.

Lemma f64_key_INFINITY : f64_key f64_INFINITY = 2047 * 2 ^ 52.
Proof. reflexivity. Qed.

Lemma f64_key_le_INFINITY x : is_nan x = false → f64_key x ≤ f64_key f64_INFINITY.
Proof.
  intros Hn. rewrite f64_key_INFINITY. unfold f64_key.
  destruct (f64_sf_cases x) as [[_ ?]|[(_ & _ & _ & ?)|[(_ & _ & _ & ?)|(m & e & _ & _ & _ & ?)]]];
    [congruence|..]; destruct (f64_sign x); lia.
Qed.

Lemma is_finite_key x :
  is_finite x = true → - f64_key f64_INFINITY < f64_key x < f64_key f64_INFINITY.
Proof.
  intros Hf. rewrite f64_key_INFINITY. unfold f64_key.
  destruct (f64_sf_cases x) as [[_ Hn]|[(_ & _ & ? & ?)|[(_ & _ & _ & ?)|(m & e & _ & _ & _ & ?)]]];
    [pose proof (is_finite_not_nan x Hf); congruence|congruence|..]; destruct (f64_sign x); lia.
Qed.

(** [f64_min] is the minimum by key, and never a NaN unless both are. *)
Lemma f64_min_nan x y : is_nan (f64_min x y) = is_nan x && is_nan y.
Proof.
  unfold f64_min. destruct (is_nan x) eqn:?, (is_nan y) eqn:?; simpl; try done.
  by destruct (f64_ltb y x).
Qed.

Lemma f64_min_key x y :
  is_nan x = false → is_nan y = false → f64_key (f64_min x y) = Z.min (f64_key x) (f64_key y).
Proof.
  intros Hx Hy. unfold f64_min. rewrite Hx, Hy.
  destruct (f64_ltb y x) eqn:E; [apply f64_ltb_key in E|apply f64_ltb_false in E; [|done..]]; lia.
Qed.

(** ** Wire round trip *)

Lemma f64_from_to_be_bytes x :
  u_in 64 (f64_bits x) → f64_from_be_bytes (f64_to_be_bytes x) = x.
Proof.
  intros H. destruct x as [b]. unfold f64_from_be_bytes, f64_to_be_bytes. f_equal.
  by apply (from_to_be_bytes_u 8).
Qed.

Lemma f64_to_from_be_bytes l : length l = 8%nat → f64_to_be_bytes (f64_from_be_bytes l) = l.
Proof. intros H. unfold f64_to_be_bytes. rewrite <- H. apply to_from_be_bytes. Qed.

Lemma f64_from_be_bytes_range l : length l = 8%nat → u_in 64 (f64_bits (f64_from_be_bytes l)).
Proof. intros H. simpl. pose proof (from_be_bytes_range l) as Hr. by rewrite H in Hr. Qed.

(** ** Decoding and encoding of the pattern are inverse on numbers *)

Lemma f64_mag_range x : 0 ≤ f64_mag x < 2 ^ 63.
Proof. apply Z.mod_pos_bound. done. Qed.

Lemma f64_bits_sign_mag x :
  u_in 64 (f64_bits x) → f64_bits x = sign_bit (f64_sign x) + f64_mag x.
Proof.
  intros [Hb1 Hb2]. unfold sign_bit, f64_sign, f64_mag.
  pose proof (Z.testbit_spec' (f64_bits x) 63 ltac:(lia)) as Ht.
  pose proof (Z.div_mod (f64_bits x) (2 ^ 63) ltac:(done)).
  assert (f64_bits x / 2 ^ 63 < 2) by (apply Z.div_lt_upper_bound; lia).
  assert (0 ≤ f64_bits x / 2 ^ 63) by (apply Z.div_pos; lia).
  rewrite Z.mod_small in Ht by lia.
  destruct (Z.testbit (f64_bits x) 63); simpl in Ht; lia.
Qed.

Lemma f64_of_sf_sf x :
  u_in 64 (f64_bits x) → is_nan x = false → f64_of_sf (f64_sf x) = x.
Proof.
  intros Hb Hn. pose proof (f64_bits_sign_mag x Hb) as Hmag.
  unfold f64_of_sf. destruct x as [b]. f_equal. simpl in Hmag.
  transitivity (sign_bit (f64_sign (F64 b)) + f64_mag (F64 b)); [|by symmetry]. clear Hmag.
  destruct (f64_sf_cases (F64 b)) as [[_ ?]|[(-> & _ & _ & ->)|[(-> & _ & _ & ->)|(m & e & -> & _ & _ & H)]]];
    [congruence|lia|lia|].
  destruct (Z.ltb_spec (Zpos m) (2 ^ 52)); lia.
Qed.

Example f64_add_1_2 :
  f64_add (F64 0x3FF0000000000000) (F64 0x4000000000000000) = F64 0x4008000000000000.
Proof. reflexivity. Qed.

Example f64_add_point1_point2 :
  f64_add (F64 0x3FB999999999999A) (F64 0x3FC999999999999A) = F64 0x3FD3333333333334.
Proof. reflexivity. Qed.

(** ** [total_cmp] agrees with the key and separates bit patterns *)

Lemma testbit_above m n i : 0 ≤ m < 2 ^ n → 0 ≤ n ≤ i → Z.testbit m i = false.
Proof.
  intros Hm Hi. destruct (decide (m = 0)) as [->|]; [apply Z.bits_0|].
  apply Z.bits_above_log2; [lia|]. apply Z.log2_lt_pow2; [lia|].
  apply Z.lt_le_trans with (2 ^ n); [lia|]. apply Z.pow_le_mono_r; lia.
Qed.

(** Flipping the low [n] bits. *)
Lemma lxor_ones m n : 0 ≤ n → 0 ≤ m < 2 ^ n → Z.lxor m (Z.ones n) = Z.ones n - m.
Proof.
  intros Hn Hm. symmetry. rewrite Z.sub_nocarry_ldiff.
  - apply Z.bits_inj'. intros i Hi. rewrite Z.ldiff_spec, Z.lxor_spec.
    destruct (decide (i < n)).
    + rewrite Z.ones_spec_low by lia. by destruct (Z.testbit m i).
    + rewrite Z.ones_spec_high, (testbit_above m n) by lia. done.
  - apply Z.bits_inj'. intros i Hi. rewrite Z.ldiff_spec, Z.bits_0.
    destruct (decide (i < n)).
    + rewrite Z.ones_spec_low by lia. by destruct (Z.testbit m i).
    + rewrite (testbit_above m n) by lia. done.
Qed.

Lemma total_key_spec x :
  u_in 64 (f64_bits x) →
  total_key x = if f64_sign x then - f64_mag x - 1 else f64_mag x.
Proof.
  intros Hb. pose proof (f64_bits_sign_mag x Hb) as Hs. pose proof (f64_mag_range x) as Hm.
  unfold total_key. unfold sign_bit in Hs. set (m := f64_mag x) in *. clearbody m.
  destruct (f64_sign x).
  - assert (Hw : wrap_s 64 (f64_bits x) = Z.lnot (Z.ones 63 - m)).
    { unfold wrap_s. replace (f64_bits x + 2 ^ (64 - 1)) with (m + 1 * 2 ^ 64) by lia.
      rewrite Z.mod_add, Z.mod_small by lia. unfold Z.lnot. change (Z.ones 63) with (2 ^ 63 - 1). lia. }
    rewrite Hw.
    assert (Z.shiftr (Z.lnot (Z.ones 63 - m)) 63 = -1) as ->.
    { rewrite Z.shiftr_div_pow2 by lia. symmetry. change (Z.ones 63) with (2 ^ 63 - 1).
      apply (Z.div_unique _ _ _ m); unfold Z.lnot; lia. }
    change (Z.shiftr (wrap_u 64 (-1)) 1) with (Z.ones 63).
    rewrite <- Z.lnot_lxor_l, lxor_ones by (change (Z.ones 63) with (2 ^ 63 - 1); lia).
    rewrite wrap_s_id; unfold Z.lnot, s_in; change (Z.ones 63) with (2 ^ 63 - 1); lia.
  - assert (wrap_s 64 (f64_bits x) = m) as -> by (rewrite wrap_s_id; unfold s_in; lia).
    assert (Z.shiftr m 63 = 0) as ->.
    { rewrite Z.shiftr_div_pow2 by lia. apply Z.div_small. lia. }
    change (Z.shiftr (wrap_u 64 0) 1) with 0. rewrite Z.lxor_0_r.
    apply wrap_s_id; unfold s_in; lia.
Qed.
