(* ===== verification/FloatAdd.v ===== *)
(** * Addition of binary64 numbers is monotone

    LBTS is a minimum of sums [current_time + lookahead]; that granting an
    advance never lowers it rests on the monotonicity of rounded addition.
    Finite numbers are integers in units of 2^-1074 ([val]).  The bit pattern
    of the number nearest to an integer [V], ties to even, has the magnitude
    [K V] below, whatever the operands; [f64_add_key] shows that the standard
    library's rounding computes exactly that, and [K] is monotone. *)

From Corelib Require Import SpecFloat.
From S2P Require Import Prelude Float64.

(** ** Rounding to nearest, ties to even *)

(** [m / 2^n] rounded. *)
Definition rne (m n : Z) : Z :=
  let q := m / 2 ^ n in
  match 2 * (m mod 2 ^ n) ?= 2 ^ n with
  | Lt => q
  | Eq => if Z.even q then q else q + 1
  | Gt => q + 1
  end.

(** Exponent (in units) at which [V] keeps 53 digits. *)
Definition fe (V : Z) : Z := Z.max (Z.log2 V + 1 - 53) 0.

Definition INF_MAG : Z := 2047 * 2 ^ 52.
Definition K (V : Z) : Z := Z.min (fe V * 2 ^ 52 + rne V (fe V)) INF_MAG.
Definition sgnK (v : Z) : Z := if v <? 0 then - K (- v) else K v.

Lemma rne_0 m : rne m 0 = m.
Proof. unfold rne. rewrite Z.pow_0_r, Z.mod_1_r, Z.div_1_r. done. Qed.

Lemma rne_bounds m n : 0 ≤ n → m / 2 ^ n ≤ rne m n ≤ m / 2 ^ n + 1.
Proof. intros Hn. unfold rne. destruct (_ ?= _); [destruct (Z.even _)|..]; lia. Qed.

Lemma rne_exact m n : 0 ≤ n → rne (m * 2 ^ n) n = m.
Proof.
  intros Hn. unfold rne. pose proof (Z.pow_pos_nonneg 2 n ltac:(lia) Hn).
  rewrite Z.mod_mul, Z.div_mul by lia. destruct (Z.compare_spec (2 * 0) (2 ^ n)); lia.
Qed.

Lemma rne_mono m m' n : 0 ≤ n → m ≤ m' → rne m n ≤ rne m' n.
Proof.
  intros Hn Hm. pose proof (Z.pow_pos_nonneg 2 n ltac:(lia) Hn) as Hp.
  pose proof (Z.div_le_mono _ _ (2 ^ n) Hp Hm) as Hq.
  destruct (Z.eq_dec (m / 2 ^ n) (m' / 2 ^ n)) as [He|He].
  - pose proof (Z.div_mod m (2 ^ n) ltac:(lia)). pose proof (Z.div_mod m' (2 ^ n) ltac:(lia)).
    assert (m mod 2 ^ n ≤ m' mod 2 ^ n) by nia. unfold rne. rewrite <- He.
    destruct (Z.compare_spec (2 * (m mod 2 ^ n)) (2 ^ n)),
      (Z.compare_spec (2 * (m' mod 2 ^ n)) (2 ^ n)); try lia; destruct (Z.even _); lia.
  - pose proof (rne_bounds m n Hn). pose proof (rne_bounds m' n Hn). lia.
Qed.

Lemma rne_scale m n k : 0 ≤ n → 0 ≤ k → rne (m * 2 ^ k) (n + k) = rne m n.
Proof.
  intros Hn Hk. unfold rne. pose proof (Z.pow_pos_nonneg 2 n ltac:(lia) Hn).
  pose proof (Z.pow_pos_nonneg 2 k ltac:(lia) Hk).
  rewrite Z.pow_add_r by lia. rewrite Z.div_mul_cancel_r, Zmult_mod_distr_r by lia.
  rewrite Z.mul_assoc, <- (Zmult_compare_compat_r (2 * (m mod 2 ^ n)) (2 ^ n) (2 ^ k)) by lia. done.
Qed.

(** ** [K] is monotone *)

Lemma log2_range V : 0 < V → 2 ^ Z.log2 V ≤ V < 2 ^ (Z.log2 V + 1).
Proof. intros HV. rewrite Z.add_1_r. by apply Z.log2_spec. Qed.

Lemma fe_nonneg V : 0 ≤ fe V.
Proof. unfold fe. lia. Qed.

(** The 53 digits kept of [V]. *)
Lemma fe_quotient V :
  0 < V → V / 2 ^ fe V < 2 ^ 53 ∧ (0 < fe V → 2 ^ 52 ≤ V / 2 ^ fe V).
Proof.
  intros HV. pose proof (log2_range V HV) as [H1 H2]. pose proof (fe_nonneg V) as Hfe.
  pose proof (Z.pow_pos_nonneg 2 (fe V) ltac:(lia) Hfe). split.
  - apply Z.div_lt_upper_bound; [done|]. rewrite <- Z.pow_add_r by lia.
    eapply Z.lt_le_trans; [apply H2|]. apply Z.pow_le_mono_r; unfold fe; lia.
  - intros Hp. apply Z.div_le_lower_bound; [done|]. rewrite <- Z.pow_add_r by lia.
    etransitivity; [|apply H1]. apply Z.pow_le_mono_r; unfold fe in *; lia.
Qed.

Lemma fe_mono V V' : V ≤ V' → fe V ≤ fe V'.
Proof. intros H. pose proof (Z.log2_le_mono _ _ H). unfold fe. lia. Qed.

Lemma rne_le_pow53 V : 0 < V → rne V (fe V) ≤ 2 ^ 53.
Proof.
  intros HV. pose proof (rne_bounds V (fe V) (fe_nonneg V)). pose proof (fe_quotient V HV). lia.
Qed.

Lemma K_mono V V' : 0 ≤ V → V ≤ V' → K V ≤ K V'.
Proof.
  intros HV Hle. unfold K. pose proof (fe_mono _ _ Hle) as Hfe. pose proof (fe_nonneg V).
  destruct (Z.eq_dec V 0) as [->|HV0].
  { change (fe 0) with 0. rewrite rne_0. pose proof (fe_nonneg V').
    pose proof (rne_bounds V' (fe V') (fe_nonneg V')).
    assert (0 ≤ V' / 2 ^ fe V') by (apply Z.div_pos; [lia|by apply Z.pow_pos_nonneg]).
    unfold INF_MAG. nia. }
  destruct (Z.eq_dec (fe V) (fe V')) as [He|He].
  - rewrite He. pose proof (rne_mono V V' (fe V') (fe_nonneg V') Hle). lia.
  - pose proof (rne_le_pow53 V ltac:(lia)). pose proof (fe_quotient V' ltac:(lia)) as [_ Hq].
    pose proof (rne_bounds V' (fe V') (fe_nonneg V')). specialize (Hq ltac:(lia)).
    assert ((fe V + 1) * 2 ^ 52 ≤ fe V' * 2 ^ 52) by nia. lia.
Qed.

Lemma K_0 : K 0 = 0.
Proof. reflexivity. Qed.

Lemma K_nonneg V : 0 ≤ V → 0 ≤ K V.
Proof. intros HV. rewrite <- K_0. by apply K_mono. Qed.

Lemma sgnK_mono v v' : v ≤ v' → sgnK v ≤ sgnK v'.
Proof.
  intros H. unfold sgnK. destruct (Z.ltb_spec v 0), (Z.ltb_spec v' 0); try lia.
  - pose proof (K_mono (- v') (- v) ltac:(lia) ltac:(lia)). lia.
  - pose proof (K_nonneg (- v) ltac:(lia)). pose proof (K_nonneg v' ltac:(lia)). lia.
  - apply K_mono; lia.
Qed.

(** ** The standard library's shift computes [rne] *)

Lemma digits2_pos_log2 p : Zpos (digits2_pos p) = Z.log2 (Zpos p) + 1.
Proof.
  induction p as [p IH|p IH|]; cbn [digits2_pos]; [| |done].
  - rewrite Pos2Z.inj_succ, IH, Pos2Z.inj_xI, Z.log2_succ_double by lia. lia.
  - rewrite Pos2Z.inj_succ, IH, Pos2Z.inj_xO, Z.log2_double by lia. lia.
Qed.

Lemma iter_pos_nat {A} (f : A → A) p x : SpecFloat.iter_pos f p x = Nat.iter (Pos.to_nat p) f x.
Proof.
  revert x. induction p as [p IH|p IH|]; intros x; cbn [SpecFloat.iter_pos]; [| |done].
  - rewrite !IH, Pos2Nat.inj_xI. rewrite <- Nat.iter_add.
    change (f x) with (Nat.iter 1 f x). rewrite <- Nat.iter_add. f_equal. lia.
  - rewrite !IH, Pos2Nat.inj_xO, <- Nat.iter_add. f_equal. lia.
Qed.

Lemma shr_1_spec m r s : 0 ≤ m →
  shr_1 {| shr_m := m; shr_r := r; shr_s := s |} =
    {| shr_m := m / 2; shr_r := Z.odd m; shr_s := r || s |}.
Proof.
  intros Hm. destruct m as [|p|p]; [done| |lia].
  destruct p as [p|p|]; simpl; [| |done]; f_equal; symmetry.
  - rewrite Pos2Z.inj_xI. symmetry. apply Z.div_unique with 1; lia.
  - rewrite Pos2Z.inj_xO. symmetry. apply Z.div_unique with 0; lia.
Qed.

Lemma shr_iter_spec m n : 0 ≤ m →
  Nat.iter (S n) shr_1 {| shr_m := m; shr_r := false; shr_s := false |} =
    {| shr_m := m / 2 ^ (Z.of_nat n + 1); shr_r := Z.odd (m / 2 ^ Z.of_nat n);
       shr_s := negb (m mod 2 ^ Z.of_nat n =? 0) |}.
Proof.
  intros Hm. induction n as [|n IH].
  - cbn [Nat.iter]. rewrite shr_1_spec by done.
    change (Z.of_nat 0) with 0. rewrite Z.pow_0_r, Z.mod_1_r, Z.div_1_r. done.
  - rewrite Nat.iter_succ, IH. pose proof (Z.pow_pos_nonneg 2 (Z.of_nat n) ltac:(lia) ltac:(lia)) as Hp.
    rewrite shr_1_spec by (apply Z.div_pos; [done|]; apply Z.pow_pos_nonneg; lia).
    rewrite Nat2Z.inj_succ, <- Z.add_1_r.
    rewrite !Z.pow_add_r, Z.pow_1_r by lia.
    rewrite (Z.div_div _ _ 2) by lia.
    f_equal. rewrite (Z.rem_mul_r m (2 ^ Z.of_nat n)) by lia.
    pose proof (Z.mod_pos_bound m (2 ^ Z.of_nat n) Hp).
    rewrite (Zmod_odd (m / 2 ^ Z.of_nat n)).
    destruct (Z.odd (m / 2 ^ Z.of_nat n)), (Z.eqb_spec (m mod 2 ^ Z.of_nat n) 0); simpl;
      symmetry; rewrite ?negb_true_iff, ?negb_false_iff, ?Z.eqb_eq, ?Z.eqb_neq; lia.
Qed.

(** Shift by [n], then round by the location bits: [rne]. *)
Lemma shr_round m n e : 0 ≤ m → 0 ≤ n →
  let '(mrs, e') := shr {| shr_m := m; shr_r := false; shr_s := false |} e n in
  round_nearest_even (shr_m mrs) (loc_of_shr_record mrs) = rne m n ∧ e' = e + n.
Proof.
  intros Hm Hn. destruct n as [|p|p]; simpl; [rewrite rne_0; split; [done|lia]| |lia].
  split; [|done]. rewrite iter_pos_nat.
  destruct (Pos2Nat.is_succ p) as [k Hk]. rewrite Hk, shr_iter_spec by done.
  assert (Hp : Zpos p = Z.of_nat k + 1) by lia. rewrite Hp. simpl shr_m.
  unfold rne. pose proof (Z.pow_pos_nonneg 2 (Z.of_nat k) ltac:(lia) ltac:(lia)) as Hk2.
  set (h := 2 ^ Z.of_nat k) in *.
  assert (Hpow : 2 ^ (Z.of_nat k + 1) = h * 2) by (rewrite Z.pow_add_r by lia; done).
  rewrite Hpow, (Z.rem_mul_r m h 2) by lia. rewrite (Zmod_odd (m / h)).
  pose proof (Z.mod_pos_bound m h Hk2).
  destruct (Z.odd (m / h)), (Z.eqb_spec (m mod h) 0); simpl;
    match goal with |- context [?a ?= ?b] => destruct (Z.compare_spec a b) end; try lia.
Qed.

(** ** Sign, magnitude and class of a pattern given by them *)

Lemma f64_sign_mag_bits s mag : 0 ≤ mag < 2 ^ 63 →
  f64_key (F64 (sign_bit s + mag)) = (if s then - mag else mag).
Proof.
  intros Hm. unfold f64_key, f64_sign, f64_mag. simpl f64_bits.
  assert (Ht : Z.testbit (sign_bit s + mag) 63 = s).
  { rewrite Z.testbit_eqb by lia. unfold sign_bit. destruct s.
    - rewrite <- (Z.mul_1_l (2 ^ 63)), Z.div_add_l, Z.div_small by lia. done.
    - by rewrite Z.add_0_l, Z.div_small by lia. }
  rewrite Ht. unfold sign_bit. destruct s.
  - rewrite <- (Z.mul_1_l (2 ^ 63)), Z.add_comm, Z.mod_add, Z.mod_small by lia. done.
  - by rewrite Z.mod_small by lia.
Qed.

Lemma f64_mag_not_nan x : f64_mag x ≤ INF_MAG → is_nan x = false.
Proof.
  unfold INF_MAG. rewrite f64_mag_fields. unfold is_nan. pose proof (f64_mant_range x).
  destruct (Z.eqb_spec (f64_expo x) 2047), (Z.eqb_spec (f64_mant x) 0); simpl; try done. lia.
Qed.

Lemma f64_key_not_nan x : - INF_MAG ≤ f64_key x ≤ INF_MAG → is_nan x = false.
Proof.
  intros H. apply f64_mag_not_nan. unfold f64_key in H. pose proof (f64_mag_range x).
  destruct (f64_sign x); lia.
Qed.

(** ** Rounding a positive mantissa *)

Lemma shl_align_value m e e' mz ez :
  shl_align m e e' = (mz, ez) →
  ez = Z.min e e' ∧ Zpos mz = Zpos m * 2 ^ (e - ez).
Proof.
  unfold shl_align. destruct (e' - e) as [|d|d] eqn:Hd; intros [= <- <-].
  1,2: split; [lia|]; rewrite Z.sub_diag; lia.
  split; [lia|]. replace (e - e') with (Zpos d) by lia.
  clear. induction d as [|d IH] using Pos.peano_ind; [simpl; lia|].
  rewrite Pos.iter_succ, Pos2Z.inj_xO, IH, Pos2Z.inj_succ, Z.pow_succ_r by lia. lia.
Qed.

Lemma log2_scale m k : 0 < m → 0 ≤ k → Z.log2 (m * 2 ^ k) = Z.log2 m + k.
Proof. intros. rewrite Z.log2_mul_pow2 by done. lia. Qed.

(** The second normalisation: a mantissa of at most 53 digits stays, 2^53
    becomes 2^52 one exponent higher. *)
Lemma renormalize R e mrs e'' :
  0 < R ≤ 2 ^ 53 → -1074 ≤ e →
  shr_fexp 53 1024 R e loc_Exact = (mrs, e'') →
  (R < 2 ^ 53 ∧ shr_m mrs = R ∧ e'' = e) ∨ (R = 2 ^ 53 ∧ shr_m mrs = 2 ^ 52 ∧ e'' = e + 1).
Proof.
  intros HR He. unfold shr_fexp. cbn [shr_record_of_loc].
  destruct R as [|p|p]; [lia| |lia]. cbn [Zdigits2]. rewrite digits2_pos_log2.
  unfold fexp, emin. destruct (Z.eq_dec (Zpos p) (2 ^ 53)) as [Hp|Hp].
  - rewrite Hp. change (Z.log2 (2 ^ 53)) with 53.
    replace (Z.max (53 + 1 + e - 53) (3 - 1024 - 53) - e) with 1 by lia.
    intros [= <- <-]. right. split_and!; [done|reflexivity|done].
  - assert (Z.log2 (Zpos p) < 53) by (apply Z.log2_lt_pow2; lia).
    assert (Hn : Z.max (Z.log2 (Zpos p) + 1 + e - 53) (3 - 1024 - 53) - e ≤ 0) by lia.
    destruct (Z.max _ _ - e); [|lia|]; intros [= <- <-]; left; split_and!; simpl; lia.
Qed.

(** Where the exponent of the result lies. *)
Lemma round_exponent m e :
  -1074 ≤ e → fexp 53 1024 (Zpos (digits2_pos m) + e) + 1074 = fe (Zpos m * 2 ^ (e + 1074)).
Proof.
  intros He. unfold fexp, emin, fe. rewrite digits2_pos_log2, log2_scale by lia. lia.
Qed.

Lemma rne_fe_pos V : 0 < V → 0 < rne V (fe V).
Proof.
  intros HV. pose proof (rne_bounds V (fe V) (fe_nonneg V)).
  pose proof (fe_quotient V HV) as [_ Hq]. pose proof (fe_nonneg V).
  destruct (Z.eq_dec (fe V) 0) as [Hz|Hz]; [rewrite Hz, rne_0; done|].
  specialize (Hq ltac:(lia)). lia.
Qed.

(** The pattern of a rounded mantissa [R] at exponent [F] (in units). *)
Lemma pattern_of_round s R F :
  0 < R → 0 ≤ F → (R < 2 ^ 52 → F = 0) → R < 2 ^ 53 →
  f64_of_sf (if F - 1074 <=? 971 then S754_finite s (Z.to_pos R) (F - 1074) else S754_infinity s) =
    F64 (sign_bit s + Z.min (F * 2 ^ 52 + R) INF_MAG).
Proof.
  intros HR HF Hsub Hlt. unfold INF_MAG.
  destruct (Z.leb_spec (F - 1074) 971); unfold f64_of_sf; f_equal.
  - rewrite Z2Pos.id by lia. destruct (Z.ltb_spec R (2 ^ 52)).
    + rewrite (Hsub ltac:(done)). lia.
    + rewrite Z.min_l by lia. lia.
  - rewrite Z.min_r; [lia|]. assert (2 ^ 52 ≤ R) by lia. lia.
Qed.

Lemma binary_round_key s m e : -1074 ≤ e →
  f64_of_sf (binary_round 53 1024 s m e) =
    F64 (sign_bit s + K (Zpos m * 2 ^ (e + 1074))).
Proof.
  intros He. set (V := Zpos m * 2 ^ (e + 1074)).
  assert (HV : 0 < V) by (unfold V; pose proof (Z.pow_pos_nonneg 2 (e + 1074) ltac:(lia) ltac:(lia)); nia).
  unfold binary_round. set (ef := fexp 53 1024 (Zpos (digits2_pos m) + e)).
  assert (Hef : ef + 1074 = fe V) by (by apply round_exponent).
  destruct (shl_align m e ef) as [mz ez] eqn:Ha. apply shl_align_value in Ha as [Hez Hmz].
  pose proof (fe_nonneg V) as Hfe0.
  assert (HVz : V = Zpos mz * 2 ^ (ez + 1074)).
  { unfold V. rewrite Hmz, <- Z.mul_assoc, <- Z.pow_add_r by lia. do 2 f_equal. lia. }
  unfold binary_round_aux. unfold shr_fexp at 1. cbn [shr_record_of_loc Zdigits2].
  assert (Hef' : fexp 53 1024 (Zpos (digits2_pos mz) + ez) = ef).
  { pose proof (round_exponent mz ez ltac:(lia)) as H. rewrite <- HVz in H. lia. }
  rewrite Hef'. pose proof (shr_round (Zpos mz) (ef - ez) ez ltac:(lia) ltac:(lia)) as Hs.
  destruct (shr _ ez (ef - ez)) as [mrs e']. destruct Hs as [-> ->].
  replace (ez + (ef - ez)) with ef by lia.
  assert (HR : rne (Zpos mz) (ef - ez) = rne V (fe V)).
  { rewrite <- Hef, HVz. replace (ef + 1074) with (ef - ez + (ez + 1074)) by lia.
    symmetry. apply rne_scale; lia. }
  rewrite HR. unfold K. clear Hmz HVz Hef' HR mz Hez.
  pose proof (rne_fe_pos V HV) as HR0. pose proof (rne_le_pow53 V HV) as HR1.
  assert (Hsub : rne V (fe V) < 2 ^ 52 → fe V = 0).
  { intros H. pose proof (fe_quotient V HV) as [_ Hq]. pose proof (rne_bounds V (fe V) Hfe0).
    destruct (Z.eq_dec (fe V) 0); [done|]. specialize (Hq ltac:(lia)). lia. }
  destruct (shr_fexp 53 1024 (rne V (fe V)) ef loc_Exact) as [mrs'' e''] eqn:Hr.
  apply renormalize in Hr; [|lia|lia]. destruct Hr as [(Hlt & -> & ->)|(Heq & -> & ->)].
  - rewrite <- (pattern_of_round s) by lia. replace ef with (fe V - 1074) by lia.
    destruct (rne V (fe V)) as [|p|p]; [lia| |lia]. done.
  - rewrite Heq. replace (fe V * 2 ^ 52 + 2 ^ 53) with ((fe V + 1) * 2 ^ 52 + 2 ^ 52) by lia.
    rewrite <- (pattern_of_round s) by lia. replace (ef + 1) with (fe V + 1 - 1074) by lia. done.
Qed.

(** ** Values *)

(** The value of a finite number, in units of 2^-1074. *)
Definition val (x : f64) : Z :=
  match f64_sf x with
  | S754_finite s m e => cond_Zopp s (Zpos m * 2 ^ (e + 1074))
  | _ => 0
  end.

Lemma K_bound V : 0 ≤ V → 0 ≤ K V ≤ INF_MAG.
Proof. intros HV. split; [by apply K_nonneg|]. unfold K. lia. Qed.

Lemma key_of_signed_K s V : 0 < V →
  f64_key (F64 (sign_bit s + K V)) = sgnK (cond_Zopp s V).
Proof.
  intros HV. pose proof (K_bound V ltac:(lia)) as Hb. unfold INF_MAG in Hb.
  rewrite f64_sign_mag_bits by lia. unfold sgnK, cond_Zopp. destruct s.
  - destruct (Z.ltb_spec (- V) 0); [|lia]. by rewrite Z.opp_involutive.
  - destruct (Z.ltb_spec V 0); [lia|done].
Qed.

(** A finite number is its own rounding. *)
Lemma f64_key_val x : is_finite x = true → f64_key x = sgnK (val x).
Proof.
  intros Hf. unfold val, f64_key.
  destruct (f64_sf_cases x) as [[_ Hn]|[(_ & _ & ? & _)|[(-> & _ & _ & ->)|(m & e & -> & _ & _ & Hm)]]];
    [pose proof (is_finite_not_nan x Hf); congruence|congruence|by destruct (f64_sign x)|].
  assert (HK : f64_mag x = K (Zpos m * 2 ^ (e + 1074))).
  { unfold K, INF_MAG, fe. destruct Hm as [(-> & Hlt & ->)|(He & Hr & ->)].
    - change (-1074 + 1074) with 0. rewrite Z.pow_0_r, Z.mul_1_r.
      assert (Z.log2 (Zpos m) < 52) by (apply Z.log2_lt_pow2; lia).
      rewrite Z.max_r by lia. rewrite rne_0. lia.
    - rewrite log2_scale by lia.
      assert (Hl : Z.log2 (Zpos m) = 52) by (apply Z.log2_unique; lia). rewrite Hl.
      rewrite Z.max_l by lia. replace (52 + (e + 1074) + 1 - 53) with (e + 1074) by lia.
      rewrite rne_exact by lia. lia. }
  pose proof (Z.pow_pos_nonneg 2 (e + 1074) ltac:(lia) ltac:(lia)) as Hp.
  unfold sgnK, cond_Zopp. rewrite HK. destruct (f64_sign x).
  - destruct (Z.ltb_spec (- (Zpos m * 2 ^ (e + 1074))) 0); [|nia]. by rewrite Z.opp_involutive.
  - destruct (Z.ltb_spec (Zpos m * 2 ^ (e + 1074)) 0); [nia|done].
Qed.

Lemma shl_align_min_value m e e' :
  Zpos (fst (shl_align m e (Z.min e e'))) = Zpos m * 2 ^ (e - Z.min e e').
Proof.
  destruct (shl_align m e (Z.min e e')) as [mz ez] eqn:H. apply shl_align_value in H as [-> H].
  simpl. rewrite H. do 2 f_equal. lia.
Qed.

Lemma normalize_key M e : -1074 ≤ e →
  f64_key (f64_of_sf (binary_normalize 53 1024 M e false)) = sgnK (M * 2 ^ (e + 1074)).
Proof.
  intros He. pose proof (Z.pow_pos_nonneg 2 (e + 1074) ltac:(lia) ltac:(lia)).
  destruct M as [|p|p]; cbn [binary_normalize]; [done| |].
  - rewrite binary_round_key, key_of_signed_K by (done || nia). done.
  - rewrite binary_round_key, key_of_signed_K by (done || nia). simpl cond_Zopp.
    by rewrite <- Z.mul_opp_l.
Qed.

Lemma f64_of_sf_key x : is_nan x = false → f64_key (f64_of_sf (f64_sf x)) = f64_key x.
Proof.
  intros Hn. unfold f64_key at 2. unfold f64_of_sf.
  destruct (f64_sf_cases x) as [[_ ?]|[(-> & _ & _ & ->)|[(-> & _ & _ & ->)|(m & e & -> & _ & _ & H)]]];
    [congruence| | |].
  - by rewrite f64_sign_mag_bits by lia.
  - rewrite <- (Z.add_0_r (sign_bit _)). by rewrite f64_sign_mag_bits by lia.
  - pose proof (f64_mag_range x).
    replace (if Zpos m <? 2 ^ 52 then _ else _) with (sign_bit (f64_sign x) + f64_mag x).
    + by rewrite f64_sign_mag_bits.
    + destruct (Z.ltb_spec (Zpos m) (2 ^ 52)); lia.
Qed.

(** The sum of two finite numbers is the number nearest to the exact sum. *)
Lemma f64_add_key x y : is_finite x = true → is_finite y = true →
  f64_key (f64_add x y) = sgnK (val x + val y).
Proof.
  intros Hx Hy. unfold f64_add. pose proof (f64_key_val x Hx) as Kx. pose proof (f64_key_val y Hy) as Ky.
  pose proof (f64_of_sf_key x (is_finite_not_nan x Hx)) as Sx.
  pose proof (f64_of_sf_key y (is_finite_not_nan y Hy)) as Sy.
  unfold val in *.
  destruct (f64_sf_cases x) as [[_ Hn]|[(_ & _ & ? & _)|[(Ex & _ & _ & _)|(mx & ex & Ex & _ & _ & Hmx)]]];
    [pose proof (is_finite_not_nan x Hx); congruence|congruence|..];
  (destruct (f64_sf_cases y) as [[_ Hn]|[(_ & _ & ? & _)|[(Ey & _ & _ & _)|(my & ey & Ey & _ & _ & Hmy)]]];
    [pose proof (is_finite_not_nan y Hy); congruence|congruence|..]);
  rewrite Ex, Ey in *; cbn [SFadd].
  - by destruct (f64_sign x), (f64_sign y).
  - by rewrite Z.add_0_l, <- Ky.
  - by rewrite Z.add_0_r, <- Kx.
  - rewrite normalize_key by lia. f_equal.
    rewrite shl_align_min_value, Z.min_comm, shl_align_min_value, (Z.min_comm ey ex).
    assert (Hez : -1074 ≤ Z.min ex ey ∧ Z.min ex ey ≤ ex ∧ Z.min ex ey ≤ ey) by lia.
    generalize dependent (Z.min ex ey). intros ez Hez. rewrite Z.mul_add_distr_r. unfold cond_Zopp.
    replace (ex + 1074) with (ex - ez + (ez + 1074)) by lia.
    replace (ey + 1074) with (ey - ez + (ez + 1074)) by lia.
    rewrite (Z.pow_add_r 2 (ex - ez)), (Z.pow_add_r 2 (ey - ez)) by lia.
    destruct (f64_sign x), (f64_sign y); lia.
Qed.

(** ** What the time code relies on *)

Lemma f64_add_not_nan x y : is_finite x = true → is_finite y = true → is_nan (f64_add x y) = false.
Proof.
  intros Hx Hy. apply f64_key_not_nan. rewrite f64_add_key by done. unfold sgnK.
  destruct (Z.ltb_spec (val x + val y) 0).
  - pose proof (K_bound (- (val x + val y)) ltac:(lia)). lia.
  - pose proof (K_bound (val x + val y) ltac:(lia)). unfold INF_MAG in *. lia.
Qed.

(** The value is determined by the key. *)
Lemma f64_mag_val x y :
  is_finite x = true → is_finite y = true → f64_key x = f64_key y → val x = val y.
Proof.
  intros Hx Hy. unfold f64_key, val.
  destruct (f64_sf_cases x) as [[_ Hn]|[(_ & _ & ? & _)|[(-> & _ & _ & ->)|(mx & ex & -> & _ & _ & Hmx)]]];
    [pose proof (is_finite_not_nan x Hx); congruence|congruence|..];
  (destruct (f64_sf_cases y) as [[_ Hn]|[(_ & _ & ? & _)|[(-> & _ & _ & ->)|(my & ey & -> & _ & _ & Hmy)]]];
    [pose proof (is_finite_not_nan y Hy); congruence|congruence|..]);
  try (destruct (f64_sign x), (f64_sign y); lia).
  intros Hk. assert (f64_sign x = f64_sign y ∧ Zpos mx = Zpos my ∧ ex = ey) as (-> & -> & ->); [|done].
  destruct (f64_sign x), (f64_sign y); lia.
Qed.

Lemma val_mono x y :
  is_finite x = true → is_finite y = true → f64_key x ≤ f64_key y → val x ≤ val y.
Proof.
  intros Hx Hy Hk. destruct (Z.le_gt_cases (val x) (val y)) as [|Hlt]; [done|].
  pose proof (sgnK_mono (val y) (val x) ltac:(lia)) as Hs.
  rewrite <- !f64_key_val in Hs by done.
  rewrite (f64_mag_val x y) by (done || lia). lia.
Qed.

(** Addition of a fixed number is monotone. *)
Lemma f64_add_mono x y d :
  is_finite x = true → is_finite y = true → is_finite d = true →
  f64_key x ≤ f64_key y → f64_key (f64_add x d) ≤ f64_key (f64_add y d).
Proof.
  intros Hx Hy Hd Hk. rewrite !f64_add_key by done. apply sgnK_mono.
  pose proof (val_mono x y Hx Hy Hk). lia.
Qed.

(** Adding a non-negative number does not lower. *)
Lemma f64_add_nonneg x d :
  is_finite x = true → is_finite d = true → 0 ≤ f64_key d → f64_key x ≤ f64_key (f64_add x d).
Proof.
  intros Hx Hd Hk. rewrite f64_add_key, (f64_key_val x) by done. apply sgnK_mono.
  pose proof (val_mono f64_ZERO d eq_refl Hd Hk) as Hv. change (val f64_ZERO) with 0 in Hv. lia.
Qed.
