(* ===== verification/Encoding.v ===== *)
(** * hla-encoding: data types on the wire

    [hla-encoding/src/lib.rs]: the trait [DataElement] and its nine
    implementations.  The trait is the class [DataElement]; what a user of it
    relies on is [DataElementLaws], which every implementation satisfies.  A
    Rust [String] is the list of its Unicode scalar values; an [f32] or [f64]
    is its bit pattern.  [usize] is 64 bits wide. *)

From S2P Require Import Prelude Float64.

Inductive EncodingError :=
| Truncated (needed had : Z)
| Invalid (what : string)
| Utf16.

(** [encode_into(&self, &mut buf)] returns the new contents of [buf]. *)
Class DataElement (A : Type) := {
  octet_boundary : A → Z;
  encoded_length : A → Z;
  encode_into : A → list byte → list byte;
  decode_from : list byte → result EncodingError (A * Z)
}.

Definition to_bytes {A} `{DataElement A} (v : A) : list byte := encode_into v [].

(** ** Primitives *)

(** The macro [impl_be_primitive!($name, $inner, $bytes)]: [new] and [inner]
    wrap and unwrap the bit pattern or integer. *)
Definition be_primitive {A} (bytes : nat) (inner : A → Z) (new : list byte → A) : DataElement A := {|
  octet_boundary := λ _, Z.of_nat bytes;
  encoded_length := λ _, Z.of_nat bytes;
  encode_into := λ v buf, buf ++ to_be_bytes bytes (inner v);
  decode_from := λ buf,
    if (length buf <? bytes)%nat then Err (Truncated (Z.of_nat bytes) (Z.of_nat (length buf)))
    else Ok (new (take bytes buf), Z.of_nat bytes)
|}.

Record HLAinteger16BE := mkHLAinteger16BE { i16_val : Z }.
Record HLAinteger32BE := mkHLAinteger32BE { i32_val : Z }.
Record HLAinteger64BE := mkHLAinteger64BE { i64_val : Z }.
Record HLAfloat32BE := mkHLAfloat32BE { f32_bits : Z }.
Record HLAfloat64BE := mkHLAfloat64BE { f64_val : f64 }.

#[export] Instance HLAinteger16BE_element : DataElement HLAinteger16BE :=
  be_primitive 2 i16_val (λ l, mkHLAinteger16BE (from_be_bytes_signed l)).
#[export] Instance HLAinteger32BE_element : DataElement HLAinteger32BE :=
  be_primitive 4 i32_val (λ l, mkHLAinteger32BE (from_be_bytes_signed l)).
#[export] Instance HLAinteger64BE_element : DataElement HLAinteger64BE :=
  be_primitive 8 i64_val (λ l, mkHLAinteger64BE (from_be_bytes_signed l)).
#[export] Instance HLAfloat32BE_element : DataElement HLAfloat32BE :=
  be_primitive 4 f32_bits (λ l, mkHLAfloat32BE (from_be_bytes l)).
#[export] Instance HLAfloat64BE_element : DataElement HLAfloat64BE :=
  be_primitive 8 (λ v, f64_bits (f64_val v)) (λ l, mkHLAfloat64BE (f64_from_be_bytes l)).

Record HLAoctet := mkHLAoctet { octet_val : byte }.
#[export] Instance HLAoctet_element : DataElement HLAoctet := {|
  octet_boundary := λ _, 1;
  encoded_length := λ _, 1;
  encode_into := λ v buf, buf ++ [octet_val v];
  decode_from := λ buf, match buf with [] => Err (Truncated 1 0) | b :: _ => Ok (mkHLAoctet b, 1) end
|}.

Record HLAboolean := mkHLAboolean { bool_val : bool }.
#[export] Instance HLAboolean_element : DataElement HLAboolean := {|
  octet_boundary := λ _, 4;
  encoded_length := λ _, 4;
  encode_into := λ v buf, buf ++ to_be_bytes 4 (if bool_val v then 1 else 0);
  decode_from := λ buf,
    p ← decode_from (A := HLAinteger32BE) buf;
    Ok (mkHLAboolean (negb (i32_val p.1 =? 0)), p.2)
|}.

(** ** Strings *)

(** A Unicode scalar value: Rust's [char]. *)
Definition is_scalar (c : Z) : bool := ((0 <=? c) && (c <? 0xD800)) || ((0xE000 <=? c) && (c <? 0x110000)).

(** [str::encode_utf16] *)
Definition encode_utf16_char (c : Z) : list Z :=
  if c <? 0x10000 then [c]
  else [0xD800 + (c - 0x10000) / 0x400; 0xDC00 + (c - 0x10000) mod 0x400].
Definition encode_utf16 (s : list Z) : list Z := s ≫= encode_utf16_char.

Definition is_surrogate (u : Z) : bool := (0xD800 <=? u) && (u <? 0xE000).
Definition is_high (u : Z) : bool := (0xD800 <=? u) && (u <? 0xDC00).
Definition is_low (u : Z) : bool := (0xDC00 <=? u) && (u <? 0xE000).

(** [char::decode_utf16(units).collect::<Result<String, _>>()] *)
Fixpoint decode_utf16 (units : list Z) : option (list Z) :=
  match units with
  | [] => Some []
  | u :: rest =>
      if is_surrogate u then
        if is_high u then
          match rest with
          | u2 :: rest' =>
              if is_low u2 then
                s ← decode_utf16 rest';
                Some (0x10000 + (u - 0xD800) * 0x400 + (u2 - 0xDC00) :: s)
              else None
          | [] => None
          end
        else None
      else s ← decode_utf16 rest; Some (u :: s)
  end.

Record HLAunicodeString := mkHLAunicodeString { unicode_chars : list Z }.

(** [(0..n).map(|i| u16::from_be_bytes([buf[4 + 2 * i], buf[5 + 2 * i]]))] *)
Definition units_of (n : nat) (buf : list byte) : list Z :=
  (λ i, from_be_bytes (take 2 (drop (4 + 2 * i) buf))) <$> seq 0 n.

#[export] Instance HLAunicodeString_element : DataElement HLAunicodeString := {|
  octet_boundary := λ _, 4;
  encoded_length := λ v, 4 + Z.of_nat (length (encode_utf16 (unicode_chars v))) * 2;
  encode_into := λ v buf,
    let utf16 := encode_utf16 (unicode_chars v) in
    buf ++ to_be_bytes 4 (wrap_u 32 (Z.of_nat (length utf16))) ++ (utf16 ≫= to_be_bytes 2);
  decode_from := λ buf,
    if (length buf <? 4)%nat then Err (Truncated 4 (Z.of_nat (length buf)))
    else
      let n := from_be_bytes (take 4 buf) in
      let need := 4 + n * 2 in
      if Z.of_nat (length buf) <? need then Err (Truncated need (Z.of_nat (length buf)))
      else
        s ← ok_or (decode_utf16 (units_of (Z.to_nat n) buf)) Utf16;
        Ok (mkHLAunicodeString s, need)
|}.

Record HLAopaqueData := mkHLAopaqueData { opaque_bytes : list byte }.

#[export] Instance HLAopaqueData_element : DataElement HLAopaqueData := {|
  octet_boundary := λ _, 4;
  encoded_length := λ v, 4 + Z.of_nat (length (opaque_bytes v));
  encode_into := λ v buf,
    buf ++ to_be_bytes 4 (wrap_u 32 (Z.of_nat (length (opaque_bytes v)))) ++ opaque_bytes v;
  decode_from := λ buf,
    if (length buf <? 4)%nat then Err (Truncated 4 (Z.of_nat (length buf)))
    else
      let n := from_be_bytes (take 4 buf) in
      let need := 4 + n in
      if Z.of_nat (length buf) <? need then Err (Truncated need (Z.of_nat (length buf)))
      else Ok (mkHLAopaqueData (drop 4 (take (Z.to_nat need) buf)), need)
|}.

(** ** The contract of the trait

    [valid v]: [v] is a value of its Rust type, of a length that its 32-bit
    length field can hold. *)
Class DataElementLaws (A : Type) `{DataElement A} (valid : A → Prop) : Prop := {
  del_appends v buf : encode_into v buf = buf ++ to_bytes v;
  del_length v : valid v → Z.of_nat (length (to_bytes v)) = encoded_length v;
  del_roundtrip v rest : valid v → decode_from (to_bytes v ++ rest) = Ok (v, encoded_length v);
  del_decoded buf v n : decode_from buf = Ok (v, n) → valid v ∧ n = encoded_length v ∧ n ≤ Z.of_nat (length buf);
  del_truncated v k : valid v → (k < length (to_bytes v))%nat →
    ∃ needed, decode_from (take k (to_bytes v)) = Err (Truncated needed (Z.of_nat k))
}.

(** Elements that accept only what they write. *)
Class Canonical (A : Type) `{DataElement A} : Prop :=
  canonical buf v n : decode_from buf = Ok (v, n) → take (Z.to_nat n) buf = to_bytes v.

(** ** The primitives satisfy it *)

Section primitive.
Context {A : Type} (bytes : nat) (inner : A → Z) (new : list byte → A) (valid : A → Prop).
Context (Hnew : ∀ v, valid v → new (to_be_bytes bytes (inner v)) = v).
Context (Hvalid : ∀ l, length l = bytes → valid (new l)).
Context (Hinner : ∀ l, length l = bytes → to_be_bytes bytes (inner (new l)) = l).

Lemma be_primitive_laws : DataElementLaws A (H := be_primitive bytes inner new) valid.
Proof.
  split; unfold to_bytes; simpl.
  - done.
  - intros v _. by rewrite length_to_be_bytes.
  - intros v rest Hv. rewrite length_app, length_to_be_bytes.
    destruct (Nat.ltb_spec (bytes + length rest) bytes); [lia|].
    rewrite take_app_length' by by rewrite length_to_be_bytes. by rewrite Hnew.
  - intros buf v n. destruct (Nat.ltb_spec (length buf) bytes); [done|]. intros [= <- <-].
    split_and!; [apply Hvalid; rewrite length_take; lia|done|lia].
  - intros v k Hv. rewrite length_take, length_to_be_bytes. intros Hk.
    destruct (Nat.ltb_spec (k `min` bytes) bytes); [|lia]. rewrite Nat.min_l by lia. eauto.
Qed.

Lemma be_primitive_canonical : Canonical A (H := be_primitive bytes inner new).
Proof.
  intros buf v n. unfold to_bytes; simpl. destruct (Nat.ltb_spec (length buf) bytes); [done|].
  intros [= <- <-]. rewrite Nat2Z.id, Hinner; [done|]. rewrite length_take. lia.
Qed.
End primitive.

Lemma from_be_bytes_signed_range l : (0 < length l)%nat → s_in (8 * Z.of_nat (length l)) (from_be_bytes_signed l).
Proof. intros Hl. apply wrap_s_range. lia. Qed.
Lemma from_be_bytes_u_in l : u_in (8 * Z.of_nat (length l)) (from_be_bytes l).
Proof. unfold u_in. rewrite <- pow256_pow2. apply from_be_bytes_range. Qed.

(** Integers: [mk] and [inner] are the constructor and field of a newtype. *)
Section integer.
Context {A : Type} (bytes : nat) (inner : A → Z) (mk : Z → A).
Context (Hmk : ∀ v, mk (inner v) = v) (Hinner : ∀ z, inner (mk z) = z) (Hbytes : (0 < bytes)%nat).

Lemma be_signed_laws :
  DataElementLaws A (H := be_primitive bytes inner (λ l, mk (from_be_bytes_signed l)))
    (λ v, s_in (8 * Z.of_nat bytes) (inner v)) ∧
  Canonical A (H := be_primitive bytes inner (λ l, mk (from_be_bytes_signed l))).
Proof using Hmk Hinner Hbytes.
  split; [apply be_primitive_laws|apply be_primitive_canonical].
  - intros v Hv. by rewrite from_to_be_bytes_s.
  - intros l Hl. rewrite Hinner, <- Hl. apply from_be_bytes_signed_range. lia.
  - intros l Hl. rewrite Hinner, <- Hl. apply to_from_be_bytes_signed. lia.
Qed.

Lemma be_unsigned_laws :
  DataElementLaws A (H := be_primitive bytes inner (λ l, mk (from_be_bytes l)))
    (λ v, u_in (8 * Z.of_nat bytes) (inner v)) ∧
  Canonical A (H := be_primitive bytes inner (λ l, mk (from_be_bytes l))).
Proof using Hmk Hinner Hbytes.
  split; [apply be_primitive_laws|apply be_primitive_canonical].
  - intros v Hv. by rewrite from_to_be_bytes_u.
  - intros l Hl. rewrite Hinner, <- Hl. apply from_be_bytes_u_in.
  - intros l Hl. rewrite Hinner, <- Hl. apply to_from_be_bytes.
Qed.
End integer.

Definition i16_laws := be_signed_laws 2 i16_val mkHLAinteger16BE ltac:(by intros []) ltac:(done) ltac:(lia).
Definition i32_laws := be_signed_laws 4 i32_val mkHLAinteger32BE ltac:(by intros []) ltac:(done) ltac:(lia).
Definition i64_laws := be_signed_laws 8 i64_val mkHLAinteger64BE ltac:(by intros []) ltac:(done) ltac:(lia).
Definition f32_laws := be_unsigned_laws 4 f32_bits mkHLAfloat32BE ltac:(by intros []) ltac:(done) ltac:(lia).
Definition f64_laws := be_unsigned_laws 8 (λ v, f64_bits (f64_val v)) (λ z, mkHLAfloat64BE (F64 z))
  ltac:(by intros [[]]) ltac:(done) ltac:(lia).

#[export] Instance HLAinteger16BE_laws : DataElementLaws HLAinteger16BE (λ v, s_in 16 (i16_val v)) := proj1 i16_laws.
#[export] Instance HLAinteger32BE_laws : DataElementLaws HLAinteger32BE (λ v, s_in 32 (i32_val v)) := proj1 i32_laws.
#[export] Instance HLAinteger64BE_laws : DataElementLaws HLAinteger64BE (λ v, s_in 64 (i64_val v)) := proj1 i64_laws.
#[export] Instance HLAfloat32BE_laws : DataElementLaws HLAfloat32BE (λ v, u_in 32 (f32_bits v)) := proj1 f32_laws.
#[export] Instance HLAfloat64BE_laws : DataElementLaws HLAfloat64BE (λ v, u_in 64 (f64_bits (f64_val v))) := proj1 f64_laws.
#[export] Instance HLAinteger16BE_canonical : Canonical HLAinteger16BE := proj2 i16_laws.
#[export] Instance HLAinteger32BE_canonical : Canonical HLAinteger32BE := proj2 i32_laws.
#[export] Instance HLAinteger64BE_canonical : Canonical HLAinteger64BE := proj2 i64_laws.
#[export] Instance HLAfloat32BE_canonical : Canonical HLAfloat32BE := proj2 f32_laws.
#[export] Instance HLAfloat64BE_canonical : Canonical HLAfloat64BE := proj2 f64_laws.

#[export] Instance HLAoctet_laws : DataElementLaws HLAoctet (λ _, True).
Proof.
  split; unfold to_bytes; simpl; [done..|by intros [b] rest| |].
  - intros [|b buf] v n; [done|]. intros [= <- <-]. split_and!; [done..|simpl; lia].
  - intros [b] k _ Hk. assert (k = 0%nat) as -> by lia. simpl. eauto.
Qed.
#[export] Instance HLAoctet_canonical : Canonical HLAoctet.
Proof. intros [|b buf] v n; [done|]. by intros [= <- <-]. Qed.

(** A boolean is written as an integer 0 or 1; any other integer is read as
    true, so the encoding is not canonical. *)
Lemma bool_i32 (b : bool) : s_in 32 (i32_val (mkHLAinteger32BE (if b then 1 else 0))).
Proof. destruct b; unfold s_in; simpl; lia. Qed.

Lemma boolean_as_i32 b : to_bytes (mkHLAboolean b) = to_bytes (mkHLAinteger32BE (if b then 1 else 0)).
Proof. done. Qed.
Lemma boolean_decode buf :
  decode_from (A := HLAboolean) buf =
  (p ← decode_from (A := HLAinteger32BE) buf; Ok (mkHLAboolean (negb (i32_val p.1 =? 0)), p.2)).
Proof. done. Qed.

#[export] Instance HLAboolean_laws : DataElementLaws HLAboolean (λ _, True).
Proof.
  split.
  - done.
  - intros v _. unfold to_bytes. cbn [encode_into HLAboolean_element app]. by rewrite length_to_be_bytes.
  - intros [b] rest _. rewrite boolean_as_i32, boolean_decode, (del_roundtrip (mkHLAinteger32BE _) rest (bool_i32 b)). by destruct b.
  - intros buf v n. rewrite boolean_decode.
    destruct (decode_from buf) as [[w m]|] eqn:Hd; [|done]. apply del_decoded in Hd as (_ & -> & Hn).
    intros [= <- <-]. done.
  - intros [b] k _ Hk. rewrite boolean_as_i32 in *. destruct (del_truncated (mkHLAinteger32BE _) k (bool_i32 b) Hk) as [needed H].
    rewrite boolean_decode, H. by exists needed.
Qed.

(** ** UTF-16 *)

Definition scalars (s : list Z) : Prop := Forall (λ c, is_scalar c = true) s.
Definition unit_ok (u : Z) : Prop := u_in 16 u.

Lemma encode_char_units c : is_scalar c = true → Forall unit_ok (encode_utf16_char c).
Proof.
  unfold is_scalar, encode_utf16_char, unit_ok, u_in. intros Hc.
  pose proof (Z.div_mod (c - 0x10000) 0x400 ltac:(lia)).
  pose proof (Z.mod_pos_bound (c - 0x10000) 0x400 ltac:(lia)).
  destruct (Z.ltb_spec c 0x10000); repeat constructor; lia.
Qed.

Lemma decode_encode_char c units :
  is_scalar c = true →
  decode_utf16 (encode_utf16_char c ++ units) = (s ← decode_utf16 units; Some (c :: s)).
Proof.
  unfold is_scalar, encode_utf16_char. intros Hc. destruct (Z.ltb_spec c 0x10000); cbn [app decode_utf16].
  - replace (is_surrogate c) with false; [done|]. unfold is_surrogate. lia.
  - pose proof (Z.div_mod (c - 0x10000) 0x400 ltac:(lia)) as Hdm.
    pose proof (Z.mod_pos_bound (c - 0x10000) 0x400 ltac:(lia)) as Hm.
    set (q := (c - 0x10000) / 0x400) in *. set (r := (c - 0x10000) mod 0x400) in *.
    assert (0 ≤ q < 0x400) by lia.
    replace (is_surrogate (0xD800 + q)) with true by (unfold is_surrogate; lia).
    replace (is_high (0xD800 + q)) with true by (unfold is_high; lia).
    replace (is_low (0xDC00 + r)) with true by (unfold is_low; lia).
    destruct (decode_utf16 units); [|done]. simpl. do 2 f_equal. lia.
Qed.

Lemma encode_utf16_cons c s : encode_utf16 (c :: s) = encode_utf16_char c ++ encode_utf16 s.
Proof. done. Qed.

Lemma decode_encode_utf16 s : scalars s → decode_utf16 (encode_utf16 s) = Some s.
Proof.
  induction 1 as [|c s Hc Hs IH]; [done|].
  by rewrite encode_utf16_cons, decode_encode_char, IH.
Qed.

(** Two units at a time. *)
Lemma encode_decode_utf16 units s :
  Forall unit_ok units → decode_utf16 units = Some s → encode_utf16 s = units ∧ scalars s.
Proof.
  revert s. remember (length units) as n eqn:Hn. assert (length units ≤ n)%nat as Hle by lia. clear Hn.
  revert units Hle. induction n as [|n IH]; intros [|u rest] Hle s Hu; simpl in Hle; try lia.
  1,2: intros [= <-]; by split; [|constructor].
  apply Forall_cons in Hu as [Hu Hrest]. unfold unit_ok, u_in in Hu. cbn [decode_utf16].
  destruct (is_surrogate u) eqn:Hs.
  - destruct (is_high u) eqn:Hh; [|done]. destruct rest as [|u2 rest]; [done|].
    destruct (is_low u2) eqn:Hl; [|done]. simpl in Hle. apply Forall_cons in Hrest as [_ Hrest].
    destruct (decode_utf16 rest) as [s'|] eqn:Hd; [|done]. intros [= <-].
    destruct (IH rest ltac:(lia) s' Hrest Hd) as [He Hsc].
    unfold is_high, is_low in *. split.
    + rewrite encode_utf16_cons, He.
      unfold encode_utf16_char. destruct (Z.ltb_spec (0x10000 + (u - 0xD800) * 0x400 + (u2 - 0xDC00)) 0x10000); [lia|].
      replace (0x10000 + (u - 0xD800) * 0x400 + (u2 - 0xDC00) - 0x10000) with ((u2 - 0xDC00) + (u - 0xD800) * 0x400) by lia.
      rewrite Z.div_add, Z.mod_add, Z.div_small, Z.mod_small by lia. simpl. do 2 f_equal; lia.
    + constructor; [unfold is_scalar; lia|done].
  - destruct (decode_utf16 rest) as [s'|] eqn:Hd; [|done]. intros [= <-].
    destruct (IH rest ltac:(lia) s' Hrest Hd) as [He Hsc]. unfold is_surrogate in Hs. split.
    + rewrite encode_utf16_cons, He.
      unfold encode_utf16_char. by destruct (Z.ltb_spec u 0x10000); [|lia].
    + constructor; [unfold is_scalar; lia|done].
Qed.

(** ** Units and bytes *)

Definition pairs (n : nat) (l : list byte) : list Z :=
  (λ i, from_be_bytes (take 2 (drop (2 * i) l))) <$> seq 0 n.

Lemma units_of_pairs n buf : units_of n buf = pairs n (drop 4 buf).
Proof. apply list_fmap_ext. intros i x _. rewrite drop_drop. by replace (4 + 2 * x)%nat with (2 * x + 4)%nat by lia. Qed.

Lemma pairs_S n l : pairs (S n) l = from_be_bytes (take 2 l) :: pairs n (drop 2 l).
Proof.
  unfold pairs. cbn [seq fmap list_fmap]. rewrite Nat.mul_0_r, drop_0. f_equal.
  rewrite <- fmap_S_seq, <- list_fmap_compose. apply list_fmap_ext. intros i x _. simpl.
  rewrite drop_drop. do 3 f_equal. lia.
Qed.

Lemma pairs_bytes units rest :
  Forall unit_ok units → pairs (length units) ((units ≫= to_be_bytes 2) ++ rest) = units.
Proof.
  induction 1 as [|u units Hu Hus IH]; [done|]. cbn [length]. rewrite pairs_S, bind_cons, <- app_assoc.
  rewrite take_app_length', drop_app_length' by by rewrite length_to_be_bytes.
  by rewrite (from_to_be_bytes_u 2), IH.
Qed.

Lemma bytes_pairs n l : (2 * n ≤ length l)%nat → pairs n l ≫= to_be_bytes 2 = take (2 * n) l.
Proof.
  revert l. induction n as [|n IH]; intros l Hl; [done|]. rewrite pairs_S, bind_cons.
  rewrite IH by (rewrite length_drop; lia).
  assert (Hl2 : length (take 2 l) = 2%nat) by (rewrite length_take; lia).
  rewrite <- Hl2 at 1. rewrite to_from_be_bytes.
  replace (2 * S n)%nat with (2 + 2 * n)%nat by lia. apply take_take_drop.
Qed.

Lemma pairs_units n l : (2 * n ≤ length l)%nat → Forall unit_ok (pairs n l) ∧ length (pairs n l) = n.
Proof.
  revert l. induction n as [|n IH]; intros l Hl; [by split; [constructor|]|]. rewrite pairs_S.
  destruct (IH (drop 2 l)) as [Hu Hn]; [rewrite length_drop; lia|]. split; [|simpl; by f_equal].
  constructor; [|done]. pose proof (from_be_bytes_u_in (take 2 l)) as H. rewrite length_take in H.
  by rewrite Nat.min_l in H by lia.
Qed.

Lemma length_units_bytes units : length (units ≫= to_be_bytes 2) = (2 * length units)%nat.
Proof.
  induction units as [|u units IH]; [done|].
  rewrite bind_cons, length_app, length_to_be_bytes, IH. cbn [length]. lia.
Qed.

Lemma encode_utf16_units s : scalars s → Forall unit_ok (encode_utf16 s).
Proof. induction 1; [constructor|]. rewrite encode_utf16_cons. apply Forall_app. by split; [apply encode_char_units|]. Qed.

(** ** Length-prefixed elements *)

Definition unicode_valid (v : HLAunicodeString) : Prop :=
  scalars (unicode_chars v) ∧ Z.of_nat (length (encode_utf16 (unicode_chars v))) < 2 ^ 32.
Definition opaque_valid (v : HLAopaqueData) : Prop := Z.of_nat (length (opaque_bytes v)) < 2 ^ 32.

(** The prefix of a buffer that starts with a length field. *)
Lemma take_length_field n l : take 4 (to_be_bytes 4 n ++ l) = to_be_bytes 4 n.
Proof. by rewrite take_app_length' by by rewrite length_to_be_bytes. Qed.
Lemma drop_length_field n l : drop 4 (to_be_bytes 4 n ++ l) = l.
Proof. by rewrite drop_app_length' by by rewrite length_to_be_bytes. Qed.
Lemma length_field n : 0 ≤ n < 2 ^ 32 → from_be_bytes (to_be_bytes 4 (wrap_u 32 n)) = n.
Proof. intros H. rewrite (wrap_u_id 32 n) by exact H. by apply from_to_be_bytes_u. Qed.

Lemma unicode_to_bytes s :
  to_bytes (mkHLAunicodeString s) =
  to_be_bytes 4 (wrap_u 32 (Z.of_nat (length (encode_utf16 s)))) ++ (encode_utf16 s ≫= to_be_bytes 2).
Proof. done. Qed.

(** What the decoder does on every buffer. *)
Lemma unicode_decode_spec buf r :
  decode_from (A := HLAunicodeString) buf = r ↔
  (length buf < 4)%nat ∧ r = Err (Truncated 4 (Z.of_nat (length buf))) ∨
  ∃ n, (4 ≤ length buf)%nat ∧ n = from_be_bytes (take 4 buf) ∧
    (Z.of_nat (length buf) < 4 + n * 2 ∧ r = Err (Truncated (4 + n * 2) (Z.of_nat (length buf))) ∨
     4 + n * 2 ≤ Z.of_nat (length buf) ∧
       r = match decode_utf16 (pairs (Z.to_nat n) (drop 4 buf)) with
           | Some s => Ok (mkHLAunicodeString s, 4 + n * 2)
           | None => Err Utf16
           end).
Proof.
  cbn [decode_from HLAunicodeString_element]. rewrite units_of_pairs.
  destruct (Nat.ltb_spec (length buf) 4).
  { split; [intros <-; auto|]. intros [[_ ->]|(n & ? & _)]; [done|lia]. }
  set (n := from_be_bytes (take 4 buf)).
  destruct (Z.ltb_spec (Z.of_nat (length buf)) (4 + n * 2)).
  - split; [intros <-; right; exists n; auto|]. intros [[? _]|(n' & _ & -> & [[_ ->]|[? _]])]; [lia|done|lia].
  - split.
    + intros <-. right. exists n. split_and!; [done..|]. right. split; [done|].
      by destruct (decode_utf16 _).
    + intros [[? _]|(n' & _ & -> & [[? _]|[_ ->]])]; [lia|lia|]. by destruct (decode_utf16 _).
Qed.

Lemma length_field_back buf : (4 ≤ length buf)%nat → to_be_bytes 4 (from_be_bytes (take 4 buf)) = take 4 buf.
Proof.
  intros Hl. pose proof (to_from_be_bytes (take 4 buf)) as H. by rewrite length_take, Nat.min_l in H by lia.
Qed.
Lemma length_field_range buf : (4 ≤ length buf)%nat → u_in 32 (from_be_bytes (take 4 buf)).
Proof.
  intros Hl. pose proof (from_be_bytes_u_in (take 4 buf)) as H. by rewrite length_take, Nat.min_l in H by lia.
Qed.

Lemma unicode_decode_ok buf v k :
  decode_from buf = Ok (v, k) →
  (unicode_valid v ∧ k = encoded_length v ∧ k ≤ Z.of_nat (length buf)) ∧ take (Z.to_nat k) buf = to_bytes v.
Proof.
  intros Hd. apply unicode_decode_spec in Hd as [[_ ?]|(n & Hl & Hn & [[_ ?]|[Hlen Hr]])]; [done..|].
  pose proof (length_field_range buf Hl) as Hrange. rewrite <- Hn in Hrange. unfold u_in in Hrange.
  destruct (decode_utf16 _) as [s|] eqn:Hs; [|done]. injection Hr as -> ->.
  destruct (pairs_units (Z.to_nat n) (drop 4 buf)) as [Hu Hp]; [rewrite length_drop; lia|].
  destruct (encode_decode_utf16 _ _ Hu Hs) as [He Hsc].
  unfold unicode_valid. cbn [encoded_length HLAunicodeString_element unicode_chars].
  rewrite unicode_to_bytes, He, Hp, bytes_pairs by (rewrite length_drop; lia).
  split; [split_and!; [done|lia..]|]. rewrite Z2Nat.id, wrap_u_id by (unfold u_in; lia).
  rewrite Hn at 2. rewrite length_field_back by done.
  replace (Z.to_nat (4 + n * 2)) with (4 + 2 * Z.to_nat n)%nat by lia. symmetry. apply take_take_drop.
Qed.

#[export] Instance HLAunicodeString_canonical : Canonical HLAunicodeString.
Proof. intros buf v k Hd. by apply unicode_decode_ok in Hd as [_ ?]. Qed.

#[export] Instance HLAunicodeString_laws : DataElementLaws HLAunicodeString unicode_valid.
Proof.
  split.
  - done.
  - intros [s] _. rewrite unicode_to_bytes, length_app, length_to_be_bytes, length_units_bytes.
    cbn [encoded_length HLAunicodeString_element unicode_chars]. lia.
  - intros [s] rest [Hs Hlen]. cbn [unicode_chars] in *. rewrite unicode_to_bytes, <- app_assoc.
    apply unicode_decode_spec. right. exists (Z.of_nat (length (encode_utf16 s))).
    rewrite take_length_field, drop_length_field, length_field, Nat2Z.id by lia.
    rewrite !length_app, length_to_be_bytes, length_units_bytes. split_and!; [lia|done|]. right. split; [lia|].
    by rewrite pairs_bytes, decode_encode_utf16 by auto using encode_utf16_units.
  - intros buf v k Hd. by apply unicode_decode_ok in Hd as [? _].
  - intros [s] k [Hs Hlen] Hk. cbn [unicode_chars] in *. rewrite unicode_to_bytes in *.
    assert (Hlt := length_take_le _ _ (Nat.lt_le_incl _ _ Hk)).
    rewrite length_app, length_to_be_bytes, length_units_bytes in Hk.
    destruct (decide (k < 4)%nat); [exists 4; apply unicode_decode_spec; rewrite Hlt; by left|].
    eexists. apply unicode_decode_spec. rewrite Hlt. right. eexists. split_and!; [lia|done|]. left.
    rewrite take_take, Nat.min_l, take_length_field, length_field by lia. split; [lia|done].
Qed.

(** *** Opaque data *)

Lemma opaque_to_bytes l :
  to_bytes (mkHLAopaqueData l) = to_be_bytes 4 (wrap_u 32 (Z.of_nat (length l))) ++ l.
Proof. done. Qed.

Lemma opaque_decode_spec buf r :
  decode_from (A := HLAopaqueData) buf = r ↔
  (length buf < 4)%nat ∧ r = Err (Truncated 4 (Z.of_nat (length buf))) ∨
  ∃ n, (4 ≤ length buf)%nat ∧ n = from_be_bytes (take 4 buf) ∧
    (Z.of_nat (length buf) < 4 + n ∧ r = Err (Truncated (4 + n) (Z.of_nat (length buf))) ∨
     4 + n ≤ Z.of_nat (length buf) ∧ r = Ok (mkHLAopaqueData (take (Z.to_nat n) (drop 4 buf)), 4 + n)).
Proof.
  cbn [decode_from HLAopaqueData_element]. destruct (Nat.ltb_spec (length buf) 4).
  { split; [intros <-; auto|]. intros [[_ ->]|(n & ? & _)]; [done|lia]. }
  pose proof (length_field_range buf ltac:(lia)) as Hr. unfold u_in in Hr. set (n := from_be_bytes (take 4 buf)) in *.
  replace (drop 4 (take (Z.to_nat (4 + n)) buf)) with (take (Z.to_nat n) (drop 4 buf)).
  2:{ replace (Z.to_nat (4 + n)) with (4 + Z.to_nat n)%nat by lia. by rewrite take_drop_commute. }
  destruct (Z.ltb_spec (Z.of_nat (length buf)) (4 + n)).
  - split; [intros <-; right; exists n; auto|]. intros [[? _]|(n' & _ & -> & [[_ ->]|[? _]])]; [lia|done|lia].
  - split; [intros <-; right; exists n; auto|]. intros [[? _]|(n' & _ & -> & [[? _]|[_ ->]])]; [lia|lia|done].
Qed.

Lemma opaque_decode_ok buf v k :
  decode_from buf = Ok (v, k) →
  (opaque_valid v ∧ k = encoded_length v ∧ k ≤ Z.of_nat (length buf)) ∧ take (Z.to_nat k) buf = to_bytes v.
Proof.
  intros Hd. apply opaque_decode_spec in Hd as [[_ ?]|(n & Hl & Hn & [[_ ?]|[Hlen Hr]])]; [done..|].
  pose proof (length_field_range buf Hl) as Hrange. rewrite <- Hn in Hrange. unfold u_in in Hrange.
  injection Hr as -> ->. unfold opaque_valid. cbn [encoded_length HLAopaqueData_element opaque_bytes].
  rewrite opaque_to_bytes, length_take, length_drop, Nat.min_l by lia.
  split; [split_and!; lia|]. rewrite Z2Nat.id, wrap_u_id by (unfold u_in; lia).
  rewrite Hn at 2. rewrite length_field_back by done.
  replace (Z.to_nat (4 + n)) with (4 + Z.to_nat n)%nat by lia. symmetry. apply take_take_drop.
Qed.

#[export] Instance HLAopaqueData_canonical : Canonical HLAopaqueData.
Proof. intros buf v k Hd. by apply opaque_decode_ok in Hd as [_ ?]. Qed.

#[export] Instance HLAopaqueData_laws : DataElementLaws HLAopaqueData opaque_valid.
Proof.
  split.
  - done.
  - intros [l] _. rewrite opaque_to_bytes, length_app, length_to_be_bytes.
    cbn [encoded_length HLAopaqueData_element opaque_bytes]. lia.
  - intros [l] rest Hlen. unfold opaque_valid in Hlen. cbn [opaque_bytes] in *. rewrite opaque_to_bytes, <- app_assoc.
    apply opaque_decode_spec. right. exists (Z.of_nat (length l)).
    rewrite take_length_field, drop_length_field, length_field, Nat2Z.id by lia.
    rewrite !length_app, length_to_be_bytes. split_and!; [lia|done|]. right. split; [lia|].
    by rewrite take_app_length.
  - intros buf v k Hd. by apply opaque_decode_ok in Hd as [? _].
  - intros [l] k Hlen Hk. unfold opaque_valid in Hlen. cbn [opaque_bytes] in *. rewrite opaque_to_bytes in *.
    assert (Hlt := length_take_le _ _ (Nat.lt_le_incl _ _ Hk)).
    rewrite length_app, length_to_be_bytes in Hk.
    destruct (decide (k < 4)%nat); [exists 4; apply opaque_decode_spec; rewrite Hlt; by left|].
    eexists. apply opaque_decode_spec. rewrite Hlt. right. eexists. split_and!; [lia|done|]. left.
    rewrite take_take, Nat.min_l, take_length_field, length_field by lia. split; [lia|done].
Qed.

(** ** Properties *)

(** Encodings delimit themselves: a stream of encoded values can be read in
    one way only.  Shown from the contract, so for all nine types. *)
Lemma self_delimiting {A} {valid : A → Prop} `{DataElementLaws A valid} v1 v2 rest1 rest2 :
  valid v1 → valid v2 → to_bytes v1 ++ rest1 = to_bytes v2 ++ rest2 → v1 = v2 ∧ rest1 = rest2.
Proof.
  intros H1 H2 Heq. pose proof (del_roundtrip v1 rest1 H1) as Hd. rewrite Heq, del_roundtrip in Hd by done.
  injection Hd as -> _. split; [done|]. by apply app_inv_head in Heq.
Qed.

(** C38: the codec of [HLAunicodeString] is exact.  Decoding a buffer yields a
    string and a count exactly when every character of the string is a
    Unicode scalar value, its UTF-16 length fits the 32-bit length field, the
    count is the encoded length, and the buffer starts with the string's
    encoding; so unpaired surrogates and short buffers are rejected and
    nothing else is. *)
Theorem unicode_string_exact buf v k :
  decode_from buf = Ok (v, k) ↔
  unicode_valid v ∧ k = encoded_length v ∧ to_bytes v `prefix_of` buf.
Proof.
  split.
  - intros Hd. apply unicode_decode_ok in Hd as [(Hv & Hk & _) Ht]. split_and!; [done..|].
    rewrite <- Ht. exists (drop (Z.to_nat k) buf). by rewrite take_drop.
  - intros (Hv & -> & [rest ->]). by apply del_roundtrip.
Qed.

(** One value of any of the nine types. *)
Inductive Element :=
| E_i16 (v : HLAinteger16BE) | E_i32 (v : HLAinteger32BE) | E_i64 (v : HLAinteger64BE)
| E_f32 (v : HLAfloat32BE) | E_f64 (v : HLAfloat64BE) | E_octet (v : HLAoctet) | E_bool (v : HLAboolean)
| E_unicode (v : HLAunicodeString) | E_opaque (v : HLAopaqueData).

Definition element_valid (e : Element) : Prop :=
  match e with
  | E_i16 v => s_in 16 (i16_val v) | E_i32 v => s_in 32 (i32_val v) | E_i64 v => s_in 64 (i64_val v)
  | E_f32 v => u_in 32 (f32_bits v) | E_f64 v => u_in 64 (f64_bits (f64_val v))
  | E_octet _ | E_bool _ => True
  | E_unicode v => unicode_valid v | E_opaque v => opaque_valid v
  end.
Definition element_bytes (e : Element) : list byte :=
  match e with
  | E_i16 v => to_bytes v | E_i32 v => to_bytes v | E_i64 v => to_bytes v | E_f32 v => to_bytes v
  | E_f64 v => to_bytes v | E_octet v => to_bytes v | E_bool v => to_bytes v | E_unicode v => to_bytes v
  | E_opaque v => to_bytes v
  end.

(** Decode with the type of the given element. *)
Definition decode_like (e : Element) (buf : list byte) : result EncodingError (Element * Z) :=
  match e with
  | E_i16 _ => p ← decode_from buf; Ok (E_i16 p.1, p.2) | E_i32 _ => p ← decode_from buf; Ok (E_i32 p.1, p.2)
  | E_i64 _ => p ← decode_from buf; Ok (E_i64 p.1, p.2) | E_f32 _ => p ← decode_from buf; Ok (E_f32 p.1, p.2)
  | E_f64 _ => p ← decode_from buf; Ok (E_f64 p.1, p.2) | E_octet _ => p ← decode_from buf; Ok (E_octet p.1, p.2)
  | E_bool _ => p ← decode_from buf; Ok (E_bool p.1, p.2)
  | E_unicode _ => p ← decode_from buf; Ok (E_unicode p.1, p.2)
  | E_opaque _ => p ← decode_from buf; Ok (E_opaque p.1, p.2)
  end.

(** A record of elements read back in order, as a federate does with the
    fields of a fixed record. *)
Fixpoint decode_all (shape : list Element) (buf : list byte) : result EncodingError (list Element) :=
  match shape with
  | [] => Ok []
  | e :: shape => p ← decode_like e buf; es ← decode_all shape (drop (Z.to_nat p.2) buf); Ok (p.1 :: es)
  end.

Lemma decode_like_bytes e rest :
  element_valid e →
  decode_like e (element_bytes e ++ rest) = Ok (e, Z.of_nat (length (element_bytes e))).
Proof.
  destruct e as [v|v|v|v|v|v|v|v|v]; intros Hv; unfold decode_like, element_bytes;
    by rewrite (del_roundtrip v rest Hv), (del_length v Hv).
Qed.

Lemma decode_all_bytes es rest :
  Forall element_valid es → decode_all es ((es ≫= element_bytes) ++ rest) = Ok es.
Proof.
  induction 1 as [|e es He Hes IH]; [done|]. rewrite bind_cons, <- app_assoc. cbn [decode_all].
  rewrite decode_like_bytes by done. unfold mbind at 1, result_bind at 1. cbn [snd fst].
  by rewrite Nat2Z.id, drop_app_length, IH.
Qed.

(** C39: values round-trip in sequence.  The concatenated encodings of any
    sequence of values of the nine data types, with strings and opaque data
    shorter than the 32-bit counts, followed by anything, decode to exactly
    these values; and cutting the encoding of a value short is
    reported as [Truncated], with the number of bytes there were. *)
Theorem elements_roundtrip es rest :
  Forall element_valid es →
  decode_all es ((es ≫= element_bytes) ++ rest) = Ok es ∧
  ∀ e k, e ∈ es → (k < length (element_bytes e))%nat →
    ∃ needed, decode_like e (take k (element_bytes e)) = Err (Truncated needed (Z.of_nat k)).
Proof.
  intros Hes. split; [by apply decode_all_bytes|]. intros e k He Hk.
  rewrite Forall_forall in Hes. specialize (Hes e He).
  destruct e as [v|v|v|v|v|v|v|v|v]; unfold decode_like, element_bytes in *;
    (destruct (del_truncated v k Hes Hk) as [needed ->]; by exists needed).
Qed.

(** *** Witnesses *)

Definition sample_elements : list Element :=
  [E_i16 (mkHLAinteger16BE (-2)); E_bool (mkHLAboolean true); E_unicode (mkHLAunicodeString [72; 0x4E16; 0x1F600]);
   E_opaque (mkHLAopaqueData [x01; x02])].

Lemma elements_roundtrip_witness :
  decode_all sample_elements ((sample_elements ≫= element_bytes) ++ [x00]) = Ok sample_elements.
Proof.
  refine (proj1 (elements_roundtrip sample_elements [x00] _)).
  repeat constructor; try done; vm_compute; discriminate.
Defined.

(** A lone surrogate is refused. *)
Example lone_surrogate :
  decode_from (A := HLAunicodeString) (to_be_bytes 4 1 ++ to_be_bytes 2 0xD800) = Err Utf16.
Proof. vm_compute. reflexivity. Qed.
