(* ===== verification/CoreTypes.v ===== *)
(** * hla-core: handles, enumerations and logical time

    [hla-core/src/handle.rs] declares one newtype per kind of handle, so the
    compiler keeps them apart; so does the model, with one record per kind.
    [hla-core/src/time.rs] declares the [LogicalTime] trait and its
    [HLAfloat64Time] implementation; the trait is the class [LogicalTime]
    below and what a federation relies on is [LogicalTimeLaws]. *)

From S2P Require Import Prelude Float64.

(** ** Opaque handles *)

Record ObjectClassHandle := ObjectClassHandle_new { och_raw : Z }.
Record AttributeHandle := AttributeHandle_new { ah_raw : Z }.
Record InteractionClassHandle := InteractionClassHandle_new { ich_raw : Z }.
Record ParameterHandle := ParameterHandle_new { ph_raw : Z }.
Record ObjectInstanceHandle := ObjectInstanceHandle_new { oih_raw : Z }.
Record FederateHandle := FederateHandle_new { fh_raw : Z }.
Record DimensionHandle := DimensionHandle_new { dh_raw : Z }.
Record RegionHandle := RegionHandle_new { rh_raw : Z }.

#[export] Instance ObjectClassHandle_eq_dec : EqDecision ObjectClassHandle.
Proof. solve_decision. Defined.
#[export] Instance ObjectClassHandle_countable : Countable ObjectClassHandle.
Proof. refine (inj_countable' och_raw ObjectClassHandle_new _). by intros []. Defined.
#[export] Instance AttributeHandle_eq_dec : EqDecision AttributeHandle.
Proof. solve_decision. Defined.
#[export] Instance AttributeHandle_countable : Countable AttributeHandle.
Proof. refine (inj_countable' ah_raw AttributeHandle_new _). by intros []. Defined.
#[export] Instance InteractionClassHandle_eq_dec : EqDecision InteractionClassHandle.
Proof. solve_decision. Defined.
#[export] Instance InteractionClassHandle_countable : Countable InteractionClassHandle.
Proof. refine (inj_countable' ich_raw InteractionClassHandle_new _). by intros []. Defined.
#[export] Instance ParameterHandle_eq_dec : EqDecision ParameterHandle.
Proof. solve_decision. Defined.
#[export] Instance ParameterHandle_countable : Countable ParameterHandle.
Proof. refine (inj_countable' ph_raw ParameterHandle_new _). by intros []. Defined.
#[export] Instance ObjectInstanceHandle_eq_dec : EqDecision ObjectInstanceHandle.
Proof. solve_decision. Defined.
#[export] Instance ObjectInstanceHandle_countable : Countable ObjectInstanceHandle.
Proof. refine (inj_countable' oih_raw ObjectInstanceHandle_new _). by intros []. Defined.
#[export] Instance FederateHandle_eq_dec : EqDecision FederateHandle.
Proof. solve_decision. Defined.
#[export] Instance FederateHandle_countable : Countable FederateHandle.
Proof. refine (inj_countable' fh_raw FederateHandle_new _). by intros []. Defined.
#[export] Instance DimensionHandle_eq_dec : EqDecision DimensionHandle.
Proof. solve_decision. Defined.
#[export] Instance DimensionHandle_countable : Countable DimensionHandle.
Proof. refine (inj_countable' dh_raw DimensionHandle_new _). by intros []. Defined.
#[export] Instance RegionHandle_eq_dec : EqDecision RegionHandle.
Proof. solve_decision. Defined.
#[export] Instance RegionHandle_countable : Countable RegionHandle.
Proof. refine (inj_countable' rh_raw RegionHandle_new _). by intros []. Defined.

(** ** Enumerations of [hla-core/src/lib.rs] *)

Inductive OrderType := Receive | TimestampOrder.
Inductive TransportationType := Reliable | BestEffort.

Inductive ResignAction :=
| UnconditionallyDivestAttributes
| DeleteObjects
| CancelPendingOwnershipAcquisitions
| DeleteObjectsThenDivest
| CancelThenDeleteThenDivest
| NoAction.

#[export] Instance OrderType_eq_dec : EqDecision OrderType.
Proof. solve_decision. Defined.
#[export] Instance ResignAction_eq_dec : EqDecision ResignAction.
Proof. solve_decision. Defined.

(** ** Logical time: the trait and what it promises *)

Inductive TimeCodecError := WrongLength (expected got : nat).

Class LogicalTime (T I : Type) := {
  lt_initial : T;
  lt_final : T;
  lt_encoded_length : nat;
  lt_encode : T → list byte;
  lt_decode : list byte → result TimeCodecError T;
  lt_eqb : T → T → bool;
  lt_cmp : T → T → comparison;
  lt_add : T → I → T
}.

(** The promises of the trait bounds [Ord + Eq] and of the codec, for the
    values [valid] that the machine type can hold. *)
Class LogicalTimeLaws (T I : Type) `{LogicalTime T I} (valid : T → Prop) := {
  lt_encode_length t : length (lt_encode t) = lt_encoded_length;
  lt_roundtrip t : valid t → lt_decode (lt_encode t) = Ok t;
  lt_decode_ok l t : lt_decode l = Ok t → lt_encode t = l ∧ valid t;
  lt_decode_err l e : lt_decode l = Err e ↔
    length l ≠ lt_encoded_length ∧ e = WrongLength lt_encoded_length (length l);
  lt_eqb_eq t u : valid t → valid u → lt_eqb t u = true ↔ t = u;
  lt_cmp_eq t u : valid t → valid u → lt_cmp t u = Eq ↔ t = u;
  lt_cmp_antisym t u : lt_cmp t u = CompOpp (lt_cmp u t);
  lt_cmp_trans t u v c : lt_cmp t u = c → lt_cmp u v = c → lt_cmp t v = c
}.

(** ** [HLAfloat64Time] *)

Record HlaFloat64Time := mkHlaFloat64Time { hft : f64 }.
Record HlaFloat64Interval := mkHlaFloat64Interval { hfi : f64 }.

Definition hft_eq (x y : HlaFloat64Time) : bool := f64_bits (hft x) =? f64_bits (hft y).
Definition hft_cmp (x y : HlaFloat64Time) : comparison := f64_total_cmp (hft x) (hft y).
Definition hft_partial_cmp (x y : HlaFloat64Time) : option comparison := Some (hft_cmp x y).
Definition hft_add (x : HlaFloat64Time) (d : HlaFloat64Interval) : HlaFloat64Time :=
  mkHlaFloat64Time (f64_add (hft x) (hfi d)).
Definition hfi_eq (x y : HlaFloat64Interval) : bool := f64_bits (hfi x) =? f64_bits (hfi y).
Definition hfi_cmp (x y : HlaFloat64Interval) : comparison := f64_total_cmp (hfi x) (hfi y).
Definition hfi_zero : HlaFloat64Interval := mkHlaFloat64Interval f64_ZERO.
Definition hfi_epsilon : HlaFloat64Interval := mkHlaFloat64Interval f64_EPSILON.

Definition hft_encode (t : HlaFloat64Time) : list byte := f64_to_be_bytes (hft t).
Definition hft_decode (bytes : list byte) : result TimeCodecError HlaFloat64Time :=
  if decide (length bytes = 8%nat) then Ok (mkHlaFloat64Time (f64_from_be_bytes bytes))
  else Err (WrongLength 8 (length bytes)).

#[export] Instance HlaFloat64Time_LogicalTime : LogicalTime HlaFloat64Time HlaFloat64Interval := {
  lt_initial := mkHlaFloat64Time f64_ZERO;
  lt_final := mkHlaFloat64Time f64_INFINITY;
  lt_encoded_length := 8%nat;
  lt_encode := hft_encode;
  lt_decode := hft_decode;
  lt_eqb := hft_eq;
  lt_cmp := hft_cmp;
  lt_add := hft_add
}.

Definition hft_valid (t : HlaFloat64Time) : Prop := u_in 64 (f64_bits (hft t)).

Lemma total_key_inj x y :
  u_in 64 (f64_bits x) → u_in 64 (f64_bits y) → total_key x = total_key y → x = y.
Proof.
  intros Hx Hy. rewrite (total_key_spec x Hx), (total_key_spec y Hy).
  pose proof (f64_bits_sign_mag x Hx). pose proof (f64_bits_sign_mag y Hy).
  pose proof (f64_mag_range x). pose proof (f64_mag_range y).
  unfold sign_bit in *. intros H3. destruct x as [b], y as [c]. f_equal. simpl in *.
  destruct (f64_sign (F64 b)), (f64_sign (F64 c)); lia.
Qed.

(** The [f64] implementation keeps the promises of the trait on every 64-bit
    pattern, NaNs included. *)
#[export] Instance HlaFloat64Time_laws :
  LogicalTimeLaws HlaFloat64Time HlaFloat64Interval hft_valid.
Proof.
  split; simpl.
  - done.
  - intros [x] Hv. unfold hft_decode, hft_encode. cbn [hft].
    case_decide as Hl; [by rewrite f64_from_to_be_bytes|].
    destruct Hl. apply length_to_be_bytes.
  - intros l t. unfold hft_decode. case_decide as Hl; [|done]. intros [= <-]. split.
    + by apply f64_to_from_be_bytes.
    + by apply f64_from_be_bytes_range.
  - intros l e. unfold hft_decode. case_decide; naive_solver.
  - intros [[b]] [[c]] _ _. unfold hft_eq. simpl. rewrite Z.eqb_eq. naive_solver.
  - intros [x] [y] Hx Hy. unfold hft_cmp, f64_total_cmp. simpl. rewrite Z.compare_eq_iff.
    split; [|naive_solver]. intros H. f_equal. by apply total_key_inj.
  - intros t u. apply Z.compare_antisym.
  - intros t u v c. unfold hft_cmp, f64_total_cmp.
    destruct c; rewrite ?Z.compare_eq_iff, ?Z.compare_lt_iff, ?Z.compare_gt_iff; lia.
Qed.

(** The interval type has the same order. *)
Lemma hfi_cmp_eq_iff x y :
  u_in 64 (f64_bits (hfi x)) → u_in 64 (f64_bits (hfi y)) →
  hfi_cmp x y = Eq ↔ hfi_eq x y = true.
Proof.
  intros Hx Hy. unfold hfi_cmp, f64_total_cmp, hfi_eq. rewrite Z.compare_eq_iff, Z.eqb_eq.
  split; [|by destruct x as [[]], y as [[]]; simpl; intros ->].
  intros H. by rewrite (total_key_inj _ _ Hx Hy H).
Qed.
