(* ===== verification/Framing.v ===== *)
(** * hla-wire: FedPro frames

    [hla-wire/src/framing.rs]: the 24-byte header, the typed control
    payloads, and the allocation of outbound sequence numbers.  Integers are
    [Z] at their width; slices of a byte buffer are [take]/[drop].  The
    arithmetic of the release profile wraps, and so does the model's. *)

From S2P Require Import Prelude.

Definition HEADER_SIZE : nat := 24.
Definition NO_SESSION_ID : Z := 0.
Definition NO_SEQUENCE_NUMBER : Z := i32_MIN.
Definition INITIAL_SEQUENCE_NUMBER : Z := 0.
Definition MAX_SEQUENCE_NUMBER : Z := i32_MAX.
Definition FEDERATE_PROTOCOL_VERSION : Z := 1.

(** [&bytes[a..b]] *)
Definition slice (a b : nat) (l : list byte) : list byte := take (b - a) (drop a l).

#[global] Arguments slice : simpl never.

(** ** Errors and message types *)

Inductive FrameError :=
| PacketTooSmall (n : Z)
| Truncated (needed had : nat)
| UnknownMessageType (n : Z)
| InvalidNewSessionStatusReason (n : Z).

Inductive MessageType :=
| CtrlNewSession | CtrlNewSessionStatus | CtrlHeartbeat | CtrlHeartbeatResponse
| CtrlTerminateSession | CtrlSessionTerminated
| CtrlResumeRequest | CtrlResumeStatus
| HlaCallRequest | HlaCallResponse | HlaCallbackRequest | HlaCallbackResponse.

#[export] Instance FrameError_eq_dec : EqDecision FrameError.
Proof. solve_decision. Defined.
#[export] Instance MessageType_eq_dec : EqDecision MessageType.
Proof. solve_decision. Defined.

(** [self as u32] *)
Definition MessageType_code (t : MessageType) : Z :=
  match t with
  | CtrlNewSession => 1 | CtrlNewSessionStatus => 2 | CtrlHeartbeat => 3
  | CtrlHeartbeatResponse => 4 | CtrlTerminateSession => 5 | CtrlSessionTerminated => 6
  | CtrlResumeRequest => 10 | CtrlResumeStatus => 11
  | HlaCallRequest => 20 | HlaCallResponse => 21
  | HlaCallbackRequest => 22 | HlaCallbackResponse => 23
  end.

Definition MessageType_from_u32 (value : Z) : result FrameError MessageType :=
  match value with
  | 1 => Ok CtrlNewSession
  | 2 => Ok CtrlNewSessionStatus
  | 3 => Ok CtrlHeartbeat
  | 4 => Ok CtrlHeartbeatResponse
  | 5 => Ok CtrlTerminateSession
  | 6 => Ok CtrlSessionTerminated
  | 10 => Ok CtrlResumeRequest
  | 11 => Ok CtrlResumeStatus
  | 20 => Ok HlaCallRequest
  | 21 => Ok HlaCallResponse
  | 22 => Ok HlaCallbackRequest
  | 23 => Ok HlaCallbackResponse
  | other => Err (UnknownMessageType other)
  end.

Definition is_control (t : MessageType) : bool :=
  MessageType_code t <? MessageType_code HlaCallRequest.

Definition is_hla_response (t : MessageType) : bool :=
  match t with HlaCallResponse | HlaCallbackResponse => true | _ => false end.

(** ** The header *)

Record MessageHeader := {
  packet_size : Z;
  sequence_number : Z;
  session_id : Z;
  last_received_sequence_number : Z;
  message_type : MessageType
}.

#[export] Instance MessageHeader_eq_dec : EqDecision MessageHeader.
Proof. solve_decision. Defined.

Definition with_payload_size (payload_size seq sid last : Z) (t : MessageType) : MessageHeader :=
  {| packet_size := wrap_u 32 (Z.of_nat HEADER_SIZE + payload_size);
     sequence_number := seq;
     session_id := sid;
     last_received_sequence_number := last;
     message_type := t |}.

Definition payload_size (h : MessageHeader) : Z :=
  wrap_u 32 (packet_size h - Z.of_nat HEADER_SIZE).

Definition header_encode (h : MessageHeader) : list byte :=
  to_be_bytes 4 (packet_size h) ++
  to_be_bytes 4 (sequence_number h) ++
  to_be_bytes 8 (session_id h) ++
  to_be_bytes 4 (last_received_sequence_number h) ++
  to_be_bytes 4 (MessageType_code (message_type h)).

Definition header_decode (bytes : list byte) : result FrameError MessageHeader :=
  if (length bytes <? HEADER_SIZE)%nat then Err (Truncated HEADER_SIZE (length bytes))
  else
    let ps := from_be_bytes (slice 0 4 bytes) in
    if ps <? Z.of_nat HEADER_SIZE then Err (PacketTooSmall ps)
    else
      let seq := from_be_bytes_signed (slice 4 8 bytes) in
      let sid := from_be_bytes (slice 8 16 bytes) in
      let last := from_be_bytes_signed (slice 16 20 bytes) in
      let raw := from_be_bytes (slice 20 24 bytes) in
      t ← MessageType_from_u32 raw;
      Ok {| packet_size := ps; sequence_number := seq; session_id := sid;
            last_received_sequence_number := last; message_type := t |}.

(** ** Frames *)

Record Frame := Frame_new { header : MessageHeader; payload : list byte }.

#[export] Instance Frame_eq_dec : EqDecision Frame.
Proof. solve_decision. Defined.

Definition frame_encode (f : Frame) : list byte := header_encode (header f) ++ payload f.

(** ** Typed payloads *)

Record NewSessionPayload := { protocol_version : Z }.

Definition NewSessionPayload_SIZE : nat := 4.
Definition NewSessionPayload_current : NewSessionPayload :=
  {| protocol_version := FEDERATE_PROTOCOL_VERSION |}.
Definition NewSessionPayload_encode (p : NewSessionPayload) : list byte :=
  to_be_bytes 4 (protocol_version p).
Definition NewSessionPayload_decode (bytes : list byte) : result FrameError NewSessionPayload :=
  if (length bytes <? 4)%nat then Err (Truncated 4 (length bytes))
  else Ok {| protocol_version := from_be_bytes_signed (slice 0 4 bytes) |}.

Inductive NewSessionStatusReason :=
| Success | UnsupportedProtocolVersion | OutOfResources | BadMessage | OtherError.

#[export] Instance NewSessionStatusReason_eq_dec : EqDecision NewSessionStatusReason.
Proof. solve_decision. Defined.

Definition NewSessionStatusReason_code (r : NewSessionStatusReason) : Z :=
  match r with
  | Success => 0 | UnsupportedProtocolVersion => 1 | OutOfResources => 2
  | BadMessage => 3 | OtherError => 99
  end.

Definition NewSessionStatusReason_from_i32 (v : Z) : result FrameError NewSessionStatusReason :=
  match v with
  | 0 => Ok Success
  | 1 => Ok UnsupportedProtocolVersion
  | 2 => Ok OutOfResources
  | 3 => Ok BadMessage
  | 99 => Ok OtherError
  | _ => Err (InvalidNewSessionStatusReason v)
  end.

Definition NewSessionStatusReason_encode (r : NewSessionStatusReason) : list byte :=
  to_be_bytes 4 (NewSessionStatusReason_code r).

(** [NewSessionStatusPayload] and [ResumeStatusPayload] have one field and
    the same body. *)
Record NewSessionStatusPayload := { nss_reason : NewSessionStatusReason }.
Record ResumeStatusPayload := { rs_reason : NewSessionStatusReason }.

Definition NewSessionStatusPayload_SIZE : nat := 4.
Definition ResumeStatusPayload_SIZE : nat := 4.
Definition NewSessionStatusPayload_encode (p : NewSessionStatusPayload) : list byte :=
  NewSessionStatusReason_encode (nss_reason p).
Definition ResumeStatusPayload_encode (p : ResumeStatusPayload) : list byte :=
  NewSessionStatusReason_encode (rs_reason p).
Definition NewSessionStatusPayload_decode (bytes : list byte)
    : result FrameError NewSessionStatusPayload :=
  if (length bytes <? 4)%nat then Err (Truncated 4 (length bytes))
  else
    r ← NewSessionStatusReason_from_i32 (from_be_bytes_signed (slice 0 4 bytes));
    Ok {| nss_reason := r |}.
Definition ResumeStatusPayload_decode (bytes : list byte)
    : result FrameError ResumeStatusPayload :=
  if (length bytes <? 4)%nat then Err (Truncated 4 (length bytes))
  else
    r ← NewSessionStatusReason_from_i32 (from_be_bytes_signed (slice 0 4 bytes));
    Ok {| rs_reason := r |}.

Record ResumeRequestPayload := {
  last_received_rti_sequence_number : Z;
  oldest_available_federate_sequence_number : Z
}.

Definition ResumeRequestPayload_SIZE : nat := 8.
Definition ResumeRequestPayload_encode (p : ResumeRequestPayload) : list byte :=
  to_be_bytes 4 (last_received_rti_sequence_number p) ++
  to_be_bytes 4 (oldest_available_federate_sequence_number p).
Definition ResumeRequestPayload_decode (bytes : list byte)
    : result FrameError ResumeRequestPayload :=
  if (length bytes <? 8)%nat then Err (Truncated 8 (length bytes))
  else Ok {| last_received_rti_sequence_number := from_be_bytes_signed (slice 0 4 bytes);
             oldest_available_federate_sequence_number := from_be_bytes_signed (slice 4 8 bytes) |}.

Record HlaCallResponsePayload := {
  response_to_sequence_number : Z;
  body : list byte
}.

Definition HlaCallResponsePayload_encode (p : HlaCallResponsePayload) : list byte :=
  to_be_bytes 4 (response_to_sequence_number p) ++ body p.
Definition HlaCallResponsePayload_decode (bytes : list byte)
    : result FrameError HlaCallResponsePayload :=
  if (length bytes <? 4)%nat then Err (Truncated 4 (length bytes))
  else Ok {| response_to_sequence_number := from_be_bytes_signed (slice 0 4 bytes);
             body := drop 4 bytes |}.

Record HlaCallbackResponsePayload := {
  cb_response_to_sequence_number : Z;
  cb_body : list byte
}.

Definition HlaCallbackResponsePayload_encode (p : HlaCallbackResponsePayload) : list byte :=
  to_be_bytes 4 (cb_response_to_sequence_number p) ++ cb_body p.
Definition HlaCallbackResponsePayload_decode (bytes : list byte)
    : result FrameError HlaCallbackResponsePayload :=
  if (length bytes <? 4)%nat then Err (Truncated 4 (length bytes))
  else Ok {| cb_response_to_sequence_number := from_be_bytes_signed (slice 0 4 bytes);
             cb_body := drop 4 bytes |}.

(** ** Convenience constructors *)

Definition new_session_frame : Frame :=
  Frame_new
    (with_payload_size (Z.of_nat NewSessionPayload_SIZE) INITIAL_SEQUENCE_NUMBER
       NO_SESSION_ID NO_SEQUENCE_NUMBER CtrlNewSession)
    (NewSessionPayload_encode NewSessionPayload_current).

Definition resume_request_frame (sid last_received oldest_available : Z) : Frame :=
  Frame_new
    (with_payload_size (Z.of_nat ResumeRequestPayload_SIZE) NO_SEQUENCE_NUMBER
       sid last_received CtrlResumeRequest)
    (ResumeRequestPayload_encode
       {| last_received_rti_sequence_number := last_received;
          oldest_available_federate_sequence_number := oldest_available |}).

(** [protobuf_body.len() as u32] *)
Definition hla_call_request_frame (seq sid last : Z) (protobuf_body : list byte) : Frame :=
  Frame_new
    (with_payload_size (wrap_u 32 (Z.of_nat (length protobuf_body))) seq sid last HlaCallRequest)
    protobuf_body.

(** ** Sequence numbers

    [claim_next_outbound_seq] is a compare-exchange loop on an [AtomicI32].
    [claim_attempt] is the body of the loop before the exchange: what the
    iteration would claim and store for the value it read. *)

Definition claim_attempt (current : Z) : Z * Z :=
  let claimed := if current =? NO_SEQUENCE_NUMBER then INITIAL_SEQUENCE_NUMBER else current in
  let next := if claimed =? MAX_SEQUENCE_NUMBER then INITIAL_SEQUENCE_NUMBER
              else wrap_s 32 (claimed + 1) in
  (claimed, next).

(** The loop without interference: the first exchange succeeds. *)
Definition claim_next_outbound_seq (atomic : Z) : Z * Z := claim_attempt atomic.

(** The loop with interference: any number of threads share the counter.
    Each is between calls ([None]) or holds the value [current] it last read.
    [compare_exchange_weak] may fail spuriously, so a failing exchange only
    reloads. [claim_log] records the claimed values in the order of the
    successful exchanges. *)
Record ClaimState := {
  counter : Z;
  locals : gmap nat Z;
  claim_log : list Z
}.

Inductive claim_step : ClaimState → ClaimState → Prop :=
| claim_load s t :
    locals s !! t = None →
    claim_step s {| counter := counter s; locals := <[t := counter s]> (locals s);
                    claim_log := claim_log s |}
| claim_exchange_ok s t :
    locals s !! t = Some (counter s) →
    claim_step s {| counter := (claim_attempt (counter s)).2; locals := delete t (locals s);
                    claim_log := claim_log s ++ [(claim_attempt (counter s)).1] |}
| claim_exchange_fail s t current :
    locals s !! t = Some current →
    claim_step s {| counter := counter s; locals := <[t := counter s]> (locals s);
                    claim_log := claim_log s |}.

(** The connection's counter starts at [AtomicI32::new(0)]. *)
Definition claim_init : ClaimState :=
  {| counter := INITIAL_SEQUENCE_NUMBER; locals := ∅; claim_log := [] |}.

Inductive claim_reachable : ClaimState → Prop :=
| claim_reach_init : claim_reachable claim_init
| claim_reach_step s s' : claim_reachable s → claim_step s s' → claim_reachable s'.

(** ** Lemmas on slices *)

Lemma slice_length a b l : (b ≤ length l)%nat → (a ≤ b)%nat → length (slice a b l) = (b - a)%nat.
Proof. intros. unfold slice. rewrite length_take, length_drop. lia. Qed.

Lemma slice_app_skip a b l1 l2 :
  (length l1 ≤ a)%nat → slice a b (l1 ++ l2) = slice (a - length l1) (b - length l1) l2.
Proof.
  intros H. unfold slice. rewrite drop_app, (drop_ge l1) by lia. simpl. f_equal. lia.
Qed.

Lemma slice_app_here n l1 l2 : length l1 = n → slice 0 n (l1 ++ l2) = l1.
Proof. intros <-. unfold slice. rewrite drop_0, Nat.sub_0_r. apply take_app_length. Qed.

Lemma slice_split a b c l :
  (a ≤ b ≤ c)%nat → slice a b l ++ slice b c l = slice a c l.
Proof.
  intros H. unfold slice. replace (c - a)%nat with ((b - a) + (c - b))%nat by lia.
  rewrite <- take_take_drop, drop_drop. do 3 f_equal. lia.
Qed.

Lemma slice_whole n l : slice 0 n l = take n l.
Proof. unfold slice. by rewrite drop_0, Nat.sub_0_r. Qed.

(** Read one field off the front of an encoding. *)
Ltac slice_field :=
  repeat first
    [ rewrite slice_app_here by apply length_to_be_bytes
    | rewrite slice_app_skip by (rewrite length_to_be_bytes; lia);
      rewrite length_to_be_bytes; cbn [Nat.sub] ].

(** ** Message types *)

Lemma MessageType_from_code t : MessageType_from_u32 (MessageType_code t) = Ok t.
Proof. by destruct t. Qed.

Lemma MessageType_code_from z t : MessageType_from_u32 z = Ok t → MessageType_code t = z.
Proof.
  unfold MessageType_from_u32. intros H. repeat (case_match; try discriminate H; []).
  all: by repeat (case_match; try discriminate H); simplify_eq/=.
Qed.

Lemma MessageType_code_range t : u_in 32 (MessageType_code t).
Proof. destruct t; done. Qed.

Lemma NewSessionStatusReason_from_code r :
  NewSessionStatusReason_from_i32 (NewSessionStatusReason_code r) = Ok r.
Proof. by destruct r. Qed.

(** ** The header codec *)

Definition header_wf (h : MessageHeader) : Prop :=
  u_in 32 (packet_size h) ∧ Z.of_nat HEADER_SIZE ≤ packet_size h ∧
  s_in 32 (sequence_number h) ∧ u_in 64 (session_id h) ∧
  s_in 32 (last_received_sequence_number h).

Lemma length_header_encode h : length (header_encode h) = HEADER_SIZE.
Proof. unfold header_encode. rewrite !length_app, !length_to_be_bytes. done. Qed.

Lemma header_decode_encode h rest :
  header_wf h → header_decode (header_encode h ++ rest) = Ok h.
Proof.
  intros (Hps & Hmin & Hseq & Hsid & Hlast). unfold header_decode.
  rewrite length_app, length_header_encode.
  destruct (Nat.ltb_spec (HEADER_SIZE + length rest) HEADER_SIZE); [lia|].
  unfold header_encode. rewrite <- !app_assoc. slice_field.
  rewrite (from_to_be_bytes_u 4) by done.
  destruct (Z.ltb_spec (packet_size h) (Z.of_nat HEADER_SIZE)); [lia|].
  rewrite !(from_to_be_bytes_s 4) by (done || lia).
  rewrite (from_to_be_bytes_u 8) by done.
  rewrite (from_to_be_bytes_u 4) by apply MessageType_code_range.
  rewrite MessageType_from_code. by destruct h.
Qed.

Lemma from_be_slice_u a b n l :
  (b ≤ length l)%nat → (b - a = n)%nat → (a ≤ b)%nat → u_in (8 * Z.of_nat n) (from_be_bytes (slice a b l)).
Proof.
  intros. pose proof (from_be_bytes_range (slice a b l)) as Hr.
  rewrite slice_length, pow256_pow2 in Hr by lia. by subst n.
Qed.

Lemma from_be_slice_s a b n l :
  (b ≤ length l)%nat → (b - a = n)%nat → (a < b)%nat → s_in (8 * Z.of_nat n) (from_be_bytes_signed (slice a b l)).
Proof.
  intros. unfold from_be_bytes_signed. rewrite slice_length by lia. subst n. apply wrap_s_range. lia.
Qed.

Lemma to_be_slice_u a b n l :
  (b ≤ length l)%nat → (b - a = n)%nat → (a ≤ b)%nat → to_be_bytes n (from_be_bytes (slice a b l)) = slice a b l.
Proof.
  intros. rewrite <- (to_from_be_bytes (slice a b l)) at 2. rewrite slice_length by lia. by subst n.
Qed.

Lemma to_be_slice_s a b n l :
  (b ≤ length l)%nat → (b - a = n)%nat → (a < b)%nat → to_be_bytes n (from_be_bytes_signed (slice a b l)) = slice a b l.
Proof.
  intros. rewrite <- (to_from_be_bytes_signed (slice a b l)) at 2 by (rewrite slice_length; lia).
  rewrite slice_length by lia. by subst n.
Qed.

Lemma header_decode_inv bytes h :
  header_decode bytes = Ok h →
  header_wf h ∧ (HEADER_SIZE ≤ length bytes)%nat ∧ header_encode h = take HEADER_SIZE bytes.
Proof.
  unfold header_decode. destruct (Nat.ltb_spec (length bytes) HEADER_SIZE) as [|Hlen]; [done|].
  destruct (Z.ltb_spec (from_be_bytes (slice 0 4 bytes)) (Z.of_nat HEADER_SIZE)) as [|Hmin]; [done|].
  destruct (MessageType_from_u32 _) as [t|] eqn:Ht; [|done]. intros [= <-].
  apply MessageType_code_from in Ht. unfold HEADER_SIZE in *.
  split; [|split]; [|done|].
  - unfold header_wf. simpl. split_and!;
      [apply (from_be_slice_u 0 4 4)|done|apply (from_be_slice_s 4 8 4)
      |apply (from_be_slice_u 8 16 8)|apply (from_be_slice_s 16 20 4)]; lia.
  - unfold header_encode.
    cbn [packet_size sequence_number session_id last_received_sequence_number message_type].
    rewrite Ht.
    rewrite (to_be_slice_u 0 4 4), (to_be_slice_s 4 8 4), (to_be_slice_u 8 16 8),
      (to_be_slice_s 16 20 4), (to_be_slice_u 20 24 4) by lia. rewrite <- slice_whole.
    rewrite !slice_split by lia. done.
Qed.

(** ** The claim loop *)

Definition seq_valid (v : Z) : Prop := INITIAL_SEQUENCE_NUMBER ≤ v ≤ MAX_SEQUENCE_NUMBER.

Lemma claim_attempt_valid v :
  seq_valid v → claim_attempt v = (v, (v + 1) mod 2 ^ 31).
Proof.
  unfold seq_valid, claim_attempt, INITIAL_SEQUENCE_NUMBER, MAX_SEQUENCE_NUMBER, NO_SEQUENCE_NUMBER,
    i32_MAX, i32_MIN. intros Hv.
  destruct (Z.eqb_spec v (- 2 ^ 31)); [lia|]. f_equal.
  destruct (Z.eqb_spec v (2 ^ 31 - 1)) as [->|]; [done|].
  rewrite wrap_s_id by (unfold s_in; lia). symmetry. apply Z.mod_small. lia.
Qed.

Lemma mod31_valid z : seq_valid (z mod 2 ^ 31).
Proof. unfold seq_valid. pose proof (Z.mod_pos_bound z (2 ^ 31) ltac:(done)). unfold INITIAL_SEQUENCE_NUMBER, MAX_SEQUENCE_NUMBER, i32_MAX. lia. Qed.

(** The sequential behaviour: the [n]-th claim after initialisation. *)
Definition nth_claim (n : nat) : Z := Z.of_nat n mod 2 ^ 31.

Lemma claim_reachable_log s :
  claim_reachable s →
  counter s = nth_claim (length (claim_log s)) ∧
  claim_log s = nth_claim <$> seq 0 (length (claim_log s)).
Proof.
  induction 1 as [|s s' _ [IHc IHl] Hstep]; [done|].
  inversion Hstep; subst; cbn [counter claim_log]; [done| |done].
  rewrite length_app, Nat.add_1_r. cbn [length].
  rewrite IHc, claim_attempt_valid by apply mod31_valid. cbn [fst snd].
  rewrite seq_S, fmap_app, <- IHl. split; [|done].
  unfold nth_claim. rewrite Zplus_mod_idemp_l. f_equal. lia.
Qed.

(** ** Properties *)

(** The header codec is exact.  [MessageHeader::decode] accepts a byte
    string with header [h] exactly when [h] fits its machine types, announces
    a packet of at least [HEADER_SIZE] bytes, and the string starts with
    [h]'s encoding; so decoding inverts encoding and accepts nothing else. *)
Theorem header_decode_spec bytes h :
  header_decode bytes = Ok h ↔
  header_wf h ∧ ∃ rest, bytes = header_encode h ++ rest.
Proof.
  split.
  - intros Hd. destruct (header_decode_inv _ _ Hd) as (Hwf & Hlen & Henc).
    split; [done|]. exists (drop HEADER_SIZE bytes). by rewrite Henc, take_drop.
  - intros [Hwf [rest ->]]. by apply header_decode_encode.
Qed.

(** C40: sequence numbers under contention.  Whatever the interleaving of the
    threads that race on one counter, the [i]-th successful claim is
    [i mod 2^31]: claims are the consecutive numbers of the valid range,
    wrapping from [MAX_SEQUENCE_NUMBER] to [INITIAL_SEQUENCE_NUMBER], never
    [NO_SEQUENCE_NUMBER], and no number is handed out twice within a window
    of [2^31] claims. *)
Theorem claim_sequence s :
  claim_reachable s →
  (∀ i v, claim_log s !! i = Some v →
     v = Z.of_nat i mod 2 ^ 31 ∧ INITIAL_SEQUENCE_NUMBER ≤ v ≤ MAX_SEQUENCE_NUMBER ∧
     v ≠ NO_SEQUENCE_NUMBER) ∧
  (∀ i j v, claim_log s !! i = Some v → claim_log s !! j = Some v →
     Z.of_nat i < Z.of_nat j → 2 ^ 31 ≤ Z.of_nat j - Z.of_nat i).
Proof.
  intros Hr. destruct (claim_reachable_log s Hr) as [_ Hlog].
  assert (Hi : ∀ i v, claim_log s !! i = Some v → v = nth_claim i).
  { intros i v Hv. rewrite Hlog, list_lookup_fmap in Hv.
    apply fmap_Some in Hv as (k & Hk & ->). apply lookup_seq in Hk as [-> _]. done. }
  split.
  - intros i v Hv. rewrite (Hi _ _ Hv). split; [done|].
    pose proof (mod31_valid (Z.of_nat i)) as Hval. split; [done|].
    destruct Hval as [H0 _]. intros E. unfold nth_claim in E. rewrite E in H0. by vm_compute in H0.
  - intros i j v Hv1 Hv2 Hij. apply Hi in Hv1. apply Hi in Hv2. unfold nth_claim in *. subst v.
    pose proof (Z.div_mod (Z.of_nat i) (2 ^ 31) ltac:(done)).
    pose proof (Z.div_mod (Z.of_nat j) (2 ^ 31) ltac:(done)). nia.
Qed.

(** Two threads racing: the second one's exchange fails once, then claims 1. *)
Lemma claim_sequence_witness :
  let s := {| counter := 2; locals := ∅; claim_log := [0; 1] |} in
  claim_reachable s ∧ (claim_log s !! 1%nat = Some 1 → 1 = Z.of_nat 1 mod 2 ^ 31).
Proof.
  intros s.
  pose proof claim_reach_init as Hr.
  eapply claim_reach_step in Hr; [|apply (claim_load _ 0%nat); reflexivity].
  eapply claim_reach_step in Hr; [|apply (claim_load _ 1%nat); reflexivity].
  eapply claim_reach_step in Hr; [|apply (claim_exchange_ok _ 0%nat); reflexivity].
  eapply claim_reach_step in Hr; [|apply (claim_exchange_fail _ 1%nat 0); reflexivity].
  eapply claim_reach_step in Hr; [|apply (claim_exchange_ok _ 1%nat); reflexivity].
  change (claim_reachable s) in Hr.
  split; [exact Hr|]. intros H. exact (proj1 (proj1 (claim_sequence s Hr) 1%nat 1 H)).
Defined.
