(* ===== verification/Codec.v ===== *)
(** * hla-wire: the frame codec over a byte stream

    [hla-wire/src/codec.rs].  [codec_decode] is [FedProCodec::decode]: the
    [BytesMut] it is called with is the argument, and what it leaves in it is
    the second component of the result.  [read_frame] is the direct reader of
    the handshake helpers; the stream it reads is the list of the bytes the
    peer sends before closing. *)

From S2P Require Import Prelude Framing.

Definition MAX_PACKET_SIZE : Z := 32 * 1024 * 1024.

(** [Io] stands for [std::io::Error]; only its kind [UnexpectedEof] is
    distinguished by the callers. *)
Inductive CodecError :=
| Io_UnexpectedEof
| Io_Other
| FrameErr (e : FrameError)
| PacketTooLarge (n : Z).

(** [FedProCodec::decode(&mut self, src)] *)
Definition codec_decode (src : list byte) : result CodecError (option Frame) * list byte :=
  if (length src <? 4)%nat then (Ok None, src)
  else
    let ps := from_be_bytes (slice 0 4 src) in
    if ps <? Z.of_nat HEADER_SIZE then (Err (FrameErr (PacketTooSmall ps)), src)
    else if MAX_PACKET_SIZE <? ps then (Err (PacketTooLarge ps), src)
    else
      let n := Z.to_nat ps in
      if (length src <? n)%nat then (Ok None, src)
      else
        let packet := take n src in
        let rest := drop n src in
        match header_decode (take HEADER_SIZE packet) with
        | Err e => (Err (FrameErr e), rest)
        | Ok h => (Ok (Some (Frame_new h (drop HEADER_SIZE packet))), rest)
        end.

(** [FedProCodec::encode(&mut self, frame, dst)] *)
Definition codec_encode (frame : Frame) (dst : list byte) : list byte :=
  dst ++ header_encode (header frame) ++ payload frame.

(** [reader.read_exact(&mut buf)] for a buffer of [n] bytes. *)
Definition read_exact (n : nat) (stream : list byte) : result CodecError (list byte * list byte) :=
  if (length stream <? n)%nat then Err Io_UnexpectedEof else Ok (take n stream, drop n stream).

Definition read_frame (stream : list byte) : result CodecError (Frame * list byte) :=
  '(size_buf, stream1) ← read_exact 4 stream;
  let ps := from_be_bytes size_buf in
  if ps <? Z.of_nat HEADER_SIZE then Err (FrameErr (PacketTooSmall ps))
  else if MAX_PACKET_SIZE <? ps then Err (PacketTooLarge ps)
  else
    '(tail, stream2) ← read_exact (Z.to_nat ps - 4) stream1;
    let buf := size_buf ++ tail in
    match header_decode (take HEADER_SIZE buf) with
    | Err e => Err (FrameErr e)
    | Ok h => Ok (Frame_new h (drop HEADER_SIZE buf), stream2)
    end.

(** [write_frame(writer, frame)]: what it appends to the stream. *)
Definition write_frame (frame : Frame) (written : list byte) : list byte :=
  written ++ (header_encode (header frame) ++ payload frame).

(** A driver of the decoder, as its contract prescribes: append the bytes
    that arrived to the buffer, then take frames until it asks for more. An
    error ends the stream.  [fuel] bounds the frames taken from one chunk; a
    frame has at least [HEADER_SIZE] bytes, so the buffer length suffices. *)
Fixpoint decode_available (fuel : nat) (buf : list byte)
    : list Frame * result CodecError (list byte) :=
  match fuel with
  | O => ([], Ok buf)
  | S fuel' =>
      match codec_decode buf with
      | (Ok None, buf') => ([], Ok buf')
      | (Err e, _) => ([], Err e)
      | (Ok (Some f), buf') =>
          let '(fs, r) := decode_available fuel' buf' in (f :: fs, r)
      end
  end.

Definition on_bytes (buf chunk : list byte) : list Frame * result CodecError (list byte) :=
  let b := buf ++ chunk in decode_available (S (length b)) b.

Fixpoint framed_read (buf : list byte) (chunks : list (list byte))
    : list Frame * result CodecError (list byte) :=
  match chunks with
  | [] => ([], Ok buf)
  | c :: cs =>
      match on_bytes buf c with
      | (fs, Err e) => (fs, Err e)
      | (fs, Ok buf') => let '(gs, r) := framed_read buf' cs in (fs ++ gs, r)
      end
  end.

(** ** Well-formed frames: what the node builds and the codec accepts *)

Definition frame_wf (f : Frame) : Prop :=
  header_wf (header f) ∧
  packet_size (header f) = Z.of_nat HEADER_SIZE + Z.of_nat (length (payload f)) ∧
  packet_size (header f) ≤ MAX_PACKET_SIZE.

Lemma length_frame_encode f :
  frame_wf f → length (frame_encode f) = Z.to_nat (packet_size (header f)).
Proof.
  intros (_ & Hp & _). unfold frame_encode. rewrite length_app, length_header_encode, Hp. lia.
Qed.

Lemma size_prefix f rest n :
  header_wf (header f) → (4 ≤ n)%nat →
  from_be_bytes (slice 0 4 (take n (frame_encode f ++ rest))) = packet_size (header f).
Proof.
  intros (Hps & _) Hn. rewrite slice_whole, take_take, Nat.min_l by lia.
  unfold frame_encode, header_encode. rewrite <- !app_assoc.
  rewrite take_app_length' by by rewrite length_to_be_bytes. by apply (from_to_be_bytes_u 4).
Qed.

Lemma codec_decode_frame f rest :
  frame_wf f → codec_decode (frame_encode f ++ rest) = (Ok (Some f), rest).
Proof.
  intros Hf. pose proof (length_frame_encode f Hf) as Hlen.
  pose proof Hf as ((Hps & Hmin & Hrest) & Hp & Hmax).
  assert (HH : (HEADER_SIZE ≤ Z.to_nat (packet_size (header f)))%nat) by (unfold HEADER_SIZE in *; lia).
  unfold codec_decode. rewrite length_app, Hlen.
  destruct (Nat.ltb_spec (Z.to_nat (packet_size (header f)) + length rest) 4); [unfold HEADER_SIZE in *; lia|].
  pose proof (size_prefix f rest (length (frame_encode f ++ rest)) (proj1 Hf)) as Hsz.
  rewrite firstn_all in Hsz. rewrite Hsz by (rewrite length_app, Hlen; unfold HEADER_SIZE in *; lia).
  destruct (Z.ltb_spec (packet_size (header f)) (Z.of_nat HEADER_SIZE)); [lia|].
  destruct (Z.ltb_spec MAX_PACKET_SIZE (packet_size (header f))); [lia|].
  destruct (Nat.ltb_spec (Z.to_nat (packet_size (header f)) + length rest)
              (Z.to_nat (packet_size (header f)))); [lia|].
  rewrite <- Hlen, take_app_length, drop_app_length. unfold frame_encode.
  rewrite take_app_length', drop_app_length' by by rewrite length_header_encode.
  rewrite <- (app_nil_r (header_encode (header f))).
  rewrite header_decode_encode by done. by destruct f.
Qed.

(** A strict prefix of a frame is waited for, and left untouched. *)
Lemma codec_decode_partial f n :
  frame_wf f → (n < length (frame_encode f))%nat →
  codec_decode (take n (frame_encode f)) = (Ok None, take n (frame_encode f)).
Proof.
  intros Hf Hn. pose proof (length_frame_encode f Hf) as Hlen.
  pose proof Hf as ((Hps & Hmin & _) & Hp & Hmax). unfold codec_decode.
  rewrite length_take, Nat.min_l by lia.
  destruct (Nat.ltb_spec n 4); [done|].
  pose proof (size_prefix f [] n (proj1 Hf) ltac:(lia)) as Hsz. rewrite app_nil_r in Hsz. rewrite Hsz.
  destruct (Z.ltb_spec (packet_size (header f)) (Z.of_nat HEADER_SIZE)); [lia|].
  destruct (Z.ltb_spec MAX_PACKET_SIZE (packet_size (header f))); [lia|].
  destruct (Nat.ltb_spec n (Z.to_nat (packet_size (header f)))); [done|lia].
Qed.

(** A packet that is too large is refused as soon as its length is there. *)
Lemma codec_decode_large f rest n :
  header_wf (header f) → MAX_PACKET_SIZE < packet_size (header f) →
  let src := take n (frame_encode f ++ rest) in
  codec_decode src = if (length src <? 4)%nat then (Ok None, src) else (Err (PacketTooLarge (packet_size (header f))), src).
Proof.
  intros Hf Hbig src. unfold codec_decode. destruct (Nat.ltb_spec (length src) 4) as [|Hl]; [done|].
  assert (from_be_bytes (slice 0 4 src) = packet_size (header f)) as ->.
  { apply size_prefix; [done|]. unfold src in Hl. rewrite length_take in Hl. lia. }
  destruct Hf as (_ & Hmin & _). destruct (Z.ltb_spec (packet_size (header f)) (Z.of_nat HEADER_SIZE)); [lia|].
  by destruct (Z.ltb_spec MAX_PACKET_SIZE (packet_size (header f))); [|lia].
Qed.

(** ** Streams of frames *)

Definition stream_of (fs : list Frame) : list byte := concat (frame_encode <$> fs).

Lemma frame_encode_nonempty f : frame_wf f → (HEADER_SIZE ≤ length (frame_encode f))%nat.
Proof. intros Hf. unfold frame_encode. rewrite length_app, length_header_encode. lia. Qed.

(** What the decoder makes of the first [n] bytes of a stream: some whole
    frames, and a partial frame that stays in the buffer. *)
Lemma decode_available_prefix fs n fuel :
  Forall frame_wf fs → (n ≤ length (stream_of fs))%nat → (n < fuel)%nat →
  ∃ gs hs k, fs = gs ++ hs ∧
    decode_available fuel (take n (stream_of fs)) = (gs, Ok (take k (stream_of hs))) ∧
    n = (length (stream_of gs) + k)%nat ∧ (k ≤ length (stream_of hs))%nat ∧
    (∀ f hs', hs = f :: hs' → (k < length (frame_encode f))%nat).
Proof.
  intros Hwf. revert n fuel. induction Hwf as [|f fs Hf Hfs IH]; intros n fuel Hn Hfuel.
  { exists [], [], 0%nat. simpl in *. assert (n = 0%nat) as -> by (simpl in Hn; lia).
    destruct fuel; [lia|]. done. }
  destruct fuel as [|fuel]; [lia|].
  change (stream_of (f :: fs)) with (frame_encode f ++ stream_of fs) in *.
  pose proof (frame_encode_nonempty f Hf) as Hne. rewrite length_app in Hn.
  destruct (decide (n < length (frame_encode f))%nat) as [Hlt|Hge].
  - exists [], (f :: fs), n. split; [done|]. cbn [decode_available].
    change (stream_of (f :: fs)) with (frame_encode f ++ stream_of fs).
    rewrite take_app_le, codec_decode_partial by (done || lia).
    split; [done|]. rewrite length_app. cbn. split_and!; [lia|lia|]. by intros ? ? [= -> ->].
  - destruct (IH (n - length (frame_encode f))%nat fuel) as (gs & hs & k & -> & Hd & Hk & Hle & Hp);
      [lia|unfold HEADER_SIZE in *; lia|].
    exists (f :: gs), hs, k. split; [done|]. cbn [decode_available].
    rewrite take_app_ge by lia. rewrite codec_decode_frame by done. rewrite Hd. split; [done|].
    change (stream_of (f :: gs)) with (frame_encode f ++ stream_of gs). rewrite length_app.
    split_and!; [lia|lia|done].
Qed.

Lemma framed_read_from fs n chunks :
  Forall frame_wf fs → (n ≤ length (stream_of fs))%nat →
  take n (stream_of fs) ++ concat chunks = stream_of fs →
  (∀ f fs', fs = f :: fs' → (n < length (frame_encode f))%nat) →
  framed_read (take n (stream_of fs)) chunks = (fs, Ok []).
Proof.
  revert fs n. induction chunks as [|c cs IH]; intros fs n Hwf Hn Hcat Hpart; cbn [concat framed_read] in *.
  { rewrite app_nil_r in Hcat.
    destruct fs as [|f fs]; [by destruct n|]. exfalso.
    apply (f_equal length) in Hcat. rewrite length_take in Hcat.
    specialize (Hpart f fs eq_refl).
    change (stream_of (f :: fs)) with (frame_encode f ++ stream_of fs) in *.
    rewrite ?length_app in Hn, Hcat. lia. }
  set (m := (n + length c)%nat).
  assert (Hbuf : take n (stream_of fs) ++ c = take m (stream_of fs)).
  { rewrite <- Hcat at 2. rewrite app_assoc, take_app_length'; [done|].
    rewrite length_app, length_take. lia. }
  assert (Hm : (m ≤ length (stream_of fs))%nat).
  { rewrite <- Hcat, !length_app, length_take. lia. }
  unfold on_bytes. rewrite Hbuf.
  destruct (decode_available_prefix fs m (S (length (take m (stream_of fs)))))
    as (gs & hs & k & -> & -> & Hmk & Hk & Hp); [done|done|rewrite length_take; lia|].
  assert (Hs : stream_of (gs ++ hs) = stream_of gs ++ stream_of hs).
  { unfold stream_of. by rewrite fmap_app, concat_app. }
  rewrite Hs in *. apply Forall_app in Hwf as [Hg Hh].
  rewrite (IH hs k); [done|done|done| |done].
  apply (app_inv_head (stream_of gs)). rewrite <- Hcat. clear Hcat.
  rewrite (app_assoc _ c), Hbuf, take_app_ge by lia.
  replace (m - length (stream_of gs))%nat with k by lia. by rewrite app_assoc.
Qed.

(** ** Properties *)

(** Chunking is invisible.  However the transport splits the bytes of a
    sequence of well-formed frames into reads, the decoder delivers exactly
    those frames, in order, and ends with an empty buffer: a read that is
    cut short loses nothing and desynchronises nothing. *)
Theorem framed_read_chunks fs chunks :
  Forall frame_wf fs → concat chunks = stream_of fs →
  framed_read [] chunks = (fs, Ok []).
Proof.
  intros Hwf Hcat. rewrite <- (take_0 (stream_of fs)).
  apply framed_read_from; [done|lia|by rewrite take_0|].
  intros f fs' ->. apply Forall_cons in Hwf as [Hf _].
  pose proof (frame_encode_nonempty f Hf). unfold HEADER_SIZE in *. lia.
Qed.

Lemma framed_read_chunks_witness :
  let fs := [new_session_frame; resume_request_frame 1 10 5] in
  let bytes := stream_of fs in
  framed_read [] [take 3 bytes; slice 3 30 bytes; drop 30 bytes] = (fs, Ok []).
Proof.
  intros fs bytes. apply framed_read_chunks.
  - repeat constructor; vm_compute; split_and?; congruence.
  - vm_compute. reflexivity.
Defined.

(** The two decoders agree.  On any byte stream, [read_frame] succeeds
    exactly when one call of [FedProCodec::decode] on the same bytes yields a
    frame, with the same frame and the same remaining bytes; where the codec
    asks for more bytes, [read_frame] meets the end of the stream, and they
    fail with the same protocol error otherwise. *)
Theorem read_frame_codec stream :
  read_frame stream =
  match codec_decode stream with
  | (Ok (Some f), rest) => Ok (f, rest)
  | (Ok None, _) => Err Io_UnexpectedEof
  | (Err e, _) => Err e
  end.
Proof.
  unfold read_frame, codec_decode, read_exact. simpl.
  destruct (Nat.ltb_spec (length stream) 4) as [|H4]; [done|]. simpl.
  rewrite slice_whole. set (ps := from_be_bytes (take 4 stream)).
  destruct (Z.ltb_spec ps (Z.of_nat HEADER_SIZE)) as [|Hmin]; [done|].
  destruct (Z.ltb_spec MAX_PACKET_SIZE ps); [done|]. simpl.
  assert (4 ≤ Z.to_nat ps)%nat by (unfold HEADER_SIZE in Hmin; lia).
  rewrite length_drop.
  destruct (Nat.ltb_spec (length stream - 4) (Z.to_nat ps - 4)),
    (Nat.ltb_spec (length stream) (Z.to_nat ps)); try lia; [done|]. simpl.
  rewrite take_take_drop, drop_drop.
  replace (4 + (Z.to_nat ps - 4))%nat with (Z.to_nat ps) by lia.
  by destruct (header_decode _).
Qed.
