(* ===== verification/Transport.v ===== *)
(** * hla-wire: frame transports

    [hla-wire/src/transport.rs] and [ws.rs].  The traits [FrameSource] and
    [FrameSink] are classes; the byte-stream and the WebSocket halves are
    their instances.  What the session layer relies on is a queue of frames:
    [SourceLaws] and [SinkLaws].

    The environment of a source is what the peer will send: for a byte stream
    the non-empty reads the socket returns before the end of the stream, for
    a WebSocket the messages.  Whether a write succeeds is the environment's
    choice as well.  [tokio_util]'s [FramedRead] is modelled by its contract:
    call the decoder, read more when it asks for more, stop after an error;
    at the end of the stream, leftover bytes are an error. *)

From S2P Require Import Prelude Framing Codec.

Class FrameSource (S : Type) := recv_frame : S → result CodecError Frame * S.
Class FrameSink (K : Type) := send_frame : Frame → K → result CodecError unit * K.

(** ** Byte streams *)

Record AsyncReadSource := mkAsyncReadSource {
  ar_buffer : list byte;
  ar_incoming : list (list byte);
  ar_errored : bool
}.
Definition AsyncReadSource_new (incoming : list (list byte)) : AsyncReadSource :=
  mkAsyncReadSource [] incoming false.

(** [self.framed.next().await] *)
Fixpoint framed_next (buf : list byte) (incoming : list (list byte))
    : option (result CodecError Frame) * AsyncReadSource :=
  match codec_decode buf with
  | (Ok (Some f), buf') => (Some (Ok f), mkAsyncReadSource buf' incoming false)
  | (Err e, buf') => (Some (Err e), mkAsyncReadSource buf' incoming true)
  | (Ok None, buf') =>
      match incoming with
      | c :: cs => framed_next (buf' ++ c) cs
      | [] =>
          if decide (buf' = []) then (None, mkAsyncReadSource [] [] false)
          else (Some (Err Io_Other), mkAsyncReadSource buf' [] true)
      end
  end.

#[export] Instance AsyncReadSource_source : FrameSource AsyncReadSource := λ s,
  let '(r, s') := if ar_errored s then (None, s) else framed_next (ar_buffer s) (ar_incoming s) in
  match r with
  | Some (Ok frame) => (Ok frame, s')
  | Some (Err e) => (Err e, s')
  | None => (Err Io_UnexpectedEof, s')
  end.

Record AsyncWriteSink := mkAsyncWriteSink { aw_written : list byte; aw_writable : bool }.
#[export] Instance AsyncWriteSink_sink : FrameSink AsyncWriteSink := λ frame k,
  if aw_writable k then (Ok tt, mkAsyncWriteSink (codec_encode frame (aw_written k)) true)
  else (Err Io_Other, k).

(** ** WebSockets *)

(** What the stream yields: a message or a read error. *)
Inductive Message :=
| Binary (bytes : list byte)
| Close
| OtherMessage
| ReadError.

Record WsFrameSource := mkWsFrameSource { ws_incoming : list Message }.

Fixpoint ws_recv (incoming : list Message) : result CodecError Frame * list Message :=
  match incoming with
  | [] => (Err Io_UnexpectedEof, [])
  | ReadError :: ms => (Err Io_Other, ms)
  | Binary bytes :: ms =>
      if (length bytes <? HEADER_SIZE)%nat
      then (Err (FrameErr (Truncated HEADER_SIZE (length bytes))), ms)
      else match header_decode (take HEADER_SIZE bytes) with
           | Err e => (Err (FrameErr e), ms)
           | Ok header => (Ok (Frame_new header (drop HEADER_SIZE bytes)), ms)
           end
  | Close :: ms => (Err Io_UnexpectedEof, ms)
  | OtherMessage :: ms => ws_recv ms
  end.

#[export] Instance WsFrameSource_source : FrameSource WsFrameSource := λ s,
  let '(r, ms) := ws_recv (ws_incoming s) in (r, mkWsFrameSource ms).

Record WsFrameSink := mkWsFrameSink { ws_sent : list Message; ws_writable : bool }.
#[export] Instance WsFrameSink_sink : FrameSink WsFrameSink := λ frame k,
  if ws_writable k then (Ok tt, mkWsFrameSink (ws_sent k ++ [Binary (frame_encode frame)]) true)
  else (Err Io_Other, k).

(** ** The contract: a queue of frames

    [holds fs s]: the frames [fs], and then the end of the stream, are what
    [s] will yield.  [sent fs k]: [k] has accepted [fs] and accepts more. *)
Class SourceLaws (S : Type) `{FrameSource S} (holds : list Frame → S → Prop) : Prop := {
  recv_next f fs s : holds (f :: fs) s → ∃ s', recv_frame s = (Ok f, s') ∧ holds fs s';
  recv_end s : holds [] s → (recv_frame s).1 = Err Io_UnexpectedEof
}.
Class SinkLaws (K : Type) `{FrameSink K} (sent : list Frame → K → Prop) : Prop :=
  send_next f fs k : sent fs k → ∃ k', send_frame f k = (Ok tt, k') ∧ sent (fs ++ [f]) k'.

Definition stream_holds (fs : list Frame) (s : AsyncReadSource) : Prop :=
  Forall frame_wf fs ∧ ar_errored s = false ∧ ar_buffer s ++ concat (ar_incoming s) = stream_of fs.
Definition stream_sent (fs : list Frame) (k : AsyncWriteSink) : Prop :=
  aw_writable k = true ∧ aw_written k = stream_of fs.

(** Messages that are skipped may come between frames; a close ends it. *)
Inductive ws_holds_msgs : list Frame → list Message → Prop :=
| ws_end : ws_holds_msgs [] []
| ws_close ms : ws_holds_msgs [] (Close :: ms)
| ws_other fs ms : ws_holds_msgs fs ms → ws_holds_msgs fs (OtherMessage :: ms)
| ws_frame f fs ms : header_wf (header f) → ws_holds_msgs fs ms → ws_holds_msgs (f :: fs) (Binary (frame_encode f) :: ms).
Definition ws_holds (fs : list Frame) (s : WsFrameSource) : Prop := ws_holds_msgs fs (ws_incoming s).
Definition ws_sent_frames (fs : list Frame) (k : WsFrameSink) : Prop :=
  ws_writable k = true ∧ ws_sent k = Binary ∘ frame_encode <$> fs.

(** A buffer that starts a stream of frames yields the first of them, or is
    part of it. *)
Lemma decode_stream_start f rest buf tail :
  frame_wf f → buf ++ tail = frame_encode f ++ rest →
  (length (frame_encode f) ≤ length buf)%nat ∧
    codec_decode buf = (Ok (Some f), drop (length (frame_encode f)) buf) ∧
    drop (length (frame_encode f)) buf ++ tail = rest ∨
  (length buf < length (frame_encode f))%nat ∧ codec_decode buf = (Ok None, buf).
Proof.
  intros Hf Heq. destruct (decide (length (frame_encode f) ≤ length buf)%nat) as [Hle|Hlt].
  - left. split; [done|]. set (n := length (frame_encode f)).
    assert (Ht : take n buf = frame_encode f).
    { apply (f_equal (take n)) in Heq. rewrite take_app_le in Heq by done. unfold n in Heq. by rewrite take_app_length in Heq. }
    assert (Hb : buf = frame_encode f ++ drop n buf) by (by rewrite <- Ht, take_drop).
    split; [rewrite Hb at 1; by apply codec_decode_frame|].
    rewrite Hb, <- app_assoc in Heq. by apply app_inv_head in Heq.
  - right. split; [lia|].
    assert (Hb : buf = take (length buf) (frame_encode f)).
    { apply (f_equal (take (length buf))) in Heq. by rewrite take_app_length, take_app_le in Heq by lia. }
    rewrite Hb. apply codec_decode_partial; [done|lia].
Qed.

Lemma framed_next_frame f rest incoming buf :
  frame_wf f → buf ++ concat incoming = frame_encode f ++ rest →
  ∃ buf' incoming', framed_next buf incoming = (Some (Ok f), mkAsyncReadSource buf' incoming' false) ∧
    buf' ++ concat incoming' = rest.
Proof.
  intros Hf. revert buf.
  induction incoming as [|c cs IH]; intros buf Heq; cbn [framed_next concat] in *;
    destruct (decode_stream_start f rest buf _ Hf Heq) as [(_ & -> & Hrest)|[Hlt Hd]].
  1, 3: eexists _, _; split; [done|]; done.
  - exfalso. apply (f_equal length) in Heq. rewrite app_nil_r, length_app in Heq. lia.
  - rewrite Hd. apply IH. by rewrite <- app_assoc.
Qed.

(** A source at a packet that is too large. *)
Lemma framed_next_large f rest incoming buf :
  header_wf (header f) → MAX_PACKET_SIZE < packet_size (header f) → buf ++ concat incoming = frame_encode f ++ rest →
  ∃ s', framed_next buf incoming = (Some (Err (PacketTooLarge (packet_size (header f)))), s') ∧ ar_errored s' = true.
Proof.
  intros Hf Hbig. revert buf. induction incoming as [|c cs IH]; intros buf Heq; cbn [framed_next concat] in *;
    pose proof (codec_decode_large f rest (length buf) Hf Hbig) as Hd; cbv zeta in Hd;
    rewrite <- Heq, take_app_length in Hd; rewrite Hd; destruct (Nat.ltb_spec (length buf) 4) as [Hl|Hl].
  2, 4: by eexists.
  - exfalso. apply (f_equal length) in Heq. unfold frame_encode in Heq.
    rewrite app_nil_r, !length_app, length_header_encode in Heq. unfold HEADER_SIZE in Heq. lia.
  - apply IH. by rewrite <- app_assoc.
Qed.

#[export] Instance AsyncReadSource_laws : SourceLaws AsyncReadSource stream_holds.
Proof.
  split.
  - intros f fs s (Hwf & He & Heq). unfold recv_frame, AsyncReadSource_source. rewrite He.
    apply Forall_cons in Hwf as [Hf Hfs].
    destruct (framed_next_frame f (stream_of fs) _ _ Hf Heq) as (buf' & inc' & -> & Hs). by eexists.
  - intros s (_ & He & Heq). apply app_nil in Heq as [Hb Hc]. unfold recv_frame, AsyncReadSource_source.
    rewrite He, Hb. clear He Hb. induction (ar_incoming s) as [|c cs IH]; [done|].
    simpl in Hc. apply app_nil in Hc as [-> Hc]. simpl. by apply IH.
Qed.

#[export] Instance AsyncWriteSink_laws : SinkLaws AsyncWriteSink stream_sent.
Proof.
  intros f fs [w b] [Hw Hs]. simpl in *. subst. eexists. split; [done|]. split; [done|]. simpl.
  unfold codec_encode, stream_of. rewrite fmap_app, concat_app. simpl. by rewrite app_nil_r.
Qed.

#[export] Instance WsFrameSource_laws : SourceLaws WsFrameSource ws_holds.
Proof.
  split.
  - intros f fs [ms]. unfold ws_holds, recv_frame, WsFrameSource_source. cbn [ws_incoming].
    intros Hms. remember (f :: fs) as l eqn:Hl. induction Hms as [| |fs' ms' _ IH|f' fs' ms' Hf Hms _]; [done..| |].
    + by apply IH.
    + injection Hl as -> ->. cbn [ws_recv]. assert (Hlen : (HEADER_SIZE ≤ length (frame_encode f))%nat) by (unfold frame_encode; rewrite length_app, length_header_encode; lia).
      destruct (Nat.ltb_spec (length (frame_encode f)) HEADER_SIZE); [lia|].
      unfold frame_encode at 1 2. rewrite take_app_length', drop_app_length' by by rewrite length_header_encode.
      rewrite <- (app_nil_r (header_encode (header f))), header_decode_encode by done.
      eexists. split; [by destruct f|done].
  - intros [ms]. unfold ws_holds, recv_frame, WsFrameSource_source. cbn [ws_incoming].
    intros Hms. remember [] as l eqn:Hl. induction Hms as [| |fs' ms' _ IH|f' fs' ms' Hf Hms _]; [done..| |done].
    by apply IH.
Qed.

#[export] Instance WsFrameSink_laws : SinkLaws WsFrameSink ws_sent_frames.
Proof.
  intros f fs [w b] [Hw Hs]. simpl in *. subst. eexists. split; [done|]. split; [done|]. simpl. by rewrite fmap_app.
Qed.

(** ** End to end *)

Section queue.
Context {S K : Type} `{SourceLaws S holds} `{SinkLaws K sent}.

Fixpoint recv_n (n : nat) (s : S) : list (result CodecError Frame) :=
  match n with
  | O => []
  | Datatypes.S n => let '(r, s') := recv_frame s in r :: recv_n n s'
  end.
Definition send_all (fs : list Frame) (k : K) : K := foldl (λ k f, (send_frame f k).2) k fs.

Lemma recv_holds fs s : holds fs s → recv_n (Datatypes.S (length fs)) s = (Ok <$> fs) ++ [Err Io_UnexpectedEof].
Proof using All.
  revert s. induction fs as [|f fs IH]; intros s Hs.
  - pose proof (recv_end s Hs) as He. cbn [recv_n length]. destruct (recv_frame s) as [r s']. simpl in *. by rewrite He.
  - destruct (recv_next f fs s Hs) as (s' & Hr & Hs'). specialize (IH s' Hs'). cbn [length] in *.
    change (recv_n (Datatypes.S (Datatypes.S (length fs))) s) with
      (let '(r, s') := recv_frame s in r :: recv_n (Datatypes.S (length fs)) s'). by rewrite Hr, IH.
Qed.

Lemma send_all_sent fs0 fs k : sent fs0 k → sent (fs0 ++ fs) (send_all fs k).
Proof using All.
  revert fs0 k. induction fs as [|f fs IH]; intros fs0 k Hk; [by rewrite app_nil_r|].
  destruct (send_next f fs0 k Hk) as (k' & Hs & Hk'). unfold send_all. cbn [foldl]. rewrite Hs.
  rewrite cons_middle, app_assoc. by apply IH.
Qed.
End queue.

#[export] Instance Message_eq_dec : EqDecision Message.
Proof. solve_decision. Defined.

(** The messages of a WebSocket that carry or end frames. *)
Definition not_skipped (ms : list Message) : list Message := filter (λ m, m ≠ OtherMessage) ms.

(** The frames have been received when the peer ends or closes the stream. *)
Definition ended (ms : list Message) : Prop := ms = [] ∨ ∃ ms', ms = Close :: ms'.

Lemma not_skipped_holds fs ms rest :
  Forall (header_wf ∘ header) fs → ended rest → not_skipped ms = (Binary ∘ frame_encode <$> fs) ++ rest → ws_holds_msgs fs ms.
Proof.
  intros Hwf Hend. revert fs Hwf. induction ms as [|m ms IH]; intros fs Hwf Hms.
  - destruct fs; [constructor|done].
  - unfold not_skipped in Hms. rewrite filter_cons in Hms. case_decide as Hm.
    + destruct fs as [|f fs].
      * destruct Hend as [->|[ms' ->]]; [done|]. injection Hms as -> _. constructor.
      * injection Hms as -> Hms. apply Forall_cons in Hwf as [Hf Hfs]. constructor; [done|]. by apply IH.
    + destruct (decide (m = OtherMessage)) as [->|]; [|done]. constructor. by apply IH.
Qed.

(** A byte-stream source yields the frames before a packet that is too large,
    and stops there. *)
Lemma recv_until_large fs big gs s :
  Forall frame_wf fs → header_wf (header big) → MAX_PACKET_SIZE < packet_size (header big) →
  ar_errored s = false → ar_buffer s ++ concat (ar_incoming s) = stream_of (fs ++ big :: gs) →
  recv_n (length fs + 2) s = (Ok <$> fs) ++ [Err (PacketTooLarge (packet_size (header big))); Err Io_UnexpectedEof].
Proof.
  intros Hfs Hbig Hlarge. revert s. induction Hfs as [|f fs Hf _ IH]; intros s He Heq.
  - destruct (framed_next_large big (stream_of gs) _ _ Hbig Hlarge Heq) as (s' & Hn & He').
    cbn [length Nat.add recv_n recv_frame]. unfold recv_frame, AsyncReadSource_source. by rewrite He, Hn, He'.
  - destruct (framed_next_frame f (stream_of (fs ++ big :: gs)) _ _ Hf Heq) as (buf' & inc' & Hn & Hrest).
    cbn [length Nat.add recv_n]. unfold recv_frame at 1, AsyncReadSource_source at 1. rewrite He, Hn.
    by rewrite (IH (mkAsyncReadSource buf' inc' false) eq_refl Hrest).
Qed.


