(* ===== verification/WireSession.v ===== *)
(** * hla-wire: the session handshake and the single-request client

    [hla-wire/src/session.rs] and [call.rs].  A function that reads and writes
    is a computation of [M] over its endpoint, with [SessionError] as the
    early return of [?]: the input of an endpoint is all the peer will send
    it, so what a function does between writing a request and reading the
    answer is what it does once that answer is there. *)

From S2P Require Import Prelude Framing Codec Transport.

Definition DEFAULT_PORT : Z := 15164.
(** Durations in milliseconds. *)
Definition Duration : Type := Z.
Definition from_secs (n : Z) : Duration := n * 1000.
Definition HEARTBEAT_INTERVAL : Duration := from_secs 60.
Definition RTI_MISSING_TIMEOUT : Duration := from_secs 180.
Definition RECONNECT_WINDOW : Duration := from_secs 600.

Inductive SessionState := New | Starting | Running | Terminating | Terminated | Dropped_ | Resuming.

Inductive SessionError :=
| CodecErr (e : CodecError)
| NotRunning (state : SessionState)
| RtiTimeout
| Dropped
| UnexpectedMessageType (got expected : MessageType)
| ResponseMismatch (expected got : Z)
| SessionRejected (reason : NewSessionStatusReason)
| UnsupportedVersion (version : Z).

Inductive TransportKind := Tcp | Tls | WebSocket | WebSocketSecure.

Record SessionConfig := mkSessionConfig {
  sc_transport : TransportKind;
  sc_host : string;
  sc_port : Z;
  sc_heartbeat : Duration;
  sc_rti_missing_timeout : Duration;
  sc_reconnect_window : Duration
}.
Definition SessionConfig_default : SessionConfig :=
  mkSessionConfig Tcp "localhost" DEFAULT_PORT HEARTBEAT_INTERVAL RTI_MISSING_TIMEOUT RECONNECT_WINDOW.

Record Session := mkSession { s_state : SessionState; s_session_id : Z; s_config : SessionConfig }.
Definition Session_close (_ : Session) : result SessionError unit := Ok tt.
Definition Session_open (config : SessionConfig) : result SessionError Session := Ok (mkSession New 0 config).

Record NewSessionAck := mkNewSessionAck { ack_session_id : Z; ack_state : SessionState }.

(** ** Endpoints *)

(** An already-connected stream: what will be read, what was written. *)
Record Stream := mkStream { st_in : list byte; st_out : list byte; st_writable : bool }.

(** [write_frame(stream, &frame).await?] and [read_frame(stream).await?].  A
    failed read leaves the stream where it was; no caller reads on after one. *)
Definition stream_write {St} (get : St → Stream) (set : Stream → St → St) (frame : Frame) : M St SessionError unit :=
  s ← gets get;
  return_if (negb (st_writable s)) (CodecErr Io_Other);;
  modify (set (mkStream (st_in s) (write_frame frame (st_out s)) true)).
Definition stream_read {St} (get : St → Stream) (set : Stream → St → St) : M St SessionError Frame :=
  s ← gets get;
  p ← ok_or_return (read_frame (st_in s)) CodecErr;
  modify (set (mkStream p.2 (st_out s) (st_writable s)));;
  mret p.1.

Definition whole {A} (a : A) : A → A := λ _, a.

Definition parse_new_session_status (response : Frame) : result SessionError NewSessionAck :=
  if decide (message_type (header response) ≠ CtrlNewSessionStatus)
  then Err (UnexpectedMessageType (message_type (header response)) CtrlNewSessionStatus)
  else
    status ← map_err (λ e, CodecErr (FrameErr e)) (NewSessionStatusPayload_decode (payload response));
    if decide (nss_reason status ≠ Success) then Err (SessionRejected (nss_reason status))
    else Ok (mkNewSessionAck (session_id (header response)) Running).

Definition client_open_session : M Stream SessionError NewSessionAck :=
  stream_write id whole new_session_frame;;
  response ← stream_read id whole;
  ok_or_return (parse_new_session_status response) id.

(** [(reason, result)] for the version the federate asked for. *)
Definition accept_version (version : Z) : NewSessionStatusReason * option SessionError :=
  if version =? FEDERATE_PROTOCOL_VERSION then (Success, None)
  else (UnsupportedProtocolVersion, Some (UnsupportedVersion version)).

Definition status_frame (assigned_session_id : Z) (request : Frame) (reason : NewSessionStatusReason) : Frame :=
  Frame_new
    (with_payload_size (Z.of_nat NewSessionStatusPayload_SIZE) NO_SEQUENCE_NUMBER assigned_session_id
       (sequence_number (header request)) CtrlNewSessionStatus)
    (NewSessionStatusPayload_encode {| nss_reason := reason |}).

Definition server_accept_session (assigned_session_id : Z) : M Stream SessionError unit :=
  request ← stream_read id whole;
  return_if (bool_decide (message_type (header request) ≠ CtrlNewSession))
    (UnexpectedMessageType (message_type (header request)) CtrlNewSession);;
  payload ← ok_or_return (NewSessionPayload_decode (payload request)) (λ e, CodecErr (FrameErr e));
  let '(reason, result) := accept_version (protocol_version payload) in
  stream_write id whole (status_frame assigned_session_id request reason);;
  match result with Some e => ret_early e | None => mret tt end.

(** ** The same over any transport *)

Section frames.
Context {R W : Type} `{FrameSource R} `{FrameSink W}.

Definition send (frame : Frame) : M (R * W) SessionError unit :=
  s ← gets id;
  let '(r, k) := send_frame frame s.2 in
  modify (λ _, (s.1, k));;
  ok_or_return r CodecErr.
Definition recv : M (R * W) SessionError Frame :=
  s ← gets id;
  let '(r, source) := recv_frame s.1 in
  modify (λ _, (source, s.2));;
  ok_or_return r CodecErr.

Definition client_open_session_frames : M (R * W) SessionError NewSessionAck :=
  send new_session_frame;;
  response ← recv;
  ok_or_return (parse_new_session_status response) id.

Definition server_accept_session_frames (assigned_session_id : Z) : M (R * W) SessionError unit :=
  request ← recv;
  return_if (bool_decide (message_type (header request) ≠ CtrlNewSession))
    (UnexpectedMessageType (message_type (header request)) CtrlNewSession);;
  payload ← ok_or_return (NewSessionPayload_decode (payload request)) (λ e, CodecErr (FrameErr e));
  let '(reason, result) := accept_version (protocol_version payload) in
  send (status_frame assigned_session_id request reason);;
  match result with Some e => ret_early e | None => mret tt end.
End frames.

(** ** The single-request client *)

Record ClientSeqState := mkClientSeqState { cs_session_id : Z; next_outbound : Z; last_received : Z }.
Definition ClientSeqState_new (sid : Z) : ClientSeqState := mkClientSeqState sid 1 0.

Record Caller := mkCaller { ca_stream : Stream; ca_state : ClientSeqState }.
Definition set_ca_stream (s : Stream) (c : Caller) : Caller := mkCaller s (ca_state c).
Definition set_ca_state (g : ClientSeqState → ClientSeqState) (c : Caller) : Caller :=
  mkCaller (ca_stream c) (g (ca_state c)).
Definition bump_outbound (st : ClientSeqState) : ClientSeqState :=
  mkClientSeqState (cs_session_id st) (wrap_s 32 (next_outbound st + 1)) (last_received st).

Definition send_hla_call (request_body : list byte) : M Caller SessionError (list byte) :=
  st ← gets ca_state;
  let request_seq := next_outbound st in
  modify (set_ca_state bump_outbound);;
  stream_write ca_stream set_ca_stream
    (hla_call_request_frame request_seq (cs_session_id st) (last_received st) request_body);;
  response ← stream_read ca_stream set_ca_stream;
  modify (set_ca_state (λ st, mkClientSeqState (cs_session_id st) (next_outbound st)
    (sequence_number (header response))));;
  return_if (bool_decide (message_type (header response) ≠ HlaCallResponse))
    (UnexpectedMessageType (message_type (header response)) HlaCallResponse);;
  payload ← ok_or_return (HlaCallResponsePayload_decode (payload response)) (λ e, CodecErr (FrameErr e));
  return_if (negb (response_to_sequence_number payload =? request_seq))
    (ResponseMismatch request_seq (response_to_sequence_number payload));;
  mret (body payload).

Definition terminate_session : M Caller SessionError unit :=
  st ← gets ca_state;
  let hdr := with_payload_size 0 (next_outbound st) (cs_session_id st) (last_received st) CtrlTerminateSession in
  modify (set_ca_state bump_outbound);;
  stream_write ca_stream set_ca_stream (Frame_new hdr []);;
  response ← stream_read ca_stream set_ca_stream;
  return_if (bool_decide (message_type (header response) ≠ CtrlSessionTerminated))
    (UnexpectedMessageType (message_type (header response)) CtrlSessionTerminated);;
  mret tt.

(** ** The handshake over a transport that keeps its contract *)

Section handshake.
Context {R W : Type} `{SourceLaws R holds} `{SinkLaws W sent}.

Lemma recv_ok f fs (r : R) (k : W) : holds (f :: fs) r → ∃ r', recv (r, k) = ((r', k), inr f) ∧ holds fs r'.
Proof using All.
  intros Hr. destruct (recv_next f fs r Hr) as (r' & He & Hr'). exists r'. split; [|done].
  unfold recv. rewrite bind_gets. simpl. by rewrite He.
Qed.

Lemma recv_eof (r : R) (k : W) : holds [] r → ∃ r', recv (r, k) = ((r', k), inl (CodecErr Io_UnexpectedEof)).
Proof using All.
  intros Hr. pose proof (recv_end r Hr) as He. unfold recv. rewrite bind_gets. simpl.
  destruct (recv_frame r) as [x r']. simpl in He. subst x. by exists r'.
Qed.

Lemma send_ok f fs (r : R) (k : W) : sent fs k → ∃ k', send f (r, k) = ((r, k'), inr tt) ∧ sent (fs ++ [f]) k'.
Proof using All.
  intros Hk. destruct (send_next f fs k Hk) as (k' & He & Hk'). exists k'. split; [|done].
  unfold send. rewrite bind_gets. simpl. by rewrite He.
Qed.

(** What the client makes of the frames [fs] it receives. *)
Definition client_verdict (fs : list Frame) : SessionError + NewSessionAck :=
  match fs with
  | [] => inl (CodecErr Io_UnexpectedEof)
  | f :: _ => match parse_new_session_status f with Ok a => inr a | Err e => inl e end
  end.

Lemma client_open_verdict fs (r : R) (k : W) :
  holds fs r → sent [] k →
  ∃ r' k', client_open_session_frames (r, k) = ((r', k'), client_verdict fs) ∧ sent [new_session_frame] k'.
Proof using All.
  intros Hr Hk. destruct (send_ok new_session_frame [] r k Hk) as (k' & Hs & Hk').
  unfold client_open_session_frames, mbind, M_bind. rewrite Hs. destruct fs as [|f fs].
  - destruct (recv_eof r k' Hr) as (r' & ->). eauto.
  - destruct (recv_ok f fs r k' Hr) as (r' & -> & _). simpl.
    destruct (parse_new_session_status f); eauto.
Qed.

Lemma parse_status sid request reason :
  parse_new_session_status (status_frame sid request reason) =
  if decide (reason = Success) then Ok (mkNewSessionAck sid Running) else Err (SessionRejected reason).
Proof. by destruct reason. Qed.

(** What the server replies to a first frame, and how it ends. *)
Definition server_verdict (sid : Z) (request : Frame) : list Frame * option SessionError :=
  if decide (message_type (header request) = CtrlNewSession) then
    match NewSessionPayload_decode (payload request) with
    | Err e => ([], Some (CodecErr (FrameErr e)))
    | Ok p => let '(reason, result) := accept_version (protocol_version p) in
              ([status_frame sid request reason], result)
    end
  else ([], Some (UnexpectedMessageType (message_type (header request)) CtrlNewSession)).

Lemma server_accept_verdict sid f fs (r : R) (k : W) :
  holds (f :: fs) r → sent [] k →
  ∃ r' k', server_accept_session_frames sid (r, k) =
      ((r', k'), match (server_verdict sid f).2 with Some e => inl e | None => inr tt end) ∧
    sent (server_verdict sid f).1 k' ∧ holds fs r'.
Proof using All.
  intros Hr Hk. destruct (recv_ok f fs r k Hr) as (r' & Hrecv & Hr').
  unfold server_accept_session_frames, server_verdict. unfold mbind at 1, M_bind at 1. rewrite Hrecv, bind_return_if.
  destruct (decide (message_type (header f) = CtrlNewSession)) as [Ht|Ht].
  2:{ rewrite bool_decide_eq_true_2 by done. eauto. }
  rewrite bool_decide_eq_false_2 by (by intros []). rewrite bind_ok_or_return.
  destruct (NewSessionPayload_decode (payload f)) as [p|e]; [|eauto].
  destruct (accept_version (protocol_version p)) as [reason result].
  destruct (send_ok (status_frame sid f reason) [] r' k Hk) as (k' & Hs & Hk').
  unfold mbind, M_bind. rewrite Hs. exists r', k'. by destruct result.
Qed.

(** Client and server agree on a handshake, over any transport that
    delivers frames in order.  Whatever frame reaches the server first, it
    accepts exactly a [CTRL_NEW_SESSION] with the protocol version of this
    implementation; then the client that reads its reply has a running
    session under the assigned id.  On another version the client is told so;
    on anything else the server sends nothing and the client sees the end of
    the stream.  The client never believes in a session the server refused. *)
Theorem handshake_agreement sid f (r : R) (k : W) :
  holds [f] r → sent [] k →
  ∃ r' k' res out, server_accept_session_frames sid (r, k) = ((r', k'), res) ∧ sent out k' ∧
    (res = inr tt ↔ message_type (header f) = CtrlNewSession ∧
       ∃ p, NewSessionPayload_decode (payload f) = Ok p ∧ protocol_version p = FEDERATE_PROTOCOL_VERSION) ∧
    ∀ rc kc, holds out rc → sent [] kc →
      let verdict := (client_open_session_frames (rc, kc)).2 in
      match res with
      | inr _ => verdict = inr (mkNewSessionAck sid Running)
      | inl (UnsupportedVersion _) => verdict = inl (SessionRejected UnsupportedProtocolVersion)
      | inl _ => out = [] ∧ verdict = inl (CodecErr Io_UnexpectedEof)
      end.
Proof using All.
  intros Hr Hk. destruct (server_accept_verdict sid f [] r k Hr Hk) as (r' & k' & Hrun & Hk' & _).
  exists r', k'. eexists. exists (server_verdict sid f).1. split_and!; [exact Hrun|done| |].
  - unfold server_verdict, accept_version. case_decide as Ht; [|naive_solver].
    destruct (NewSessionPayload_decode (payload f)) as [p|e]; [|naive_solver].
    destruct (Z.eqb_spec (protocol_version p) FEDERATE_PROTOCOL_VERSION); naive_solver.
  - intros rc kc Hrc Hkc. destruct (client_open_verdict _ rc kc Hrc Hkc) as (rc' & kc' & Hc & _).
    cbv zeta. rewrite Hc. unfold server_verdict, accept_version. case_decide as Ht; [|done].
    destruct (NewSessionPayload_decode (payload f)) as [p|e]; [|done].
    destruct (Z.eqb_spec (protocol_version p) FEDERATE_PROTOCOL_VERSION); cbn [fst snd client_verdict]; by rewrite parse_status.
Qed.
End handshake.

(** *** Witness: over a byte stream that arrives in two reads *)
Lemma handshake_agreement_witness :
  let bytes := stream_of [new_session_frame] in
  ∃ s' out, server_accept_session_frames 7 (AsyncReadSource_new [take 9 bytes; drop 9 bytes], mkAsyncWriteSink [] true)
      = (s', inr tt) ∧ stream_sent out s'.2.
Proof.
  intros bytes.
  destruct (handshake_agreement (holds := stream_holds) (sent := stream_sent) 7 new_session_frame
    (AsyncReadSource_new [take 9 bytes; drop 9 bytes]) (mkAsyncWriteSink [] true)) as (r' & k' & res & out & Hr & Hs & Hres & _).
  - split_and!; [|done|vm_compute; reflexivity]. repeat constructor; vm_compute; split_and?; congruence.
  - split; reflexivity.
  - exists (r', k'), out. rewrite Hr. split; [|exact Hs]. f_equal. apply Hres. split; [done|].
    eexists. split; vm_compute; reflexivity.
Defined.

(** ** One call *)

Lemma call_response_decode l seq b :
  s_in 32 seq →
  HlaCallResponsePayload_decode l = Ok {| response_to_sequence_number := seq; body := b |} ↔
  l = HlaCallResponsePayload_encode {| response_to_sequence_number := seq; body := b |}.
Proof.
  intros Hs. unfold HlaCallResponsePayload_decode, HlaCallResponsePayload_encode. cbn [response_to_sequence_number body].
  rewrite slice_whole. split.
  - destruct (Nat.ltb_spec (length l) 4); [done|]. intros [= <- <-].
    rewrite <- (take_drop 4 l) at 1. f_equal.
    pose proof (to_from_be_bytes_signed (take 4 l)) as Hb. rewrite length_take, Nat.min_l in Hb by lia.
    symmetry. apply Hb. lia.
  - intros ->. rewrite length_app, length_to_be_bytes. destruct (Nat.ltb_spec (4 + length b) 4); [lia|].
    rewrite take_app_length', drop_app_length' by by rewrite length_to_be_bytes.
    by rewrite (from_to_be_bytes_s 4) by (done || lia).
Qed.

(** A call is answered by its own response or fails.  With a writable
    stream on which a frame arrives, [send_hla_call] writes the request frame
    with the next sequence number, takes exactly that frame, and returns a
    body exactly when the frame is an [HLA_CALL_RESPONSE] to the request just
    sent, carrying that body; the sequence number is used up and the frame's
    is remembered in every case. *)
Theorem send_hla_call_exact request_body c response rest :
  let st := ca_state c in
  s_in 32 (next_outbound st) → st_writable (ca_stream c) = true →
  read_frame (st_in (ca_stream c)) = Ok (response, rest) →
  let '(c', r) := send_hla_call request_body c in
  ca_stream c' = mkStream rest (st_out (ca_stream c) ++
    frame_encode (hla_call_request_frame (next_outbound st) (cs_session_id st) (last_received st) request_body)) true ∧
  ca_state c' = mkClientSeqState (cs_session_id st) (wrap_s 32 (next_outbound st + 1)) (sequence_number (header response)) ∧
  ∀ b, r = inr b ↔ message_type (header response) = HlaCallResponse ∧
    payload response = HlaCallResponsePayload_encode {| response_to_sequence_number := next_outbound st; body := b |}.
Proof.
  intros st Hseq Hw Hread. destruct c as [s cs]. simpl in *.
  unfold send_hla_call. rewrite bind_gets, bind_modify. unfold stream_write, stream_read, mbind, M_bind. simpl.
  rewrite Hw. simpl. rewrite Hread. simpl.
  destruct (decide (message_type (header response) = HlaCallResponse)) as [Ht|Ht].
  2:{ rewrite bool_decide_eq_true_2 by done. simpl. split_and!; [done..|]. naive_solver. }
  rewrite bool_decide_eq_false_2 by (by intros []). simpl.
  destruct (HlaCallResponsePayload_decode (payload response)) as [[got b']|e] eqn:Hd; simpl.
  - destruct (Z.eqb_spec got (next_outbound cs)) as [->|Hne]; simpl; (split_and!; [done..|]); intros b.
    + rewrite <- call_response_decode, Hd by done. naive_solver.
    + split; [done|]. intros [_ Hp%call_response_decode]; [|done]. rewrite Hd in Hp. by injection Hp as -> _.
  - split_and!; [done..|]. intros b. split; [done|]. intros [_ Hp%call_response_decode]; [|done]. by rewrite Hd in Hp.
Qed.

Definition sample_response : Frame :=
  Frame_new (with_payload_size 5 NO_SEQUENCE_NUMBER 7 1 HlaCallResponse)
    (HlaCallResponsePayload_encode {| response_to_sequence_number := 1; body := [x2a] |}).
Definition sample_caller : Caller :=
  mkCaller (mkStream (frame_encode sample_response) [] true) (ClientSeqState_new 7).

Lemma send_hla_call_witness : (send_hla_call [x01] sample_caller).2 = inr [x2a].
Proof.
  pose proof (send_hla_call_exact [x01] sample_caller sample_response []) as H. cbv zeta in H.
  destruct (send_hla_call [x01] sample_caller) as [c' r]. apply H; [vm_compute; split; [congruence|reflexivity]|reflexivity|vm_compute; reflexivity|].
  split; reflexivity.
Defined.

(** The client's counter wraps into the negative numbers and through
    [NO_SEQUENCE_NUMBER], which [claim_next_outbound_seq] keeps out of. *)
Theorem client_counter_leaves_range :
  next_outbound (bump_outbound (mkClientSeqState 7 MAX_SEQUENCE_NUMBER 0)) = NO_SEQUENCE_NUMBER.
Proof. reflexivity. Qed.
