(* ===== verification/Fom.v ===== *)
(** * hla-omt: the object model

    [hla-omt/src/lib.rs] (definitions and lookups), [hla-omt/src/xml.rs]
    (from the parsed XML tree to a module; the XML reader itself is
    quick-xml).  Rust's [BTreeMap]/[HashMap] are [gmap]s. *)

From S2P Require Import Prelude CoreTypes.

Inductive FomError :=
| Xml (s : string)
| MergeConflict (s : string)
| UnknownReference (s : string)
| InvalidEnum (s : string).

(** ** Definitions of [lib.rs] *)

Inductive OrderTypeRef := OrderReceive | OrderTimestampOrder.
Inductive Ownership := DivestAcquire | NoTransfer.
Inductive Sharing := Publish | Subscribe | PublishSubscribe | Neither.
Inductive UpdateType := Static | Periodic | Conditional.

#[export] Instance OrderTypeRef_eq_dec : EqDecision OrderTypeRef.
Proof. solve_decision. Defined.
#[export] Instance Ownership_eq_dec : EqDecision Ownership.
Proof. solve_decision. Defined.
#[export] Instance Sharing_eq_dec : EqDecision Sharing.
Proof. solve_decision. Defined.
#[export] Instance UpdateType_eq_dec : EqDecision UpdateType.
Proof. solve_decision. Defined.

(** The [format!] arguments of an error are kept as a prefix and the value. *)
Definition OrderTypeRef_from_xml (s : string) : result FomError OrderTypeRef :=
  if decide (s = "Receive"%string) then Ok OrderReceive
  else if decide (s = "TimeStamp"%string) then Ok OrderTimestampOrder
  else if decide (s = "TimestampOrder"%string) then Ok OrderTimestampOrder
  else Err (InvalidEnum ("order: " +:+ s)).

Definition Ownership_from_xml (s : string) : result FomError Ownership :=
  if decide (s = "DivestAcquire"%string) then Ok DivestAcquire
  else if decide (s = "NoTransfer"%string) then Ok NoTransfer
  else Err (InvalidEnum ("ownership: " +:+ s)).

Definition Sharing_from_xml (s : string) : result FomError Sharing :=
  if decide (s = "Publish"%string) then Ok Publish
  else if decide (s = "Subscribe"%string) then Ok Subscribe
  else if decide (s = "PublishSubscribe"%string) then Ok PublishSubscribe
  else if decide (s = "Neither"%string) then Ok Neither
  else Err (InvalidEnum ("sharing: " +:+ s)).

Definition UpdateType_from_xml (s : string) : result FomError UpdateType :=
  if decide (s = "Static"%string) then Ok Static
  else if decide (s = "Periodic"%string) then Ok Periodic
  else if decide (s = "Conditional"%string) then Ok Conditional
  else Err (InvalidEnum ("update_type: " +:+ s)).

Record AttributeDef := {
  attr_name : string;
  attr_datatype : string;
  attr_order : OrderTypeRef;
  attr_transportation : string;
  attr_ownership : Ownership;
  attr_sharing : Sharing;
  attr_update_type : UpdateType;
  attr_dimensions : list string
}.

Record ObjectClassDef := {
  oc_name : string;
  oc_parent : option string;
  oc_attributes : list AttributeDef;
  oc_semantics : option string
}.

Record ParameterDef := { param_name : string; param_datatype : string }.

Record InteractionClassDef := {
  ic_name : string;
  ic_parent : option string;
  ic_order : OrderTypeRef;
  ic_transportation : string;
  ic_parameters : list ParameterDef;
  ic_semantics : option string
}.

#[export] Instance AttributeDef_eq_dec : EqDecision AttributeDef.
Proof. solve_decision. Defined.
#[export] Instance ParameterDef_eq_dec : EqDecision ParameterDef.
Proof. solve_decision. Defined.

Record ModuleIdentification := {
  mod_name : string;
  mod_version : option string;
  mod_description : option string
}.

Record FomModule := {
  identification : ModuleIdentification;
  object_classes_of : list ObjectClassDef;
  interaction_classes_of : list InteractionClassDef
}.

Record MergedFom := {
  modules : list FomModule;
  object_classes : gmap ObjectClassHandle ObjectClassDef;
  interaction_classes : gmap InteractionClassHandle InteractionClassDef;
  object_class_table : gmap string ObjectClassHandle;
  attribute_table : gmap (ObjectClassHandle * string) AttributeHandle;
  interaction_class_table : gmap string InteractionClassHandle;
  parameter_table : gmap (InteractionClassHandle * string) ParameterHandle;
  dimension_table : gmap string DimensionHandle
}.

Definition MergedFom_new : MergedFom :=
  {| modules := []; object_classes := ∅; interaction_classes := ∅; object_class_table := ∅;
     attribute_table := ∅; interaction_class_table := ∅; parameter_table := ∅;
     dimension_table := ∅ |}.

Section lookups.
Variable fom : MergedFom.

Definition object_class_handle (name : string) : option ObjectClassHandle :=
  object_class_table fom !! name.
Definition object_class_def (h : ObjectClassHandle) : option ObjectClassDef :=
  object_classes fom !! h.
Definition attribute_handle (c : ObjectClassHandle) (name : string) : option AttributeHandle :=
  attribute_table fom !! (c, name).
Definition interaction_class_handle (name : string) : option InteractionClassHandle :=
  interaction_class_table fom !! name.
Definition interaction_class_def (h : InteractionClassHandle) : option InteractionClassDef :=
  interaction_classes fom !! h.
Definition parameter_handle (c : InteractionClassHandle) (name : string)
    : option ParameterHandle :=
  parameter_table fom !! (c, name).
Definition dimension_handle (name : string) : option DimensionHandle :=
  dimension_table fom !! name.

(** [InheritanceIter::next]: the item, and the iterator afterwards. *)
Definition InheritanceIter_next (next : option ObjectClassHandle)
    : option (ObjectClassHandle * option ObjectClassHandle) :=
  current ← next;
  def ← object_class_def current;
  Some (current, oc_parent def ≫= object_class_handle).

(** Run the iterator for at most [fuel] items. *)
Fixpoint inheritance_iter (fuel : nat) (next : option ObjectClassHandle)
    : list ObjectClassHandle :=
  match fuel with
  | O => []
  | S fuel' =>
      match InheritanceIter_next next with
      | None => []
      | Some (h, next') => h :: inheritance_iter fuel' next'
      end
  end.

(** [inheritance_chain(handle)]: a chain without repetition has at most one
    item per class, so the number of classes is enough fuel. *)
Definition inheritance_chain (h : ObjectClassHandle) : list ObjectClassHandle :=
  inheritance_iter (S (size (object_classes fom))) (Some h).
End lookups.

(** ** From the XML tree ([xml.rs]) *)

Record XmlAttribute := {
  xa_name : string;
  xa_data_type : string;
  xa_update_type : string;
  xa_ownership : option string;
  xa_sharing : option string;
  xa_transportation : option string;
  xa_order : option string;
  xa_dimensions : option (list string)
}.

Inductive XmlObjectClass := XmlObjectClass_new {
  xo_name : string;
  xo_semantics : option string;
  xo_attributes : list XmlAttribute;
  xo_children : list XmlObjectClass
}.

Record XmlParameter := { xp_name : string; xp_data_type : string }.

Inductive XmlInteractionClass := XmlInteractionClass_new {
  xi_name : string;
  xi_semantics : option string;
  xi_transportation : option string;
  xi_order : option string;
  xi_parameters : list XmlParameter;
  xi_children : list XmlInteractionClass
}.

Record XmlModelIdentification := {
  xm_name : option string;
  xm_version : option string;
  xm_description : option string
}.

Record XmlObjectModel := {
  model_identification : option XmlModelIdentification;
  objects : option (list XmlObjectClass);
  interactions : option (list XmlInteractionClass)
}.

Definition fqn (parent : option string) (leaf : string) : string :=
  match parent with
  | Some p => p +:+ "." +:+ leaf
  | None => leaf
  end.

(** The closure mapped over [node.attributes]. *)
Definition convert_attribute (a : XmlAttribute) : result FomError AttributeDef :=
  order ← OrderTypeRef_from_xml (default "Receive"%string (xa_order a));
  ownership ← Ownership_from_xml (default "NoTransfer"%string (xa_ownership a));
  sharing ← Sharing_from_xml (default "Neither"%string (xa_sharing a));
  update_type ← UpdateType_from_xml (xa_update_type a);
  Ok {| attr_name := xa_name a; attr_datatype := xa_data_type a; attr_order := order;
        attr_transportation := default "HLAreliable"%string (xa_transportation a);
        attr_ownership := ownership; attr_sharing := sharing; attr_update_type := update_type;
        attr_dimensions :=
          match xa_dimensions a with
          | Some ds => filter (λ s, s ≠ ""%string) ds
          | None => []
          end |}.

(** [.collect::<Result<Vec<_>, _>>()] *)
Fixpoint collect {E A B} (f : A → result E B) (l : list A) : result E (list B) :=
  match l with
  | [] => Ok []
  | a :: l' => b ← f a; bs ← collect f l'; Ok (b :: bs)
  end.

Fixpoint flatten_object_class (node : XmlObjectClass) (parent_fqn : option string)
    (out : list ObjectClassDef) : result FomError (list ObjectClassDef) :=
  let my_fqn := fqn parent_fqn (xo_name node) in
  attributes ← collect convert_attribute (xo_attributes node);
  let out := out ++ [{| oc_name := my_fqn; oc_parent := parent_fqn;
                        oc_attributes := attributes; oc_semantics := xo_semantics node |}] in
  (fix go (children : list XmlObjectClass) (out : list ObjectClassDef) :=
     match children with
     | [] => Ok out
     | child :: children' =>
         out ← flatten_object_class child (Some my_fqn) out;
         go children' out
     end) (xo_children node) out.

Fixpoint flatten_interaction_class (node : XmlInteractionClass) (parent_fqn : option string)
    (out : list InteractionClassDef) : result FomError (list InteractionClassDef) :=
  let my_fqn := fqn parent_fqn (xi_name node) in
  let parameters := (λ p, {| param_name := xp_name p; param_datatype := xp_data_type p |})
                      <$> xi_parameters node in
  order ← OrderTypeRef_from_xml (default "Receive"%string (xi_order node));
  let out := out ++ [{| ic_name := my_fqn; ic_parent := parent_fqn; ic_order := order;
                        ic_transportation := default "HLAreliable"%string (xi_transportation node);
                        ic_parameters := parameters; ic_semantics := xi_semantics node |}] in
  (fix go (children : list XmlInteractionClass) (out : list InteractionClassDef) :=
     match children with
     | [] => Ok out
     | child :: children' =>
         out ← flatten_interaction_class child (Some my_fqn) out;
         go children' out
     end) (xi_children node) out.

(** [for x in xs { acc = f(x, acc)? }] *)
Fixpoint try_fold {E A B} (f : A → B → result E B) (l : list A) (acc : B) : result E B :=
  match l with
  | [] => Ok acc
  | a :: l' => acc ← f a acc; try_fold f l' acc
  end.

Definition into_fom_module (m : XmlObjectModel) : result FomError FomModule :=
  let identification :=
    match model_identification m with
    | Some i => {| mod_name := default ""%string (xm_name i); mod_version := xm_version i;
                   mod_description := xm_description i |}
    | None => {| mod_name := ""; mod_version := None; mod_description := None |}
    end in
  object_classes ← match objects m with
    | Some objs => try_fold (λ top out, flatten_object_class top None out) objs []
    | None => Ok []
    end;
  interaction_classes ← match interactions m with
    | Some ixs => try_fold (λ top out, flatten_interaction_class top None out) ixs []
    | None => Ok []
    end;
  Ok {| identification := identification; object_classes_of := object_classes;
        interaction_classes_of := interaction_classes |}.

(** ** What the rest of the system relies on

    The routing code walks parent links by name and handle.  [FomWf] is the
    promise of the merge to it: names and handles of classes correspond one
    to one, and a parent exists and was numbered before its children, so that
    every walk towards the root ends. *)
Class FomWf (fom : MergedFom) : Prop := {
  fom_object_handle n h : object_class_handle fom n = Some h →
    ∃ d, object_class_def fom h = Some d ∧ oc_name d = n;
  fom_object_def h d : object_class_def fom h = Some d →
    object_class_handle fom (oc_name d) = Some h;
  fom_object_parent h d p : object_class_def fom h = Some d → oc_parent d = Some p →
    ∃ hp, object_class_handle fom p = Some hp ∧ och_raw hp < och_raw h;
  fom_interaction_handle n h : interaction_class_handle fom n = Some h →
    ∃ d, interaction_class_def fom h = Some d ∧ ic_name d = n;
  fom_interaction_def h d : interaction_class_def fom h = Some d →
    interaction_class_handle fom (ic_name d) = Some h;
  fom_interaction_parent h d p : interaction_class_def fom h = Some d → ic_parent d = Some p →
    ∃ hp, interaction_class_handle fom p = Some hp ∧ ich_raw hp < ich_raw h
}.

#[export] Instance MergedFom_new_wf : FomWf MergedFom_new.
Proof.
  split; unfold object_class_handle, object_class_def, interaction_class_handle,
    interaction_class_def; simpl; intros *; by rewrite lookup_empty.
Qed.

(** The walk towards the root, as a relation: [ancestor h a] when [a] is [h]
    or an ancestor of it. *)
Inductive ancestor (fom : MergedFom) : ObjectClassHandle → ObjectClassHandle → Prop :=
| ancestor_self h d : object_class_def fom h = Some d → ancestor fom h h
| ancestor_up h d p hp a :
    object_class_def fom h = Some d → oc_parent d = Some p →
    object_class_handle fom p = Some hp → ancestor fom hp a → ancestor fom h a.

Section chain.
Context (fom : MergedFom) `{!FomWf fom}.

(** Classes numbered at most [h]. *)
Definition below (h : ObjectClassHandle) : gset ObjectClassHandle :=
  filter (λ x, och_raw x ≤ och_raw h) (dom (object_classes fom)).

Lemma below_lt h hp d :
  object_class_def fom h = Some d → och_raw hp < och_raw h →
  (size (below hp) < size (below h))%nat.
Proof.
  intros Hd Hlt. apply subset_size. split.
  - intros x. unfold below. rewrite !elem_of_filter. intros [??]. split; [lia|done].
  - intros Hsub. assert (Hin : h ∈ below h).
    { unfold below. rewrite elem_of_filter. split; [lia|]. apply elem_of_dom. by exists d. }
    apply Hsub in Hin. unfold below in Hin. apply elem_of_filter in Hin as [Hle _]. lia.
Qed.

Lemma inheritance_iter_ancestors fuel h a :
  (size (below h) < fuel)%nat →
  a ∈ inheritance_iter fom fuel (Some h) ↔ ancestor fom h a.
Proof.
  revert h. induction fuel as [|fuel IH]; intros h Hf; [lia|].
  cbn [inheritance_iter InheritanceIter_next]. simpl.
  destruct (object_class_def fom h) as [d|] eqn:Hd; simpl.
  2:{ split; [intros Hin; by apply elem_of_nil in Hin|inversion 1; congruence]. }
  rewrite elem_of_cons. split.
  - intros [->|Hin]; [by eapply ancestor_self|].
    destruct (oc_parent d) as [p|] eqn:Hp; simpl in Hin;
      [|by destruct fuel; apply elem_of_nil in Hin].
    destruct (fom_object_parent _ _ _ Hd Hp) as (hp & Hhp & Hlt). rewrite Hhp in Hin.
    eapply ancestor_up; [done..|]. apply IH; [|done].
    pose proof (below_lt _ _ _ Hd Hlt). lia.
  - inversion 1 as [|? d' p hp ? Hd' Hp Hhp Ha]; subst; [by left|right].
    rewrite Hd in Hd'. injection Hd' as <-. rewrite Hp. simpl. rewrite Hhp.
    destruct (fom_object_parent _ _ _ Hd Hp) as (hp' & Hhp' & Hlt).
    rewrite Hhp in Hhp'. injection Hhp' as <-.
    apply IH; [|done]. pose proof (below_lt _ _ _ Hd Hlt). lia.
Qed.

(** The chain the code iterates over is exactly the set of ancestors. *)
Lemma inheritance_chain_spec h a : a ∈ inheritance_chain fom h ↔ ancestor fom h a.
Proof.
  apply inheritance_iter_ancestors. unfold below.
  apply Nat.lt_succ_r. rewrite <- size_dom. apply subseteq_size. set_solver.
Qed.

Lemma ancestor_raw h a : ancestor fom h a → och_raw a ≤ och_raw h.
Proof.
  induction 1 as [|h d p hp a Hd Hp Hhp _ IH]; [lia|].
  destruct (fom_object_parent _ _ _ Hd Hp) as (hp' & Hhp' & Hlt). simplify_eq. lia.
Qed.
End chain.
