(* ===== verification/Merge.v ===== *)
(** * hla-omt: modular merge and handle assignment

    [hla-omt/src/merge.rs].  The object-class and the interaction-class code
    of the source are the same text up to names; [assign_class_handles] is
    that text once, over the class type, and the two source functions are its
    instances.  [merged[fqn]] panics on a missing key and the recursion has
    no bound of its own: both are [None] here, and [merge_modules_total]
    shows that neither happens. *)

From S2P Require Import Prelude CoreTypes Fom.

(** ** Merging definitions *)

Definition merge_attribute (class_name : string) (attr : AttributeDef)
    (target : list AttributeDef) : result FomError (list AttributeDef) :=
  match list_find (λ a, attr_name a = attr_name attr) target with
  | Some (_, existing) =>
      if decide (existing = attr) then Ok target
      else Err (MergeConflict (class_name +:+ "." +:+ attr_name attr))
  | None => Ok (target ++ [attr])
  end.

Definition merge_parameter (class_name : string) (p : ParameterDef)
    (target : list ParameterDef) : result FomError (list ParameterDef) :=
  match list_find (λ x, param_name x = param_name p) target with
  | Some (_, existing) =>
      if decide (existing = p) then Ok target
      else Err (MergeConflict (class_name +:+ "." +:+ param_name p))
  | None => Ok (target ++ [p])
  end.

(** [&mut merged, &mut order] are threaded as a pair. *)
Definition merge_object_class (cls : ObjectClassDef)
    (acc : gmap string ObjectClassDef * list string)
    : result FomError (gmap string ObjectClassDef * list string) :=
  let '(merged, order) := acc in
  match merged !! oc_name cls with
  | Some existing =>
      if decide (oc_parent existing ≠ oc_parent cls) then Err (MergeConflict (oc_name cls))
      else
        attrs ← try_fold (merge_attribute (oc_name cls)) (oc_attributes cls) (oc_attributes existing);
        let semantics :=
          match oc_semantics existing with None => oc_semantics cls | Some s => Some s end in
        Ok (<[oc_name cls := {| oc_name := oc_name existing; oc_parent := oc_parent existing;
                                oc_attributes := attrs; oc_semantics := semantics |}]> merged, order)
  | None => Ok (<[oc_name cls := cls]> merged, order ++ [oc_name cls])
  end.

Definition merge_interaction_class (ic : InteractionClassDef)
    (acc : gmap string InteractionClassDef * list string)
    : result FomError (gmap string InteractionClassDef * list string) :=
  let '(merged, order) := acc in
  match merged !! ic_name ic with
  | Some existing =>
      if decide (ic_parent existing ≠ ic_parent ic) then Err (MergeConflict (ic_name ic))
      else
        params ← try_fold (merge_parameter (ic_name ic)) (ic_parameters ic) (ic_parameters existing);
        let semantics :=
          match ic_semantics existing with None => ic_semantics ic | Some s => Some s end in
        Ok (<[ic_name ic := {| ic_name := ic_name existing; ic_parent := ic_parent existing;
                               ic_order := ic_order existing;
                               ic_transportation := ic_transportation existing;
                               ic_parameters := params; ic_semantics := semantics |}]> merged, order)
  | None => Ok (<[ic_name ic := ic]> merged, order ++ [ic_name ic])
  end.

(** ** Handle assignment *)

Section assign.
Context {D H A : Type} `{Countable H}.
Variables (mkH : Z → H) (mkA : Z → A) (parent_of : D → option string) (members_of : D → list string).

Record AssignState := {
  next_class : Z;
  next_member : Z;
  classes : gmap H D;
  class_table : gmap string H;
  member_table : gmap (H * string) A
}.

Definition assign_init : AssignState :=
  {| next_class := 1; next_member := 1; classes := ∅; class_table := ∅; member_table := ∅ |}.

(** [for attr in &def.attributes { .. }] *)
Definition assign_member (handle : H) (st : AssignState) (name : string) : AssignState :=
  {| next_class := next_class st;
     next_member := wrap_u 32 (next_member st + 1);
     classes := classes st;
     class_table := class_table st;
     member_table := <[(handle, name) := mkA (next_member st)]> (member_table st) |}.

(** The body of [assign_*_class_handles] up to the recursion. *)
Definition assign_one (fqn : string) (def : D) (st : AssignState) : AssignState :=
  let handle := mkH (next_class st) in
  let st1 := {| next_class := wrap_u 32 (next_class st + 1); next_member := next_member st;
                classes := classes st; class_table := class_table st;
                member_table := member_table st |} in
  let st2 := foldl (assign_member handle) st1 (members_of def) in
  {| next_class := next_class st2; next_member := next_member st2;
     classes := <[handle := def]> (classes st2);
     class_table := <[fqn := handle]> (class_table st2);
     member_table := member_table st2 |}.

Fixpoint assign_class_handles (fuel : nat) (merged : gmap string D)
    (children_of : gmap (option string) (list string))
    (fqn : string) (st : AssignState) : option AssignState :=
  match fuel with
  | O => None
  | S fuel' =>
      def ← merged !! fqn;
      let st := assign_one fqn def st in
      match children_of !! Some fqn with
      | Some children =>
          foldl (λ acc child, acc ≫= assign_class_handles fuel' merged children_of child)
            (Some st) children
      | None => Some st
      end
  end.

(** [for fqn in &object_order { children_of.entry(parent).or_default().push(fqn) }] *)
Definition add_child (merged : gmap string D)
    (acc : option (gmap (option string) (list string))) (fqn : string)
    : option (gmap (option string) (list string)) :=
  children_of ← acc;
  def ← merged !! fqn;
  Some (<[parent_of def := default [] (children_of !! parent_of def) ++ [fqn]]> children_of).

Definition build_children (merged : gmap string D) (order : list string)
    : option (gmap (option string) (list string)) :=
  foldl (add_child merged) (Some ∅) order.

(** The adjacency, the roots, and the walk from each root. *)
Definition assign_all (merged : gmap string D) (order : list string) : option AssignState :=
  children_of ← build_children merged order;
  let roots := default [] (children_of !! None) in
  let children_of := delete None children_of in
  foldl (λ acc root, acc ≫= assign_class_handles (S (length order)) merged children_of root)
    (Some assign_init) roots.
End assign.

Arguments AssignState D H A {_ _} : rename.

Definition object_members (d : ObjectClassDef) : list string := attr_name <$> oc_attributes d.
Definition interaction_members (d : InteractionClassDef) : list string :=
  param_name <$> ic_parameters d.

Definition assign_object_class_handles :=
  assign_class_handles ObjectClassHandle_new AttributeHandle_new object_members.
Definition assign_interaction_class_handles :=
  assign_class_handles InteractionClassHandle_new ParameterHandle_new interaction_members.

Definition merge_modules (ms : list FomModule) : option (result FomError MergedFom) :=
  match
    try_fold (λ m acc,
      objs ← try_fold merge_object_class (object_classes_of m) acc.1;
      ixs ← try_fold merge_interaction_class (interaction_classes_of m) acc.2;
      Ok (objs, ixs)) ms ((∅, []), (∅, []))
  with
  | Err e => Some (Err e)
  | Ok ((merged_objects, object_order), (merged_interactions, interaction_order)) =>
      o ← assign_all ObjectClassHandle_new AttributeHandle_new oc_parent object_members
            merged_objects object_order;
      i ← assign_all InteractionClassHandle_new ParameterHandle_new ic_parent interaction_members
            merged_interactions interaction_order;
      Some (Ok {| modules := ms;
                  object_classes := classes o;
                  interaction_classes := classes i;
                  object_class_table := class_table o;
                  attribute_table := member_table o;
                  interaction_class_table := class_table i;
                  parameter_table := member_table i;
                  dimension_table := ∅ |})
  end.

(** ** The walk as a preorder traversal of root paths *)

Section walk.
Context {D H A : Type} `{Countable H}.
Variables (mkH : Z → H) (mkA : Z → A) (parent_of : D → option string) (members_of : D → list string).
Variables (merged : gmap string D) (order : list string).
Hypothesis order_nodup : NoDup order.
Hypothesis order_dom : ∀ n, n ∈ order ↔ is_Some (merged !! n).

Definition par (n : string) : option (option string) := parent_of <$> merged !! n.
Definition kids (k : option string) : list string := filter (λ n, par n = Some k) order.

(** [n :: p :: ... :: root], each the parent of the previous. *)
Inductive rooted : list string → Prop :=
| rooted_root n : par n = Some None → rooted [n]
| rooted_child n p anc : par n = Some (Some p) → rooted (p :: anc) → rooted (n :: p :: anc).

Lemma rooted_det n a b : rooted (n :: a) → rooted (n :: b) → a = b.
Proof.
  intros Ha. remember (n :: a) as l eqn:Hl. revert n a b Hl.
  induction Ha as [n' Hn|n' p anc Hn Hr IH]; intros n a b [= -> <-] Hb;
    inversion Hb; subst; try congruence.
  assert (p = p0) as <- by congruence. f_equal. by apply (IH p anc).
Qed.

Lemma rooted_suffix l n b : rooted (l ++ n :: b) → rooted (n :: b).
Proof.
  induction l as [|x l IH]; [done|]. intros Hr. apply IH. inversion Hr; subst; [by destruct l|].
  congruence.
Qed.

Lemma rooted_NoDup l : rooted l → NoDup l.
Proof.
  induction 1 as [n Hn|n p anc Hn Hr IH]; [apply NoDup_singleton|].
  constructor; [|done]. intros Hin.
  apply list_elem_of_split in Hin as (l1 & l2 & Heq).
  assert (Hs : rooted (n :: l2)) by (rewrite Heq in Hr; by apply rooted_suffix in Hr).
  assert (l2 = p :: anc) by (eapply rooted_det; [done|]; by constructor).
  subst l2. apply (f_equal length) in Heq. rewrite length_app in Heq. simpl in Heq. lia.
Qed.

Lemma rooted_order l : rooted l → l ⊆ order.
Proof.
  assert (Hp : ∀ n k, par n = Some k → n ∈ order).
  { intros n k Hn. apply order_dom. unfold par in Hn. by destruct (merged !! n). }
  induction 1 as [n Hn|n p anc Hn Hr IH]; intros x Hx.
  - apply list_elem_of_singleton in Hx as ->. by eapply Hp.
  - apply elem_of_cons in Hx as [->|Hx]; [by eapply Hp|by apply IH].
Qed.

Lemma rooted_length l : rooted l → (length l ≤ length order)%nat.
Proof.
  intros Hr. apply submseteq_length, NoDup_submseteq; [by apply rooted_NoDup|by apply rooted_order].
Qed.

Lemma rooted_kid n p anc : n ∈ kids (Some p) → rooted (p :: anc) → rooted (n :: p :: anc).
Proof. intros Hk Hr. constructor; [|done]. by apply list_elem_of_filter in Hk as [? _]. Qed.

(** The adjacency that the code builds. *)
Lemma build_children_prefix l :
  (∀ n, n ∈ l → is_Some (merged !! n)) →
  ∃ m, foldl (add_child parent_of merged) (Some ∅) l = Some m ∧
       ∀ k, default [] (m !! k) = filter (λ n, par n = Some k) l.
Proof.
  induction l as [|n l IH] using rev_ind; intros Hl.
  { exists ∅. split; [done|]. intros k. by rewrite lookup_empty. }
  destruct IH as (m & Hm & Hk); [intros; apply Hl; set_solver|].
  destruct (Hl n) as [d Hd]; [set_solver|].
  rewrite foldl_app, Hm. simpl. rewrite Hd. simpl. eexists; split; [done|].
  intros k. rewrite filter_app, <- Hk.
  assert (Hp : par n = Some (parent_of d)) by (unfold par; by rewrite Hd).
  destruct (decide (parent_of d = k)) as [<-|Hne].
  - rewrite lookup_insert_eq. simpl. by rewrite filter_cons_True.
  - rewrite lookup_insert_ne by done. rewrite filter_cons_False by congruence.
    by rewrite filter_nil, app_nil_r.
Qed.

Fixpoint preorder (fuel : nat) (path : list string) : list (list string) :=
  match fuel, path with
  | S fuel', fqn :: _ => path :: concat ((λ c, preorder fuel' (c :: path)) <$> kids (Some fqn))
  | _, _ => []
  end.

Definition visit (st : AssignState D H A) (path : list string) : AssignState D H A :=
  match path with
  | fqn :: _ => match merged !! fqn with
                | Some d => assign_one mkH mkA members_of fqn d st
                | None => st
                end
  | [] => st
  end.

Lemma rooted_lookup n anc : rooted (n :: anc) → is_Some (merged !! n).
Proof. intros Hr. apply order_dom, (rooted_order _ Hr). set_solver. Qed.

Lemma assign_preorder (children_of : gmap (option string) (list string)) fuel fqn anc st :
  (∀ p, default [] (children_of !! Some p) = kids (Some p)) →
  rooted (fqn :: anc) → (length order < fuel + length anc)%nat →
  assign_class_handles mkH mkA members_of fuel merged children_of fqn st
  = Some (foldl visit st (preorder fuel (fqn :: anc))).
Proof.
  intros children_spec.
  revert fqn anc st. induction fuel as [|fuel IH]; intros fqn anc st Hr Hf.
  { apply rooted_length in Hr. simpl in *. lia. }
  cbn [assign_class_handles preorder]. destruct (rooted_lookup _ _ Hr) as [d Hd].
  rewrite Hd. cbn [foldl visit mbind option_bind]. rewrite Hd.
  pose proof (children_spec fqn) as Hc.
  assert (Hgo : ∀ cs st', cs ⊆ kids (Some fqn) →
    foldl (λ acc child, acc ≫= assign_class_handles mkH mkA members_of fuel merged children_of child)
      (Some st') cs
    = Some (foldl visit st' (concat ((λ c, preorder fuel (c :: fqn :: anc)) <$> cs)))).
  { induction cs as [|c cs IHc]; intros st' Hcs; [done|]. simpl.
    rewrite IH with (anc := fqn :: anc); [|apply rooted_kid; [set_solver|done]|simpl in *; lia].
    rewrite IHc by set_solver. by rewrite foldl_app. }
  rewrite <- Hc. destruct (children_of !! Some fqn) as [cs|] eqn:E; simpl in *; [|done].
  apply Hgo. by rewrite Hc.
Qed.

Lemma preorder_suffix fuel path p :
  rooted path → p ∈ preorder fuel path → rooted p ∧ ∃ l, p = l ++ path.
Proof.
  revert path. induction fuel as [|fuel IH]; intros path Hr Hp; [by apply elem_of_nil in Hp|].
  destruct path as [|fqn anc]; [by apply elem_of_nil in Hp|]. cbn [preorder] in Hp.
  apply elem_of_cons in Hp as [->|Hp]; [split; [done|by exists []]|].
  apply elem_of_concat in Hp as (ps & Hp & Hps).
  apply list_elem_of_fmap in Hps as (c & -> & Hc).
  destruct (IH (c :: fqn :: anc)) as [Hrp [l ->]]; [by apply rooted_kid|done|].
  split; [done|]. exists (l ++ [c]). by rewrite <- app_assoc.
Qed.

(** Lists that end in different paths of the same length are different. *)
Lemma concat_NoDup {B} (f : string → list B) (cs : list string) :
  NoDup cs → (∀ c, c ∈ cs → NoDup (f c)) →
  (∀ c c' x, c ∈ cs → c' ∈ cs → x ∈ f c → x ∈ f c' → c = c') →
  NoDup (concat (f <$> cs)).
Proof.
  induction cs as [|c cs IH]; intros Hnd Hf Hdis; simpl; [constructor|].
  apply NoDup_cons in Hnd as [Hc Hnd]. apply NoDup_app. split_and!.
  - apply Hf. set_solver.
  - intros x Hx Hx'. apply elem_of_concat in Hx' as (ps & Hx' & Hps).
    apply list_elem_of_fmap in Hps as (c' & -> & Hc').
    rewrite (Hdis c c' x) in Hc by set_solver. done.
  - apply IH; [done|set_solver|]. intros; eapply Hdis; set_solver.
Qed.

Lemma preorder_NoDup fuel path : rooted path → NoDup (preorder fuel path).
Proof.
  revert path. induction fuel as [|fuel IH]; intros path Hr; [constructor|].
  destruct path as [|fqn anc]; [constructor|]. cbn [preorder]. constructor.
  - intros Hin. apply elem_of_concat in Hin as (ps & Hp & Hps).
    apply list_elem_of_fmap in Hps as (c & -> & Hc).
    apply preorder_suffix in Hp as [_ [l Hl]]; [|by apply rooted_kid].
    apply (f_equal length) in Hl. rewrite length_app in Hl. simpl in Hl. lia.
  - apply concat_NoDup.
    + by apply NoDup_filter.
    + intros c Hc. apply IH. by apply rooted_kid.
    + intros c c' x Hc Hc' Hx Hx'.
      apply preorder_suffix in Hx as [_ [l Hl]]; [|by apply rooted_kid].
      apply preorder_suffix in Hx' as [_ [l' Hl']]; [|by apply rooted_kid].
      rewrite Hl in Hl'. apply app_inj_2 in Hl' as [_ Heq]; [congruence|done].
Qed.

Lemma preorder_complete fuel l path :
  rooted (l ++ path) → path ≠ [] → (length order < fuel + length path - 1)%nat →
  l ++ path ∈ preorder fuel path.
Proof.
  revert l path. induction fuel as [|fuel IH]; intros l path Hr Hne Hf.
  { destruct path as [|fqn anc]; [done|]. apply rooted_suffix, rooted_length in Hr.
    simpl in *. lia. }
  destruct path as [|fqn anc]; [done|]. cbn [preorder].
  destruct l as [|c l _] using rev_ind; [set_solver|].
  rewrite <- app_assoc in *. simpl in Hr |- *. apply elem_of_cons. right.
  apply elem_of_concat. exists (preorder fuel (c :: fqn :: anc)). split.
  - apply IH; [done|done|simpl in *; lia].
  - apply list_elem_of_fmap. exists c. split; [done|].
    apply rooted_suffix in Hr. inversion Hr; subst.
    apply list_elem_of_filter. split; [done|].
    apply order_dom. unfold par in *. by destruct (merged !! c).
Qed.

(** Every path is preceded by its parent path. *)
Definition closed_from (base : list string) (L : list (list string)) : Prop :=
  ∀ i n q, L !! i = Some (n :: q) → q = base ∨ ∃ j, (j < i)%nat ∧ L !! j = Some q.

Lemma closed_from_concat base (f : string → list (list string)) cs :
  (∀ c, c ∈ cs → closed_from base (f c)) → closed_from base (concat (f <$> cs)).
Proof.
  induction cs as [|c cs IH]; intros Hf i n q Hi; simpl in *; [done|].
  apply lookup_app_Some in Hi as [Hi|[Hge Hi]].
  - destruct (Hf c ltac:(set_solver) _ _ _ Hi) as [->|(j & Hj & Hq)]; [by left|right].
    exists j. split; [done|]. by apply lookup_app_l_Some.
  - destruct (IH ltac:(set_solver) _ _ _ Hi) as [->|(j & Hj & Hq)]; [by left|right].
    exists (length (f c) + j)%nat. split; [lia|].
    rewrite lookup_app_r by lia. rewrite <- Hq. f_equal. lia.
Qed.

Lemma preorder_closed fuel fqn anc : closed_from anc (preorder fuel (fqn :: anc)).
Proof.
  revert fqn anc. induction fuel as [|fuel IH]; intros fqn anc; [by intros i n q Hi|].
  cbn [preorder]. intros [|i] n q Hi; simpl in Hi; [left; congruence|right].
  destruct (closed_from_concat (fqn :: anc) (λ c, preorder fuel (c :: fqn :: anc)) (kids (Some fqn)))
    with (i := i) (n := n) (q := q) as [->|(j & Hj & Hq)]; [intros; apply IH|done| |].
  - exists 0%nat. split; [lia|done].
  - exists (S j). split; [lia|done].
Qed.

(** ** What the assignment builds from a list of distinct names *)

Lemma assign_member_fold (h : H) names (st : AssignState D H A) :
  let st' := foldl (assign_member mkA h) st names in
  next_class st' = next_class st ∧ classes st' = classes st ∧ class_table st' = class_table st.
Proof. revert st. induction names as [|n names IH]; intros st; [done|]. simpl. apply (IH (assign_member mkA h st n)). Qed.

Definition table_of (names : list string) (st : AssignState D H A) : Prop :=
  next_class st = 1 + Z.of_nat (length names) ∧
  (∀ n h, class_table st !! n = Some h ↔ ∃ i, names !! i = Some n ∧ h = mkH (1 + Z.of_nat i)) ∧
  (∀ h d, classes st !! h = Some d ↔
     ∃ i n, names !! i = Some n ∧ h = mkH (1 + Z.of_nat i) ∧ merged !! n = Some d).

Lemma lookup_snoc {B} (l : list B) x i y :
  (l ++ [x]) !! i = Some y ↔ l !! i = Some y ∨ (i = length l ∧ x = y).
Proof.
  rewrite lookup_app_Some. split; intros [?|[? Hx]]; [by left| |by left|right; split; [lia|]].
  - right. destruct (i - length l)%nat eqn:E; simpl in Hx; simplify_eq. split; [lia|done].
  - subst. by rewrite Nat.sub_diag.
Qed.

Lemma table_of_snoc names st n d :
  (∀ a b, mkH a = mkH b → a = b) →
  table_of names st → n ∉ names → merged !! n = Some d →
  1 + Z.of_nat (length names) < 2 ^ 32 - 1 →
  table_of (names ++ [n]) (assign_one mkH mkA members_of n d st).
Proof.
  intros mkH_inj (Hn & Ht & Hc) Hfresh Hd Hb. unfold assign_one.
  destruct (assign_member_fold (mkH (next_class st)) (members_of d)
    {| next_class := wrap_u 32 (next_class st + 1); next_member := next_member st;
       classes := classes st; class_table := class_table st; member_table := member_table st |})
    as (E1 & E2 & E3). simpl in E1, E2, E3. unfold table_of. simpl. rewrite E1, E2, E3, Hn.
  split_and!.
  - rewrite wrap_u_id by (unfold u_in; lia). rewrite length_app. simpl. lia.
  - intros n' h. setoid_rewrite lookup_snoc. destruct (decide (n = n')) as [<-|Hne].
    + rewrite lookup_insert_eq. split; [intros [= <-]; eauto|].
      intros (i & [Hi|[-> _]] & ->); [|done]. exfalso. by apply Hfresh, (list_elem_of_lookup_2 _ i).
    + rewrite lookup_insert_ne, Ht by done. naive_solver.
  - intros h d'. setoid_rewrite lookup_snoc.
    destruct (decide (mkH (1 + Z.of_nat (length names)) = h)) as [<-|Hne].
    + rewrite lookup_insert_eq. split; [intros [= <-]; naive_solver|].
      intros (i & n' & [Hi|[-> <-]] & He & Hd'); [|congruence].
      apply mkH_inj in He. apply lookup_lt_Some in Hi. lia.
    + rewrite lookup_insert_ne, Hc by done. naive_solver.
Qed.

Definition path_name (p : list string) : string := default ""%string (head p).

Lemma visit_all paths :
  (∀ a b, mkH a = mkH b → a = b) →
  (∀ p, p ∈ paths → rooted p) → NoDup (path_name <$> paths) →
  Z.of_nat (length paths) < 2 ^ 32 - 2 →
  table_of (path_name <$> paths) (foldl visit (assign_init (D := D) (H := H) (A := A)) paths).
Proof.
  intros mkH_inj. induction paths as [|p paths IH] using rev_ind; intros Hr Hnd Hb.
  { split_and!; [done|..]; intros; simpl; rewrite lookup_empty; split; [done| |done|];
      [intros (i & Hi & _)|intros (i & n & Hi & _)]; by rewrite lookup_nil in Hi. }
  rewrite fmap_app in *. rewrite length_app in Hb. simpl in Hb.
  apply NoDup_app in Hnd as (Hnd & Hdis & _).
  rewrite foldl_app. simpl. assert (Hp : rooted p) by (apply Hr; set_solver).
  assert (∃ n anc, p = n :: anc) as (n & anc & ->) by (inversion Hp; eauto).
  destruct (rooted_lookup _ _ Hp) as [d Hd]. simpl. rewrite Hd.
  apply table_of_snoc; [done|apply IH; [set_solver|done|lia]| |done|rewrite length_fmap; lia].
  intros Hin. apply (Hdis _ Hin). simpl. set_solver.
Qed.

Lemma rooted_cons p : rooted p → ∃ n anc, p = n :: anc.
Proof. destruct 1; eauto. Qed.

Lemma path_names_NoDup paths :
  (∀ p, p ∈ paths → rooted p) → NoDup paths → NoDup (path_name <$> paths).
Proof.
  intros Hr Hnd. apply NoDup_fmap_2_strong; [|done]. intros p q Hp Hq Heq.
  destruct (rooted_cons p) as (n & a & ->); [by apply Hr|].
  destruct (rooted_cons q) as (m & b & ->); [by apply Hr|].
  unfold path_name in Heq. simpl in Heq. subst m.
  f_equal. eapply rooted_det; [by apply Hr|by apply Hr].
Qed.

Definition all_paths : list (list string) :=
  concat ((λ r, preorder (S (length order)) [r]) <$> kids None).

Lemma kids_None_rooted r : r ∈ kids None → rooted [r].
Proof. intros Hr. constructor. by apply list_elem_of_filter in Hr as [? _]. Qed.

Lemma all_paths_rooted p : p ∈ all_paths ↔ rooted p.
Proof.
  unfold all_paths. rewrite elem_of_concat. split.
  - intros (l & Hp & Hl). apply list_elem_of_fmap in Hl as (r & -> & Hr).
    by eapply preorder_suffix in Hp as [? _]; [|by apply kids_None_rooted].
  - intros Hp. destruct p as [|r l _] using rev_ind; [inversion Hp|].
    exists (preorder (S (length order)) [r]). split.
    + apply preorder_complete; [done|done|simpl; lia].
    + apply list_elem_of_fmap. exists r. split; [done|].
      pose proof (rooted_suffix l r [] Hp) as Hr. inversion Hr; subst.
      apply list_elem_of_filter. split; [done|]. apply (rooted_order _ Hr). set_solver.
Qed.

Lemma all_paths_NoDup : NoDup all_paths.
Proof.
  apply concat_NoDup.
  - by apply NoDup_filter.
  - intros c Hc. apply preorder_NoDup. by apply kids_None_rooted.
  - intros c c' x Hc Hc' Hx Hx'.
    apply preorder_suffix in Hx as [_ [l Hl]]; [|by apply kids_None_rooted].
    apply preorder_suffix in Hx' as [_ [l' Hl']]; [|by apply kids_None_rooted].
    rewrite Hl in Hl'. apply app_inj_2 in Hl' as [_ Heq]; [congruence|done].
Qed.

Lemma all_paths_length : (length all_paths ≤ length order)%nat.
Proof.
  rewrite <- (length_fmap path_name all_paths).
  apply submseteq_length, NoDup_submseteq.
  - apply path_names_NoDup; [apply all_paths_rooted|apply all_paths_NoDup].
  - intros n Hn. apply list_elem_of_fmap in Hn as (p & -> & Hp).
    apply all_paths_rooted in Hp. destruct (rooted_cons p Hp) as (m & a & ->).
    apply (rooted_order _ Hp). unfold path_name. simpl. set_solver.
Qed.
End walk.

Section assign_all_spec.
Context {D H A : Type} `{Countable H}.
Variables (mkH : Z → H) (mkA : Z → A) (parent_of : D → option string) (members_of : D → list string).
Variables (merged : gmap string D) (order : list string) (name_of : D → string) (raw : H → Z).
Hypothesis order_nodup : NoDup order.
Hypothesis order_dom : ∀ n, n ∈ order ↔ is_Some (merged !! n).
Hypothesis merged_name : ∀ n d, merged !! n = Some d → name_of d = n.
Hypothesis raw_mkH : ∀ z, raw (mkH z) = z.

Let paths := all_paths parent_of merged order.
Let names := path_name <$> paths.

Lemma assign_all_paths :
  assign_all mkH mkA parent_of members_of merged order
  = Some (foldl (visit mkH mkA members_of merged) assign_init paths).
Proof.
  unfold assign_all, build_children.
  destruct (build_children_prefix parent_of merged order order_nodup order_dom order) as (m & -> & Hm);
    [by intros n Hn; apply order_dom|]. simpl. rewrite Hm.
  assert (Hc : ∀ p, default [] (delete None m !! Some p) = kids parent_of merged order (Some p)).
  { intros p. rewrite lookup_delete_ne by done. apply Hm. }
  unfold paths, all_paths.
  assert (Hgo : ∀ rs st, rs ⊆ kids parent_of merged order None →
    foldl (λ acc root, acc ≫= assign_class_handles mkH mkA members_of (S (length order))
             merged (delete None m) root) (Some st) rs
    = Some (foldl (visit mkH mkA members_of merged) st
             (concat ((λ r, preorder parent_of merged order (S (length order)) [r]) <$> rs)))).
  { induction rs as [|r rs IH]; intros st Hrs; [done|]. cbn [foldl fmap list_fmap concat].
    cbn [mbind option_bind].
    rewrite (assign_preorder mkH mkA parent_of members_of merged order) with (anc := []);
      [|done|done|done|apply (kids_None_rooted parent_of merged order); set_solver|simpl; lia].
    rewrite IH by set_solver. by rewrite foldl_app. }
  by apply Hgo.
Qed.

Hypothesis order_small : Z.of_nat (length order) < 2 ^ 32 - 2.

Lemma assign_all_table :
  ∃ st, assign_all mkH mkA parent_of members_of merged order = Some st ∧
        table_of mkH merged names st.
Proof.
  eexists. split; [apply assign_all_paths|]. apply visit_all with (parent_of := parent_of) (order := order); [done|done|..].
  - intros a b E. by rewrite <- (raw_mkH a), E.
  - by apply all_paths_rooted.
  - apply (path_names_NoDup parent_of merged); [by apply all_paths_rooted|by apply all_paths_NoDup].
  - pose proof (all_paths_length parent_of merged order order_nodup order_dom). unfold paths. lia.
Qed.

Variable st : AssignState D H A.
Hypothesis st_table : table_of mkH merged names st.

Lemma names_NoDup : NoDup names.
Proof. apply (path_names_NoDup parent_of merged); [by apply all_paths_rooted|by apply all_paths_NoDup]. Qed.

Lemma table_handle n h :
  class_table st !! n = Some h → ∃ d, classes st !! h = Some d ∧ name_of d = n.
Proof.
  destruct st_table as (_ & Ht & Hc). intros Hn. apply Ht in Hn as (i & Hi & ->).
  assert (Hr : ∃ anc, rooted parent_of merged (n :: anc)).
  { unfold names in Hi. rewrite list_lookup_fmap in Hi. apply fmap_Some in Hi as (p & Hp & ->).
    apply list_elem_of_lookup_2, all_paths_rooted in Hp; [|done..].
    destruct (rooted_cons parent_of merged p Hp) as (m & anc & ->). by exists anc. }
  destruct Hr as [anc Hr]. apply (rooted_lookup parent_of merged order order_nodup order_dom) in Hr as [d Hd].
  exists d. split; [|by apply merged_name]. apply Hc. eauto.
Qed.

Lemma table_def h d : classes st !! h = Some d → class_table st !! name_of d = Some h.
Proof.
  destruct st_table as (_ & Ht & Hc). intros Hh. apply Hc in Hh as (i & n & Hi & -> & Hd).
  apply Ht. exists i. split; [|done]. by rewrite (merged_name _ _ Hd).
Qed.

Lemma table_parent h d p :
  classes st !! h = Some d → parent_of d = Some p →
  ∃ hp, class_table st !! p = Some hp ∧ raw hp < raw h.
Proof.
  destruct st_table as (_ & Ht & Hc). intros Hh Hp. apply Hc in Hh as (i & n & Hi & -> & Hd).
  unfold names in Hi. rewrite list_lookup_fmap in Hi. apply fmap_Some in Hi as (q & Hq & ->).
  assert (Hr : rooted parent_of merged q)
    by (by apply list_elem_of_lookup_2, all_paths_rooted in Hq).
  inversion Hr as [n Hn|n p' anc Hn Hr']; subst; unfold path_name in Hd; simpl in Hd;
    unfold par in Hn; rewrite Hd in Hn; simpl in Hn; [congruence|].
  assert (p' = p) as -> by congruence.
  destruct (closed_from_concat merged order order_nodup order_dom [] (λ r, preorder parent_of merged order (S (length order)) [r])
    (kids parent_of merged order None)) with (i := i) (n := n) (q := p :: anc)
    as [?|(j & Hj & Hq')]; [intros; by apply preorder_closed|done|done|].
  exists (mkH (1 + Z.of_nat j)). rewrite !raw_mkH. split; [|lia].
  apply Ht. exists j. split; [|done]. unfold names, paths, all_paths.
  by rewrite list_lookup_fmap, Hq'.
Qed.
End assign_all_spec.

(** ** The merged definitions are keyed by their own names *)

Definition merge_inv {D} (name_of : D → string) (acc : gmap string D * list string) : Prop :=
  NoDup acc.2 ∧ (∀ n, n ∈ acc.2 ↔ is_Some (acc.1 !! n)) ∧
  (∀ n d, acc.1 !! n = Some d → name_of d = n).

Lemma merge_inv_empty {D} (name_of : D → string) : merge_inv name_of (∅, []).
Proof.
  split_and!; simpl; [constructor|..]; intros *; rewrite lookup_empty; [|done].
  split; [intros Hn; by apply elem_of_nil in Hn|by intros [? ?]].
Qed.

Lemma merge_inv_new {D} (name_of : D → string) merged order d :
  merge_inv name_of (merged, order) → merged !! name_of d = None →
  merge_inv name_of (<[name_of d := d]> merged, order ++ [name_of d]).
Proof.
  intros (Hnd & Hdom & Hname) Hnew. simpl in *. split_and!; simpl.
  - apply NoDup_app. split_and!; [done| |apply NoDup_singleton].
    intros x Hx ->%list_elem_of_singleton. apply Hdom in Hx as [? ?]. congruence.
  - intros n. rewrite elem_of_app, list_elem_of_singleton, Hdom.
    destruct (decide (name_of d = n)) as [<-|Hne].
    + rewrite lookup_insert_eq. naive_solver.
    + rewrite lookup_insert_ne by done. naive_solver.
  - intros n d'. destruct (decide (name_of d = n)) as [<-|Hne].
    + rewrite lookup_insert_eq. by intros [= ->].
    + rewrite lookup_insert_ne by done. apply Hname.
Qed.

Lemma merge_inv_update {D} (name_of : D → string) merged order n d d' :
  merge_inv name_of (merged, order) → merged !! n = Some d → name_of d' = name_of d →
  merge_inv name_of (<[n := d']> merged, order).
Proof.
  intros (Hnd & Hdom & Hname) Hd Hn. simpl in *. pose proof (Hname _ _ Hd) as Hdn.
  split_and!; simpl; [done|..].
  - intros m. rewrite Hdom. destruct (decide (n = m)) as [<-|Hne].
    + rewrite lookup_insert_eq, Hd. naive_solver.
    + by rewrite lookup_insert_ne.
  - intros m e. destruct (decide (n = m)) as [<-|Hne].
    + rewrite lookup_insert_eq. intros [= <-]. congruence.
    + rewrite lookup_insert_ne by done. apply Hname.
Qed.

Lemma try_fold_inv {E A B} (P : B → Prop) (f : A → B → result E B) l acc acc' :
  (∀ a b b', P b → f a b = Ok b' → P b') → P acc → try_fold f l acc = Ok acc' → P acc'.
Proof.
  intros Hf. revert acc. induction l as [|a l IH]; intros acc HP; simpl; [by intros [= <-]|].
  destruct (f a acc) as [b|] eqn:E1; simpl; [|done]. apply IH. by eapply Hf.
Qed.

Lemma merge_object_class_inv cls acc acc' :
  merge_inv oc_name acc → merge_object_class cls acc = Ok acc' → merge_inv oc_name acc'.
Proof.
  destruct acc as [merged order]. intros Hinv. unfold merge_object_class.
  destruct (merged !! oc_name cls) as [ex|] eqn:E.
  - case_decide; [done|]. destruct (try_fold _ _ _); simpl; [|done]. intros [= <-].
    by eapply merge_inv_update.
  - intros [= <-]. by apply merge_inv_new.
Qed.

Lemma merge_interaction_class_inv ic acc acc' :
  merge_inv ic_name acc → merge_interaction_class ic acc = Ok acc' → merge_inv ic_name acc'.
Proof.
  destruct acc as [merged order]. intros Hinv. unfold merge_interaction_class.
  destruct (merged !! ic_name ic) as [ex|] eqn:E.
  - case_decide; [done|]. destruct (try_fold _ _ _); simpl; [|done]. intros [= <-].
    by eapply merge_inv_update.
  - intros [= <-]. by apply merge_inv_new.
Qed.

(** ** Properties *)

Lemma merge_fold_inv ms acc acc' :
  merge_inv oc_name acc.1 ∧ merge_inv ic_name acc.2 →
  try_fold (λ m acc,
      objs ← try_fold merge_object_class (object_classes_of m) acc.1;
      ixs ← try_fold merge_interaction_class (interaction_classes_of m) acc.2;
      Ok (objs, ixs)) ms acc = Ok acc' →
  merge_inv oc_name acc'.1 ∧ merge_inv ic_name acc'.2.
Proof.
  apply (try_fold_inv (λ acc, merge_inv oc_name acc.1 ∧ merge_inv ic_name acc.2)).
  clear. intros m [o i] b [Ho Hi]. simpl.
  destruct (try_fold merge_object_class _ _) as [o'|] eqn:Eo; simpl; [|done].
  destruct (try_fold merge_interaction_class _ _) as [i'|] eqn:Ei; simpl; [|done].
  intros [= <-]. split; simpl.
  - eapply try_fold_inv; [|exact Ho|exact Eo]. intros. by eapply merge_object_class_inv.
  - eapply try_fold_inv; [|exact Hi|exact Ei]. intros. by eapply merge_interaction_class_inv.
Qed.

Lemma merge_modules_returns ms : ∃ r, merge_modules ms = Some r.
Proof.
  unfold merge_modules.
  destruct (try_fold _ ms _) as [[[mo oo] [mi oi]]|e] eqn:E; [|eauto].
  apply merge_fold_inv in E as [Ho Hi]; [|split; apply merge_inv_empty]. simpl in Ho, Hi.
  destruct Ho as (Ho1 & Ho2 & Ho3), Hi as (Hi1 & Hi2 & Hi3).
  rewrite (assign_all_paths ObjectClassHandle_new AttributeHandle_new _ _ _ _ oc_name och_raw Ho1 Ho2 Ho3 ltac:(done)),
    (assign_all_paths InteractionClassHandle_new ParameterHandle_new _ _ _ _ ic_name ich_raw Hi1 Hi2 Hi3 ltac:(done)).
  simpl. eauto.
Qed.

(** [MergedFom::merge]; the second case does not occur. *)
Definition merge (ms : list FomModule) : result FomError MergedFom :=
  match merge_modules ms with Some r => r | None => Err (UnknownReference "") end.

(** Merging FOM modules always returns.  The recursive handle assignment
    never indexes a missing class and never runs away, whatever the parent
    links of the modules are (cyclic, dangling or duplicated names included):
    the outcome is a merged FOM or a [FomError]. *)
Theorem merge_modules_total ms : ∃ r, merge_modules ms = Some r.
Proof. apply merge_modules_returns. Qed.

(** The distinct classes of a list of modules fit the [u32] handle space. *)
Definition modules_small (ms : list FomModule) : Prop :=
  Z.of_nat (length (ms ≫= object_classes_of)) < 2 ^ 32 - 2 ∧
  Z.of_nat (length (ms ≫= interaction_classes_of)) < 2 ^ 32 - 2.

Lemma try_fold_length {E A B} (sz : B → nat) (f : A → B → result E B) l acc acc' :
  (∀ a b b', f a b = Ok b' → (sz b' ≤ S (sz b))%nat) →
  try_fold f l acc = Ok acc' → (sz acc' ≤ length l + sz acc)%nat.
Proof.
  intros Hf. revert acc. induction l as [|a l IH]; intros acc; simpl; [by intros [= <-]|].
  destruct (f a acc) as [b|] eqn:E1; simpl; [|done]. intros H. apply IH in H. apply Hf in E1. lia.
Qed.

Lemma merge_object_class_length cls acc acc' :
  merge_object_class cls acc = Ok acc' → (length acc'.2 ≤ S (length acc.2))%nat.
Proof.
  destruct acc as [m o]. unfold merge_object_class. destruct (m !! _).
  - case_decide; [done|]. destruct (try_fold _ _ _); simpl; [|done]. intros [= <-]. simpl. lia.
  - intros [= <-]. simpl. rewrite length_app. simpl. lia.
Qed.

Lemma merge_interaction_class_length ic acc acc' :
  merge_interaction_class ic acc = Ok acc' → (length acc'.2 ≤ S (length acc.2))%nat.
Proof.
  destruct acc as [m o]. unfold merge_interaction_class. destruct (m !! _).
  - case_decide; [done|]. destruct (try_fold _ _ _); simpl; [|done]. intros [= <-]. simpl. lia.
  - intros [= <-]. simpl. rewrite length_app. simpl. lia.
Qed.

Lemma merge_fold_length ms acc acc' :
  try_fold (λ m acc,
      objs ← try_fold merge_object_class (object_classes_of m) acc.1;
      ixs ← try_fold merge_interaction_class (interaction_classes_of m) acc.2;
      Ok (objs, ixs)) ms acc = Ok acc' →
  (length acc'.1.2 ≤ length (ms ≫= object_classes_of) + length acc.1.2)%nat ∧
  (length acc'.2.2 ≤ length (ms ≫= interaction_classes_of) + length acc.2.2)%nat.
Proof.
  revert acc. induction ms as [|m ms IH]; intros acc; simpl; [intros [= <-]; lia|].
  destruct (try_fold merge_object_class _ _) as [o'|] eqn:Eo; simpl; [|done].
  destruct (try_fold merge_interaction_class _ _) as [i'|] eqn:Ei; simpl; [|done].
  intros H. apply IH in H. simpl in H.
  apply (try_fold_length (λ x, length x.2)) in Eo; [|intros *; apply merge_object_class_length].
  apply (try_fold_length (λ x, length x.2)) in Ei; [|intros *; apply merge_interaction_class_length].
  simpl in Eo, Ei. unfold mbind in H. rewrite !length_app. lia.
Qed.

Lemma merge_modules_fom_wf ms fom :
  modules_small ms → merge_modules ms = Some (Ok fom) → FomWf fom.
Proof.
  intros [Hso Hsi]. unfold merge_modules.
  destruct (try_fold _ ms _) as [[[mo oo] [mi oi]]|e] eqn:E; [|done].
  pose proof (merge_fold_length _ _ _ E) as [Hlo Hli]. simpl in Hlo, Hli.
  apply merge_fold_inv in E as [Ho Hi]; [|split; apply merge_inv_empty]. simpl in Ho, Hi.
  destruct Ho as (Ho1 & Ho2 & Ho3), Hi as (Hi1 & Hi2 & Hi3). simpl in *.
  destruct (assign_all_table ObjectClassHandle_new AttributeHandle_new oc_parent object_members
    mo oo oc_name och_raw Ho1 Ho2 Ho3 ltac:(done) ltac:(lia)) as (so & -> & Hto).
  destruct (assign_all_table InteractionClassHandle_new ParameterHandle_new ic_parent
    interaction_members mi oi ic_name ich_raw Hi1 Hi2 Hi3 ltac:(done) ltac:(lia)) as (si & -> & Hti).
  intros [= <-]. split; unfold object_class_handle, object_class_def,
    interaction_class_handle, interaction_class_def; simpl.
  - intros *. by apply (table_handle _ _ _ _ _ Ho1 Ho2 Ho3 _ Hto).
  - intros *. by apply (table_def _ _ _ _ _ Ho3 _ Hto).
  - intros *. by apply (table_parent ObjectClassHandle_new _ _ _ och_raw Ho1 Ho2 ltac:(done) _ Hto).
  - intros *. by apply (table_handle _ _ _ _ _ Hi1 Hi2 Hi3 _ Hti).
  - intros *. by apply (table_def _ _ _ _ _ Hi3 _ Hti).
  - intros *. by apply (table_parent InteractionClassHandle_new _ _ _ ich_raw Hi1 Hi2 ltac:(done) _ Hti).
Qed.

(** C23: a merged FOM is well formed, when the classes of the modules fit the
    32-bit handles.  Class names and handles are in
    bijection, a class's parent is itself numbered, and with a smaller handle
    than the class: the inheritance links that routing follows form a finite
    forest. *)
Theorem merge_modules_wf ms fom :
  modules_small ms → merge_modules ms = Some (Ok fom) → FomWf fom.
Proof. apply merge_modules_fom_wf. Qed.

(** Two modules, the class of the first a child of the class of the second. *)
Definition sample_modules : list FomModule :=
  [ {| identification := {| mod_name := "child"; mod_version := None; mod_description := None |};
        object_classes_of := [{| oc_name := "Root.Child"; oc_parent := Some "Root"%string;
         oc_attributes := []; oc_semantics := None |}]; interaction_classes_of := [] |};
    {| identification := {| mod_name := "root"; mod_version := None; mod_description := None |};
        object_classes_of := [{| oc_name := "Root"; oc_parent := None;
         oc_attributes := []; oc_semantics := None |}]; interaction_classes_of := [] |} ].

Lemma merge_modules_witness :
  ∃ fom, merge_modules sample_modules = Some (Ok fom) ∧ FomWf fom ∧
    object_class_handle fom "Root" = Some (ObjectClassHandle_new 1) ∧
    object_class_handle fom "Root.Child" = Some (ObjectClassHandle_new 2).
Proof.
  destruct (merge_modules sample_modules) as [[fom|e]|] eqn:H.
  - exists fom. split; [done|]. split.
    + apply (merge_modules_wf sample_modules); [|exact H]. split; simpl; lia.
    + vm_compute in H. injection H as <-. split; reflexivity.
  - exfalso. vm_compute in H. discriminate H.
  - exfalso. vm_compute in H. discriminate H.
Defined.
