(* ===== verification/Exception.v ===== *)
(** * hla-rti: exception names

    [hla-rti/src/exception.rs]: the exception kinds and the names they carry
    on the wire. *)

From S2P Require Import Prelude.

Inductive HlaException :=
| AttributeNotDefined
| AttributeNotOwned
| CouldNotOpenFdd
| DeletePrivilegeNotHeld
| ErrorReadingFdd
| FederateAlreadyExecutionMember
| FederateNameAlreadyInUse
| FederateNotExecutionMember
| FederateNotInSaveInitiated
| FederateNotInSaveSet
| FederateNotInSynchronizationGroup
| FederatesCurrentlyJoined
| FederationExecutionAlreadyExists
| FederationExecutionDoesNotExist
| InteractionClassNotDefined
| InteractionClassNotPublished
| InteractionParameterNotDefined
| InTimeAdvancingState
| InvalidAttributeHandle
| InvalidDimension
| InvalidDimensionHandle
| InvalidFederateHandle
| InvalidInteractionClassHandle
| InvalidLogicalTime
| InvalidLookahead
| InvalidObjectClassHandle
| InvalidObjectInstanceHandle
| InvalidOrderName
| InvalidOrderType
| InvalidParameterHandle
| InvalidRangeBound
| InvalidRegion
| InvalidResignAction
| InvalidRestoreLabel
| InvalidSaveLabel
| InvalidSynchronizationPointLabel
| InvalidTransportationName
| InvalidTransportationTypeHandle
| LogicalTimeAlreadyPassed
| NameNotFound
| ObjectClassNotDefined
| ObjectClassNotPublished
| ObjectInstanceNameInUse
| ObjectInstanceNotKnown
| RegionNotCreatedByThisFederate
| RestoreInProgress
| RestoreNotInProgress
| RtiInternalError
| SaveInProgress
| SaveNotInProgress
| SynchronizationPointLabelNotAnnounced
| TimeConstrainedAlreadyEnabled
| TimeConstrainedIsNotEnabled
| TimeRegulationAlreadyEnabled
| TimeRegulationIsNotEnabled.

#[export] Instance HlaException_eq_dec : EqDecision HlaException.
Proof. solve_decision. Defined.

(** [HlaException::name] *)
Definition HlaException_name (e : HlaException) : string :=
  match e with
  | AttributeNotDefined => "AttributeNotDefined"
  | AttributeNotOwned => "AttributeNotOwned"
  | CouldNotOpenFdd => "CouldNotOpenFDD"
  | DeletePrivilegeNotHeld => "DeletePrivilegeNotHeld"
  | ErrorReadingFdd => "ErrorReadingFDD"
  | FederateAlreadyExecutionMember => "FederateAlreadyExecutionMember"
  | FederateNameAlreadyInUse => "FederateNameAlreadyInUse"
  | FederateNotExecutionMember => "FederateNotExecutionMember"
  | FederateNotInSaveInitiated => "FederateNotInSaveInitiated"
  | FederateNotInSaveSet => "FederateNotInSaveSet"
  | FederateNotInSynchronizationGroup => "FederateNotInSynchronizationGroup"
  | FederatesCurrentlyJoined => "FederatesCurrentlyJoined"
  | FederationExecutionAlreadyExists => "FederationExecutionAlreadyExists"
  | FederationExecutionDoesNotExist => "FederationExecutionDoesNotExist"
  | InteractionClassNotDefined => "InteractionClassNotDefined"
  | InteractionClassNotPublished => "InteractionClassNotPublished"
  | InteractionParameterNotDefined => "InteractionParameterNotDefined"
  | InTimeAdvancingState => "InTimeAdvancingState"
  | InvalidAttributeHandle => "InvalidAttributeHandle"
  | InvalidDimension => "InvalidDimension"
  | InvalidDimensionHandle => "InvalidDimensionHandle"
  | InvalidFederateHandle => "InvalidFederateHandle"
  | InvalidInteractionClassHandle => "InvalidInteractionClassHandle"
  | InvalidLogicalTime => "InvalidLogicalTime"
  | InvalidLookahead => "InvalidLookahead"
  | InvalidObjectClassHandle => "InvalidObjectClassHandle"
  | InvalidObjectInstanceHandle => "InvalidObjectInstanceHandle"
  | InvalidOrderName => "InvalidOrderName"
  | InvalidOrderType => "InvalidOrderType"
  | InvalidParameterHandle => "InvalidParameterHandle"
  | InvalidRangeBound => "InvalidRangeBound"
  | InvalidRegion => "InvalidRegion"
  | InvalidResignAction => "InvalidResignAction"
  | InvalidRestoreLabel => "InvalidRestoreLabel"
  | InvalidSaveLabel => "InvalidSaveLabel"
  | InvalidSynchronizationPointLabel => "InvalidSynchronizationPointLabel"
  | InvalidTransportationName => "InvalidTransportationName"
  | InvalidTransportationTypeHandle => "InvalidTransportationTypeHandle"
  | LogicalTimeAlreadyPassed => "LogicalTimeAlreadyPassed"
  | NameNotFound => "NameNotFound"
  | ObjectClassNotDefined => "ObjectClassNotDefined"
  | ObjectClassNotPublished => "ObjectClassNotPublished"
  | ObjectInstanceNameInUse => "ObjectInstanceNameInUse"
  | ObjectInstanceNotKnown => "ObjectInstanceNotKnown"
  | RegionNotCreatedByThisFederate => "RegionNotCreatedByThisFederate"
  | RestoreInProgress => "RestoreInProgress"
  | RestoreNotInProgress => "RestoreNotInProgress"
  | RtiInternalError => "RTIinternalError"
  | SaveInProgress => "SaveInProgress"
  | SaveNotInProgress => "SaveNotInProgress"
  | SynchronizationPointLabelNotAnnounced => "SynchronizationPointLabelNotAnnounced"
  | TimeConstrainedAlreadyEnabled => "TimeConstrainedAlreadyEnabled"
  | TimeConstrainedIsNotEnabled => "TimeConstrainedIsNotEnabled"
  | TimeRegulationAlreadyEnabled => "TimeRegulationAlreadyEnabled"
  | TimeRegulationIsNotEnabled => "TimeRegulationIsNotEnabled"
  end.

(** A client tells exceptions apart by their wire name only: the name
    determines the kind. *)
Definition HlaException_all : list HlaException :=
  [AttributeNotDefined; AttributeNotOwned; CouldNotOpenFdd;
   DeletePrivilegeNotHeld; ErrorReadingFdd; FederateAlreadyExecutionMember;
   FederateNameAlreadyInUse; FederateNotExecutionMember; FederateNotInSaveInitiated;
   FederateNotInSaveSet; FederateNotInSynchronizationGroup; FederatesCurrentlyJoined;
   FederationExecutionAlreadyExists; FederationExecutionDoesNotExist; InteractionClassNotDefined;
   InteractionClassNotPublished; InteractionParameterNotDefined; InTimeAdvancingState;
   InvalidAttributeHandle; InvalidDimension; InvalidDimensionHandle;
   InvalidFederateHandle; InvalidInteractionClassHandle; InvalidLogicalTime;
   InvalidLookahead; InvalidObjectClassHandle; InvalidObjectInstanceHandle;
   InvalidOrderName; InvalidOrderType; InvalidParameterHandle;
   InvalidRangeBound; InvalidRegion; InvalidResignAction;
   InvalidRestoreLabel; InvalidSaveLabel; InvalidSynchronizationPointLabel;
   InvalidTransportationName; InvalidTransportationTypeHandle; LogicalTimeAlreadyPassed;
   NameNotFound; ObjectClassNotDefined; ObjectClassNotPublished;
   ObjectInstanceNameInUse; ObjectInstanceNotKnown; RegionNotCreatedByThisFederate;
   RestoreInProgress; RestoreNotInProgress; RtiInternalError;
   SaveInProgress; SaveNotInProgress; SynchronizationPointLabelNotAnnounced;
   TimeConstrainedAlreadyEnabled; TimeConstrainedIsNotEnabled; TimeRegulationAlreadyEnabled;
   TimeRegulationIsNotEnabled].

Lemma HlaException_name_inj e f : HlaException_name e = HlaException_name f → e = f.
Proof.
  set (pick s := list_find (λ e, HlaException_name e = s) HlaException_all).
  assert (Hp : ∀ e, snd <$> pick (HlaException_name e) = Some e) by (intros []; reflexivity).
  intros H. pose proof (Hp e) as He. rewrite H, Hp in He. congruence.
Qed.
