(* ===== verification/Proto.v ===== *)
(** * FedPro messages

    The protobuf messages of [hla-fedpro-proto/vendor/fedproclient/*.proto]
    that [hla-rti] and [hla-federate] build or take apart, with the field layout of the
    generated Rust types: a message-typed field is an [option], an enum field
    its [i32].  Every handle message has the single field [data: bytes] and is
    modelled by it.  The wire encoding of whole messages is prost's, and a
    parameter ([Prost]) of the model. *)

From S2P Require Import Prelude Float64 Fom.

Definition ProtoHandle : Type := list byte.
(** [LogicalTime] and [LogicalTimeInterval]: [data: bytes]. *)
Definition ProtoTime : Type := list byte.

Record JoinResult := {
  jr_federate_handle : option ProtoHandle;
  jr_logical_time_implementation_name : string
}.
Inductive MessageRetractionReturn := mkMessageRetractionReturn.
Inductive ConfigurationResult := mkConfigurationResult.
Record TimeQueryReturn := {
  logical_time_is_valid : bool;
  logical_time : option ProtoTime
}.
Record ProtoRangeBounds := { rb_lower : Z; rb_upper : Z }.

(** An attribute or parameter value entry: handle and value. *)
Definition ProtoValueMap : Type := list (option ProtoHandle * list byte).

(** ** Error details

    The [details] text of an exception is kept as the arguments the code
    formats, not as the rendered text. *)
Inductive Details :=
| D_str (s : string)
| D_f64 (x : f64)
| D_int (z : Z)
| D_debug_bytes (z : Z)
| D_fom_error (e : FomError)
| D_utf8_error (content : list byte)
| D_cat (l : list Details).

(** ** [CallResponse] *)

Inductive Resp :=
| ExceptionData (exception_name : string) (details : Details)
| AbortFederationRestoreResponse
| AbortFederationSaveResponse
| AssociateRegionsForUpdatesResponse
| AttributeOwnershipAcquisitionIfAvailableResponse
| AttributeOwnershipReleaseDeniedResponse
| CancelAttributeOwnershipAcquisitionResponse
| CancelNegotiatedAttributeOwnershipDivestitureResponse
| ChangeAttributeOrderTypeResponse
| ChangeDefaultAttributeOrderTypeResponse
| ChangeDefaultAttributeTransportationTypeResponse
| ChangeInteractionOrderTypeResponse
| CommitRegionModificationsResponse
| ConfirmDivestitureResponse
| ConnectResponse (configurationResult : option ConfigurationResult)
| ConnectWithConfigurationAndCredentialsResponse (configurationResult : option ConfigurationResult)
| ConnectWithConfigurationResponse (configurationResult : option ConfigurationResult)
| ConnectWithCredentialsResponse (configurationResult : option ConfigurationResult)
| CreateFederationExecutionResponse
| CreateFederationExecutionWithMimAndTimeResponse
| CreateFederationExecutionWithMimResponse
| CreateFederationExecutionWithModulesAndTimeResponse
| CreateFederationExecutionWithModulesResponse
| CreateFederationExecutionWithTimeResponse
| CreateRegionResponse (result : option ProtoHandle)
| DeleteObjectInstanceResponse
| DeleteObjectInstanceWithTimeResponse (result : option MessageRetractionReturn)
| DeleteRegionResponse
| DestroyFederationExecutionResponse
| DisableAsynchronousDeliveryResponse
| DisableTimeConstrainedResponse
| DisableTimeRegulationResponse
| DisconnectResponse
| EnableAsynchronousDeliveryResponse
| EnableTimeConstrainedResponse
| EnableTimeRegulationResponse
| FederateRestoreCompleteResponse
| FederateRestoreNotCompleteResponse
| FederateSaveBegunResponse
| FederateSaveCompleteResponse
| FederateSaveNotCompleteResponse
| GetAdvisoriesUseKnownClassSwitchResponse (result : bool)
| GetAllowRelaxedDdmSwitchResponse (result : bool)
| GetAttributeHandleResponse (result : option ProtoHandle)
| GetAttributeNameResponse (result : string)
| GetAttributeRelevanceAdvisorySwitchResponse (result : bool)
| GetAttributeScopeAdvisorySwitchResponse (result : bool)
| GetAutoProvideSwitchResponse (result : bool)
| GetAutomaticResignDirectiveResponse (result : Z)
| GetAvailableDimensionsForInteractionClassResponse (result : option (list ProtoHandle))
| GetAvailableDimensionsForObjectClassResponse (result : option (list ProtoHandle))
| GetConveyRegionDesignatorSetsSwitchResponse (result : bool)
| GetDelaySubscriptionEvaluationSwitchResponse (result : bool)
| GetDimensionHandleResponse (result : option ProtoHandle)
| GetDimensionHandleSetResponse (result : option (list ProtoHandle))
| GetDimensionNameResponse (result : string)
| GetDimensionUpperBoundResponse (result : Z)
| GetExceptionReportingSwitchResponse (result : bool)
| GetFederateHandleResponse (result : option ProtoHandle)
| GetFederateNameResponse (result : string)
| GetInteractionClassHandleResponse (result : option ProtoHandle)
| GetInteractionClassNameResponse (result : string)
| GetInteractionRelevanceAdvisorySwitchResponse (result : bool)
| GetKnownObjectClassHandleResponse (result : option ProtoHandle)
| GetNonRegulatedGrantSwitchResponse (result : bool)
| GetObjectClassHandleResponse (result : option ProtoHandle)
| GetObjectClassNameResponse (result : string)
| GetObjectClassRelevanceAdvisorySwitchResponse (result : bool)
| GetObjectInstanceHandleResponse (result : option ProtoHandle)
| GetObjectInstanceNameResponse (result : string)
| GetOrderNameResponse (result : string)
| GetOrderTypeResponse (result : Z)
| GetParameterHandleResponse (result : option ProtoHandle)
| GetParameterNameResponse (result : string)
| GetRangeBoundsResponse (result : option ProtoRangeBounds)
| GetSendServiceReportsToFileSwitchResponse (result : bool)
| GetServiceReportingSwitchResponse (result : bool)
| GetTransportationTypeHandleResponse (result : option ProtoHandle)
| GetTransportationTypeNameResponse (result : string)
| GetUpdateRateValueForAttributeResponse (result : f64)
| GetUpdateRateValueResponse (result : f64)
| IsAttributeOwnedByFederateResponse (result : bool)
| JoinFederationExecutionResponse (result : option JoinResult)
| JoinFederationExecutionWithModulesResponse (result : option JoinResult)
| JoinFederationExecutionWithNameAndModulesResponse (result : option JoinResult)
| JoinFederationExecutionWithNameResponse (result : option JoinResult)
| ListFederationExecutionMembersResponse
| ListFederationExecutionsResponse
| LocalDeleteObjectInstanceResponse
| ModifyLookaheadResponse
| NormalizeFederateHandleResponse (result : Z)
| NormalizeInteractionClassHandleResponse (result : Z)
| NormalizeObjectClassHandleResponse (result : Z)
| NormalizeObjectInstanceHandleResponse (result : Z)
| NormalizeServiceGroupResponse (result : Z)
| PublishInteractionClassResponse
| PublishObjectClassAttributesResponse
| PublishObjectClassDirectedInteractionsResponse
| QueryAttributeOwnershipResponse
| QueryAttributeTransportationTypeResponse
| QueryFederationRestoreStatusResponse
| QueryFederationSaveStatusResponse
| QueryGaltResponse (result : option TimeQueryReturn)
| QueryInteractionTransportationTypeResponse
| QueryLitsResponse (result : option TimeQueryReturn)
| QueryLogicalTimeResponse (result : option ProtoTime)
| QueryLookaheadResponse (result : option ProtoTime)
| RegisterFederationSynchronizationPointResponse
| RegisterObjectInstanceResponse (result : option ProtoHandle)
| RegisterObjectInstanceWithNameAndRegionsResponse (result : option ProtoHandle)
| RegisterObjectInstanceWithNameResponse (result : option ProtoHandle)
| RegisterObjectInstanceWithRegionsResponse (result : option ProtoHandle)
| ReleaseMultipleObjectInstanceNamesResponse
| ReleaseObjectInstanceNameResponse
| RequestAttributeTransportationTypeChangeResponse
| RequestAttributeValueUpdateWithRegionsResponse
| RequestClassAttributeValueUpdateResponse
| RequestFederationRestoreResponse
| RequestFederationSaveResponse
| RequestInstanceAttributeValueUpdateResponse
| RequestInteractionTransportationTypeChangeResponse
| ReserveMultipleObjectInstanceNamesResponse
| ReserveObjectInstanceNameResponse
| ResignFederationExecutionResponse
| RetractResponse
| SendDirectedInteractionResponse
| SendDirectedInteractionWithTimeResponse (result : option MessageRetractionReturn)
| SendInteractionResponse
| SendInteractionWithTimeResponse (result : option MessageRetractionReturn)
| SetAttributeRelevanceAdvisorySwitchResponse
| SetAttributeScopeAdvisorySwitchResponse
| SetAutomaticResignDirectiveResponse
| SetConveyRegionDesignatorSetsSwitchResponse
| SetExceptionReportingSwitchResponse
| SetInteractionRelevanceAdvisorySwitchResponse
| SetObjectClassRelevanceAdvisorySwitchResponse
| SetRangeBoundsResponse
| SetSendServiceReportsToFileSwitchResponse
| SetServiceReportingSwitchResponse
| SubscribeInteractionClassResponse
| SubscribeInteractionClassWithRegionsResponse
| SubscribeObjectClassAttributesResponse
| SubscribeObjectClassAttributesWithRegionsAndRateResponse
| SubscribeObjectClassAttributesWithRegionsResponse
| SubscribeObjectClassDirectedInteractionsResponse
| SynchronizationPointAchievedResponse
| TimeAdvanceRequestResponse
| UnassociateRegionsForUpdatesResponse
| UnconditionalAttributeOwnershipDivestitureResponse
| UnpublishInteractionClassResponse
| UnpublishObjectClassAttributesResponse
| UnpublishObjectClassDirectedInteractionsResponse
| UnpublishObjectClassResponse
| UnsubscribeInteractionClassResponse
| UnsubscribeInteractionClassWithRegionsResponse
| UnsubscribeObjectClassAttributesResponse
| UnsubscribeObjectClassAttributesWithRegionsResponse
| UnsubscribeObjectClassDirectedInteractionsResponse
| UnsubscribeObjectClassResponse
| UpdateAttributeValuesResponse
| UpdateAttributeValuesWithTimeResponse (result : option MessageRetractionReturn).

(** ** [CallbackRequest] *)

Inductive CallbackRequest :=
| DiscoverObjectInstance (object_instance object_class : option ProtoHandle)
    (object_instance_name : string) (producing_federate : option ProtoHandle)
| ReflectAttributeValues (object_instance : option ProtoHandle)
    (attribute_values : option ProtoValueMap) (user_supplied_tag : list byte)
    (producing_federate : option ProtoHandle)
| ReflectAttributeValuesWithTime (object_instance : option ProtoHandle)
    (attribute_values : option ProtoValueMap) (user_supplied_tag : list byte)
    (producing_federate : option ProtoHandle) (time : option ProtoTime)
    (sent_order_type received_order_type : Z)
| ReceiveInteraction (interaction_class : option ProtoHandle)
    (parameter_values : option ProtoValueMap) (user_supplied_tag : list byte)
    (producing_federate : option ProtoHandle)
| ReceiveInteractionWithTime (interaction_class : option ProtoHandle)
    (parameter_values : option ProtoValueMap) (user_supplied_tag : list byte)
    (producing_federate : option ProtoHandle) (time : option ProtoTime)
    (sent_order_type received_order_type : Z)
| ReceiveDirectedInteraction (interaction_class object_instance : option ProtoHandle)
    (parameter_values : option ProtoValueMap) (user_supplied_tag : list byte)
    (producing_federate : option ProtoHandle)
| RemoveObjectInstance (object_instance : option ProtoHandle) (user_supplied_tag : list byte)
    (producing_federate : option ProtoHandle)
| RemoveObjectInstanceWithTime (object_instance : option ProtoHandle)
    (user_supplied_tag : list byte) (producing_federate : option ProtoHandle)
    (time : option ProtoTime) (sent_order_type received_order_type : Z)
| ReportFederationExecutionMembers (federation_name : string) (report : option (list (string * string)))
| ReportFederationExecutionDoesNotExist (federation_name : string)
| ReportFederationExecutions (report : option (list (string * string)))
| AttributeOwnershipAcquisitionNotification (object_instance : option ProtoHandle)
    (secured_attributes : option (list ProtoHandle)) (user_supplied_tag : list byte)
| AttributeOwnershipUnavailable (object_instance : option ProtoHandle)
    (attributes : option (list ProtoHandle)) (user_supplied_tag : list byte)
| InformAttributeOwnership (object_instance : option ProtoHandle)
    (attributes : option (list ProtoHandle)) (federate : option ProtoHandle)
| AttributeIsNotOwned (object_instance : option ProtoHandle) (attributes : option (list ProtoHandle))
| RequestFederationRestoreSucceeded (label : string)
| RequestFederationRestoreFailed (label : string)
| FederationRestoreBegun
| InitiateFederateRestore (label federate_name : string) (post_restore_federate_handle : option ProtoHandle)
| FederationRestored
| FederationNotRestored (reason : Z)
| InitiateFederateSave (label : string)
| FederationSaved
| FederationNotSaved (reason : Z)
| SynchronizationPointRegistrationSucceeded (label : string)
| SynchronizationPointRegistrationFailed (label : string) (reason : Z)
| AnnounceSynchronizationPoint (label : string) (user_supplied_tag : list byte)
| FederationSynchronized (label : string) (failed_to_sync_set : option (list ProtoHandle))
| StartRegistrationForObjectClass (object_class : option ProtoHandle)
| StopRegistrationForObjectClass (object_class : option ProtoHandle)
| TurnInteractionsOn (interaction_class : option ProtoHandle)
| TurnInteractionsOff (interaction_class : option ProtoHandle)
| TimeRegulationEnabled (time : option ProtoTime)
| TimeConstrainedEnabled (time : option ProtoTime)
| TimeAdvanceGrant (time : option ProtoTime)
(* not built by [hla-rti] *)
| ConnectionLost (fault_description : string)
| FederateResigned (reason_for_resign_description : string)
| InitiateFederateSaveWithTime (label : string) (time : option ProtoTime)
| FederationSaveStatusResponse
| FederationRestoreStatusResponse
| ObjectInstanceNameReservationSucceeded (object_instance_name : string)
| ObjectInstanceNameReservationFailed (object_instance_name : string)
| MultipleObjectInstanceNameReservationSucceeded (object_instance_names : list string)
| MultipleObjectInstanceNameReservationFailed (object_instance_names : list string)
| ReceiveDirectedInteractionWithTime (interaction_class object_instance : option ProtoHandle)
    (parameter_values : option ProtoValueMap) (user_supplied_tag : list byte)
    (producing_federate : option ProtoHandle) (time : option ProtoTime)
| AttributesInScope (object_instance : option ProtoHandle) (attributes : option (list ProtoHandle))
| AttributesOutOfScope (object_instance : option ProtoHandle) (attributes : option (list ProtoHandle))
| ProvideAttributeValueUpdate (object_instance : option ProtoHandle)
    (attributes : option (list ProtoHandle)) (user_supplied_tag : list byte)
| TurnUpdatesOnForObjectInstance (object_instance : option ProtoHandle)
    (attributes : option (list ProtoHandle))
| TurnUpdatesOnForObjectInstanceWithRate (object_instance : option ProtoHandle)
    (attributes : option (list ProtoHandle)) (update_rate_designator : string)
| TurnUpdatesOffForObjectInstance (object_instance : option ProtoHandle)
    (attributes : option (list ProtoHandle))
| ConfirmAttributeTransportationTypeChange (object_instance : option ProtoHandle)
    (attributes : option (list ProtoHandle)) (transportation_type : option ProtoHandle)
| ReportAttributeTransportationType (object_instance attribute transportation_type : option ProtoHandle)
| ConfirmInteractionTransportationTypeChange (interaction_class transportation_type : option ProtoHandle)
| ReportInteractionTransportationType (federate interaction_class transportation_type : option ProtoHandle)
| RequestAttributeOwnershipAssumption (object_instance : option ProtoHandle)
    (offered_attributes : option (list ProtoHandle)) (user_supplied_tag : list byte)
| RequestDivestitureConfirmation (object_instance : option ProtoHandle)
    (released_attributes : option (list ProtoHandle)) (user_supplied_tag : list byte)
| RequestAttributeOwnershipRelease (object_instance : option ProtoHandle)
    (candidate_attributes : option (list ProtoHandle)) (user_supplied_tag : list byte)
| ConfirmAttributeOwnershipAcquisitionCancellation (object_instance : option ProtoHandle)
    (attributes : option (list ProtoHandle))
| AttributeIsOwnedByRti (object_instance : option ProtoHandle) (attributes : option (list ProtoHandle))
| FlushQueueGrant (time optimistic_time : option ProtoTime)
| RequestRetraction (retraction : option (list byte)).

(** prost's encoder of callbacks ([encode_to_vec]). *)
Class Prost := { encode_callback : CallbackRequest → list byte }.
