(* ===== verification/State.v ===== *)
(** * State of the RTI

    The data of [hla-rti/src/lib.rs], [session.rs] and [metrics.rs]: one
    record per struct, with the fields of the struct.  [HashMap]s are [gmap]s
    and [HashSet]s [gset]s; the iteration order of a hash map is fixed to the
    order of [map_to_list].  Locks and atomics are plain fields: a service
    handler is one atomic step on this state.

    Shared objects keep their identity: an [Arc<Federation>] is a reference
    ([FedRef]) into the heap [fed_heap] of the node and an
    [Arc<ConnectionHandle>] a reference ([ConnRef]) into [conn_heap], so two
    holders of one [Arc] see each other's updates, and a federation that was
    removed from the registry is still reachable from the memberships that
    hold it. *)

From S2P Require Import Prelude Float64 CoreTypes Framing Fom Proto.

(** Every setter [set_x g r] applies [g] to the field [x] of [r]. *)

(** ** The subscription matrix *)

Record SubscriptionMatrix := mkSubscriptionMatrix {
  by_attribute : gmap (ObjectClassHandle * AttributeHandle) (gset FederateHandle);
  by_interaction : gmap InteractionClassHandle (gset FederateHandle);
  class_subscribers : gmap ObjectClassHandle (gmap FederateHandle Z)
}.
Definition set_by_attribute (g : (gmap (ObjectClassHandle * AttributeHandle) (gset FederateHandle)) → (gmap (ObjectClassHandle * AttributeHandle) (gset FederateHandle))) (r : SubscriptionMatrix) : SubscriptionMatrix :=
  mkSubscriptionMatrix (g (by_attribute r)) (by_interaction r) (class_subscribers r).
Definition set_by_interaction (g : (gmap InteractionClassHandle (gset FederateHandle)) → (gmap InteractionClassHandle (gset FederateHandle))) (r : SubscriptionMatrix) : SubscriptionMatrix :=
  mkSubscriptionMatrix (by_attribute r) (g (by_interaction r)) (class_subscribers r).
Definition set_class_subscribers (g : (gmap ObjectClassHandle (gmap FederateHandle Z)) → (gmap ObjectClassHandle (gmap FederateHandle Z))) (r : SubscriptionMatrix) : SubscriptionMatrix :=
  mkSubscriptionMatrix (by_attribute r) (by_interaction r) (g (class_subscribers r)).

Definition SubscriptionMatrix_default : SubscriptionMatrix :=
  mkSubscriptionMatrix ∅ ∅ ∅.

(** ** Object instances and per-federate state *)

Record ObjectInstance := mkObjectInstance {
  inst_handle : ObjectInstanceHandle;
  inst_class : ObjectClassHandle;
  inst_name : string;
  registrar : FederateHandle;
  attribute_owners : gmap AttributeHandle FederateHandle;
  attribute_regions : gmap AttributeHandle (gset RegionHandle)
}.
Definition set_inst_handle (g : ObjectInstanceHandle → ObjectInstanceHandle) (r : ObjectInstance) : ObjectInstance :=
  mkObjectInstance (g (inst_handle r)) (inst_class r) (inst_name r) (registrar r) (attribute_owners r) (attribute_regions r).
Definition set_inst_class (g : ObjectClassHandle → ObjectClassHandle) (r : ObjectInstance) : ObjectInstance :=
  mkObjectInstance (inst_handle r) (g (inst_class r)) (inst_name r) (registrar r) (attribute_owners r) (attribute_regions r).
Definition set_inst_name (g : string → string) (r : ObjectInstance) : ObjectInstance :=
  mkObjectInstance (inst_handle r) (inst_class r) (g (inst_name r)) (registrar r) (attribute_owners r) (attribute_regions r).
Definition set_registrar (g : FederateHandle → FederateHandle) (r : ObjectInstance) : ObjectInstance :=
  mkObjectInstance (inst_handle r) (inst_class r) (inst_name r) (g (registrar r)) (attribute_owners r) (attribute_regions r).
Definition set_attribute_owners (g : (gmap AttributeHandle FederateHandle) → (gmap AttributeHandle FederateHandle)) (r : ObjectInstance) : ObjectInstance :=
  mkObjectInstance (inst_handle r) (inst_class r) (inst_name r) (registrar r) (g (attribute_owners r)) (attribute_regions r).
Definition set_attribute_regions (g : (gmap AttributeHandle (gset RegionHandle)) → (gmap AttributeHandle (gset RegionHandle))) (r : ObjectInstance) : ObjectInstance :=
  mkObjectInstance (inst_handle r) (inst_class r) (inst_name r) (registrar r) (attribute_owners r) (g (attribute_regions r)).

Record PubSubState := mkPubSubState {
  published_attrs : gmap ObjectClassHandle (gset AttributeHandle);
  subscribed_attrs : gmap ObjectClassHandle (gset AttributeHandle);
  published_interactions : gset InteractionClassHandle;
  subscribed_interactions : gset InteractionClassHandle;
  discovered_instances : gset ObjectInstanceHandle;
  subscribed_attrs_regions : gmap (ObjectClassHandle * AttributeHandle) (gset RegionHandle);
  subscribed_directed_interactions : gmap ObjectClassHandle (gset InteractionClassHandle);
  published_directed_interactions : gmap ObjectClassHandle (gset InteractionClassHandle)
}.
Definition set_published_attrs (g : (gmap ObjectClassHandle (gset AttributeHandle)) → (gmap ObjectClassHandle (gset AttributeHandle))) (r : PubSubState) : PubSubState :=
  mkPubSubState (g (published_attrs r)) (subscribed_attrs r) (published_interactions r) (subscribed_interactions r) (discovered_instances r) (subscribed_attrs_regions r) (subscribed_directed_interactions r) (published_directed_interactions r).
Definition set_subscribed_attrs (g : (gmap ObjectClassHandle (gset AttributeHandle)) → (gmap ObjectClassHandle (gset AttributeHandle))) (r : PubSubState) : PubSubState :=
  mkPubSubState (published_attrs r) (g (subscribed_attrs r)) (published_interactions r) (subscribed_interactions r) (discovered_instances r) (subscribed_attrs_regions r) (subscribed_directed_interactions r) (published_directed_interactions r).
Definition set_published_interactions (g : (gset InteractionClassHandle) → (gset InteractionClassHandle)) (r : PubSubState) : PubSubState :=
  mkPubSubState (published_attrs r) (subscribed_attrs r) (g (published_interactions r)) (subscribed_interactions r) (discovered_instances r) (subscribed_attrs_regions r) (subscribed_directed_interactions r) (published_directed_interactions r).
Definition set_subscribed_interactions (g : (gset InteractionClassHandle) → (gset InteractionClassHandle)) (r : PubSubState) : PubSubState :=
  mkPubSubState (published_attrs r) (subscribed_attrs r) (published_interactions r) (g (subscribed_interactions r)) (discovered_instances r) (subscribed_attrs_regions r) (subscribed_directed_interactions r) (published_directed_interactions r).
Definition set_discovered_instances (g : (gset ObjectInstanceHandle) → (gset ObjectInstanceHandle)) (r : PubSubState) : PubSubState :=
  mkPubSubState (published_attrs r) (subscribed_attrs r) (published_interactions r) (subscribed_interactions r) (g (discovered_instances r)) (subscribed_attrs_regions r) (subscribed_directed_interactions r) (published_directed_interactions r).
Definition set_subscribed_attrs_regions (g : (gmap (ObjectClassHandle * AttributeHandle) (gset RegionHandle)) → (gmap (ObjectClassHandle * AttributeHandle) (gset RegionHandle))) (r : PubSubState) : PubSubState :=
  mkPubSubState (published_attrs r) (subscribed_attrs r) (published_interactions r) (subscribed_interactions r) (discovered_instances r) (g (subscribed_attrs_regions r)) (subscribed_directed_interactions r) (published_directed_interactions r).
Definition set_subscribed_directed_interactions (g : (gmap ObjectClassHandle (gset InteractionClassHandle)) → (gmap ObjectClassHandle (gset InteractionClassHandle))) (r : PubSubState) : PubSubState :=
  mkPubSubState (published_attrs r) (subscribed_attrs r) (published_interactions r) (subscribed_interactions r) (discovered_instances r) (subscribed_attrs_regions r) (g (subscribed_directed_interactions r)) (published_directed_interactions r).
Definition set_published_directed_interactions (g : (gmap ObjectClassHandle (gset InteractionClassHandle)) → (gmap ObjectClassHandle (gset InteractionClassHandle))) (r : PubSubState) : PubSubState :=
  mkPubSubState (published_attrs r) (subscribed_attrs r) (published_interactions r) (subscribed_interactions r) (discovered_instances r) (subscribed_attrs_regions r) (subscribed_directed_interactions r) (g (published_directed_interactions r)).

Definition PubSubState_default : PubSubState := mkPubSubState ∅ ∅ ∅ ∅ ∅ ∅ ∅ ∅.

Record Switches := mkSwitches {
  object_class_relevance_advisory : bool;
  attribute_relevance_advisory : bool;
  attribute_scope_advisory : bool;
  interaction_relevance_advisory : bool;
  convey_region_designator_sets : bool;
  service_reporting : bool;
  exception_reporting : bool;
  send_service_reports_to_file : bool;
  auto_provide : bool;
  delay_subscription_evaluation : bool;
  advisories_use_known_class : bool;
  allow_relaxed_ddm : bool;
  non_regulated_grant : bool;
  automatic_resign_directive : ResignAction
}.
Definition set_object_class_relevance_advisory (g : bool → bool) (r : Switches) : Switches :=
  mkSwitches (g (object_class_relevance_advisory r)) (attribute_relevance_advisory r) (attribute_scope_advisory r) (interaction_relevance_advisory r) (convey_region_designator_sets r) (service_reporting r) (exception_reporting r) (send_service_reports_to_file r) (auto_provide r) (delay_subscription_evaluation r) (advisories_use_known_class r) (allow_relaxed_ddm r) (non_regulated_grant r) (automatic_resign_directive r).
Definition set_attribute_relevance_advisory (g : bool → bool) (r : Switches) : Switches :=
  mkSwitches (object_class_relevance_advisory r) (g (attribute_relevance_advisory r)) (attribute_scope_advisory r) (interaction_relevance_advisory r) (convey_region_designator_sets r) (service_reporting r) (exception_reporting r) (send_service_reports_to_file r) (auto_provide r) (delay_subscription_evaluation r) (advisories_use_known_class r) (allow_relaxed_ddm r) (non_regulated_grant r) (automatic_resign_directive r).
Definition set_attribute_scope_advisory (g : bool → bool) (r : Switches) : Switches :=
  mkSwitches (object_class_relevance_advisory r) (attribute_relevance_advisory r) (g (attribute_scope_advisory r)) (interaction_relevance_advisory r) (convey_region_designator_sets r) (service_reporting r) (exception_reporting r) (send_service_reports_to_file r) (auto_provide r) (delay_subscription_evaluation r) (advisories_use_known_class r) (allow_relaxed_ddm r) (non_regulated_grant r) (automatic_resign_directive r).
Definition set_interaction_relevance_advisory (g : bool → bool) (r : Switches) : Switches :=
  mkSwitches (object_class_relevance_advisory r) (attribute_relevance_advisory r) (attribute_scope_advisory r) (g (interaction_relevance_advisory r)) (convey_region_designator_sets r) (service_reporting r) (exception_reporting r) (send_service_reports_to_file r) (auto_provide r) (delay_subscription_evaluation r) (advisories_use_known_class r) (allow_relaxed_ddm r) (non_regulated_grant r) (automatic_resign_directive r).
Definition set_convey_region_designator_sets (g : bool → bool) (r : Switches) : Switches :=
  mkSwitches (object_class_relevance_advisory r) (attribute_relevance_advisory r) (attribute_scope_advisory r) (interaction_relevance_advisory r) (g (convey_region_designator_sets r)) (service_reporting r) (exception_reporting r) (send_service_reports_to_file r) (auto_provide r) (delay_subscription_evaluation r) (advisories_use_known_class r) (allow_relaxed_ddm r) (non_regulated_grant r) (automatic_resign_directive r).
Definition set_service_reporting (g : bool → bool) (r : Switches) : Switches :=
  mkSwitches (object_class_relevance_advisory r) (attribute_relevance_advisory r) (attribute_scope_advisory r) (interaction_relevance_advisory r) (convey_region_designator_sets r) (g (service_reporting r)) (exception_reporting r) (send_service_reports_to_file r) (auto_provide r) (delay_subscription_evaluation r) (advisories_use_known_class r) (allow_relaxed_ddm r) (non_regulated_grant r) (automatic_resign_directive r).
Definition set_exception_reporting (g : bool → bool) (r : Switches) : Switches :=
  mkSwitches (object_class_relevance_advisory r) (attribute_relevance_advisory r) (attribute_scope_advisory r) (interaction_relevance_advisory r) (convey_region_designator_sets r) (service_reporting r) (g (exception_reporting r)) (send_service_reports_to_file r) (auto_provide r) (delay_subscription_evaluation r) (advisories_use_known_class r) (allow_relaxed_ddm r) (non_regulated_grant r) (automatic_resign_directive r).
Definition set_send_service_reports_to_file (g : bool → bool) (r : Switches) : Switches :=
  mkSwitches (object_class_relevance_advisory r) (attribute_relevance_advisory r) (attribute_scope_advisory r) (interaction_relevance_advisory r) (convey_region_designator_sets r) (service_reporting r) (exception_reporting r) (g (send_service_reports_to_file r)) (auto_provide r) (delay_subscription_evaluation r) (advisories_use_known_class r) (allow_relaxed_ddm r) (non_regulated_grant r) (automatic_resign_directive r).
Definition set_auto_provide (g : bool → bool) (r : Switches) : Switches :=
  mkSwitches (object_class_relevance_advisory r) (attribute_relevance_advisory r) (attribute_scope_advisory r) (interaction_relevance_advisory r) (convey_region_designator_sets r) (service_reporting r) (exception_reporting r) (send_service_reports_to_file r) (g (auto_provide r)) (delay_subscription_evaluation r) (advisories_use_known_class r) (allow_relaxed_ddm r) (non_regulated_grant r) (automatic_resign_directive r).
Definition set_delay_subscription_evaluation (g : bool → bool) (r : Switches) : Switches :=
  mkSwitches (object_class_relevance_advisory r) (attribute_relevance_advisory r) (attribute_scope_advisory r) (interaction_relevance_advisory r) (convey_region_designator_sets r) (service_reporting r) (exception_reporting r) (send_service_reports_to_file r) (auto_provide r) (g (delay_subscription_evaluation r)) (advisories_use_known_class r) (allow_relaxed_ddm r) (non_regulated_grant r) (automatic_resign_directive r).
Definition set_advisories_use_known_class (g : bool → bool) (r : Switches) : Switches :=
  mkSwitches (object_class_relevance_advisory r) (attribute_relevance_advisory r) (attribute_scope_advisory r) (interaction_relevance_advisory r) (convey_region_designator_sets r) (service_reporting r) (exception_reporting r) (send_service_reports_to_file r) (auto_provide r) (delay_subscription_evaluation r) (g (advisories_use_known_class r)) (allow_relaxed_ddm r) (non_regulated_grant r) (automatic_resign_directive r).
Definition set_allow_relaxed_ddm (g : bool → bool) (r : Switches) : Switches :=
  mkSwitches (object_class_relevance_advisory r) (attribute_relevance_advisory r) (attribute_scope_advisory r) (interaction_relevance_advisory r) (convey_region_designator_sets r) (service_reporting r) (exception_reporting r) (send_service_reports_to_file r) (auto_provide r) (delay_subscription_evaluation r) (advisories_use_known_class r) (g (allow_relaxed_ddm r)) (non_regulated_grant r) (automatic_resign_directive r).
Definition set_non_regulated_grant (g : bool → bool) (r : Switches) : Switches :=
  mkSwitches (object_class_relevance_advisory r) (attribute_relevance_advisory r) (attribute_scope_advisory r) (interaction_relevance_advisory r) (convey_region_designator_sets r) (service_reporting r) (exception_reporting r) (send_service_reports_to_file r) (auto_provide r) (delay_subscription_evaluation r) (advisories_use_known_class r) (allow_relaxed_ddm r) (g (non_regulated_grant r)) (automatic_resign_directive r).
Definition set_automatic_resign_directive (g : ResignAction → ResignAction) (r : Switches) : Switches :=
  mkSwitches (object_class_relevance_advisory r) (attribute_relevance_advisory r) (attribute_scope_advisory r) (interaction_relevance_advisory r) (convey_region_designator_sets r) (service_reporting r) (exception_reporting r) (send_service_reports_to_file r) (auto_provide r) (delay_subscription_evaluation r) (advisories_use_known_class r) (allow_relaxed_ddm r) (non_regulated_grant r) (g (automatic_resign_directive r)).

Definition Switches_default : Switches :=
  mkSwitches true true true true false false false false false false false true false NoAction.

Record TsoMessage := mkTsoMessage {
  tso_time : f64;
  tso_callback : CallbackRequest
}.

Record TimeState := mkTimeState {
  is_regulating : bool;
  is_constrained : bool;
  current_time : f64;
  lookahead : f64;
  pending_advance : option f64
}.
Definition set_is_regulating (g : bool → bool) (r : TimeState) : TimeState :=
  mkTimeState (g (is_regulating r)) (is_constrained r) (current_time r) (lookahead r) (pending_advance r).
Definition set_is_constrained (g : bool → bool) (r : TimeState) : TimeState :=
  mkTimeState (is_regulating r) (g (is_constrained r)) (current_time r) (lookahead r) (pending_advance r).
Definition set_current_time (g : f64 → f64) (r : TimeState) : TimeState :=
  mkTimeState (is_regulating r) (is_constrained r) (g (current_time r)) (lookahead r) (pending_advance r).
Definition set_lookahead (g : f64 → f64) (r : TimeState) : TimeState :=
  mkTimeState (is_regulating r) (is_constrained r) (current_time r) (g (lookahead r)) (pending_advance r).
Definition set_pending_advance (g : (option f64) → (option f64)) (r : TimeState) : TimeState :=
  mkTimeState (is_regulating r) (is_constrained r) (current_time r) (lookahead r) (g (pending_advance r)).

Definition TimeState_default : TimeState := mkTimeState false false f64_ZERO f64_ZERO None.

Record FederateSession := mkFederateSession {
  fs_handle : FederateHandle;
  fs_name : string;
  fs_federate_type : string;
  fs_session_id : Z;
  pub_sub : PubSubState;
  fs_time : TimeState;
  switches : Switches;
  tso_queue : list TsoMessage
}.
Definition set_fs_handle (g : FederateHandle → FederateHandle) (r : FederateSession) : FederateSession :=
  mkFederateSession (g (fs_handle r)) (fs_name r) (fs_federate_type r) (fs_session_id r) (pub_sub r) (fs_time r) (switches r) (tso_queue r).
Definition set_fs_name (g : string → string) (r : FederateSession) : FederateSession :=
  mkFederateSession (fs_handle r) (g (fs_name r)) (fs_federate_type r) (fs_session_id r) (pub_sub r) (fs_time r) (switches r) (tso_queue r).
Definition set_fs_federate_type (g : string → string) (r : FederateSession) : FederateSession :=
  mkFederateSession (fs_handle r) (fs_name r) (g (fs_federate_type r)) (fs_session_id r) (pub_sub r) (fs_time r) (switches r) (tso_queue r).
Definition set_fs_session_id (g : Z → Z) (r : FederateSession) : FederateSession :=
  mkFederateSession (fs_handle r) (fs_name r) (fs_federate_type r) (g (fs_session_id r)) (pub_sub r) (fs_time r) (switches r) (tso_queue r).
Definition set_pub_sub (g : PubSubState → PubSubState) (r : FederateSession) : FederateSession :=
  mkFederateSession (fs_handle r) (fs_name r) (fs_federate_type r) (fs_session_id r) (g (pub_sub r)) (fs_time r) (switches r) (tso_queue r).
Definition set_fs_time (g : TimeState → TimeState) (r : FederateSession) : FederateSession :=
  mkFederateSession (fs_handle r) (fs_name r) (fs_federate_type r) (fs_session_id r) (pub_sub r) (g (fs_time r)) (switches r) (tso_queue r).
Definition set_switches (g : Switches → Switches) (r : FederateSession) : FederateSession :=
  mkFederateSession (fs_handle r) (fs_name r) (fs_federate_type r) (fs_session_id r) (pub_sub r) (fs_time r) (g (switches r)) (tso_queue r).
Definition set_tso_queue (g : (list TsoMessage) → (list TsoMessage)) (r : FederateSession) : FederateSession :=
  mkFederateSession (fs_handle r) (fs_name r) (fs_federate_type r) (fs_session_id r) (pub_sub r) (fs_time r) (switches r) (g (tso_queue r)).

(** ** Federation-wide operations in progress *)

Inductive SaveStatus := SaveInitiated | BegunSave | SaveComplete | SaveNotComplete.
Inductive RestoreStatus := RestoreInitiated | RestoreComplete | RestoreNotComplete.
#[export] Instance SaveStatus_eq_dec : EqDecision SaveStatus.
Proof. solve_decision. Defined.
#[export] Instance RestoreStatus_eq_dec : EqDecision RestoreStatus.
Proof. solve_decision. Defined.

Record RestoreOperation := mkRestoreOperation {
  restore_label : string;
  restore_statuses : gmap FederateHandle RestoreStatus
}.
Definition set_restore_label (g : string → string) (r : RestoreOperation) : RestoreOperation :=
  mkRestoreOperation (g (restore_label r)) (restore_statuses r).
Definition set_restore_statuses (g : (gmap FederateHandle RestoreStatus) → (gmap FederateHandle RestoreStatus)) (r : RestoreOperation) : RestoreOperation :=
  mkRestoreOperation (restore_label r) (g (restore_statuses r)).

Record SaveOperation := mkSaveOperation {
  save_label : string;
  save_statuses : gmap FederateHandle SaveStatus
}.
Definition set_save_label (g : string → string) (r : SaveOperation) : SaveOperation :=
  mkSaveOperation (g (save_label r)) (save_statuses r).
Definition set_save_statuses (g : (gmap FederateHandle SaveStatus) → (gmap FederateHandle SaveStatus)) (r : SaveOperation) : SaveOperation :=
  mkSaveOperation (save_label r) (g (save_statuses r)).

Record Region := mkRegion {
  region_handle : RegionHandle;
  region_owner : FederateHandle;
  committed : gmap DimensionHandle (Z * Z);
  staged : gmap DimensionHandle (Z * Z)
}.
Definition set_region_handle (g : RegionHandle → RegionHandle) (r : Region) : Region :=
  mkRegion (g (region_handle r)) (region_owner r) (committed r) (staged r).
Definition set_region_owner (g : FederateHandle → FederateHandle) (r : Region) : Region :=
  mkRegion (region_handle r) (g (region_owner r)) (committed r) (staged r).
Definition set_committed (g : (gmap DimensionHandle (Z * Z)) → (gmap DimensionHandle (Z * Z))) (r : Region) : Region :=
  mkRegion (region_handle r) (region_owner r) (g (committed r)) (staged r).
Definition set_staged (g : (gmap DimensionHandle (Z * Z)) → (gmap DimensionHandle (Z * Z))) (r : Region) : Region :=
  mkRegion (region_handle r) (region_owner r) (committed r) (g (staged r)).

Record SyncPoint := mkSyncPoint {
  sp_label : string;
  sp_tag : list byte;
  participants : gset FederateHandle;
  achieved : gset FederateHandle;
  failed_to_sync : gset FederateHandle
}.
Definition set_sp_label (g : string → string) (r : SyncPoint) : SyncPoint :=
  mkSyncPoint (g (sp_label r)) (sp_tag r) (participants r) (achieved r) (failed_to_sync r).
Definition set_sp_tag (g : (list byte) → (list byte)) (r : SyncPoint) : SyncPoint :=
  mkSyncPoint (sp_label r) (g (sp_tag r)) (participants r) (achieved r) (failed_to_sync r).
Definition set_participants (g : (gset FederateHandle) → (gset FederateHandle)) (r : SyncPoint) : SyncPoint :=
  mkSyncPoint (sp_label r) (sp_tag r) (g (participants r)) (achieved r) (failed_to_sync r).
Definition set_achieved (g : (gset FederateHandle) → (gset FederateHandle)) (r : SyncPoint) : SyncPoint :=
  mkSyncPoint (sp_label r) (sp_tag r) (participants r) (g (achieved r)) (failed_to_sync r).
Definition set_failed_to_sync (g : (gset FederateHandle) → (gset FederateHandle)) (r : SyncPoint) : SyncPoint :=
  mkSyncPoint (sp_label r) (sp_tag r) (participants r) (achieved r) (g (failed_to_sync r)).

(** ** The federation *)

Record Federation := mkFederation {
  fed_name : string;
  fed_fom : MergedFom;
  federates : gmap FederateHandle FederateSession;
  object_instances : gmap ObjectInstanceHandle ObjectInstance;
  subscriptions : SubscriptionMatrix;
  sync_points : gmap string SyncPoint;
  regions : gmap RegionHandle Region;
  next_region_id : Z;
  current_save : option SaveOperation;
  current_restore : option RestoreOperation;
  last_save_label : option string;
  next_object_id : Z;
  next_federate_id : Z
}.
Definition set_fed_name (g : string → string) (r : Federation) : Federation :=
  mkFederation (g (fed_name r)) (fed_fom r) (federates r) (object_instances r) (subscriptions r) (sync_points r) (regions r) (next_region_id r) (current_save r) (current_restore r) (last_save_label r) (next_object_id r) (next_federate_id r).
Definition set_fed_fom (g : MergedFom → MergedFom) (r : Federation) : Federation :=
  mkFederation (fed_name r) (g (fed_fom r)) (federates r) (object_instances r) (subscriptions r) (sync_points r) (regions r) (next_region_id r) (current_save r) (current_restore r) (last_save_label r) (next_object_id r) (next_federate_id r).
Definition set_federates (g : (gmap FederateHandle FederateSession) → (gmap FederateHandle FederateSession)) (r : Federation) : Federation :=
  mkFederation (fed_name r) (fed_fom r) (g (federates r)) (object_instances r) (subscriptions r) (sync_points r) (regions r) (next_region_id r) (current_save r) (current_restore r) (last_save_label r) (next_object_id r) (next_federate_id r).
Definition set_object_instances (g : (gmap ObjectInstanceHandle ObjectInstance) → (gmap ObjectInstanceHandle ObjectInstance)) (r : Federation) : Federation :=
  mkFederation (fed_name r) (fed_fom r) (federates r) (g (object_instances r)) (subscriptions r) (sync_points r) (regions r) (next_region_id r) (current_save r) (current_restore r) (last_save_label r) (next_object_id r) (next_federate_id r).
Definition set_subscriptions (g : SubscriptionMatrix → SubscriptionMatrix) (r : Federation) : Federation :=
  mkFederation (fed_name r) (fed_fom r) (federates r) (object_instances r) (g (subscriptions r)) (sync_points r) (regions r) (next_region_id r) (current_save r) (current_restore r) (last_save_label r) (next_object_id r) (next_federate_id r).
Definition set_sync_points (g : (gmap string SyncPoint) → (gmap string SyncPoint)) (r : Federation) : Federation :=
  mkFederation (fed_name r) (fed_fom r) (federates r) (object_instances r) (subscriptions r) (g (sync_points r)) (regions r) (next_region_id r) (current_save r) (current_restore r) (last_save_label r) (next_object_id r) (next_federate_id r).
Definition set_regions (g : (gmap RegionHandle Region) → (gmap RegionHandle Region)) (r : Federation) : Federation :=
  mkFederation (fed_name r) (fed_fom r) (federates r) (object_instances r) (subscriptions r) (sync_points r) (g (regions r)) (next_region_id r) (current_save r) (current_restore r) (last_save_label r) (next_object_id r) (next_federate_id r).
Definition set_next_region_id (g : Z → Z) (r : Federation) : Federation :=
  mkFederation (fed_name r) (fed_fom r) (federates r) (object_instances r) (subscriptions r) (sync_points r) (regions r) (g (next_region_id r)) (current_save r) (current_restore r) (last_save_label r) (next_object_id r) (next_federate_id r).
Definition set_current_save (g : (option SaveOperation) → (option SaveOperation)) (r : Federation) : Federation :=
  mkFederation (fed_name r) (fed_fom r) (federates r) (object_instances r) (subscriptions r) (sync_points r) (regions r) (next_region_id r) (g (current_save r)) (current_restore r) (last_save_label r) (next_object_id r) (next_federate_id r).
Definition set_current_restore (g : (option RestoreOperation) → (option RestoreOperation)) (r : Federation) : Federation :=
  mkFederation (fed_name r) (fed_fom r) (federates r) (object_instances r) (subscriptions r) (sync_points r) (regions r) (next_region_id r) (current_save r) (g (current_restore r)) (last_save_label r) (next_object_id r) (next_federate_id r).
Definition set_last_save_label (g : (option string) → (option string)) (r : Federation) : Federation :=
  mkFederation (fed_name r) (fed_fom r) (federates r) (object_instances r) (subscriptions r) (sync_points r) (regions r) (next_region_id r) (current_save r) (current_restore r) (g (last_save_label r)) (next_object_id r) (next_federate_id r).
Definition set_next_object_id (g : Z → Z) (r : Federation) : Federation :=
  mkFederation (fed_name r) (fed_fom r) (federates r) (object_instances r) (subscriptions r) (sync_points r) (regions r) (next_region_id r) (current_save r) (current_restore r) (last_save_label r) (g (next_object_id r)) (next_federate_id r).
Definition set_next_federate_id (g : Z → Z) (r : Federation) : Federation :=
  mkFederation (fed_name r) (fed_fom r) (federates r) (object_instances r) (subscriptions r) (sync_points r) (regions r) (next_region_id r) (current_save r) (current_restore r) (last_save_label r) (next_object_id r) (g (next_federate_id r)).

Definition Federation_new (name : string) (fom : MergedFom) : Federation :=
  mkFederation name fom ∅ ∅ SubscriptionMatrix_default ∅ ∅ 1 None None None 1 1.

#[export] Instance Federation_inhabited : Inhabited Federation :=
  populate (Federation_new "" MergedFom_new).

(** [federates.get_mut(fh)] followed by an update in place. *)
Definition update_federate (fh : FederateHandle) (g : FederateSession → FederateSession)
    : Federation → Federation := set_federates (alter g fh).

(** ** Sessions and connections *)

Definition FedRef : Type := positive.
Definition ConnRef : Type := positive.

Record Membership := mkMembership {
  m_federation : FedRef;
  m_federate_handle : FederateHandle;
  m_federate_name : string
}.

Record SessionContext := mkSessionContext {
  ctx_session_id : Z;
  membership : option Membership
}.
Definition set_ctx_session_id (g : Z → Z) (r : SessionContext) : SessionContext :=
  mkSessionContext (g (ctx_session_id r)) (membership r).
Definition set_membership (g : (option Membership) → (option Membership)) (r : SessionContext) : SessionContext :=
  mkSessionContext (ctx_session_id r) (g (membership r)).

Definition SessionContext_new (sid : Z) : SessionContext := mkSessionContext sid None.
Definition is_joined (ctx : SessionContext) : bool := bool_decide (is_Some (membership ctx)).

(** A connection; [frame_tx] holds the frames that were queued on its channel, oldest
    first. *)
Record ConnectionHandle := mkConnectionHandle {
  conn_session_id : Z;
  frame_tx : list Frame;
  next_outbound_seq : Z
}.
Definition set_conn_session_id (g : Z → Z) (r : ConnectionHandle) : ConnectionHandle :=
  mkConnectionHandle (g (conn_session_id r)) (frame_tx r) (next_outbound_seq r).
Definition set_frame_tx (g : (list Frame) → (list Frame)) (r : ConnectionHandle) : ConnectionHandle :=
  mkConnectionHandle (conn_session_id r) (g (frame_tx r)) (next_outbound_seq r).
Definition set_next_outbound_seq (g : Z → Z) (r : ConnectionHandle) : ConnectionHandle :=
  mkConnectionHandle (conn_session_id r) (frame_tx r) (g (next_outbound_seq r)).

#[export] Instance ConnectionHandle_inhabited : Inhabited ConnectionHandle :=
  populate (mkConnectionHandle 0 [] 0).

Record ConnectionLimits := mkConnectionLimits { max_total : option nat; max_per_ip : option nat }.
Definition ConnectionLimits_default : ConnectionLimits := mkConnectionLimits None None.

(** Instants and durations are counted in milliseconds. *)
Record SuspendedSession := mkSuspendedSession { ss_membership : option Membership; deadline : Z }.

Record HeartbeatConfig := mkHeartbeatConfig {
  hb_interval : Z;
  missing_timeout : Z;
  reconnect_window : Z
}.
Definition HeartbeatConfig_default : HeartbeatConfig := mkHeartbeatConfig 60000 180000 0.

Record ServerMetrics := mkServerMetrics {
  calls_dispatched : Z;
  call_exceptions : Z;
  callbacks_emitted : Z;
  connections_accepted : Z;
  connections_rejected : Z;
  sessions_opened : Z;
  sessions_reaped : Z;
  federations_live : Z
}.
Definition set_calls_dispatched (g : Z → Z) (r : ServerMetrics) : ServerMetrics :=
  mkServerMetrics (g (calls_dispatched r)) (call_exceptions r) (callbacks_emitted r) (connections_accepted r) (connections_rejected r) (sessions_opened r) (sessions_reaped r) (federations_live r).
Definition set_call_exceptions (g : Z → Z) (r : ServerMetrics) : ServerMetrics :=
  mkServerMetrics (calls_dispatched r) (g (call_exceptions r)) (callbacks_emitted r) (connections_accepted r) (connections_rejected r) (sessions_opened r) (sessions_reaped r) (federations_live r).
Definition set_callbacks_emitted (g : Z → Z) (r : ServerMetrics) : ServerMetrics :=
  mkServerMetrics (calls_dispatched r) (call_exceptions r) (g (callbacks_emitted r)) (connections_accepted r) (connections_rejected r) (sessions_opened r) (sessions_reaped r) (federations_live r).
Definition set_connections_accepted (g : Z → Z) (r : ServerMetrics) : ServerMetrics :=
  mkServerMetrics (calls_dispatched r) (call_exceptions r) (callbacks_emitted r) (g (connections_accepted r)) (connections_rejected r) (sessions_opened r) (sessions_reaped r) (federations_live r).
Definition set_connections_rejected (g : Z → Z) (r : ServerMetrics) : ServerMetrics :=
  mkServerMetrics (calls_dispatched r) (call_exceptions r) (callbacks_emitted r) (connections_accepted r) (g (connections_rejected r)) (sessions_opened r) (sessions_reaped r) (federations_live r).
Definition set_sessions_opened (g : Z → Z) (r : ServerMetrics) : ServerMetrics :=
  mkServerMetrics (calls_dispatched r) (call_exceptions r) (callbacks_emitted r) (connections_accepted r) (connections_rejected r) (g (sessions_opened r)) (sessions_reaped r) (federations_live r).
Definition set_sessions_reaped (g : Z → Z) (r : ServerMetrics) : ServerMetrics :=
  mkServerMetrics (calls_dispatched r) (call_exceptions r) (callbacks_emitted r) (connections_accepted r) (connections_rejected r) (sessions_opened r) (g (sessions_reaped r)) (federations_live r).
Definition set_federations_live (g : Z → Z) (r : ServerMetrics) : ServerMetrics :=
  mkServerMetrics (calls_dispatched r) (call_exceptions r) (callbacks_emitted r) (connections_accepted r) (connections_rejected r) (sessions_opened r) (sessions_reaped r) (g (federations_live r)).

Definition ServerMetrics_default : ServerMetrics := mkServerMetrics 0 0 0 0 0 0 0 0.

(** [counter.fetch_add(n, Relaxed)] on an [AtomicU64]. *)
Definition fetch_add64 (n : Z) (v : Z) : Z := wrap_u 64 (v + n).
(** The same on an [AtomicU32]. *)
Definition fetch_add32 (n : Z) (v : Z) : Z := wrap_u 32 (v + n).

(** ** Snapshots of a federation ([persistence.rs]) *)

Record SerInstance := mkSerInstance {
  ser_handle : Z;
  ser_class : Z;
  ser_name : string;
  registrar_name : string;
  ser_attribute_owners : list (Z * string)
}.
Record SerSyncPoint := mkSerSyncPoint {
  ser_label : string;
  ser_tag : list byte;
  ser_participants : list string
}.
Record FederationSnapshot := mkFederationSnapshot {
  federation_name : string;
  snap_instances : list SerInstance;
  snap_sync_points : list SerSyncPoint
}.

(** ** The node *)

(** [fed_heap] and [conn_heap] are the memory behind the node's [Arc]s; the other
    fields are those of the struct ([bind_addr] aside). *)
Record RtiNode := mkRtiNode {
  federations : gmap string FedRef;
  fed_heap : gmap FedRef Federation;
  next_session_id : Z;
  default_fom : MergedFom;
  connections : gmap Z ConnRef;
  conn_heap : gmap ConnRef ConnectionHandle;
  heartbeat : HeartbeatConfig;
  limits : ConnectionLimits;
  connections_per_ip : gmap Z nat;
  metrics : ServerMetrics;
  save_dir : string;
  suspended_sessions : gmap Z SuspendedSession;
  shutdown_flag : bool
}.
Definition set_federations (g : (gmap string FedRef) → (gmap string FedRef)) (r : RtiNode) : RtiNode :=
  mkRtiNode (g (federations r)) (fed_heap r) (next_session_id r) (default_fom r) (connections r) (conn_heap r) (heartbeat r) (limits r) (connections_per_ip r) (metrics r) (save_dir r) (suspended_sessions r) (shutdown_flag r).
Definition set_fed_heap (g : (gmap FedRef Federation) → (gmap FedRef Federation)) (r : RtiNode) : RtiNode :=
  mkRtiNode (federations r) (g (fed_heap r)) (next_session_id r) (default_fom r) (connections r) (conn_heap r) (heartbeat r) (limits r) (connections_per_ip r) (metrics r) (save_dir r) (suspended_sessions r) (shutdown_flag r).
Definition set_next_session_id (g : Z → Z) (r : RtiNode) : RtiNode :=
  mkRtiNode (federations r) (fed_heap r) (g (next_session_id r)) (default_fom r) (connections r) (conn_heap r) (heartbeat r) (limits r) (connections_per_ip r) (metrics r) (save_dir r) (suspended_sessions r) (shutdown_flag r).
Definition set_default_fom (g : MergedFom → MergedFom) (r : RtiNode) : RtiNode :=
  mkRtiNode (federations r) (fed_heap r) (next_session_id r) (g (default_fom r)) (connections r) (conn_heap r) (heartbeat r) (limits r) (connections_per_ip r) (metrics r) (save_dir r) (suspended_sessions r) (shutdown_flag r).
Definition set_connections (g : (gmap Z ConnRef) → (gmap Z ConnRef)) (r : RtiNode) : RtiNode :=
  mkRtiNode (federations r) (fed_heap r) (next_session_id r) (default_fom r) (g (connections r)) (conn_heap r) (heartbeat r) (limits r) (connections_per_ip r) (metrics r) (save_dir r) (suspended_sessions r) (shutdown_flag r).
Definition set_conn_heap (g : (gmap ConnRef ConnectionHandle) → (gmap ConnRef ConnectionHandle)) (r : RtiNode) : RtiNode :=
  mkRtiNode (federations r) (fed_heap r) (next_session_id r) (default_fom r) (connections r) (g (conn_heap r)) (heartbeat r) (limits r) (connections_per_ip r) (metrics r) (save_dir r) (suspended_sessions r) (shutdown_flag r).
Definition set_heartbeat (g : HeartbeatConfig → HeartbeatConfig) (r : RtiNode) : RtiNode :=
  mkRtiNode (federations r) (fed_heap r) (next_session_id r) (default_fom r) (connections r) (conn_heap r) (g (heartbeat r)) (limits r) (connections_per_ip r) (metrics r) (save_dir r) (suspended_sessions r) (shutdown_flag r).
Definition set_limits (g : ConnectionLimits → ConnectionLimits) (r : RtiNode) : RtiNode :=
  mkRtiNode (federations r) (fed_heap r) (next_session_id r) (default_fom r) (connections r) (conn_heap r) (heartbeat r) (g (limits r)) (connections_per_ip r) (metrics r) (save_dir r) (suspended_sessions r) (shutdown_flag r).
Definition set_connections_per_ip (g : (gmap Z nat) → (gmap Z nat)) (r : RtiNode) : RtiNode :=
  mkRtiNode (federations r) (fed_heap r) (next_session_id r) (default_fom r) (connections r) (conn_heap r) (heartbeat r) (limits r) (g (connections_per_ip r)) (metrics r) (save_dir r) (suspended_sessions r) (shutdown_flag r).
Definition set_metrics (g : ServerMetrics → ServerMetrics) (r : RtiNode) : RtiNode :=
  mkRtiNode (federations r) (fed_heap r) (next_session_id r) (default_fom r) (connections r) (conn_heap r) (heartbeat r) (limits r) (connections_per_ip r) (g (metrics r)) (save_dir r) (suspended_sessions r) (shutdown_flag r).
Definition set_save_dir (g : string → string) (r : RtiNode) : RtiNode :=
  mkRtiNode (federations r) (fed_heap r) (next_session_id r) (default_fom r) (connections r) (conn_heap r) (heartbeat r) (limits r) (connections_per_ip r) (metrics r) (g (save_dir r)) (suspended_sessions r) (shutdown_flag r).
Definition set_suspended_sessions (g : (gmap Z SuspendedSession) → (gmap Z SuspendedSession)) (r : RtiNode) : RtiNode :=
  mkRtiNode (federations r) (fed_heap r) (next_session_id r) (default_fom r) (connections r) (conn_heap r) (heartbeat r) (limits r) (connections_per_ip r) (metrics r) (save_dir r) (g (suspended_sessions r)) (shutdown_flag r).
Definition set_shutdown_flag (g : bool → bool) (r : RtiNode) : RtiNode :=
  mkRtiNode (federations r) (fed_heap r) (next_session_id r) (default_fom r) (connections r) (conn_heap r) (heartbeat r) (limits r) (connections_per_ip r) (metrics r) (save_dir r) (suspended_sessions r) (g (shutdown_flag r)).

Definition RtiNode_new : RtiNode :=
  mkRtiNode ∅ ∅ 1 MergedFom_new ∅ ∅ HeartbeatConfig_default ConnectionLimits_default ∅
    ServerMetrics_default "./hla4-saves" ∅ false.

(** The federation behind a reference. *)
Definition fed_at (node : RtiNode) (r : FedRef) : Federation := fed_heap node !!! r.

(** Mutation through a reference. *)
Definition fed_update (r : FedRef) (g : Federation → Federation) : RtiNode → RtiNode :=
  set_fed_heap (alter g r).

Definition conn_at (node : RtiNode) (c : ConnRef) : ConnectionHandle := conn_heap node !!! c.
