(* ===== verification/Subscription.v ===== *)
(** * The subscription matrix

    [SubscriptionMatrix] of [hla-rti/src/lib.rs] keeps two views of one set of
    attribute subscriptions: the forward map [by_attribute] and the reverse
    index [class_subscribers] with a reference count per class and federate.
    The operations below are its methods.  [Spec] is the contract the index
    is there to serve: a plain set of (class, attribute, federate) triples,
    with the answers of every method written on that set.  [matrix_refines]
    proves that any sequence of calls on an empty matrix answers as the set
    does. *)

From S2P Require Import Prelude CoreTypes State.

(** ** The methods *)

(** [self.by_attribute.entry((class, attr)).or_default()] *)
Definition attr_set (m : SubscriptionMatrix) (class : ObjectClassHandle) (attr : AttributeHandle)
    : gset FederateHandle := default ∅ (by_attribute m !! (class, attr)).

(** The entry of [class] in the reverse index, created if missing. *)
Definition class_map (m : SubscriptionMatrix) (class : ObjectClassHandle)
    : gmap FederateHandle Z := default ∅ (class_subscribers m !! class).

Definition subscribe_attribute (class : ObjectClassHandle) (attr : AttributeHandle)
    (federate : FederateHandle) (m : SubscriptionMatrix) : SubscriptionMatrix * bool :=
  let set := attr_set m class attr in
  let m1 := set_by_attribute (insert (class, attr) ({[federate]} ∪ set)) m in
  if decide (federate ∈ set) then (m1, false)
  else
    let count := wrap_u 32 (default 0 (class_map m1 class !! federate) + 1) in
    (set_class_subscribers (insert class (<[federate := count]> (class_map m1 class))) m1,
     count =? 1).

Definition unsubscribe_attribute (class : ObjectClassHandle) (attr : AttributeHandle)
    (federate : FederateHandle) (m : SubscriptionMatrix) : SubscriptionMatrix * bool :=
  let '(m1, removed) :=
    match by_attribute m !! (class, attr) with
    | Some set =>
        let set' := set ∖ {[federate]} in
        (set_by_attribute
           (if decide (set' = ∅) then delete (class, attr) else insert (class, attr) set') m,
         bool_decide (federate ∈ set))
    | None => (m, false)
    end in
  if negb removed then (m1, false)
  else match class_subscribers m1 !! class with
  | None => (m1, false)
  | Some cm =>
      match cm !! federate with
      | None => (m1, false)
      | Some count =>
          let count' := wrap_u 32 (count - 1) in
          if count' =? 0 then
            let cm' := delete federate cm in
            (set_class_subscribers
               (if decide (cm' = ∅) then delete class else insert class cm') m1, true)
          else (set_class_subscribers (insert class (<[federate := count']> cm)) m1, false)
      end
  end.

Definition remove_class (class : ObjectClassHandle) (m : SubscriptionMatrix) : SubscriptionMatrix :=
  set_class_subscribers (delete class)
    (set_by_attribute (filter (λ kv, kv.1.1 ≠ class)) m).

Definition class_has_subscribers (m : SubscriptionMatrix) (class : ObjectClassHandle) : bool :=
  bool_decide (is_Some (class_subscribers m !! class)).

Definition subscribers_of_class (m : SubscriptionMatrix) (class : ObjectClassHandle)
    : list FederateHandle :=
  match class_subscribers m !! class with Some cm => (map_to_list cm).*1 | None => [] end.

(** ** The contract: a set of subscriptions *)

Definition Triple : Type := ObjectClassHandle * AttributeHandle * FederateHandle.

Module Spec.
Definition of_class (c : ObjectClassHandle) (f : FederateHandle) (S : gset Triple) : gset Triple :=
  filter (λ t, t.1.1 = c ∧ t.2 = f) S.
Definition subscribe (c : ObjectClassHandle) (a : AttributeHandle) (f : FederateHandle)
    (S : gset Triple) : gset Triple * bool :=
  ({[(c, a, f)]} ∪ S, bool_decide (of_class c f S = ∅)).
Definition unsubscribe (c : ObjectClassHandle) (a : AttributeHandle) (f : FederateHandle)
    (S : gset Triple) : gset Triple * bool :=
  (S ∖ {[(c, a, f)]}, bool_decide (of_class c f S = {[(c, a, f)]})).
Definition remove_class (c : ObjectClassHandle) (S : gset Triple) : gset Triple := filter (λ t, t.1.1 ≠ c) S.
Definition has_subscribers (S : gset Triple) (c : ObjectClassHandle) : Prop :=
  ∃ a f, (c, a, f) ∈ S.
End Spec.

(** The calls a client can make, and what the matrix and the set do on them. *)
Inductive MatrixOp :=
| OpSubscribe (c : ObjectClassHandle) (a : AttributeHandle) (f : FederateHandle)
| OpUnsubscribe (c : ObjectClassHandle) (a : AttributeHandle) (f : FederateHandle)
| OpRemoveClass (c : ObjectClassHandle).

Definition matrix_op (o : MatrixOp) (m : SubscriptionMatrix) : SubscriptionMatrix * bool :=
  match o with
  | OpSubscribe c a f => subscribe_attribute c a f m
  | OpUnsubscribe c a f => unsubscribe_attribute c a f m
  | OpRemoveClass c => (remove_class c m, false)
  end.

Definition spec_op (o : MatrixOp) (S : gset Triple) : gset Triple * bool :=
  match o with
  | OpSubscribe c a f => Spec.subscribe c a f S
  | OpUnsubscribe c a f => Spec.unsubscribe c a f S
  | OpRemoveClass c => (Spec.remove_class c S, false)
  end.

Fixpoint run_ops {St} (step : MatrixOp → St → St * bool) (os : list MatrixOp) (s : St)
    : St * list bool :=
  match os with
  | [] => (s, [])
  | o :: os => let '(s', b) := step o s in let '(s'', bs) := run_ops step os s' in (s'', b :: bs)
  end.

(** ** The simulation relation *)

Implicit Types (c : ObjectClassHandle) (a : AttributeHandle) (f : FederateHandle) (S : gset Triple).

Definition class_count (m : SubscriptionMatrix) c f : option Z := cm ← class_subscribers m !! c; cm !! f.

Record represents (m : SubscriptionMatrix) (S : gset Triple) : Prop := {
  rep_attr c a f : f ∈ attr_set m c a ↔ (c, a, f) ∈ S;
  rep_attr_ne k : by_attribute m !! k ≠ Some ∅;
  rep_count c f : class_count m c f =
    (if decide (Spec.of_class c f S = ∅) then None else Some (Z.of_nat (size (Spec.of_class c f S))));
  rep_class_ne c : class_subscribers m !! c ≠ Some ∅
}.

Lemma represents_default : represents SubscriptionMatrix_default ∅.
Proof.
  split; intros; unfold attr_set, class_count; simpl; rewrite ?lookup_empty; try done.
Qed.

Lemma elem_of_of_class c f S t : t ∈ Spec.of_class c f S ↔ t ∈ S ∧ t.1.1 = c ∧ t.2 = f.
Proof. unfold Spec.of_class. rewrite elem_of_filter. tauto. Qed.

Lemma of_class_insert_same c a f S :
  Spec.of_class c f ({[(c, a, f)]} ∪ S) = {[(c, a, f)]} ∪ Spec.of_class c f S.
Proof. unfold_leibniz. intros [[c' a'] f']. rewrite elem_of_of_class, !elem_of_union, elem_of_of_class. set_solver. Qed.

Lemma of_class_insert_other c a f c' f' S : (c', f') ≠ (c, f) →
  Spec.of_class c' f' ({[(c, a, f)]} ∪ S) = Spec.of_class c' f' S.
Proof.
  intros Hne. unfold_leibniz. intros [[x y] z]. rewrite !elem_of_of_class. set_solver.
Qed.

Lemma of_class_delete_same c a f S :
  Spec.of_class c f (S ∖ {[(c, a, f)]}) = Spec.of_class c f S ∖ {[(c, a, f)]}.
Proof. unfold_leibniz. intros [[c' a'] f']. rewrite elem_of_of_class, !elem_of_difference, elem_of_of_class. set_solver. Qed.

Lemma of_class_delete_other c a f c' f' S : (c', f') ≠ (c, f) →
  Spec.of_class c' f' (S ∖ {[(c, a, f)]}) = Spec.of_class c' f' S.
Proof. intros Hne. unfold_leibniz. intros [[x y] z]. rewrite !elem_of_of_class. set_solver. Qed.

Lemma of_class_remove c c' f S :
  Spec.of_class c' f (Spec.remove_class c S) = if decide (c' = c) then ∅ else Spec.of_class c' f S.
Proof.
  unfold_leibniz. intros [[x y] z]. unfold Spec.remove_class.
  case_decide; rewrite ?elem_of_of_class, elem_of_filter; simpl; set_solver.
Qed.

Lemma of_class_size_le c f S : (size (Spec.of_class c f S) ≤ size S)%nat.
Proof. apply subseteq_size. intros t. rewrite elem_of_of_class. tauto. Qed.

(** The reverse index after an update of one count. *)
Lemma class_count_map m c f : class_map m c !! f = class_count m c f.
Proof. unfold class_map, class_count. by destruct (class_subscribers m !! c). Qed.

Lemma class_count_insert m c f n c' f' :
  class_count (set_class_subscribers (insert c (<[f := n]> (class_map m c))) m) c' f' =
    if decide ((c', f') = (c, f)) then Some n else class_count m c' f'.
Proof.
  unfold class_count at 1. simpl. destruct (decide (c' = c)) as [->|Hc].
  - rewrite lookup_insert_eq. simpl. destruct (decide (f' = f)) as [->|Hf].
    + rewrite lookup_insert_eq. by rewrite decide_True.
    + rewrite lookup_insert_ne by done. rewrite decide_False by naive_solver. apply class_count_map.
  - rewrite lookup_insert_ne by done. by rewrite decide_False by naive_solver.
Qed.

Lemma class_count_delete m c f c' f' :
  class_count (set_class_subscribers
    (if decide (delete f (class_map m c) = ∅) then delete c else insert c (delete f (class_map m c))) m)
    c' f' = if decide ((c', f') = (c, f)) then None else class_count m c' f'.
Proof.
  unfold class_count at 1. simpl. destruct (decide (c' = c)) as [->|Hc].
  - case_decide as He.
    + rewrite lookup_delete_eq. simpl. case_decide as Hp; [done|].
      rewrite <- class_count_map. symmetry. rewrite <- (lookup_delete_ne _ f) by naive_solver.
      by rewrite He, lookup_empty.
    + rewrite lookup_insert_eq. simpl. destruct (decide (f' = f)) as [->|Hf].
      * rewrite lookup_delete_eq. by rewrite decide_True.
      * rewrite lookup_delete_ne by done. rewrite decide_False by naive_solver. apply class_count_map.
  - rewrite (decide_False (P := (c', f') = (c, f))) by naive_solver.
    case_decide; by rewrite ?lookup_delete_ne, ?lookup_insert_ne by done.
Qed.

(** The forward map after an update of one entry. *)
Lemma attr_set_insert m c a X c' a' :
  attr_set (set_by_attribute (insert (c, a) X) m) c' a' =
    if decide ((c', a') = (c, a)) then X else attr_set m c' a'.
Proof.
  unfold attr_set. simpl. case_decide as Hp; [by rewrite Hp, lookup_insert_eq|].
  by rewrite lookup_insert_ne by congruence.
Qed.

Lemma attr_set_update m c a X c' a' :
  attr_set (set_by_attribute (if decide (X = ∅) then delete (c, a) else insert (c, a) X) m) c' a' =
    if decide ((c', a') = (c, a)) then X else attr_set m c' a'.
Proof.
  case_decide as He; [|apply attr_set_insert].
  unfold attr_set. simpl. case_decide as Hp; [by rewrite Hp, lookup_delete_eq|].
  by rewrite lookup_delete_ne by congruence.
Qed.

Lemma attr_set_classes g m : attr_set (set_class_subscribers g m) = attr_set m.
Proof. done. Qed.

Lemma size_zero_iff S : size S = 0%nat ↔ S = ∅.
Proof. rewrite size_empty_iff. split; [apply leibniz_equiv|by intros ->]. Qed.

Lemma singleton_iff_difference (t : Triple) S : t ∈ S → S = {[t]} ↔ S ∖ {[t]} = ∅.
Proof.
  intros Ht. split; [intros ->; by rewrite difference_diag_L|].
  intros He. rewrite (union_difference_singleton_L t S Ht), He. by rewrite union_empty_r_L.
Qed.

Lemma size_difference_member (t : Triple) S : t ∈ S → size S = Datatypes.S (size (S ∖ {[t]})).
Proof.
  intros Ht. rewrite (union_difference_singleton_L t S Ht) at 1.
  rewrite size_union, size_singleton by set_solver. lia.
Qed.

Lemma subscribe_sim c a f m S :
  represents m S → Z.of_nat (size S) + 1 < 2 ^ 32 →
  represents (subscribe_attribute c a f m).1 (Spec.subscribe c a f S).1 ∧
  (subscribe_attribute c a f m).2 = (Spec.subscribe c a f S).2.
Proof.
  intros [Ha Hne Hc Hcne] Hsz. unfold subscribe_attribute, Spec.subscribe.
  pose proof (Ha c a f) as Hin. case_decide as Hf; cbn [fst snd].
  - assert ({[(c, a, f)]} ∪ S = S) as -> by set_solver.
    split; [split|].
    + intros c' a' f'. rewrite attr_set_insert, <- Ha. case_decide as Hp; [|done].
      injection Hp as -> ->. set_solver.
    + intros k. simpl. rewrite lookup_insert. case_decide; [intros [= He]; set_solver|apply Hne].
    + apply Hc.
    + apply Hcne.
    + symmetry. apply bool_decide_eq_false. intros He.
      assert ((c, a, f) ∈ Spec.of_class c f S) by (rewrite elem_of_of_class; naive_solver). set_solver.
  - set (m1 := set_by_attribute _ m).
    assert (Hd : (c, a, f) ∉ Spec.of_class c f S) by (rewrite elem_of_of_class, <- Ha; tauto).
    assert (Hn : wrap_u 32 (default 0 (class_map m1 c !! f) + 1) =
                 Z.of_nat (size (Spec.of_class c f ({[(c, a, f)]} ∪ S)))).
    { rewrite of_class_insert_same, size_union, size_singleton by set_solver.
      pose proof (of_class_size_le c f S). rewrite class_count_map.
      replace (class_count m1 c f) with (class_count m c f) by done. rewrite Hc.
      case_decide as He; simpl; [rewrite He, size_empty; done|].
      rewrite wrap_u_id; unfold u_in; lia. }
    rewrite Hn. split; [split|].
    + intros c' a' f'. rewrite attr_set_classes. unfold m1. rewrite attr_set_insert.
      pose proof (Ha c' a' f') as Ha'. case_decide as Hp; [injection Hp as -> ->|]; set_solver.
    + intros k. simpl. rewrite lookup_insert. case_decide; [intros [= He]; set_solver|apply Hne].
    + intros c' f'. cbv beta iota zeta. cbn [fst].
      rewrite class_count_insert.
      destruct (decide ((c', f') = (c, f))) as [Hp|Hp].
      * injection Hp as -> ->. rewrite decide_False; [done|]. rewrite of_class_insert_same. set_solver.
      * rewrite of_class_insert_other by done. apply Hc.
    + intros c'. simpl. rewrite lookup_insert. case_decide; [|apply Hcne].
      intros [=He]. by apply insert_non_empty in He.
    + rewrite of_class_insert_same, size_union, size_singleton by set_solver.
      apply eq_true_iff_eq. rewrite Z.eqb_eq, bool_decide_eq_true, <- size_zero_iff. lia.
Qed.

(** Unsubscribing a federate that is not subscribed changes nothing. *)
Lemma unsubscribe_sim_absent c a f m S :
  represents m S → f ∉ attr_set m c a →
  represents (unsubscribe_attribute c a f m).1 (Spec.unsubscribe c a f S).1 ∧
  (unsubscribe_attribute c a f m).2 = (Spec.unsubscribe c a f S).2.
Proof.
  intros Hrep Hf. pose proof Hrep as [Ha Hne Hc Hcne].
  assert (HS : (c, a, f) ∉ S) by (by rewrite <- Ha).
  assert (HnS : S ∖ {[(c, a, f)]} = S) by set_solver.
  assert (Hb : bool_decide (Spec.of_class c f S = {[(c, a, f)]}) = false).
  { apply bool_decide_eq_false. intros He.
    assert ((c, a, f) ∈ Spec.of_class c f S) as Hin by set_solver.
    rewrite elem_of_of_class in Hin. tauto. }
  unfold unsubscribe_attribute, Spec.unsubscribe. cbn [fst snd]. rewrite HnS, Hb.
  unfold attr_set in Hf. destruct (by_attribute m !! (c, a)) as [X|] eqn:EX; [|done].
  simpl in Hf. rewrite bool_decide_eq_false_2 by done. cbn [negb fst snd]. split; [|done].
  assert (X ∖ {[f]} = X) as -> by set_solver.
  rewrite decide_False by (intros ->; by apply (Hne (c, a))).
  replace (set_by_attribute (insert (c, a) X) m) with m; [done|].
  destruct m as [ba bi cs]. unfold set_by_attribute. simpl in *. by rewrite insert_id.
Qed.

(** The forward map after the removal of one federate from one entry. *)
Lemma attr_remove_sim c a f m S :
  (∀ c a f, f ∈ attr_set m c a ↔ (c, a, f) ∈ S) → (∀ k, by_attribute m !! k ≠ Some ∅) →
  let m1 := set_by_attribute
    (if decide (attr_set m c a ∖ {[f]} = ∅) then delete (c, a)
     else insert (c, a) (attr_set m c a ∖ {[f]})) m in
  (∀ c' a' f', f' ∈ attr_set m1 c' a' ↔ (c', a', f') ∈ S ∖ {[(c, a, f)]}) ∧
  (∀ k, by_attribute m1 !! k ≠ Some ∅).
Proof.
  intros Ha Hne m1. split.
  - intros c' a' f'. unfold m1. rewrite attr_set_update. pose proof (Ha c' a' f') as Ha'.
    destruct (decide ((c', a') = (c, a))) as [Hp|Hp]; [injection Hp as -> ->|]; set_solver.
  - intros k. unfold m1. cbn [set_by_attribute by_attribute].
    destruct (decide (attr_set m c a ∖ {[f]} = ∅)) as [He|He].
    + rewrite lookup_delete. destruct (decide ((c, a) = k)); [done|apply Hne].
    + rewrite lookup_insert. destruct (decide ((c, a) = k)); [congruence|apply Hne].
Qed.

(** Unsubscribing a subscribed federate removes its triple and gives back one
    reference. *)
Lemma unsubscribe_sim_present c a f m S :
  represents m S → Z.of_nat (size S) < 2 ^ 32 → f ∈ attr_set m c a →
  represents (unsubscribe_attribute c a f m).1 (Spec.unsubscribe c a f S).1 ∧
  (unsubscribe_attribute c a f m).2 = (Spec.unsubscribe c a f S).2.
Proof.
  intros [Ha Hne Hc Hcne] Hsz Hf. pose proof (proj1 (Ha c a f) Hf) as HS.
  assert (Hin : (c, a, f) ∈ Spec.of_class c f S) by (rewrite elem_of_of_class; naive_solver).
  pose proof (of_class_size_le c f S) as Hle.
  assert (Hsize : size (Spec.of_class c f S) =
    Datatypes.S (size (Spec.of_class c f (S ∖ {[(c, a, f)]}))))
    by (rewrite of_class_delete_same; by apply size_difference_member).
  unfold unsubscribe_attribute, Spec.unsubscribe. cbn [fst snd].
  destruct (by_attribute m !! (c, a)) as [X|] eqn:EX; [|unfold attr_set in Hf; rewrite EX in Hf; set_solver].
  assert (HX : attr_set m c a = X) by (unfold attr_set; by rewrite EX).
  rewrite bool_decide_eq_true_2 by (by rewrite <- HX). cbn [negb].
  set (m1 := set_by_attribute _ m).
  destruct (attr_remove_sim c a f m S Ha Hne) as [Hattr Hane]. rewrite HX in Hattr, Hane.
  fold m1 in Hattr, Hane.
  pose proof (Hc c f) as Hcf. rewrite decide_False in Hcf by set_solver.
  unfold class_count in Hcf. change (class_subscribers m1) with (class_subscribers m).
  destruct (class_subscribers m !! c) as [cm|] eqn:Ecm; [|done]. simpl in Hcf. rewrite Hcf.
  assert (Hcm : cm = class_map m1 c).
  { unfold class_map. change (class_subscribers m1) with (class_subscribers m). by rewrite Ecm. }
  rewrite wrap_u_id by (unfold u_in; lia).
  assert (Hone : bool_decide (Spec.of_class c f S = {[(c, a, f)]}) =
                 bool_decide (Spec.of_class c f (S ∖ {[(c, a, f)]}) = ∅)).
  { apply bool_decide_ext. rewrite of_class_delete_same. by apply singleton_iff_difference. }
  rewrite Hone. destruct (Z.eqb_spec (Z.of_nat (size (Spec.of_class c f S)) - 1) 0) as [Hz|Hz].
  - assert (Hemp : Spec.of_class c f (S ∖ {[(c, a, f)]}) = ∅) by (apply size_zero_iff; lia).
    rewrite bool_decide_eq_true_2 by done. split; [|done]. cbn [fst]. subst cm. split.
    + apply Hattr.
    + apply Hane.
    + intros c' f'. rewrite class_count_delete.
      destruct (decide ((c', f') = (c, f))) as [Hp|Hp].
      * injection Hp as -> ->. by rewrite decide_True.
      * rewrite of_class_delete_other by done. apply Hc.
    + intros c'. cbn [set_class_subscribers class_subscribers].
      destruct (decide (delete f (class_map m1 c) = ∅)).
      * rewrite lookup_delete. destruct (decide (c = c')); [done|apply Hcne].
      * rewrite lookup_insert. destruct (decide (c = c')); [congruence|apply Hcne].
  - rewrite bool_decide_eq_false_2 by (rewrite <- size_zero_iff; lia). split; [|done].
    cbn [fst]. subst cm. split.
    + apply Hattr.
    + apply Hane.
    + intros c' f'. rewrite class_count_insert.
      destruct (decide ((c', f') = (c, f))) as [Hp|Hp].
      * injection Hp as -> ->. rewrite decide_False by (rewrite <- size_zero_iff; lia). f_equal. lia.
      * rewrite of_class_delete_other by done. apply Hc.
    + intros c'. simpl. rewrite lookup_insert. destruct (decide (c = c')); [|apply Hcne].
      intros [= He]. by apply insert_non_empty in He.
Qed.

Lemma unsubscribe_sim c a f m S :
  represents m S → Z.of_nat (size S) < 2 ^ 32 →
  represents (unsubscribe_attribute c a f m).1 (Spec.unsubscribe c a f S).1 ∧
  (unsubscribe_attribute c a f m).2 = (Spec.unsubscribe c a f S).2.
Proof.
  intros Hrep Hsz. unfold unsubscribe_attribute, Spec.unsubscribe.
  destruct (decide (f ∈ attr_set m c a)) as [Hf|Hf].
  - by apply unsubscribe_sim_present.
  - by apply unsubscribe_sim_absent.
Qed.

Lemma remove_class_sim c m S :
  represents m S → represents (remove_class c m) (Spec.remove_class c S).
Proof.
  intros [Ha Hne Hc Hcne]. split.
  - intros c' a f. unfold Spec.remove_class, attr_set, remove_class. rewrite elem_of_filter.
    rewrite <- Ha. cbn [set_class_subscribers set_by_attribute by_attribute fst].
    rewrite map_lookup_filter. unfold attr_set.
    destruct (by_attribute m !! (c', a)) as [X|]; simpl; [|set_solver].
    case_guard; simpl; set_solver.
  - intros k. cbn. rewrite map_lookup_filter. specialize (Hne k).
    destruct (by_attribute m !! k) as [X|]; simpl; [|done]. by case_guard.
  - intros c' f. rewrite of_class_remove. unfold class_count. cbn.
    destruct (decide (c' = c)) as [->|Hcc]; [by rewrite lookup_delete_eq|].
    rewrite lookup_delete_ne by done. apply Hc.
  - intros c'. cbn. rewrite lookup_delete. case_decide; [done|apply Hcne].
Qed.

Lemma op_sim o m S :
  represents m S → Z.of_nat (size S) + 1 < 2 ^ 32 →
  represents (matrix_op o m).1 (spec_op o S).1 ∧ (matrix_op o m).2 = (spec_op o S).2.
Proof.
  intros Hr Hs. destruct o; cbn [matrix_op spec_op].
  - by apply subscribe_sim.
  - apply unsubscribe_sim; [done|lia].
  - split; [by apply remove_class_sim|done].
Qed.

Lemma spec_op_size o S : (size (spec_op o S).1 ≤ size S + 1)%nat.
Proof.
  destruct o; cbn.
  - rewrite size_union_alt, size_singleton.
    enough (size (S ∖ {[(c, a, f)]}) ≤ size S)%nat by lia. apply subseteq_size. set_solver.
  - enough (size (S ∖ {[(c, a, f)]}) ≤ size S)%nat by lia. apply subseteq_size. set_solver.
  - enough (size (Spec.remove_class c S) ≤ size S)%nat by lia. apply subseteq_size.
    unfold Spec.remove_class. set_solver.
Qed.

Lemma run_ops_sim os m S :
  represents m S → Z.of_nat (size S) + Z.of_nat (length os) < 2 ^ 32 →
  represents (run_ops matrix_op os m).1 (run_ops spec_op os S).1 ∧
  (run_ops matrix_op os m).2 = (run_ops spec_op os S).2.
Proof.
  revert m S. induction os as [|o os IH]; intros m S Hr Hs; [done|]. cbn [run_ops length] in *.
  destruct (op_sim o m S Hr ltac:(lia)) as [Hr' Hb]. pose proof (spec_op_size o S).
  destruct (matrix_op o m) as [m' b], (spec_op o S) as [S' b']. simpl in *. subst b'.
  destruct (IH m' S' Hr' ltac:(lia)) as [Hr'' Hbs].
  destruct (run_ops matrix_op os m'), (run_ops spec_op os S'). simpl in *. by subst.
Qed.

(** What the reverse index answers, on the set. *)
Lemma class_has_subscribers_spec m S c :
  represents m S → class_has_subscribers m c = true ↔ Spec.has_subscribers S c.
Proof.
  intros [Ha Hne Hc Hcne]. unfold class_has_subscribers. rewrite bool_decide_eq_true. split.
  - intros [cm Hcm]. destruct (map_choose cm) as (f & n & Hf); [intros ->; by apply (Hcne c)|].
    pose proof (Hc c f) as Hcf. unfold class_count in Hcf. rewrite Hcm in Hcf. simpl in Hcf.
    rewrite Hf in Hcf. case_decide as He; [done|]. apply set_choose_L in He as [[[c' a] f'] Ht].
    apply elem_of_of_class in Ht as (Ht & Hc' & _). simpl in Hc'. subst c'. by exists a, f'.
  - intros (a & f & Ht). pose proof (Hc c f) as Hcf. rewrite decide_False in Hcf.
    + unfold class_count in Hcf. by destruct (class_subscribers m !! c).
    + intros He. assert ((c, a, f) ∈ Spec.of_class c f S) as Hin by (rewrite elem_of_of_class; naive_solver).
      set_solver.
Qed.

Lemma subscribers_of_class_spec m S c f :
  represents m S → f ∈ subscribers_of_class m c ↔ ∃ a, (c, a, f) ∈ S.
Proof.
  intros [Ha Hne Hc Hcne]. pose proof (Hc c f) as Hcf. unfold class_count in Hcf.
  unfold subscribers_of_class. transitivity (Spec.of_class c f S ≠ ∅).
  - destruct (class_subscribers m !! c) as [cm|]; simpl in Hcf.
    + rewrite list_elem_of_fmap. split.
      * intros ([f' n] & -> & Hin). apply elem_of_map_to_list in Hin. simpl in *. rewrite Hin in Hcf.
        by case_decide.
      * intros He. rewrite decide_False in Hcf by done.
        exists (f, Z.of_nat (size (Spec.of_class c f S))). split; [done|]. by apply elem_of_map_to_list.
    + case_decide; set_solver.
  - split.
    + intros [[[c' a] f'] Ht]%set_choose_L. apply elem_of_of_class in Ht as (Ht & Hc' & Hf').
      simpl in *. subst. by exists a.
    + intros [a Ht] He. assert ((c, a, f) ∈ Spec.of_class c f S) as Hin
        by (rewrite elem_of_of_class; naive_solver). set_solver.
Qed.

(** ** Properties *)

(** C11: the subscription matrix refines a plain set of (class, attribute,
    federate) triples.  Whatever sequence of fewer than 2^32 calls to
    [subscribe_attribute], [unsubscribe_attribute] and [remove_class] is made
    on an empty matrix, the booleans it returns ("first subscription of the
    federate to the class", "last one removed") are those of the set; the
    forward map holds exactly the triples of the set; and the reverse index,
    with its [u32] reference counts, answers "does the class have subscribers"
    and "which federates subscribe to the class" as the set does. *)
Theorem matrix_refines os :
  Z.of_nat (length os) < 2 ^ 32 →
  let '(m, bs) := run_ops matrix_op os SubscriptionMatrix_default in
  let '(subs, bs') := run_ops spec_op os ∅ in
  bs = bs' ∧
  (∀ c a f, f ∈ attr_set m c a ↔ (c, a, f) ∈ subs) ∧
  (∀ c, class_has_subscribers m c = true ↔ Spec.has_subscribers subs c) ∧
  (∀ c f, f ∈ subscribers_of_class m c ↔ ∃ a, (c, a, f) ∈ subs).
Proof.
  intros Hlen. destruct (run_ops_sim os _ _ represents_default) as [Hr Hb]; [done|].
  destruct (run_ops matrix_op os _) as [m bs], (run_ops spec_op os ∅) as [subs bs']. simpl in *.
  split_and!; [done|apply Hr| |]; intros.
  - by apply class_has_subscribers_spec.
  - by apply subscribers_of_class_spec.
Qed.

(** Two federates on one class; the second call of the first federate is not
    its first subscription, and removing both leaves the other federate. *)
Definition sample_ops : list MatrixOp :=
  let c := ObjectClassHandle_new 1 in
  let a := AttributeHandle_new in
  let f := FederateHandle_new in
  [OpSubscribe c (a 1) (f 1); OpSubscribe c (a 2) (f 1); OpSubscribe c (a 2) (f 2);
   OpUnsubscribe c (a 1) (f 1); OpUnsubscribe c (a 2) (f 1)].

Lemma matrix_refines_witness :
  (run_ops matrix_op sample_ops SubscriptionMatrix_default).2 = [true; false; true; false; true] ∧
  (run_ops spec_op sample_ops ∅).2 = [true; false; true; false; true].
Proof.
  assert (H : (run_ops spec_op sample_ops ∅).2 = [true; false; true; false; true])
    by (vm_compute; reflexivity).
  split; [|exact H].
  pose proof (matrix_refines sample_ops ltac:(vm_compute; reflexivity)) as Hm.
  destruct (run_ops matrix_op sample_ops _) as [m bs], (run_ops spec_op sample_ops ∅) as [subs bs'].
  destruct Hm as [-> _]. exact H.
Defined.
