(* ===== verification/Handles.v ===== *)
(** * Handles on the wire

    [hla-rti/src/handles.rs]: a handle travels as the big-endian bytes of its
    raw number, 4 bytes for [u32] handles and 8 for object instances.  The
    codecs of logical times and intervals ([routing.rs]) are here too. *)

From S2P Require Import Prelude Float64 CoreTypes Exception Proto.

Inductive HandleError := Invalid (e : HlaException).

Definition encode_u32 (raw : Z) : list byte := to_be_bytes 4 raw.
Definition encode_u64 (raw : Z) : list byte := to_be_bytes 8 raw.

Definition decode_u32 (bytes : list byte) (exception : HlaException) : result HandleError Z :=
  if negb (length bytes =? 4)%nat then Err (Invalid exception) else Ok (from_be_bytes bytes).
Definition decode_u64 (bytes : list byte) (exception : HlaException) : result HandleError Z :=
  if negb (length bytes =? 8)%nat then Err (Invalid exception) else Ok (from_be_bytes bytes).

Definition encode_object_class (h : ObjectClassHandle) : ProtoHandle := encode_u32 (och_raw h).
Definition encode_attribute (h : AttributeHandle) : ProtoHandle := encode_u32 (ah_raw h).
Definition encode_interaction_class (h : InteractionClassHandle) : ProtoHandle := encode_u32 (ich_raw h).
Definition encode_parameter (h : ParameterHandle) : ProtoHandle := encode_u32 (ph_raw h).
Definition encode_object_instance (h : ObjectInstanceHandle) : ProtoHandle := encode_u64 (oih_raw h).
Definition encode_federate (h : FederateHandle) : ProtoHandle := encode_u32 (fh_raw h).

Definition decode_object_class (p : ProtoHandle) : result HandleError ObjectClassHandle :=
  ObjectClassHandle_new <$> decode_u32 p InvalidObjectClassHandle.
Definition decode_attribute (p : ProtoHandle) : result HandleError AttributeHandle :=
  AttributeHandle_new <$> decode_u32 p InvalidAttributeHandle.
Definition decode_interaction_class (p : ProtoHandle) : result HandleError InteractionClassHandle :=
  InteractionClassHandle_new <$> decode_u32 p InvalidInteractionClassHandle.
Definition decode_parameter (p : ProtoHandle) : result HandleError ParameterHandle :=
  ParameterHandle_new <$> decode_u32 p InvalidParameterHandle.
Definition decode_object_instance (p : ProtoHandle) : result HandleError ObjectInstanceHandle :=
  ObjectInstanceHandle_new <$> decode_u64 p InvalidObjectInstanceHandle.

(** ** Logical times *)

Definition encode_logical_time (t : f64) : ProtoTime := f64_to_be_bytes t.
Definition encode_logical_time_interval (d : f64) : ProtoTime := f64_to_be_bytes d.

Definition decode_logical_time (p : ProtoTime) : result HlaException f64 :=
  if negb (length p =? 8)%nat then Err InvalidLogicalTime else Ok (f64_from_be_bytes p).
Definition decode_logical_time_interval (p : ProtoTime) : result HlaException f64 :=
  if negb (length p =? 8)%nat then Err InvalidLookahead else Ok (f64_from_be_bytes p).

(** ** Round trips, one lemma for every kind of handle

    [Wire] collects what a handle codec promises: decoding inverts encoding on
    the values of the machine type, and whatever decodes is what encodes back
    to the same bytes, so equal bytes are equal handles. *)
Class Wire {H : Type} (valid : H → Prop) (enc : H → list byte)
    (dec : list byte → result HandleError H) : Prop := {
  wire_roundtrip h : valid h → dec (enc h) = Ok h;
  wire_decode p h : dec p = Ok h → enc h = p ∧ valid h
}.

Lemma decode_u32_ok p e z : decode_u32 p e = Ok z ↔ length p = 4%nat ∧ z = from_be_bytes p.
Proof. unfold decode_u32. destruct (Nat.eqb_spec (length p) 4); naive_solver. Qed.
Lemma decode_u64_ok p e z : decode_u64 p e = Ok z ↔ length p = 8%nat ∧ z = from_be_bytes p.
Proof. unfold decode_u64. destruct (Nat.eqb_spec (length p) 8); naive_solver. Qed.

Lemma decode_encode_u32 z e : u_in 32 z → decode_u32 (encode_u32 z) e = Ok z.
Proof.
  intros Hz. apply decode_u32_ok. split; [apply length_to_be_bytes|].
  symmetry. by apply from_to_be_bytes_u.
Qed.
Lemma decode_encode_u64 z e : u_in 64 z → decode_u64 (encode_u64 z) e = Ok z.
Proof.
  intros Hz. apply decode_u64_ok. split; [apply length_to_be_bytes|].
  symmetry. by apply from_to_be_bytes_u.
Qed.

Lemma encode_decode_u32 p e z : decode_u32 p e = Ok z → encode_u32 z = p ∧ u_in 32 z.
Proof.
  intros [Hl ->]%decode_u32_ok. unfold encode_u32. rewrite <- Hl at 1. rewrite to_from_be_bytes.
  split; [done|]. pose proof (from_be_bytes_range p) as Hr. rewrite Hl in Hr. apply Hr.
Qed.
Lemma encode_decode_u64 p e z : decode_u64 p e = Ok z → encode_u64 z = p ∧ u_in 64 z.
Proof.
  intros [Hl ->]%decode_u64_ok. unfold encode_u64. rewrite <- Hl at 1. rewrite to_from_be_bytes.
  split; [done|]. pose proof (from_be_bytes_range p) as Hr. rewrite Hl in Hr. apply Hr.
Qed.

Ltac solve_wire enc_dec dec_enc :=
  split;
  [ intros [z] Hz; cbn in *; by setoid_rewrite dec_enc
  | intros p [z]; cbn; intros Heq;
    match type of Heq with _ <$> ?d = _ => destruct d eqn:E end; [|done];
    cbn in Heq; injection Heq as <-; by eapply enc_dec ].

#[export] Instance object_class_wire :
  Wire (λ h, u_in 32 (och_raw h)) encode_object_class decode_object_class.
Proof.
  unfold encode_object_class, decode_object_class. solve_wire encode_decode_u32 decode_encode_u32.
Qed.
#[export] Instance attribute_wire :
  Wire (λ h, u_in 32 (ah_raw h)) encode_attribute decode_attribute.
Proof. unfold encode_attribute, decode_attribute. solve_wire encode_decode_u32 decode_encode_u32. Qed.
#[export] Instance interaction_class_wire :
  Wire (λ h, u_in 32 (ich_raw h)) encode_interaction_class decode_interaction_class.
Proof.
  unfold encode_interaction_class, decode_interaction_class.
  solve_wire encode_decode_u32 decode_encode_u32.
Qed.
#[export] Instance parameter_wire :
  Wire (λ h, u_in 32 (ph_raw h)) encode_parameter decode_parameter.
Proof. unfold encode_parameter, decode_parameter. solve_wire encode_decode_u32 decode_encode_u32. Qed.
#[export] Instance object_instance_wire :
  Wire (λ h, u_in 64 (oih_raw h)) encode_object_instance decode_object_instance.
Proof.
  unfold encode_object_instance, decode_object_instance.
  solve_wire encode_decode_u64 decode_encode_u64.
Qed.

Lemma decode_encode_logical_time t :
  u_in 64 (f64_bits t) → decode_logical_time (encode_logical_time t) = Ok t.
Proof.
  intros Ht. unfold decode_logical_time, encode_logical_time.
  replace (length (f64_to_be_bytes t)) with 8%nat by (symmetry; apply length_to_be_bytes).
  simpl. by rewrite f64_from_to_be_bytes.
Qed.

Lemma decode_logical_time_bits p t : decode_logical_time p = Ok t → u_in 64 (f64_bits t).
Proof.
  unfold decode_logical_time. destruct (Nat.eqb_spec (length p) 8); simpl; [|done].
  intros [= <-]. by apply f64_from_be_bytes_range.
Qed.

Lemma decode_logical_time_interval_bits p t :
  decode_logical_time_interval p = Ok t → u_in 64 (f64_bits t).
Proof.
  unfold decode_logical_time_interval. destruct (Nat.eqb_spec (length p) 8); simpl; [|done].
  intros [= <-]. by apply f64_from_be_bytes_range.
Qed.
