(* ===== verification/Routing.v ===== *)
(** * Message routing

    [hla-rti/src/routing.rs]: who subscribes to an update or an interaction,
    which live connections stand behind a set of federates, how a callback is
    queued and stamped, and the constructors of the callback messages. *)

From S2P Require Import Prelude Float64 CoreTypes Framing Fom Exception Proto State Handles.

(** ** Subscribers *)

Definition subscribers_for_attributes (fed : Federation) (class : ObjectClassHandle)
    (attrs : list AttributeHandle) (exclude : option FederateHandle) : gset FederateHandle :=
  foldl (λ out anc,
    foldl (λ out attr,
      match by_attribute (subscriptions fed) !! (anc, attr) with
      | Some set => out ∪ filter (λ fh, Some fh ≠ exclude) set
      | None => out
      end) out attrs) ∅ (inheritance_chain (fed_fom fed) class).

(** The body of the [while] loop at class [c], and the class it continues at. *)
Definition interaction_walk_step (fed : Federation) (exclude : option FederateHandle)
    (c : InteractionClassHandle) (out : gset FederateHandle)
    : gset FederateHandle * option InteractionClassHandle :=
  ( match by_interaction (subscriptions fed) !! c with
    | Some set => out ∪ filter (λ fh, Some fh ≠ exclude) set
    | None => out
    end,
    def ← interaction_class_def (fed_fom fed) c;
    p ← ic_parent def;
    interaction_class_handle (fed_fom fed) p ).

Fixpoint interaction_walk (fed : Federation) (exclude : option FederateHandle) (fuel : nat)
    (current : option InteractionClassHandle) (out : gset FederateHandle) : gset FederateHandle :=
  match fuel, current with
  | S fuel', Some c =>
      let '(out', next) := interaction_walk_step fed exclude c out in
      interaction_walk fed exclude fuel' next out'
  | _, _ => out
  end.

(** A walk visits a class at most once, and at most one class that has no
    definition (the first): the number of classes and one more is enough. *)
Definition subscribers_for_interaction (fed : Federation) (class : InteractionClassHandle)
    (exclude : option FederateHandle) : gset FederateHandle :=
  interaction_walk fed exclude (S (S (size (interaction_classes (fed_fom fed))))) (Some class) ∅.

(** ** Connections and queued callbacks *)

Definition live_connections (node : RtiNode) (fed : Federation) (fhs : gset FederateHandle)
    : list ConnRef :=
  omap (λ fh, fs ← federates fed !! fh; connections node !! fs_session_id fs) (elements fhs).

Record OutboundCallback := mkOutboundCallback { target : ConnRef; body : list byte }.

(** [into_frame]: claims a sequence number of the target connection. *)
Definition into_frame (cb : OutboundCallback) (node : RtiNode) : RtiNode * Frame :=
  let conn := conn_at node (target cb) in
  let '(seq, next) := claim_next_outbound_seq (next_outbound_seq conn) in
  ( set_conn_heap (alter (set_next_outbound_seq (λ _, next)) (target cb)) node,
    Frame_new (with_payload_size (wrap_u 32 (Z.of_nat (length (body cb)))) seq
      (conn_session_id conn) NO_SEQUENCE_NUMBER HlaCallbackRequest) (body cb) ).

Definition fan_out {P : Prost} (out : list OutboundCallback) (conns : list ConnRef)
    (callback : CallbackRequest) : list OutboundCallback :=
  match conns with
  | [] => out
  | _ => let body := encode_callback callback in
         out ++ ((λ conn, mkOutboundCallback conn body) <$> conns)
  end.

(** ** Callback constructors *)

Definition attribute_value_map (values : gmap AttributeHandle (list byte)) : ProtoValueMap :=
  (λ '(h, v), (Some (encode_attribute h), v)) <$> map_to_list values.
Definition parameter_value_map (params : gmap ParameterHandle (list byte)) : ProtoValueMap :=
  (λ '(h, v), (Some (encode_parameter h), v)) <$> map_to_list params.

Definition discover_object_instance (instance : ObjectInstanceHandle) (class : ObjectClassHandle)
    (name : string) (producer : FederateHandle) : CallbackRequest :=
  DiscoverObjectInstance (Some (encode_object_instance instance)) (Some (encode_object_class class))
    name (Some (encode_federate producer)).

Definition reflect_attribute_values_with_time (instance : ObjectInstanceHandle)
    (values : gmap AttributeHandle (list byte)) (tag : list byte) (producer : FederateHandle)
    (time : f64) : CallbackRequest :=
  ReflectAttributeValuesWithTime (Some (encode_object_instance instance))
    (Some (attribute_value_map values)) tag (Some (encode_federate producer))
    (Some (encode_logical_time time)) 1 1.

Definition receive_interaction_with_time (class : InteractionClassHandle)
    (params : gmap ParameterHandle (list byte)) (tag : list byte) (producer : FederateHandle)
    (time : f64) : CallbackRequest :=
  ReceiveInteractionWithTime (Some (encode_interaction_class class))
    (Some (parameter_value_map params)) tag (Some (encode_federate producer))
    (Some (encode_logical_time time)) 1 1.

Definition remove_object_instance_with_time (instance : ObjectInstanceHandle) (tag : list byte)
    (producer : FederateHandle) (time : f64) : CallbackRequest :=
  RemoveObjectInstanceWithTime (Some (encode_object_instance instance)) tag
    (Some (encode_federate producer)) (Some (encode_logical_time time)) 1 1.

Definition reflect_attribute_values (instance : ObjectInstanceHandle)
    (values : gmap AttributeHandle (list byte)) (tag : list byte) (producer : FederateHandle)
    : CallbackRequest :=
  ReflectAttributeValues (Some (encode_object_instance instance))
    (Some (attribute_value_map values)) tag (Some (encode_federate producer)).

Definition receive_directed_interaction (class : InteractionClassHandle)
    (instance : ObjectInstanceHandle) (params : gmap ParameterHandle (list byte))
    (tag : list byte) (producer : FederateHandle) : CallbackRequest :=
  ReceiveDirectedInteraction (Some (encode_interaction_class class))
    (Some (encode_object_instance instance)) (Some (parameter_value_map params)) tag
    (Some (encode_federate producer)).

Definition receive_interaction (class : InteractionClassHandle)
    (params : gmap ParameterHandle (list byte)) (tag : list byte) (producer : FederateHandle)
    : CallbackRequest :=
  ReceiveInteraction (Some (encode_interaction_class class)) (Some (parameter_value_map params))
    tag (Some (encode_federate producer)).

Definition report_federation_execution_members (federation_name : string)
    (members : list (string * string)) : CallbackRequest :=
  ReportFederationExecutionMembers federation_name (Some members).
Definition report_federation_execution_does_not_exist (federation_name : string) : CallbackRequest :=
  ReportFederationExecutionDoesNotExist federation_name.
Definition report_federation_executions (federations : list string) : CallbackRequest :=
  ReportFederationExecutions (Some ((λ name, (name, "HLAfloat64Time"%string)) <$> federations)).

Definition attribute_ownership_acquisition_notification (instance : ObjectInstanceHandle)
    (secured : list AttributeHandle) (tag : list byte) : CallbackRequest :=
  AttributeOwnershipAcquisitionNotification (Some (encode_object_instance instance))
    (Some (encode_attribute <$> secured)) tag.
Definition attribute_ownership_unavailable (instance : ObjectInstanceHandle)
    (unavailable : list AttributeHandle) (tag : list byte) : CallbackRequest :=
  AttributeOwnershipUnavailable (Some (encode_object_instance instance))
    (Some (encode_attribute <$> unavailable)) tag.

Definition request_federation_restore_succeeded (label : string) : CallbackRequest :=
  RequestFederationRestoreSucceeded label.
Definition request_federation_restore_failed (label : string) : CallbackRequest :=
  RequestFederationRestoreFailed label.
Definition federation_restore_begun : CallbackRequest := FederationRestoreBegun.
Definition initiate_federate_restore (label federate_name : string) (post : FederateHandle)
    : CallbackRequest :=
  InitiateFederateRestore label federate_name (Some (encode_federate post)).
Definition federation_restored : CallbackRequest := FederationRestored.
Definition federation_not_restored (reason : Z) : CallbackRequest := FederationNotRestored reason.
Definition initiate_federate_save (label : string) : CallbackRequest := InitiateFederateSave label.
Definition federation_saved : CallbackRequest := FederationSaved.
Definition federation_not_saved (reason : Z) : CallbackRequest := FederationNotSaved reason.

Definition inform_attribute_ownership (instance : ObjectInstanceHandle)
    (attributes : list AttributeHandle) (federate : FederateHandle) : CallbackRequest :=
  InformAttributeOwnership (Some (encode_object_instance instance))
    (Some (encode_attribute <$> attributes)) (Some (encode_federate federate)).
Definition attribute_is_not_owned (instance : ObjectInstanceHandle)
    (attributes : list AttributeHandle) : CallbackRequest :=
  AttributeIsNotOwned (Some (encode_object_instance instance))
    (Some (encode_attribute <$> attributes)).

Definition synchronization_point_registration_succeeded (label : string) : CallbackRequest :=
  SynchronizationPointRegistrationSucceeded label.
Definition synchronization_point_registration_failed (label : string) (reason : Z)
    : CallbackRequest := SynchronizationPointRegistrationFailed label reason.
Definition announce_synchronization_point (label : string) (tag : list byte) : CallbackRequest :=
  AnnounceSynchronizationPoint label tag.
Definition federation_synchronized (label : string) (failed_set : gset FederateHandle)
    : CallbackRequest :=
  FederationSynchronized label (Some (encode_federate <$> elements failed_set)).

Definition start_registration_for_object_class (class : ObjectClassHandle) : CallbackRequest :=
  StartRegistrationForObjectClass (Some (encode_object_class class)).
Definition stop_registration_for_object_class (class : ObjectClassHandle) : CallbackRequest :=
  StopRegistrationForObjectClass (Some (encode_object_class class)).
Definition turn_interactions_on (class : InteractionClassHandle) : CallbackRequest :=
  TurnInteractionsOn (Some (encode_interaction_class class)).
Definition turn_interactions_off (class : InteractionClassHandle) : CallbackRequest :=
  TurnInteractionsOff (Some (encode_interaction_class class)).

Definition time_regulation_enabled (time : f64) : CallbackRequest :=
  TimeRegulationEnabled (Some (encode_logical_time time)).
Definition time_constrained_enabled (time : f64) : CallbackRequest :=
  TimeConstrainedEnabled (Some (encode_logical_time time)).
Definition time_advance_grant (time : f64) : CallbackRequest :=
  TimeAdvanceGrant (Some (encode_logical_time time)).

Definition remove_object_instance (instance : ObjectInstanceHandle) (tag : list byte)
    (producer : FederateHandle) : CallbackRequest :=
  RemoveObjectInstance (Some (encode_object_instance instance)) tag (Some (encode_federate producer)).

(** ** Who is notified *)

Lemma elem_of_foldl_union {A} (P : A → gset FederateHandle → gset FederateHandle)
    (Q : A → FederateHandle → Prop) l out fh :
  (∀ x out, fh ∈ P x out ↔ fh ∈ out ∨ Q x fh) →
  fh ∈ foldl (λ out x, P x out) out l ↔ fh ∈ out ∨ ∃ x, x ∈ l ∧ Q x fh.
Proof.
  intros HP. revert out. induction l as [|x l IH]; intros out; simpl; [set_solver|].
  rewrite IH, HP. set_solver.
Qed.

Lemma elem_of_subscribers_for_attributes fed class attrs exclude fh :
  fh ∈ subscribers_for_attributes fed class attrs exclude ↔
    Some fh ≠ exclude ∧ ∃ anc attr set, anc ∈ inheritance_chain (fed_fom fed) class ∧ attr ∈ attrs ∧
      by_attribute (subscriptions fed) !! (anc, attr) = Some set ∧ fh ∈ set.
Proof.
  unfold subscribers_for_attributes.
  rewrite (elem_of_foldl_union _ (λ anc fh, ∃ attr, attr ∈ attrs ∧
    ∃ set, by_attribute (subscriptions fed) !! (anc, attr) = Some set ∧ fh ∈ set ∧ Some fh ≠ exclude)).
  - set_solver.
  - intros anc out. apply (elem_of_foldl_union _ (λ attr fh,
      ∃ set, by_attribute (subscriptions fed) !! (anc, attr) = Some set ∧ fh ∈ set ∧ Some fh ≠ exclude)).
    intros attr out'. destruct (by_attribute _ !! _) as [set|]; set_solver.
Qed.

(** The ancestors of an interaction class, itself included. *)
Inductive iancestor (fom : MergedFom) : InteractionClassHandle → InteractionClassHandle → Prop :=
| iancestor_self h : iancestor fom h h
| iancestor_up h d p hp a :
    interaction_class_def fom h = Some d → ic_parent d = Some p →
    interaction_class_handle fom p = Some hp → iancestor fom hp a → iancestor fom h a.

Section interaction_walk.
Context (fed : Federation) `{!FomWf (fed_fom fed)} (exclude : option FederateHandle).

Definition ibelow (h : InteractionClassHandle) : gset InteractionClassHandle :=
  filter (λ x, ich_raw x ≤ ich_raw h) (dom (interaction_classes (fed_fom fed))).

Lemma ibelow_lt h hp d :
  interaction_class_def (fed_fom fed) h = Some d → ich_raw hp < ich_raw h →
  (size (ibelow hp) < size (ibelow h))%nat.
Proof.
  intros Hd Hlt. apply subset_size. split.
  - intros x. unfold ibelow. rewrite !elem_of_filter. intros [??]. split; [lia|done].
  - intros Hsub. assert (Hin : h ∈ ibelow h).
    { unfold ibelow. rewrite elem_of_filter. split; [lia|]. apply elem_of_dom. by exists d. }
    apply Hsub in Hin. unfold ibelow in Hin. apply elem_of_filter in Hin as [Hle _]. lia.
Qed.

(** Federate [fh] subscribes to [c] and is not the excluded producer. *)
Definition isubscribes (c : InteractionClassHandle) (fh : FederateHandle) : Prop :=
  Some fh ≠ exclude ∧
  ∃ set, by_interaction (subscriptions fed) !! c = Some set ∧ fh ∈ set.

Lemma interaction_walk_spec fuel c out fh :
  (size (ibelow c) < fuel)%nat →
  fh ∈ interaction_walk fed exclude fuel (Some c) out ↔
    fh ∈ out ∨ ∃ a, iancestor (fed_fom fed) c a ∧ isubscribes a fh.
Proof.
  revert c out. induction fuel as [|fuel IH]; intros c out Hf; [lia|].
  cbn [interaction_walk]. unfold interaction_walk_step.
  set (out' := match by_interaction _ !! c with Some set => _ | None => out end).
  assert (Ho : fh ∈ out' ↔ fh ∈ out ∨ isubscribes c fh).
  { unfold out', isubscribes. destruct (by_interaction _ !! c) as [set|]; set_solver. }
  destruct (interaction_class_def (fed_fom fed) c) as [d|] eqn:Hd; simpl.
  2:{ replace (fh ∈ interaction_walk fed exclude fuel None out') with (fh ∈ out') by by destruct fuel.
      rewrite Ho. split; [|intros [?|(a & Ha & ?)]; [tauto|]].
      - intros [?|?]; [tauto|right]. exists c. split; [constructor|done].
      - inversion Ha; simplify_eq; tauto. }
  destruct (ic_parent d) as [p|] eqn:Hp; simpl.
  2:{ replace (fh ∈ interaction_walk fed exclude fuel None out') with (fh ∈ out') by by destruct fuel.
      rewrite Ho. split; [|intros [?|(a & Ha & ?)]; [tauto|]].
      - intros [?|?]; [tauto|right]. exists c. split; [constructor|done].
      - inversion Ha; simplify_eq; tauto. }
  destruct (fom_interaction_parent _ _ _ Hd Hp) as (hp & Hhp & Hlt). rewrite Hhp.
  pose proof (ibelow_lt _ _ _ Hd Hlt). rewrite IH, Ho by lia. split.
  - intros [[?|?]|(a & Ha & ?)]; [tauto| |]; right.
    + exists c. split; [constructor|done].
    + exists a. split; [by eapply iancestor_up|done].
  - intros [?|(a & Ha & ?)]; [tauto|]. inversion Ha; simplify_eq; [tauto|]. right. eauto.
Qed.

Lemma elem_of_subscribers_for_interaction c fh :
  fh ∈ subscribers_for_interaction fed c exclude ↔
    ∃ a, iancestor (fed_fom fed) c a ∧ isubscribes a fh.
Proof.
  unfold subscribers_for_interaction. rewrite interaction_walk_spec; [set_solver|].
  apply Nat.lt_succ_r, Nat.le_le_succ_r. unfold ibelow. rewrite <- size_dom.
  apply subseteq_size. set_solver.
Qed.
End interaction_walk.

(** ** Delivery *)

Lemma elem_of_live_connections node fed fhs c :
  c ∈ live_connections node fed fhs ↔
    ∃ fh fs, fh ∈ fhs ∧ federates fed !! fh = Some fs ∧ connections node !! fs_session_id fs = Some c.
Proof.
  unfold live_connections. rewrite list_elem_of_omap. split.
  - intros (fh & Hin & Hc). apply bind_Some in Hc as (fs & Hfs & Hc).
    exists fh, fs. rewrite elem_of_elements in Hin. done.
  - intros (fh & fs & Hin & Hfs & Hc). exists fh. rewrite elem_of_elements, Hfs. done.
Qed.

Lemma fan_out_app {P : Prost} out conns cb :
  fan_out out conns cb = out ++ ((λ conn, mkOutboundCallback conn (encode_callback cb)) <$> conns).
Proof. destruct conns; simpl; [by rewrite app_nil_r|done]. Qed.
#[export] Hint Rewrite @fan_out_app : hla_run.

(** Connections of one federate. *)
Lemma live_connections_single node fed fh :
  live_connections node fed {[fh]} =
    match fs ← federates fed !! fh; connections node !! fs_session_id fs with
    | Some c => [c] | None => [] end.
Proof. unfold live_connections. rewrite elements_singleton. simpl. by destruct (_ ≫= _). Qed.

(** Connections only depend on the sessions of the federates. *)
Lemma live_connections_ext node fed fed' fhs :
  (∀ fh, fs_session_id <$> federates fed !! fh = fs_session_id <$> federates fed' !! fh) →
  live_connections node fed fhs = live_connections node fed' fhs.
Proof.
  intros H. unfold live_connections. apply list_omap_ext, Forall_Forall2_diag, Forall_true.
  intros fh. specialize (H fh).
  destruct (federates fed !! fh), (federates fed' !! fh); simplify_eq/=; congruence.
Qed.
