(* ===== verification/TimeCoord.v ===== *)
(** * Time coordination: LBTS and the granting of time advances

    [hla-rti/src/time.rs].  [lbts] is the lower bound on the time stamps that
    regulating federates may still send; [try_grant_pending_advances] grants
    every pending advance the bound allows and recurses while the bound rises.
    The recursion is modelled with fuel; [try_grant_returns] shows that one
    round per federate and one more always returns, so the fuel is never what
    ends it. *)

From S2P Require Import Prelude Float64 FloatAdd CoreTypes Fom Proto State Routing.

(** ** LBTS *)

Definition regulating_bounds (fed : Federation) : list f64 :=
  (λ f, f64_add (current_time (fs_time f)) (lookahead (fs_time f))) <$>
    filter (λ f, is_regulating (fs_time f) = true) (map_to_list (federates fed)).*2.

Definition lbts (fed : Federation) : f64 := foldl f64_min f64_INFINITY (regulating_bounds fed).

(** ** Granting *)

(** The filter of the first pass, on one federate. *)
Definition grantable (bound : f64) (fs : FederateSession) : option f64 :=
  pending ← pending_advance (fs_time fs);
  if negb (is_constrained (fs_time fs)) || f64_leb pending bound then Some pending else None.

Definition to_grant (bound : f64) (fed : Federation) : list (FederateHandle * f64) :=
  omap (λ '(fh, fs), (λ t, (fh, t)) <$> grantable bound fs) (map_to_list (federates fed)).

Definition grant (t : f64) (fs : FederateSession) : FederateSession :=
  set_fs_time (λ ts, set_pending_advance (λ _, None) (set_current_time (λ _, t) ts)) fs.

(** [fs.time.pending_advance == Some(t)] *)
Definition pending_is (t : f64) (fs : FederateSession) : bool :=
  match pending_advance (fs_time fs) with Some p => f64_eqb p t | None => false end.

(** One iteration of the second pass: the federates and the grants so far. *)
Definition apply_grant (st : gmap FederateHandle FederateSession * list (FederateHandle * f64))
    (g : FederateHandle * f64) : gmap FederateHandle FederateSession * list (FederateHandle * f64) :=
  match st.1 !! g.1 with
  | Some fs => if pending_is g.2 fs then (<[g.1 := grant g.2 fs]> st.1, st.2 ++ [g]) else st
  | None => st
  end.

Definition apply_grants (fed : Federation) (l : list (FederateHandle * f64))
    : Federation * list (FederateHandle * f64) :=
  let '(fs, g) := foldl apply_grant (federates fed, []) l in
  (set_federates (λ _, fs) fed, g).

Section with_prost.
Context {P : Prost}.

Definition emit_grants (node : RtiNode) (fed : Federation) (out : list OutboundCallback)
    (granted : list (FederateHandle * f64)) : list OutboundCallback :=
  foldl (λ out g, fan_out out (live_connections node fed {[g.1]}) (time_advance_grant g.2)) out granted.

(** The body, with the recursive call bounded by [fuel]; [None] when the fuel
    does not suffice. *)
Fixpoint try_grant (fuel : nat) (node : RtiNode) (fed : Federation) (out : list OutboundCallback)
    : option (Federation * list OutboundCallback) :=
  match fuel with
  | O => None
  | S fuel' =>
      let bound := lbts fed in
      match to_grant bound fed with
      | [] => Some (fed, out)
      | l =>
          let '(fed', granted) := apply_grants fed l in
          let out' := emit_grants node fed' out granted in
          if f64_gtb (lbts fed') bound then try_grant fuel' node fed' out' else Some (fed', out')
      end
  end.

Definition try_grant_pending_advances (node : RtiNode) (fed : Federation)
    (out : list OutboundCallback) : Federation * list OutboundCallback :=
  default (fed, out) (try_grant (S (S (size (federates fed)))) node fed out).
End with_prost.

(** [time::snapshot] *)
Definition time_snapshot (fed : Federation) : gmap FederateHandle (f64 * f64 * bool * bool) :=
  (λ fs, let t := fs_time fs in
     (current_time t, lookahead t, is_regulating t, is_constrained t)) <$> federates fed.

(** ** LBTS is the greatest lower bound *)

Lemma foldl_min_nan l acc : is_nan acc = false → is_nan (foldl f64_min acc l) = false.
Proof.
  revert acc. induction l as [|x l IH]; intros acc Ha; simpl; [done|].
  apply IH. by rewrite f64_min_nan, Ha.
Qed.

Lemma foldl_min_le l acc :
  is_nan acc = false →
  f64_key (foldl f64_min acc l) ≤ f64_key acc ∧
  ∀ x, x ∈ l → is_nan x = false → f64_key (foldl f64_min acc l) ≤ f64_key x.
Proof.
  revert acc. induction l as [|y l IH]; intros acc Ha; simpl; [split; [lia|set_solver]|].
  pose proof (f64_min_nan acc y) as Hn. rewrite Ha in Hn. simpl in Hn.
  destruct (IH _ Hn) as [IH1 IH2].
  destruct (is_nan y) eqn:Hy.
  - assert (Hm : f64_min acc y = acc).
    { unfold f64_min. by rewrite Ha, Hy. }
    rewrite Hm in *. split; [done|]. intros x [->|Hx]%elem_of_cons Hnx; [congruence|by apply IH2].
  - rewrite (f64_min_key acc y Ha Hy) in IH1. split; [lia|].
    intros x [->|Hx]%elem_of_cons Hnx; [lia|by apply IH2].
Qed.

Lemma foldl_min_elem l acc :
  foldl f64_min acc l = acc ∨ foldl f64_min acc l ∈ l.
Proof.
  revert acc. induction l as [|y l IH]; intros acc; simpl; [by left|].
  destruct (IH (f64_min acc y)) as [->|Hin]; [|set_solver].
  unfold f64_min. destruct (is_nan acc), (is_nan y), (f64_ltb y acc); set_solver.
Qed.

Lemma elem_of_regulating_bounds fed x :
  x ∈ regulating_bounds fed ↔ ∃ fh fs, federates fed !! fh = Some fs ∧
    is_regulating (fs_time fs) = true ∧ x = f64_add (current_time (fs_time fs)) (lookahead (fs_time fs)).
Proof.
  unfold regulating_bounds. rewrite list_elem_of_fmap. split.
  - intros (fs & -> & [Hr Hin]%list_elem_of_filter).
    apply list_elem_of_fmap in Hin as ([fh fs'] & -> & Hin).
    apply elem_of_map_to_list in Hin. by exists fh, fs'.
  - intros (fh & fs & Hfs & Hr & ->). exists fs. split; [done|].
    rewrite list_elem_of_filter. split; [done|]. apply list_elem_of_fmap.
    exists (fh, fs). split; [done|]. by apply elem_of_map_to_list.
Qed.

Lemma lbts_not_nan fed : is_nan (lbts fed) = false.
Proof. by apply foldl_min_nan. Qed.

Lemma lbts_lower fed fh fs :
  federates fed !! fh = Some fs → is_regulating (fs_time fs) = true →
  is_nan (f64_add (current_time (fs_time fs)) (lookahead (fs_time fs))) = false →
  f64_key (lbts fed) ≤ f64_key (f64_add (current_time (fs_time fs)) (lookahead (fs_time fs))).
Proof.
  intros Hfs Hr Hn. apply foldl_min_le; [done| |done]. apply elem_of_regulating_bounds. eauto.
Qed.

Lemma lbts_attained fed :
  lbts fed = f64_INFINITY ∨ ∃ fh fs, federates fed !! fh = Some fs ∧
    is_regulating (fs_time fs) = true ∧
    lbts fed = f64_add (current_time (fs_time fs)) (lookahead (fs_time fs)).
Proof.
  unfold lbts.
  destruct (foldl_min_elem (regulating_bounds fed) f64_INFINITY) as [He|Hin]; [by left|right].
  by apply elem_of_regulating_bounds.
Qed.

(** ** One round of grants

    A round grants, at once, every federate of [grants_now]. *)

Definition grants_now (bound : f64) (fs : FederateSession) : option f64 :=
  t ← grantable bound fs; if f64_eqb t t then Some t else None.

Definition grant_round_fs (bound : f64) (fs : FederateSession) : FederateSession :=
  match grants_now bound fs with Some t => grant t fs | None => fs end.

Definition grant_round (fed : Federation) : Federation :=
  set_federates (fmap (grant_round_fs (lbts fed))) fed.

Definition round_grants (bound : f64) (fed : Federation) : list (FederateHandle * f64) :=
  omap (λ '(fh, fs), (λ t, (fh, t)) <$> grants_now bound fs) (map_to_list (federates fed)).

Lemma grantable_pending bound fs t : grantable bound fs = Some t → pending_advance (fs_time fs) = Some t.
Proof.
  unfold grantable. destruct (pending_advance (fs_time fs)) as [p|]; simpl; [|done].
  by destruct (_ || _); intros [= ->].
Qed.

(** Writing the entries of a list back to a map through [f]. *)
Definition write_back {V} (f : V → V) (l : list (FederateHandle * V)) (m : gmap FederateHandle V)
    : gmap FederateHandle V := foldr (λ '(k, x) m, <[k := f x]> m) m l.

Lemma write_back_lookup_ne {V} (f : V → V) l (m : gmap FederateHandle V) k :
  k ∉ l.*1 → write_back f l m !! k = m !! k.
Proof.
  induction l as [|[k' x] l IH]; simpl; [done|]. intros Hk.
  rewrite lookup_insert_ne by set_solver. apply IH. set_solver.
Qed.

Lemma write_back_insert {V} (f : V → V) l (m : gmap FederateHandle V) k x :
  k ∉ l.*1 → write_back f l (<[k := x]> m) = <[k := x]> (write_back f l m).
Proof.
  induction l as [|[k' y] l IH]; simpl; [done|]. intros Hk.
  rewrite IH by set_solver. apply insert_insert_ne. set_solver.
Qed.

Lemma write_back_all {V} (f : V → V) (m : gmap FederateHandle V) :
  write_back f (map_to_list m) m = f <$> m.
Proof.
  apply map_eq. intros k. rewrite lookup_fmap.
  assert (H : ∀ l (m0 : gmap FederateHandle V), NoDup l.*1 → ∀ x, (k, x) ∈ l →
    write_back f l m0 !! k = Some (f x)).
  { induction l as [|[k' y] l IH]; intros m0 Hnd x Hin; [by apply elem_of_nil in Hin|].
    inversion Hnd; subst. simpl. apply elem_of_cons in Hin as [[= <- <-]|Hin].
    - by rewrite lookup_insert_eq.
    - rewrite lookup_insert_ne; [by apply IH|]. intros ->.
      assert (k ∈ l.*1) by (apply list_elem_of_fmap; by exists (k, x)). done. }
  destruct (m !! k) as [x|] eqn:Hk; simpl.
  - apply H; [apply NoDup_fst_map_to_list|]. by apply elem_of_map_to_list.
  - rewrite write_back_lookup_ne; [done|]. intros ([k' x] & -> & Hin)%list_elem_of_fmap.
    apply elem_of_map_to_list in Hin. simpl in *. congruence.
Qed.

(** The second pass over a duplicate-free list of federates: those in [l] are
    updated, the others are left alone. *)
Lemma apply_grant_foldl bound (l : list (FederateHandle * FederateSession))
    (m : gmap FederateHandle FederateSession) g :
  NoDup l.*1 → (∀ fh fs, (fh, fs) ∈ l → m !! fh = Some fs) →
  foldl apply_grant (m, g) (omap (λ '(fh, fs), (λ t, (fh, t)) <$> grantable bound fs) l) =
    (write_back (grant_round_fs bound) l m,
     g ++ omap (λ '(fh, fs), (λ t, (fh, t)) <$> grants_now bound fs) l).
Proof.
  revert m g. induction l as [|[fh fs] l IH]; intros m g Hnd Hm; simpl; [by rewrite app_nil_r|].
  inversion Hnd as [|? ? Hfh Hnd']; subst.
  assert (Hfs : m !! fh = Some fs) by (apply Hm; set_solver).
  assert (Hl : ∀ fh' fs', (fh', fs') ∈ l → m !! fh' = Some fs') by (intros; apply Hm; set_solver).
  destruct (grants_now bound fs) as [t|] eqn:Hn; simpl.
  - unfold grant_round_fs at 1. rewrite Hn. unfold grants_now in Hn.
    apply bind_Some in Hn as (t' & Hg & Ht). destruct (f64_eqb t' t') eqn:Heq; simplify_eq.
    rewrite Hg. simpl. unfold apply_grant at 2. simpl. rewrite Hfs. unfold pending_is.
    rewrite (grantable_pending _ _ _ Hg), Heq.
    rewrite IH, write_back_insert, <- app_assoc; [done|done|done|].
    intros fh' fs' Hin. rewrite lookup_insert_ne; [by apply Hl|]. intros ->. apply Hfh.
    apply list_elem_of_fmap. by exists (fh', fs').
  - unfold grant_round_fs at 1. rewrite Hn.
    rewrite insert_id by (by rewrite write_back_lookup_ne).
    unfold grants_now in Hn. destruct (grantable bound fs) as [t|] eqn:Hg; simpl in *; [|by apply IH].
    unfold apply_grant at 2. simpl. rewrite Hfs. unfold pending_is.
    rewrite (grantable_pending _ _ _ Hg). destruct (f64_eqb t t); [done|]. by apply IH.
Qed.

Lemma set_federates_eta fed : set_federates (λ _, federates fed) fed = fed.
Proof. by destruct fed. Qed.

Lemma apply_grants_round fed :
  apply_grants fed (to_grant (lbts fed) fed) = (grant_round fed, round_grants (lbts fed) fed).
Proof.
  unfold apply_grants, to_grant.
  rewrite apply_grant_foldl; [|apply NoDup_fst_map_to_list|intros ??; by rewrite elem_of_map_to_list].
  rewrite write_back_all. done.
Qed.

(** ** Rounds: the recursion as a relation

    [rounds node fed out fed' out']: starting at [fed], the procedure returns
    with [fed'].  A return comes either from a first pass that finds nobody,
    or from a round after which the bound did not rise. *)
Section rounds.
Context {P : Prost} (node : RtiNode).

Definition round_out (fed : Federation) (out : list OutboundCallback) : list OutboundCallback :=
  emit_grants node (grant_round fed) out (round_grants (lbts fed) fed).

Inductive rounds : Federation → list OutboundCallback → Federation → list OutboundCallback → Prop :=
| rounds_none fed out : to_grant (lbts fed) fed = [] → rounds fed out fed out
| rounds_last fed out :
    f64_gtb (lbts (grant_round fed)) (lbts fed) = false →
    rounds fed out (grant_round fed) (round_out fed out)
| rounds_more fed out fed' out' :
    f64_gtb (lbts (grant_round fed)) (lbts fed) = true →
    rounds (grant_round fed) (round_out fed out) fed' out' → rounds fed out fed' out'.

Lemma try_grant_rounds fuel fed out fed' out' :
  try_grant fuel node fed out = Some (fed', out') → rounds fed out fed' out'.
Proof.
  revert fed out. induction fuel as [|fuel IH]; intros fed out; simpl; [done|].
  destruct (to_grant (lbts fed) fed) as [|g l] eqn:Hl; [intros [= <- <-]; by constructor|].
  rewrite <- Hl, apply_grants_round.
  destruct (f64_gtb _ _) eqn:Hb; [|intros [= <- <-]; by apply rounds_last].
  intros H. by eapply rounds_more; [|apply IH].
Qed.

(** Federates with a pending advance: what a round that raises the bound
    makes smaller. *)
Definition pendings (fed : Federation) : gmap FederateHandle FederateSession :=
  filter (λ kv, pending_advance (fs_time kv.2) ≠ None) (federates fed).

Lemma grant_round_lookup fed fh :
  federates (grant_round fed) !! fh = grant_round_fs (lbts fed) <$> federates fed !! fh.
Proof. unfold grant_round. simpl. apply lookup_fmap. Qed.

Lemma grant_round_fs_pending bound fs :
  pending_advance (fs_time (grant_round_fs bound fs)) =
    match grants_now bound fs with Some _ => None | None => pending_advance (fs_time fs) end.
Proof. unfold grant_round_fs. by destruct (grants_now bound fs). Qed.

Lemma grants_now_pending bound fs t :
  grants_now bound fs = Some t → pending_advance (fs_time fs) = Some t.
Proof.
  unfold grants_now. intros (t' & Hg & Ht)%bind_Some. destruct (f64_eqb t' t'); simplify_eq.
  by eapply grantable_pending.
Qed.

(** A round that raises the bound granted somebody. *)
Lemma grant_round_nobody fed :
  (∀ fh fs, federates fed !! fh = Some fs → grants_now (lbts fed) fs = None) →
  grant_round fed = fed.
Proof.
  intros H. destruct fed as [? ? fs]. unfold grant_round, set_federates. simpl. f_equal.
  apply map_eq. intros fh. rewrite lookup_fmap. simpl in *.
  destruct (fs !! fh) as [x|] eqn:Hx; simpl; [|done]. f_equal.
  unfold grant_round_fs. by rewrite (H fh x Hx).
Qed.

Lemma pendings_decrease fed :
  f64_gtb (lbts (grant_round fed)) (lbts fed) = true →
  (size (pendings (grant_round fed)) < size (pendings fed))%nat.
Proof.
  intros Hb. rewrite <- !size_dom. apply subset_size.
  assert (Hin : ∀ fed fh, fh ∈ dom (pendings fed) ↔
    ∃ fs, federates fed !! fh = Some fs ∧ pending_advance (fs_time fs) ≠ None).
  { intros f fh. unfold pendings. rewrite elem_of_dom. unfold is_Some.
    setoid_rewrite map_lookup_filter_Some. done. }
  split.
  - intros fh. rewrite !Hin. intros (fs & Hfs & Hp). rewrite grant_round_lookup in Hfs.
    apply fmap_Some in Hfs as (fs0 & Hfs0 & ->). exists fs0. split; [done|].
    rewrite grant_round_fs_pending in Hp. by destruct (grants_now _ _).
  - intros Hsub.
    assert (Hno : grant_round fed = fed).
    { apply grant_round_nobody. intros fh fs Hfs.
      destruct (grants_now (lbts fed) fs) as [t|] eqn:Hg; [|done].
      assert (H : fh ∈ dom (pendings fed)).
      { apply Hin. exists fs. rewrite (grants_now_pending _ _ _ Hg). done. }
      apply Hsub, Hin in H as (fs' & Hfs' & Hp'). rewrite grant_round_lookup, Hfs in Hfs'.
      simplify_eq/=. rewrite grant_round_fs_pending, Hg in Hp'. done. }
    rewrite Hno in Hb. apply f64_ltb_key in Hb. lia.
Qed.

(** The recursion always returns: one unit of fuel per pending advance and
    two more suffice. *)
Lemma try_grant_returns fuel fed out :
  (size (pendings fed) < fuel)%nat → is_Some (try_grant fuel node fed out).
Proof.
  revert fed out. induction fuel as [|fuel IH]; intros fed out Hf; [lia|]. simpl.
  destruct (to_grant (lbts fed) fed) as [|g l] eqn:Hl; [done|].
  rewrite <- Hl, apply_grants_round. destruct (f64_gtb _ _) eqn:Hb; [|done].
  apply IH. pose proof (pendings_decrease _ Hb). lia.
Qed.

Lemma pendings_size fed : (size (pendings fed) ≤ size (federates fed))%nat.
Proof.
  rewrite <- !size_dom. apply subseteq_size. unfold pendings. apply subseteq_dom, map_filter_subseteq.
Qed.

Lemma try_grant_pending_advances_rounds fed out :
  rounds fed out (try_grant_pending_advances node fed out).1 (try_grant_pending_advances node fed out).2.
Proof.
  unfold try_grant_pending_advances. pose proof (pendings_size fed).
  destruct (try_grant_returns (S (S (size (federates fed)))) fed out) as [[fed' out'] H']; [lia|].
  rewrite H'. by eapply try_grant_rounds.
Qed.
End rounds.

(** ** Well-formed time states

    What the handlers maintain: times are finite, lookaheads finite and not
    negative, and a pending advance does not go back. *)

Record time_wf (t : TimeState) : Prop := {
  tw_current : is_finite (current_time t) = true;
  tw_lookahead : is_finite (lookahead t) = true;
  tw_lookahead_nonneg : 0 ≤ f64_key (lookahead t);
  tw_pending p : pending_advance t = Some p → is_finite p = true ∧ f64_key (current_time t) ≤ f64_key p
}.

Definition fed_time_wf (fed : Federation) : Prop :=
  ∀ fh fs, federates fed !! fh = Some fs → time_wf (fs_time fs).

(** What a regulating federate promises not to send below. *)
Definition send_bound (t : TimeState) : f64 := f64_add (current_time t) (lookahead t).

Lemma send_bound_not_nan t : time_wf t → is_nan (send_bound t) = false.
Proof. intros []. by apply f64_add_not_nan. Qed.

(** [b] is below the bound of every regulating federate iff it is below LBTS. *)
Lemma le_lbts fed b :
  fed_time_wf fed → b ≤ f64_key f64_INFINITY →
  b ≤ f64_key (lbts fed) ↔
    ∀ fh fs, federates fed !! fh = Some fs → is_regulating (fs_time fs) = true →
      b ≤ f64_key (send_bound (fs_time fs)).
Proof.
  intros Hwf Hb. split.
  - intros H fh fs Hfs Hr. etransitivity; [done|]. eapply lbts_lower; [done..|].
    apply send_bound_not_nan. by eapply Hwf.
  - intros H. destruct (lbts_attained fed) as [->|(fh & fs & Hfs & Hr & ->)]; [done|]. by eapply H.
Qed.

Lemma lbts_key_INFINITY fed : f64_key (lbts fed) ≤ f64_key f64_INFINITY.
Proof. apply f64_key_le_INFINITY, lbts_not_nan. Qed.

(** One federate after a round: the same, or granted its own request. *)
Definition advanced (fs fs' : FederateSession) : Prop :=
  fs' = fs ∨ ∃ t, pending_advance (fs_time fs) = Some t ∧ fs' = grant t fs.

Lemma grant_round_fs_advanced bound fs : advanced fs (grant_round_fs bound fs).
Proof.
  unfold grant_round_fs. destruct (grants_now bound fs) as [t|] eqn:Hg; [right|by left].
  exists t. split; [by eapply grants_now_pending|done].
Qed.

Lemma advanced_trans fs1 fs2 fs3 : advanced fs1 fs2 → advanced fs2 fs3 → advanced fs1 fs3.
Proof.
  intros [->|(t & Ht & ->)] [->|(t' & Ht' & ->)]; unfold advanced; eauto. done.
Qed.

Lemma advanced_wf fs fs' : advanced fs fs' → time_wf (fs_time fs) → time_wf (fs_time fs').
Proof.
  intros [->|(t & Ht & ->)] Hwf; [done|]. destruct (tw_pending _ Hwf t Ht) as [Hf _].
  destruct Hwf. by split.
Qed.

Lemma advanced_send_bound fs fs' :
  advanced fs fs' → time_wf (fs_time fs) →
  f64_key (send_bound (fs_time fs)) ≤ f64_key (send_bound (fs_time fs')).
Proof.
  intros [->|(t & Ht & ->)] Hwf; [done|]. destruct (tw_pending _ Hwf t Ht) as [Hf Hle].
  unfold send_bound. simpl. apply f64_add_mono; [apply Hwf|done|apply Hwf|done].
Qed.

Lemma advanced_flags fs fs' :
  advanced fs fs' →
  is_regulating (fs_time fs') = is_regulating (fs_time fs) ∧
  is_constrained (fs_time fs') = is_constrained (fs_time fs).
Proof. by intros [->|(t & _ & ->)]. Qed.

Lemma advanced_session fs fs' : advanced fs fs' → fs_session_id fs' = fs_session_id fs.
Proof. by intros [->|(t & _ & ->)]. Qed.

(** A whole federation after some grants: nothing but the federates differs,
    and each of them advanced. *)
Record fed_advanced (fed fed' : Federation) : Prop := {
  fa_rest : fed' = set_federates (λ _, federates fed') fed;
  fa_some fh fs : federates fed !! fh = Some fs →
    ∃ fs', federates fed' !! fh = Some fs' ∧ advanced fs fs';
  fa_none fh : federates fed !! fh = None → federates fed' !! fh = None
}.

Lemma fed_advanced_refl fed : fed_advanced fed fed.
Proof. split; [by destruct fed|intros fh fs Hfs; exists fs; split; [done|by left]|done]. Qed.

Lemma fed_advanced_inv fed fed' fh fs' :
  fed_advanced fed fed' → federates fed' !! fh = Some fs' →
  ∃ fs, federates fed !! fh = Some fs ∧ advanced fs fs'.
Proof.
  intros [_ Hs Hn] Hfs'. destruct (federates fed !! fh) as [fs|] eqn:Hfs.
  - destruct (Hs fh fs Hfs) as (fs'' & Hfs'' & Ha). simplify_eq. by exists fs.
  - rewrite (Hn fh Hfs) in Hfs'. done.
Qed.

Lemma fed_advanced_trans fed1 fed2 fed3 :
  fed_advanced fed1 fed2 → fed_advanced fed2 fed3 → fed_advanced fed1 fed3.
Proof.
  intros [Hr1 Hs1 Hn1] [Hr2 Hs2 Hn2]. split.
  - rewrite Hr2, Hr1. done.
  - intros fh fs Hfs. destruct (Hs1 _ _ Hfs) as (fs2 & Hfs2 & Ha2).
    destruct (Hs2 _ _ Hfs2) as (fs3 & Hfs3 & Ha3). exists fs3. split; [done|by eapply advanced_trans].
  - intros fh Hfs. by apply Hn2, Hn1.
Qed.

Lemma grant_round_advanced fed : fed_advanced fed (grant_round fed).
Proof.
  split.
  - by destruct fed.
  - intros fh fs Hfs. rewrite grant_round_lookup, Hfs. eexists. split; [done|].
    apply grant_round_fs_advanced.
  - intros fh Hfs. by rewrite grant_round_lookup, Hfs.
Qed.

Lemma rounds_advanced {P : Prost} node fed out fed' out' :
  rounds node fed out fed' out' → fed_advanced fed fed'.
Proof.
  induction 1; [apply fed_advanced_refl|apply grant_round_advanced|].
  by eapply fed_advanced_trans; [apply grant_round_advanced|].
Qed.

Lemma fed_advanced_wf fed fed' : fed_advanced fed fed' → fed_time_wf fed → fed_time_wf fed'.
Proof.
  intros Ha Hwf fh fs' Hfs'. destruct (fed_advanced_inv _ _ _ _ Ha Hfs') as (fs & Hfs & Had).
  eapply advanced_wf; [done|by eapply Hwf].
Qed.

(** Grants never lower LBTS. *)
Lemma fed_advanced_lbts fed fed' :
  fed_advanced fed fed' → fed_time_wf fed → f64_key (lbts fed) ≤ f64_key (lbts fed').
Proof.
  intros Ha Hwf. apply le_lbts; [by eapply fed_advanced_wf|apply lbts_key_INFINITY|].
  intros fh fs' Hfs' Hr. destruct (fed_advanced_inv _ _ _ _ Ha Hfs') as (fs & Hfs & Had).
  etransitivity; [|by apply (advanced_send_bound fs); [|eapply Hwf]].
  eapply lbts_lower; [done| |]; [destruct (advanced_flags _ _ Had); congruence|].
  apply send_bound_not_nan. by eapply Hwf.
Qed.

(** A federate granted in a round was within the bound of the round. *)
Lemma grants_now_bound bound fs t :
  grants_now bound fs = Some t → is_constrained (fs_time fs) = true →
  is_nan t = false ∧ f64_key t ≤ f64_key bound.
Proof.
  unfold grants_now, grantable. intros (t' & Hg & Heq)%bind_Some Hc.
  apply bind_Some in Hg as (p & Hp & Hg). rewrite Hc in Hg. simpl in Hg.
  destruct (f64_leb p bound) eqn:Hle; simplify_eq. destruct (f64_eqb t' t'); simplify_eq.
  apply f64_leb_key in Hle. tauto.
Qed.

Lemma grants_now_mono b b' fs t :
  is_nan b = false → is_nan b' = false → f64_key b ≤ f64_key b' →
  grants_now b fs = Some t → grants_now b' fs = Some t.
Proof.
  intros Hb Hb' Hle. unfold grants_now, grantable.
  destruct (pending_advance (fs_time fs)) as [p|]; simpl; [|done].
  destruct (negb (is_constrained (fs_time fs))); simpl; [done|].
  destruct (f64_leb p b) eqn:H1; simpl; [|done]. apply f64_leb_key in H1.
  assert (f64_leb p b' = true) as -> by (apply f64_leb_key; split_and!; [tauto|done|lia]). done.
Qed.

(** No pending advance is within reach. *)
Definition quiescent (fed : Federation) : Prop :=
  ∀ fh fs, federates fed !! fh = Some fs → grants_now (lbts fed) fs = None.

Lemma to_grant_nil_quiescent fed : to_grant (lbts fed) fed = [] → quiescent fed.
Proof.
  intros Hnil fh fs Hfs. unfold grants_now.
  destruct (grantable (lbts fed) fs) as [t|] eqn:Hg; [|done]. exfalso.
  assert (Hin : (fh, t) ∈ to_grant (lbts fed) fed).
  { unfold to_grant. apply list_elem_of_omap. exists (fh, fs). rewrite elem_of_map_to_list, Hg. done. }
  rewrite Hnil in Hin. by apply elem_of_nil in Hin.
Qed.

Lemma grant_round_quiescent fed :
  f64_gtb (lbts (grant_round fed)) (lbts fed) = false → quiescent (grant_round fed).
Proof.
  intros Hb fh fs' Hfs'. unfold f64_gtb in Hb.
  apply f64_ltb_false in Hb; [|apply lbts_not_nan..].
  rewrite grant_round_lookup in Hfs'. apply fmap_Some in Hfs' as (fs & Hfs & ->).
  destruct (grants_now (lbts (grant_round fed)) _) as [t|] eqn:Hg; [|done]. exfalso.
  apply (grants_now_mono _ (lbts fed)) in Hg; [|apply lbts_not_nan..|done].
  unfold grant_round_fs in Hg. destruct (grants_now (lbts fed) fs) as [t'|] eqn:Hg'; [|congruence].
  apply grants_now_pending in Hg. done.
Qed.

Lemma rounds_quiescent {P : Prost} node fed out fed' out' :
  rounds node fed out fed' out' → quiescent fed'.
Proof. induction 1; [by apply to_grant_nil_quiescent|by apply grant_round_quiescent|done]. Qed.

(** Constrained federates that moved are within the final LBTS. *)
Lemma rounds_within {P : Prost} node fed out fed' out' fh fs fs' :
  rounds node fed out fed' out' → fed_time_wf fed →
  federates fed !! fh = Some fs → federates fed' !! fh = Some fs' →
  is_constrained (fs_time fs) = true →
  fs' = fs ∨ f64_key (current_time (fs_time fs')) ≤ f64_key (lbts fed').
Proof.
  intros Hr. revert fs. induction Hr as [fed out|fed out Hb|fed out fed' out' Hb Hr IH];
    intros fs Hwf Hfs Hfs' Hc; [left; congruence| |].
  - rewrite grant_round_lookup, Hfs in Hfs'. simplify_eq/=. unfold grant_round_fs.
    destruct (grants_now (lbts fed) fs) as [t|] eqn:Hg; [right|by left]. simpl.
    destruct (grants_now_bound _ _ _ Hg Hc) as [_ Hle]. etransitivity; [done|].
    apply fed_advanced_lbts; [apply grant_round_advanced|done].
  - pose proof (fed_advanced_wf _ _ (grant_round_advanced fed) Hwf) as Hwf1.
    pose proof (grant_round_lookup fed fh) as Hl. rewrite Hfs in Hl. simpl in Hl.
    pose proof (grant_round_fs_advanced (lbts fed) fs) as Had.
    destruct (IH _ Hwf1 Hl Hfs') as [->|?]; [|unfold grant_round_fs|by right].
    { destruct (advanced_flags _ _ Had). congruence. }
    destruct (grants_now (lbts fed) fs) as [t|] eqn:Hg; [right|by left]. simpl.
    destruct (grants_now_bound _ _ _ Hg Hc) as [_ Hle]. etransitivity; [done|].
    etransitivity; [apply fed_advanced_lbts; [apply grant_round_advanced|done]|].
    by apply fed_advanced_lbts; [eapply rounds_advanced|].
Qed.

(** ** The callbacks of a run *)

Lemma emit_grants_app {P : Prost} node fed out l1 l2 :
  emit_grants node fed out (l1 ++ l2) = emit_grants node fed (emit_grants node fed out l1) l2.
Proof. apply foldl_app. Qed.

Lemma emit_grants_advanced {P : Prost} node fed fed' out l :
  fed_advanced fed fed' → emit_grants node fed' out l = emit_grants node fed out l.
Proof.
  intros Ha. unfold emit_grants. revert out. induction l as [|g l IH]; intros out; simpl; [done|].
  rewrite (live_connections_ext node fed' fed); [apply IH|].
  intros fh. destruct (federates fed !! fh) as [fs|] eqn:Hfs.
  - destruct (fa_some _ _ Ha _ _ Hfs) as (fs' & -> & Had). simpl. by rewrite (advanced_session _ _ Had).
  - by rewrite (fa_none _ _ Ha _ Hfs).
Qed.

Lemma elem_of_round_grants fed fh t :
  (fh, t) ∈ round_grants (lbts fed) fed ↔
    ∃ fs, federates fed !! fh = Some fs ∧ grants_now (lbts fed) fs = Some t.
Proof.
  unfold round_grants. rewrite list_elem_of_omap. split.
  - intros ([fh' fs] & Hin%elem_of_map_to_list & Hg). apply fmap_Some in Hg as (t' & Hg & [= -> ->]).
    by exists fs.
  - intros (fs & Hfs & Hg). exists (fh, fs). rewrite elem_of_map_to_list, Hg. done.
Qed.

Lemma round_grants_NoDup fed : NoDup (round_grants (lbts fed) fed).*1.
Proof.
  unfold round_grants. pose proof (NoDup_fst_map_to_list (federates fed)) as Hnd.
  induction (map_to_list (federates fed)) as [|[fh fs] l IH]; simpl in *; [constructor|].
  apply NoDup_cons in Hnd as [Hnin Hnd]. destruct (grants_now _ fs) as [t|]; simpl; [|by apply IH].
  apply NoDup_cons. split; [|by apply IH].
  intros ([fh' t'] & -> & Hin)%list_elem_of_fmap. apply Hnin.
  apply list_elem_of_omap in Hin as ([fh'' fs''] & Hin & Hg). apply fmap_Some in Hg as (? & _ & [= -> ->]).
  apply list_elem_of_fmap. by exists (fh'', fs'').
Qed.

(** [fh] was granted [t] between [fed] and [fed']. *)
Definition was_granted (fed fed' : Federation) (fh : FederateHandle) (t : f64) : Prop :=
  ∃ fs, federates fed !! fh = Some fs ∧ pending_advance (fs_time fs) = Some t ∧
    federates fed' !! fh = Some (grant t fs).

Lemma grant_not_pending t fs : pending_advance (fs_time (grant t fs)) = None.
Proof. done. Qed.

Lemma round_was_granted fed fh t :
  (fh, t) ∈ round_grants (lbts fed) fed ↔ was_granted fed (grant_round fed) fh t.
Proof.
  rewrite elem_of_round_grants. unfold was_granted. setoid_rewrite grant_round_lookup. split.
  - intros (fs & Hfs & Hg). exists fs. rewrite Hfs. simpl. unfold grant_round_fs. rewrite Hg.
    split_and!; [done| |done]. by eapply grants_now_pending.
  - intros (fs & Hfs & Hp & Hr). exists fs. split; [done|]. rewrite Hfs in Hr. simpl in Hr.
    unfold grant_round_fs in Hr. destruct (grants_now _ fs) as [t'|] eqn:Hg.
    + by rewrite (grants_now_pending _ _ _ Hg) in Hp.
    + injection Hr as Hr. apply (f_equal (λ f, pending_advance (fs_time f))) in Hr.
      rewrite grant_not_pending in Hr. congruence.
Qed.

Lemma was_granted_trans fed fed1 fed2 fh t :
  fed_advanced fed fed1 → fed_advanced fed1 fed2 →
  was_granted fed fed2 fh t ↔ was_granted fed fed1 fh t ∨ was_granted fed1 fed2 fh t.
Proof.
  intros Ha1 Ha2. split.
  - intros (fs & Hfs & Hp & Hg). destruct (fa_some _ _ Ha1 _ _ Hfs) as (fs1 & Hfs1 & [->|(t1 & Ht1 & ->)]).
    + right. by exists fs.
    + left. exists fs. simplify_eq. done.
  - intros [(fs & Hfs & Hp & Hg)|(fs1 & Hfs1 & Hp & Hg)].
    + exists fs. split_and!; [done..|]. destruct (fa_some _ _ Ha2 _ _ Hg) as (fs2 & Hfs2 & [->|(t1 & Ht1 & _)]); [done|].
      rewrite grant_not_pending in Ht1. done.
    + destruct (fed_advanced_inv _ _ _ _ Ha1 Hfs1) as (fs & Hfs & [->|(t1 & Ht1 & ->)]).
      * by exists fs.
      * rewrite grant_not_pending in Hp. done.
Qed.

Lemma rounds_callbacks {P : Prost} node fed out fed' out' :
  rounds node fed out fed' out' →
  ∃ granted, NoDup granted.*1 ∧ (∀ fh t, (fh, t) ∈ granted ↔ was_granted fed fed' fh t) ∧
    out' = emit_grants node fed out granted.
Proof.
  induction 1 as [fed out Hnil|fed out Hb|fed out fed' out' Hb Hr (granted & Hnd & Hin & ->)].
  - exists []. split_and!; [constructor| |done]. intros fh t. split; [by intros ?%elem_of_nil|].
    intros (fs & Hfs & Hp & Hg). rewrite Hfs in Hg. injection Hg as Hg.
    apply (f_equal (λ f, pending_advance (fs_time f))) in Hg. rewrite grant_not_pending in Hg. congruence.
  - exists (round_grants (lbts fed) fed). split_and!; [apply round_grants_NoDup|apply round_was_granted|].
    apply emit_grants_advanced, grant_round_advanced.
  - exists (round_grants (lbts fed) fed ++ granted). split_and!.
    + rewrite fmap_app. apply NoDup_app. split_and!; [apply round_grants_NoDup| |done].
      intros fh ([fh1 t1] & -> & H1)%list_elem_of_fmap ([fh2 t2] & Heq & H2)%list_elem_of_fmap.
      simpl in Heq. subst fh2. apply round_was_granted in H1 as (fs & _ & _ & Hg).
      apply Hin in H2 as (fs2 & Hfs2 & Hp2 & _). rewrite Hg in Hfs2. simplify_eq.
    + intros fh t. rewrite elem_of_app, round_was_granted, Hin. symmetry.
      apply was_granted_trans; [apply grant_round_advanced|by eapply rounds_advanced].
    + rewrite (emit_grants_advanced node fed (grant_round fed)) by apply grant_round_advanced.
      rewrite emit_grants_app. f_equal. unfold round_out.
      apply emit_grants_advanced, grant_round_advanced.
Qed.

(** ** Properties *)

(** C28: LBTS is the greatest lower bound of what regulating federates may
    still send.  It is a number, and a number [b] is at most LBTS exactly when
    it is at most [current_time + lookahead] of every regulating federate; in
    particular LBTS is infinite when nobody regulates. *)
Theorem lbts_greatest_lower_bound fed :
  fed_time_wf fed →
  is_nan (lbts fed) = false ∧
  ∀ b, is_nan b = false →
    f64_leb b (lbts fed) = true ↔
      ∀ fh fs, federates fed !! fh = Some fs → is_regulating (fs_time fs) = true →
        f64_leb b (f64_add (current_time (fs_time fs)) (lookahead (fs_time fs))) = true.
Proof.
  intros Hwf. split; [apply lbts_not_nan|]. intros b Hb. rewrite f64_leb_key.
  pose proof (le_lbts fed (f64_key b) Hwf (f64_key_le_INFINITY b Hb)) as Hle. split.
  - intros (_ & _ & H) fh fs Hfs Hr. apply f64_leb_key.
    split_and!; [done|apply send_bound_not_nan; by eapply Hwf|]. by eapply Hle.
  - intros H. split_and!; [done|apply lbts_not_nan|]. apply Hle. intros fh fs Hfs Hr.
    specialize (H fh fs Hfs Hr). apply f64_leb_key in H. tauto.
Qed.

(** C29: the recursion of [try_grant_pending_advances] terminates: whatever the
    federation, with one call per federate and one more it has returned, and
    more fuel changes nothing. *)
Theorem try_grant_terminates {P : Prost} node fed out extra :
  try_grant (S (size (federates fed)) + extra) node fed out =
    Some (try_grant_pending_advances node fed out).
Proof.
  assert (Hmono : ∀ f f' fed out r, (f ≤ f')%nat → try_grant f node fed out = Some r →
    try_grant f' node fed out = Some r).
  { induction f as [|f IH]; intros [|f'] fed0 out0 r Hle; simpl; try done; [lia|].
    destruct (to_grant (lbts fed0) fed0) as [|g l]; [done|].
    destruct (apply_grants fed0 (g :: l)) as [fed1 granted]. destruct (f64_gtb _ _); [|done].
    apply IH. lia. }
  pose proof (pendings_size fed) as Hsz.
  destruct (try_grant_returns node (S (size (federates fed))) fed out) as [r Hr]; [lia|].
  rewrite (Hmono (S (size (federates fed))) _ fed out r) by (done || lia). f_equal.
  unfold try_grant_pending_advances.
  by rewrite (Hmono (S (size (federates fed))) _ fed out r) by (done || lia).
Qed.

(** C2: granting is correct.  From a federation with well-formed times,
    [try_grant_pending_advances] leaves well-formed times and everything but
    the times untouched; a federate either stays as it was or gets exactly the
    advance it asked for; a constrained federate that moved is at a time no
    later than LBTS; LBTS itself never goes back; and nothing that could be
    granted is left pending. *)
Theorem try_grant_correct {P : Prost} node fed out :
  fed_time_wf fed →
  let fed' := (try_grant_pending_advances node fed out).1 in
  fed_time_wf fed' ∧ fed_advanced fed fed' ∧ quiescent fed' ∧
  f64_leb (lbts fed) (lbts fed') = true ∧
  ∀ fh fs fs', federates fed !! fh = Some fs → federates fed' !! fh = Some fs' →
    is_constrained (fs_time fs) = true → fs' ≠ fs →
    f64_leb (current_time (fs_time fs')) (lbts fed') = true.
Proof.
  intros Hwf fed'. pose proof (try_grant_pending_advances_rounds node fed out) as Hr.
  fold fed' in Hr. pose proof (rounds_advanced _ _ _ _ _ Hr) as Ha.
  pose proof (fed_advanced_wf _ _ Ha Hwf) as Hwf'.
  split_and!; [done|done|by eapply rounds_quiescent| |].
  - apply f64_leb_key. split_and!; [apply lbts_not_nan..|by apply fed_advanced_lbts].
  - intros fh fs fs' Hfs Hfs' Hc Hne.
    destruct (rounds_within _ _ _ _ _ _ _ _ Hr Hwf Hfs Hfs' Hc) as [?|Hle]; [done|].
    apply f64_leb_key. split_and!; [|apply lbts_not_nan|done].
    apply is_finite_not_nan. by eapply Hwf'.
Qed.

(** One [TimeAdvanceGrant] per granted federate.  The callbacks a run adds
    are, for a duplicate-free list of the federates that were granted and in
    its order, the [TimeAdvanceGrant] with the granted time to the live
    connection of each. *)
Theorem try_grant_callbacks {P : Prost} node fed out :
  let '(fed', out') := try_grant_pending_advances node fed out in
  ∃ granted, NoDup granted.*1 ∧ (∀ fh t, (fh, t) ∈ granted ↔ was_granted fed fed' fh t) ∧
    out' = emit_grants node fed out granted.
Proof.
  pose proof (try_grant_pending_advances_rounds node fed out) as Hr.
  destruct (try_grant_pending_advances node fed out) as [fed' out']. by eapply rounds_callbacks.
Qed.

(** *** Witnesses *)

(** Federate 1 regulates at time 0 with lookahead 1 and asks for time 1,
    federate 2 is constrained and asks for time 2.  Granting federate 1 raises
    LBTS from 1 to 2, which lets the second round grant federate 2. *)
Definition f64_ONE : f64 := F64 (1023 * 2 ^ 52).
Definition f64_TWO : f64 := F64 (1024 * 2 ^ 52).
Definition sample_session (h : Z) (t : TimeState) : FederateSession :=
  mkFederateSession (FederateHandle_new h) "f" "t" h PubSubState_default t Switches_default [].
Definition sample_federation : Federation :=
  set_federates (λ _,
    <[FederateHandle_new 1 := sample_session 1 (mkTimeState true false f64_ZERO f64_ONE (Some f64_ONE))]>
    (<[FederateHandle_new 2 := sample_session 2 (mkTimeState false true f64_ZERO f64_ZERO (Some f64_TWO))]> ∅))
  (Federation_new "f" MergedFom_new).

Definition sample_prost : Prost := {| encode_callback := λ _, [] |}.

Lemma sample_federation_wf : fed_time_wf sample_federation.
Proof.
  intros fh fs. unfold sample_federation. simpl. rewrite lookup_insert_Some.
  intros [[<- <-]|[_ Hl]]; [|rewrite lookup_insert_Some in Hl; destruct Hl as [[<- <-]|[_ Hl]]];
    [split; (reflexivity || (intros p [= <-]; split; [reflexivity|apply Z.leb_le; reflexivity]) ||
       (apply Z.leb_le; reflexivity))..|by rewrite lookup_empty in Hl].
Defined.

Lemma lbts_witness :
  lbts sample_federation = f64_ONE ∧ is_nan (lbts sample_federation) = false.
Proof.
  split; [vm_compute; reflexivity|].
  exact (proj1 (lbts_greatest_lower_bound sample_federation sample_federation_wf)).
Defined.

Lemma try_grant_correct_witness :
  let fed' := (try_grant_pending_advances (P := sample_prost) RtiNode_new sample_federation []).1 in
  (λ fs, current_time (fs_time fs)) <$> federates fed' !! FederateHandle_new 2 = Some f64_TWO ∧
  quiescent fed'.
Proof.
  split; [vm_compute; reflexivity|].
  apply (try_grant_correct (P := sample_prost) RtiNode_new sample_federation [] sample_federation_wf).
Defined.
