(* ===== verification/Handler.v ===== *)
(** * The frame of a service handler

    Every handler of [hla-rti/src/dispatch/*.rs] has access to the node, the
    session context of the caller, the list of callbacks to send and the files
    on disk (path and text).  [Handler] is the monad over these four; [exception_variant] is from
    [dispatch/helpers.rs].  [Respects] states that a handler relates its
    states by a preorder; it is closed under the monad's operations, so that
    a frame property of a handler follows from that of its primitive steps. *)

From Stdlib Require Import RelationClasses.
From S2P Require Import Prelude Float64 CoreTypes Fom Exception Proto State Handles Routing.

Record DispatchState := mkDispatchState {
  ds_node : RtiNode;
  ds_ctx : SessionContext;
  ds_callbacks : list OutboundCallback;
  ds_disk : gmap string string
}.
Definition set_ds_node (g : RtiNode → RtiNode) (s : DispatchState) : DispatchState :=
  mkDispatchState (g (ds_node s)) (ds_ctx s) (ds_callbacks s) (ds_disk s).
Definition set_ds_ctx (g : SessionContext → SessionContext) (s : DispatchState) : DispatchState :=
  mkDispatchState (ds_node s) (g (ds_ctx s)) (ds_callbacks s) (ds_disk s).
Definition set_ds_callbacks (g : list OutboundCallback → list OutboundCallback) (s : DispatchState)
    : DispatchState := mkDispatchState (ds_node s) (ds_ctx s) (g (ds_callbacks s)) (ds_disk s).
Definition set_ds_disk (g : gmap string string → gmap string string) (s : DispatchState)
    : DispatchState := mkDispatchState (ds_node s) (ds_ctx s) (ds_callbacks s) (g (ds_disk s)).

Definition Handler (A : Type) : Type := M DispatchState Resp A.

#[global] Coercion D_str : string >-> Details.

Definition exception_variant (kind : HlaException) (details : Details) : Resp :=
  ExceptionData (HlaException_name kind) details.

(** [match ctx.membership.as_ref() { Some(m) => m, None => return ... }] *)
Definition get_membership : Handler Membership :=
  o ← gets (λ s, membership (ds_ctx s));
  some_or_return o (exception_variant FederateNotExecutionMember "").

(** The federation behind [m.federation], and its mutation. *)
Definition federation_of (m : Membership) (s : DispatchState) : Federation :=
  fed_at (ds_node s) (m_federation m).
Definition get_federation (m : Membership) : Handler Federation := gets (federation_of m).
Definition modify_federation (m : Membership) (g : Federation → Federation) : Handler unit :=
  modify (set_ds_node (fed_update (m_federation m) g)).

(** [m.federation.federates.read().get(&m.federate_handle)], and the update
    of what it finds. *)
Definition get_federate (m : Membership) : Handler FederateSession :=
  fed ← get_federation m;
  some_or_return (federates fed !! m_federate_handle m)
    (exception_variant FederateNotExecutionMember "").
Definition modify_federate (m : Membership) (g : FederateSession → FederateSession) : Handler unit :=
  modify_federation m (update_federate (m_federate_handle m) g).

(** A function of the crate that takes [&node], [&federation] and
    [&mut callbacks]. *)
Definition FedEffect : Type :=
  RtiNode → Federation → list OutboundCallback → Federation * list OutboundCallback.
Definition on_federation (m : Membership) (e : FedEffect) : Handler unit :=
  modify (λ s,
    let '(fed', out') := e (ds_node s) (federation_of m s) (ds_callbacks s) in
    mkDispatchState (fed_update (m_federation m) (λ _, fed') (ds_node s)) (ds_ctx s) out' (ds_disk s)).

(** [fan_out(callbacks, &live_connections(node, &m.federation, &targets), callback)] *)
Definition notify {P : Prost} (m : Membership) (targets : gset FederateHandle)
    (callback : CallbackRequest) : Handler unit :=
  modify (λ s, set_ds_callbacks (λ out,
    fan_out out (live_connections (ds_node s) (federation_of m s) targets) callback) s).

(** [x.and_then(|h| decode(&h).ok())], or return. *)
Definition decode_or_return {H} (dec : ProtoHandle → result HandleError H)
    (p : option ProtoHandle) (e : Resp) : Handler H :=
  some_or_return (h ← p; ok (dec h)) e.

(** ** Preorders that handlers respect *)

Class Respects {S R A : Type} (Q : relation S) (m : M S R A) : Prop :=
  respects : ∀ s, Q s (m s).1.

Section respects.
Context {S R : Type} (Q : relation S) `{!PreOrder Q}.

#[export] Instance ret_respects {A} (a : A) : Respects Q (mret a : M S R A).
Proof. intros s. reflexivity. Qed.
#[export] Instance ret_early_respects {A} (r : R) : Respects Q (ret_early r : M S R A).
Proof. intros s. reflexivity. Qed.
#[export] Instance gets_respects {A} (f : S → A) : Respects Q (gets f : M S R A).
Proof. intros s. reflexivity. Qed.
#[export] Instance some_or_return_respects {A} (o : option A) (r : R) :
  Respects Q (some_or_return o r : M S R A).
Proof. intros s. destruct o; reflexivity. Qed.
#[export] Instance ok_or_return_respects {E A} (o : result E A) (f : E → R) :
  Respects Q (ok_or_return o f : M S R A).
Proof. intros s. destruct o; reflexivity. Qed.
#[export] Instance return_if_respects b (r : R) : Respects Q (return_if b r : M S R unit).
Proof. intros s. destruct b; reflexivity. Qed.
#[export] Instance bind_respects {A B} (m : M S R A) (f : A → M S R B) :
  Respects Q m → (∀ a, Respects Q (f a)) → Respects Q (m ≫= f).
Proof.
  intros Hm Hf s. unfold mbind, M_bind. specialize (Hm s).
  destruct (m s) as [s' [r|a]]; simpl in *; [done|]. etransitivity; [done|]. apply Hf.
Qed.
#[export] Instance if_respects {A} (b : bool) (m1 m2 : M S R A) :
  Respects Q m1 → Respects Q m2 → Respects Q (if b then m1 else m2).
Proof. by destruct b. Qed.

Lemma run_respects (m : M S R R) s : Respects Q m → Q s (run m s).1.
Proof. intros Hm. specialize (Hm s). unfold run. by destruct (m s) as [s' [r|r]]. Qed.
End respects.

(** A step of one session leaves alone: its own session context, the
    connections and the other sessions' state of the node, every federation
    but the caller's, and the callbacks queued before it. *)
Record touches_only (r : FedRef) (s s' : DispatchState) : Prop := {
  to_node : ds_node s' = set_fed_heap (λ _, fed_heap (ds_node s')) (ds_node s);
  to_ctx : ds_ctx s' = ds_ctx s;
  to_others r' : r' ≠ r → fed_heap (ds_node s') !! r' = fed_heap (ds_node s) !! r';
  to_dom : dom (fed_heap (ds_node s')) = dom (fed_heap (ds_node s));
  to_callbacks : ds_callbacks s `prefix_of` ds_callbacks s'
}.

#[export] Instance touches_only_preorder r : PreOrder (touches_only r).
Proof.
  split.
  - intros s. split; [|done..]. by destruct s as [[]].
  - intros s1 s2 s3 [Hn1 Hc1 Ho1 Hd1 Hp1] [Hn2 Hc2 Ho2 Hd2 Hp2]. split.
    + etransitivity; [exact Hn2|]. unfold set_fed_heap at 1. by rewrite Hn1.
    + congruence.
    + intros r' Hr'. rewrite Ho2, Ho1; done.
    + congruence.
    + by etransitivity.
Qed.

Lemma fed_update_touches m g s :
  touches_only (m_federation m) s (set_ds_node (fed_update (m_federation m) g) s).
Proof.
  split; simpl; [done|done| | |done].
  - intros r' Hr'. by rewrite lookup_alter_ne.
  - apply dom_alter_L.
Qed.

#[export] Instance modify_federation_touches m g :
  Respects (touches_only (m_federation m)) (modify_federation m g).
Proof. intros s. apply fed_update_touches. Qed.
#[export] Instance modify_federate_touches m g :
  Respects (touches_only (m_federation m)) (modify_federate m g).
Proof. intros s. apply fed_update_touches. Qed.
#[export] Instance notify_touches {P : Prost} m ts cb :
  Respects (touches_only (m_federation m)) (notify m ts cb).
Proof.
  intros s. split; simpl; [by destruct s as [[]]|done..|].
  rewrite fan_out_app. by apply prefix_app_r.
Qed.

(** An effect that only adds callbacks. *)
Class AddsCallbacks (e : FedEffect) : Prop :=
  adds_callbacks node fed out : out `prefix_of` (e node fed out).2.

#[export] Instance on_federation_touches m e `{!AddsCallbacks e} :
  Respects (touches_only (m_federation m)) (on_federation m e).
Proof.
  intros s. unfold on_federation, modify. simpl.
  pose proof (adds_callbacks (e := e) (ds_node s) (federation_of m s) (ds_callbacks s)).
  destruct (e _ _ _) as [fed' out']. split; simpl; [done|done| | |done].
  - intros r' Hr'. by rewrite lookup_alter_ne.
  - apply dom_alter_L.
Qed.

(** ** Weakest preconditions

    [wp m Qr Q s]: from [s], the body [m] either continues with a value and
    state in [Q], or returns early with a response and state in [Qr]. *)
Definition wp {S R A} (m : M S R A) (Qr : R → S → Prop) (Q : A → S → Prop) (s : S) : Prop :=
  match m s with (s', inl r) => Qr r s' | (s', inr a) => Q a s' end.

Section wp.
Context {S R : Type} (Qr : R → S → Prop).

Lemma wp_bind {A B} (m : M S R A) (f : A → M S R B) Q s :
  wp m Qr (λ a s', wp (f a) Qr Q s') s → wp (m ≫= f) Qr Q s.
Proof. unfold wp, mbind, M_bind. by destruct (m s) as [s' [r|a]]. Qed.
Lemma wp_ret {A} (a : A) Q s : Q a s → wp (mret a) Qr Q s.
Proof. done. Qed.
Lemma wp_early {A} (r : R) (Q : A → S → Prop) s : Qr r s → wp (ret_early r) Qr Q s.
Proof. done. Qed.
Lemma wp_gets {A} (f : S → A) Q s : Q (f s) s → wp (gets f) Qr Q s.
Proof. done. Qed.
Lemma wp_modify (f : S → S) Q s : Q tt (f s) → wp (modify f) Qr Q s.
Proof. done. Qed.
Lemma wp_some {A} (o : option A) r Q s :
  (o = None → Qr r s) → (∀ a, o = Some a → Q a s) → wp (some_or_return o r) Qr Q s.
Proof. destruct o; unfold wp, some_or_return; simpl; auto. Qed.
Lemma wp_ok {E A} (x : result E A) g Q s :
  (∀ e, x = Err e → Qr (g e) s) → (∀ a, x = Ok a → Q a s) → wp (ok_or_return x g) Qr Q s.
Proof. destruct x; unfold wp, ok_or_return; simpl; auto. Qed.
Lemma wp_return_if b r Q s :
  (b = true → Qr r s) → (b = false → Q tt s) → wp (return_if b r) Qr Q s.
Proof. destruct b; unfold wp, return_if; simpl; auto. Qed.

(** The same with the outcome known. *)
Lemma wp_some_eq {A} (o : option A) a r Q s : o = Some a → Q a s → wp (some_or_return o r) Qr Q s.
Proof. by intros ->. Qed.
Lemma wp_ok_eq {E A} (x : result E A) a g Q s : x = Ok a → Q a s → wp (ok_or_return x g) Qr Q s.
Proof. by intros ->. Qed.
Lemma wp_continue b r Q s : b = false → Q tt s → wp (return_if b r) Qr Q s.
Proof. by intros ->. Qed.

Lemma wp_mono {A} (m : M S R A) Q (Qr' : R → S → Prop) (Q' : A → S → Prop) s :
  wp m Qr Q s → (∀ r s', Qr r s' → Qr' r s') → (∀ a s', Q a s' → Q' a s') → wp m Qr' Q' s.
Proof. unfold wp. destruct (m s) as [s' [r|a]]; auto. Qed.

(** A whole handler. *)
Lemma run_wp_let (m : M S R R) (Φ : R → S → Prop) s :
  wp m Φ Φ s → let '(s', r) := run m s in Φ r s'.
Proof. unfold wp, run. by destruct (m s) as [s' [r|r]]. Qed.
Lemma run_wp (m : M S R R) (Φ : R → S → Prop) s : wp m Φ Φ s → Φ (run m s).2 (run m s).1.
Proof. unfold wp, run. by destruct (m s) as [s' [r|r]]. Qed.
End wp.

(** Run through the statements of a handler up to the next branch. *)
Ltac wp_step :=
  lazymatch goal with
  | |- wp (_ ≫= _) _ _ _ => apply wp_bind
  | |- wp (mbind _ _) _ _ _ => apply wp_bind
  | |- wp (mret _) _ _ _ => apply wp_ret
  | |- wp (ret_early _) _ _ _ => apply wp_early
  | |- wp (gets _) _ _ _ => apply wp_gets
  | |- wp (some_or_return _ _) _ _ _ => apply wp_some; [intros ?|intros ? ?]
  | |- wp (ok_or_return _ _) _ _ _ => apply wp_ok; [intros ? ?|intros ? ?]
  | |- wp (return_if _ _) _ _ _ => apply wp_return_if; [intros ?|intros ?]
  | |- wp get_membership _ _ _ => unfold get_membership
  | |- wp (get_federation _) _ _ _ => unfold get_federation
  | |- wp (get_federate _) _ _ _ => unfold get_federate
  | |- wp (decode_or_return _ _ _) _ _ _ => unfold decode_or_return
  | |- wp (if ?b then _ else _) _ _ _ => destruct b eqn:?
  | |- wp (match ?x with _ => _ end) _ _ _ => destruct x eqn:?
  end; cbn beta.
Ltac wp_run := repeat wp_step.

(** Run through the statements whose outcome the hypotheses determine. *)
Ltac known :=
  cbn [mbind option_bind]; repeat match goal with H : _ = Ok _ |- _ => progress rewrite H end;
  first [eassumption | reflexivity].
Ltac wp_det :=
  repeat (lazymatch goal with
  | |- wp (some_or_return _ _) _ _ _ => eapply wp_some_eq; [known|]
  | |- wp (ok_or_return _ _) _ _ _ => eapply wp_ok_eq; [known|]
  | |- wp (return_if _ _) _ _ _ =>
      apply wp_continue; [first [assumption | apply bool_decide_eq_false_2; assumption]|]
  | |- wp (if _ then _ else _) _ _ _ => fail
  | |- wp (match _ with _ => _ end) _ _ _ => fail
  | |- _ => wp_step
  end; cbn beta).

(** A federate found through a membership is in the heap. *)
Lemma federation_of_lookup m s fh fs :
  federates (federation_of m s) !! fh = Some fs →
  ∃ fed, fed_heap (ds_node s) !! m_federation m = Some fed ∧ federates fed !! fh = Some fs.
Proof.
  unfold federation_of, fed_at, lookup_total, map_lookup_total.
  destruct (fed_heap (ds_node s) !! m_federation m) as [fed|]; simpl; [eauto|].
  by rewrite lookup_empty.
Qed.

Lemma federation_of_heap m s fed :
  fed_heap (ds_node s) !! m_federation m = Some fed → federation_of m s = fed.
Proof. intros H. unfold federation_of, fed_at, lookup_total, map_lookup_total. by rewrite H. Qed.

(** ** Invariants of federations

    [all_feds I s]: every federation in memory satisfies [I]. *)
Definition all_feds (I : Federation → Prop) (s : DispatchState) : Prop :=
  map_Forall (λ _ fed, I fed) (fed_heap (ds_node s)).

Section invariants.
Context (I : Federation → Prop) {Qr : Resp → DispatchState → Prop}.

Lemma all_feds_update r g s :
  (∀ fed, fed_heap (ds_node s) !! r = Some fed → I fed → I (g fed)) →
  all_feds I s → all_feds I (set_ds_node (fed_update r g) s).
Proof.
  intros Hg HI r' fed'. simpl. rewrite lookup_alter_Some.
  intros [(-> & fed & Hfed & ->)|[_ Hfed]]; [|by eapply HI]. apply Hg; [done|by eapply HI].
Qed.

Lemma all_feds_effect m e s :
  (∀ fed, I fed → I (e (ds_node s) fed (ds_callbacks s)).1) → all_feds I s →
  wp (on_federation m e) Qr (λ _ s', all_feds I s' ∧ ds_ctx s' = ds_ctx s) s.
Proof.
  intros He HI. unfold on_federation. apply wp_modify.
  destruct (e _ _ _) as [fed' out'] eqn:Heq. split; [|done].
  intros r' fed''. simpl. rewrite lookup_alter_Some.
  intros [(<- & fed & Hfed & ->)|[_ Hfed]]; [|by eapply HI].
  pose proof (federation_of_heap m s fed Hfed) as Hf. rewrite Hf in Heq.
  pose proof (He fed ltac:(by eapply HI)) as H'. by rewrite Heq in H'.
Qed.
End invariants.

(** ** Following one federation through a handler

    [at_fed m s fed]: [fed] is the federation of membership [m] in state [s]. *)
Definition at_fed (m : Membership) (s : DispatchState) (fed : Federation) : Prop :=
  fed_heap (ds_node s) !! m_federation m = Some fed.

(** What a step that only updates a federation leaves: the callbacks are now
    [cbs], the connections and the session are the same. *)
Record io (s s' : DispatchState) (cbs : list OutboundCallback) : Prop := {
  io_callbacks : ds_callbacks s' = cbs;
  io_connections : connections (ds_node s') = connections (ds_node s);
  io_ctx : ds_ctx s' = ds_ctx s;
  io_disk : ds_disk s' = ds_disk s;
  io_save_dir : save_dir (ds_node s') = save_dir (ds_node s)
}.

Lemma io_trans s s1 s2 cbs1 cbs2 : io s s1 cbs1 → io s1 s2 cbs2 → io s s2 cbs2.
Proof. intros [] []. split; congruence. Qed.

Section at_fed.
Context {P : Prost} {Qr : Resp → DispatchState → Prop} (Q : unit → DispatchState → Prop).

Lemma wp_at_modify_federation m g s fed :
  at_fed m s fed →
  (∀ s', at_fed m s' (g fed) → io s s' (ds_callbacks s) → Q tt s') →
  wp (modify_federation m g) Qr Q s.
Proof.
  intros H HQ. apply wp_modify, HQ; [|done]. unfold at_fed in *. simpl. by rewrite lookup_alter_eq, H.
Qed.
Lemma wp_at_modify_federate m g s fed :
  at_fed m s fed →
  (∀ s', at_fed m s' (update_federate (m_federate_handle m) g fed) → io s s' (ds_callbacks s) → Q tt s') →
  wp (modify_federate m g) Qr Q s.
Proof. apply wp_at_modify_federation. Qed.
Lemma wp_at_notify m ts cb s fed :
  at_fed m s fed →
  (∀ s', at_fed m s' fed →
    io s s' (fan_out (ds_callbacks s) (live_connections (ds_node s) fed ts) cb) → Q tt s') →
  wp (notify m ts cb) Qr Q s.
Proof.
  intros H HQ. apply wp_modify, HQ; [exact H|]. split; [|done..]. simpl.
  by rewrite (federation_of_heap m s fed H).
Qed.
Lemma wp_at_effect m e s fed :
  at_fed m s fed →
  (∀ s', at_fed m s' (e (ds_node s) fed (ds_callbacks s)).1 →
    io s s' (e (ds_node s) fed (ds_callbacks s)).2 → Q tt s') → wp (on_federation m e) Qr Q s.
Proof.
  intros H HQ. unfold on_federation. apply wp_modify. rewrite (federation_of_heap m s fed H).
  destruct (e _ _ _) as [fed' out'] eqn:He. apply HQ; [|done]. unfold at_fed in *. simpl.
  by rewrite lookup_alter_eq, H.
Qed.
End at_fed.

Lemma lookup_update_federate fh g fed fs :
  federates fed !! fh = Some fs → federates (update_federate fh g fed) !! fh = Some (g fs).
Proof. intros H. simpl. by rewrite lookup_alter_eq, H. Qed.
