(* ===== verification/Tso.v ===== *)
(** * Time-stamp-ordered delivery

    The queues of [dispatch/data_flow.rs]: [route_tso_or_immediate] holds a
    message back from a constrained federate that has not reached its time
    stamp, [drain_tso_up_to] releases what a grant covers. *)

From Stdlib Require Import Sorted.
From S2P Require Import Prelude Float64 CoreTypes Proto State Routing Handler.

(** [slice::partition_point]: the number of leading elements that satisfy [p]
    (all that do, when the slice is partitioned by [p]). *)
Fixpoint partition_point {A} (p : A → bool) (l : list A) : nat :=
  match l with
  | [] => 0
  | x :: l => if p x then S (partition_point p l) else 0
  end.

(** [Vec::insert] at a position within the vector. *)
Definition vec_insert {A} (pos : nat) (x : A) (l : list A) : list A := take pos l ++ x :: drop pos l.

Definition tso_insert (time : f64) (callback : CallbackRequest) (q : list TsoMessage)
    : list TsoMessage :=
  let pos := partition_point (λ m, f64_leb (tso_time m) time) q in
  vec_insert pos (mkTsoMessage time callback) q.

(** The message has to wait for federate [fs]. *)
Definition must_queue (time : f64) (fs : FederateSession) : bool :=
  is_constrained (fs_time fs) && f64_gtb time (current_time (fs_time fs)).

Section with_prost.
Context {P : Prost}.

Definition route_tso_or_immediate (subscribers : gset FederateHandle) (time : f64)
    (callback : CallbackRequest) : FedEffect := λ node fed out,
  let immediate := filter (λ fh, must_queue time <$> federates fed !! fh = Some false) subscribers in
  let queued := filter (λ fh, must_queue time <$> federates fed !! fh = Some true) (elements subscribers) in
  let out' := if decide (immediate = ∅) then out
              else fan_out out (live_connections node fed immediate) callback in
  (foldl (λ fed fh, update_federate fh (set_tso_queue (tso_insert time callback)) fed) fed queued, out').

Definition drain_tso_up_to (federate : FederateHandle) (up_to : f64) : FedEffect := λ node fed out,
  match federates fed !! federate with
  | None => (fed, out)
  | Some fs =>
      let cut := partition_point (λ m, f64_leb (tso_time m) up_to) (tso_queue fs) in
      let drained := take cut (tso_queue fs) in
      let fed' := update_federate federate (set_tso_queue (drop cut)) fed in
      match drained with
      | [] => (fed', out)
      | _ =>
          let conns := live_connections node fed' {[federate]} in
          (fed', foldl (λ out msg, fan_out out conns (tso_callback msg)) out drained)
      end
  end.
End with_prost.

(** ** Sorted queues *)

Definition tso_le (m1 m2 : TsoMessage) : Prop := f64_key (tso_time m1) ≤ f64_key (tso_time m2).

Record queue_wf (q : list TsoMessage) : Prop := {
  qw_numbers m : m ∈ q → is_nan (tso_time m) = false;
  qw_sorted : StronglySorted tso_le q
}.

Definition fed_queues_wf (fed : Federation) : Prop :=
  ∀ fh fs, federates fed !! fh = Some fs → queue_wf (tso_queue fs).

Lemma filter_none {A} (p : A → Prop) `{!∀ x, Decision (p x)} l :
  Forall (λ x, ¬ p x) l → filter p l = [].
Proof. induction 1; [done|]. rewrite filter_cons, decide_False by done. done. Qed.
Lemma filter_all {A} (p : A → Prop) `{!∀ x, Decision (p x)} l : Forall p l → filter p l = l.
Proof. induction 1 as [|x l Hx _ IH]; [done|]. rewrite filter_cons, decide_True by done. by rewrite IH. Qed.

(** On a sorted queue the cut by time is the partition of the queue. *)
Lemma partition_point_filter q t :
  queue_wf q → is_nan t = false →
  take (partition_point (λ m, f64_leb (tso_time m) t) q) q =
    filter (λ m, f64_key (tso_time m) ≤ f64_key t) q ∧
  drop (partition_point (λ m, f64_leb (tso_time m) t) q) q =
    filter (λ m, f64_key t < f64_key (tso_time m)) q.
Proof.
  intros [Hn Hs] Ht. induction Hs as [|m q Hs IH Hall]; simpl; [done|].
  destruct IH as [IH1 IH2]; [intros; apply Hn; set_solver|].
  assert (Hm : is_nan (tso_time m) = false) by (apply Hn; set_solver).
  destruct (f64_leb (tso_time m) t) eqn:Hle.
  - apply f64_leb_key in Hle as (_ & _ & Hle). rewrite !filter_cons.
    rewrite decide_True by done. rewrite decide_False by lia. simpl. by rewrite IH1, IH2.
  - apply f64_leb_false in Hle; [|done..]. simpl.
    assert (Hlt : Forall (λ m', f64_key t < f64_key (tso_time m')) (m :: q)).
    { constructor; [done|]. eapply Forall_impl; [done|]. unfold tso_le. intros; simpl in *. lia. }
    split; symmetry.
    + apply filter_none. eapply Forall_impl; [done|]. simpl. intros; lia.
    + by apply filter_all.
Qed.

(** Insertion keeps the queue sorted and puts a message behind those of the
    same time. *)
Lemma tso_insert_filter q t cb :
  queue_wf q → is_nan t = false →
  tso_insert t cb q = filter (λ m, f64_key (tso_time m) ≤ f64_key t) q ++
    mkTsoMessage t cb :: filter (λ m, f64_key t < f64_key (tso_time m)) q.
Proof.
  intros Hq Ht. unfold tso_insert, vec_insert.
  destruct (partition_point_filter q t Hq Ht) as [-> ->]. done.
Qed.

Lemma StronglySorted_app_cons (l1 l2 : list TsoMessage) x :
  StronglySorted tso_le l1 → StronglySorted tso_le l2 →
  Forall (λ y, tso_le y x) l1 → Forall (tso_le x) l2 → StronglySorted tso_le (l1 ++ x :: l2).
Proof.
  intros H1 H2 Hx1 Hx2. induction H1 as [|y l1 H1 IH Hy]; simpl; [by constructor|].
  inversion Hx1; subst. constructor; [by apply IH|].
  apply Forall_app. split; [done|]. constructor; [done|].
  eapply Forall_impl; [exact Hx2|]. unfold tso_le in *. intros z Hz. lia.
Qed.

Lemma StronglySorted_filter (p : TsoMessage → Prop) `{!∀ m, Decision (p m)} l :
  StronglySorted tso_le l → StronglySorted tso_le (filter p l).
Proof.
  induction 1 as [|x l Hs IH Hx]; [constructor|]. rewrite filter_cons. case_decide; [|done].
  constructor; [done|]. apply Forall_forall. intros y [_ Hy]%list_elem_of_filter.
  rewrite Forall_forall in Hx. by apply Hx.
Qed.

Lemma tso_insert_wf q t cb : queue_wf q → is_nan t = false → queue_wf (tso_insert t cb q).
Proof.
  intros Hq Ht. rewrite tso_insert_filter by done. destruct Hq as [Hn Hs]. split.
  - intros m [[_ ?]%list_elem_of_filter|[->|[_ ?]%list_elem_of_filter]%elem_of_cons]%elem_of_app; auto.
  - apply StronglySorted_app_cons; [by apply StronglySorted_filter..| |]; apply Forall_forall;
      intros y [Hy _]%list_elem_of_filter; unfold tso_le; simpl; lia.
Qed.

Lemma drop_wf q n : queue_wf q → queue_wf (drop n q).
Proof.
  intros [Hn Hs]. split.
  - intros m Hm. apply Hn. rewrite <- (take_drop n q). set_solver.
  - clear Hn. revert n. induction Hs as [|x l Hs IH Hx]; intros [|n]; simpl; try constructor; auto.
Qed.

(** A message is queued at most once: the update of the queued federates. *)
Lemma foldl_update_federate g l fed :
  NoDup l →
  foldl (λ fed fh, update_federate fh g fed) fed l =
    set_federates (λ m, map_imap (λ fh fs, Some (if decide (fh ∈ l) then g fs else fs)) m) fed.
Proof.
  revert fed. induction l as [|fh l IH]; intros fed Hnd; simpl.
  - destruct fed. unfold set_federates. simpl. f_equal. symmetry. apply map_eq. intros k.
    rewrite map_lookup_imap. by destruct (_ !! k).
  - inversion Hnd; subst. rewrite IH by done. destruct fed. unfold update_federate, set_federates. simpl.
    f_equal. apply map_eq. intros k. rewrite !map_lookup_imap.
    destruct (decide (k = fh)) as [->|Hne].
    + rewrite lookup_alter_eq. destruct (_ !! fh); simpl; [|done].
      rewrite decide_False by done. by rewrite decide_True by set_solver.
    + rewrite lookup_alter_ne by done. destruct (_ !! k); simpl; [|done]. f_equal.
      destruct (decide (k ∈ l)); [by rewrite decide_True by set_solver|by rewrite decide_False by set_solver].
Qed.

(** ** What the two operations do to a federation *)

Section effects.
Context {P : Prost}.

(** The federate [fs] after message ([time], [cb]) was routed. *)
Definition routed_fs (subscribers : gset FederateHandle) (time : f64) (cb : CallbackRequest)
    (fh : FederateHandle) (fs : FederateSession) : FederateSession :=
  if decide (fh ∈ subscribers ∧ must_queue time fs = true)
  then set_tso_queue (tso_insert time cb) fs else fs.

Lemma route_lookup subs time cb node fed out fh :
  federates (route_tso_or_immediate subs time cb node fed out).1 !! fh =
    routed_fs subs time cb fh <$> federates fed !! fh.
Proof.
  unfold route_tso_or_immediate. cbn [fst].
  rewrite foldl_update_federate by (apply NoDup_filter, NoDup_elements). simpl.
  rewrite map_lookup_imap. destruct (federates fed !! fh) as [fs|] eqn:Hfs; simpl; [|done].
  f_equal. unfold routed_fs. apply decide_ext.
  rewrite list_elem_of_filter, elem_of_elements, Hfs. simpl.
  split; intros []; split; congruence.
Qed.

Lemma route_rest subs time cb node fed out :
  let fed' := (route_tso_or_immediate subs time cb node fed out).1 in
  fed' = set_federates (λ _, federates fed') fed.
Proof.
  unfold route_tso_or_immediate. cbn [fst].
  by rewrite foldl_update_federate by (apply NoDup_filter, NoDup_elements).
Qed.

Lemma must_queue_not_nan time fs : must_queue time fs = true → is_nan time = false.
Proof.
  unfold must_queue. intros [_ Hgt]%andb_true_iff. unfold f64_gtb in Hgt. apply f64_ltb_key in Hgt. tauto.
Qed.

Lemma route_queues_wf subs time cb node fed out :
  fed_queues_wf fed → fed_queues_wf (route_tso_or_immediate subs time cb node fed out).1.
Proof.
  intros Hwf fh fs' Hfs'. rewrite route_lookup in Hfs'. apply fmap_Some in Hfs' as (fs & Hfs & ->).
  unfold routed_fs. case_decide as Hd; [|by eapply Hwf]. simpl.
  apply tso_insert_wf; [by eapply Hwf|]. by eapply must_queue_not_nan; destruct Hd.
Qed.

#[export] Instance route_adds subs time cb : AddsCallbacks (route_tso_or_immediate subs time cb).
Proof.
  intros node fed out. unfold route_tso_or_immediate. cbn [snd]. case_decide; [done|].
  rewrite fan_out_app. by apply prefix_app_r.
Qed.

(** The callbacks that carry messages [l] to connections [conns], in order. *)
Definition deliver (conns : list ConnRef) (l : list TsoMessage) : list OutboundCallback :=
  l ≫= λ msg, (λ c, mkOutboundCallback c (encode_callback (tso_callback msg))) <$> conns.

Lemma drain_foldl conns l out :
  foldl (λ out msg, fan_out out conns (tso_callback msg)) out l = out ++ deliver conns l.
Proof.
  revert out. induction l as [|m l IH]; intros out; simpl; [by rewrite app_nil_r|].
  rewrite IH, fan_out_app, <- app_assoc. done.
Qed.

Lemma live_connections_update_queue node fed fh g fhs :
  live_connections node (update_federate fh (set_tso_queue g) fed) fhs = live_connections node fed fhs.
Proof.
  apply live_connections_ext. intros k. simpl. destruct (decide (k = fh)) as [->|Hne].
  - rewrite lookup_alter_eq. by destruct (_ !! fh).
  - by rewrite lookup_alter_ne.
Qed.

Lemma drain_eq federate up_to node fed out :
  drain_tso_up_to federate up_to node fed out =
    match federates fed !! federate with
    | None => (fed, out)
    | Some fs =>
        let cut := partition_point (λ m, f64_leb (tso_time m) up_to) (tso_queue fs) in
        (update_federate federate (set_tso_queue (drop cut)) fed,
         out ++ deliver (live_connections node fed {[federate]}) (take cut (tso_queue fs)))
    end.
Proof.
  unfold drain_tso_up_to. destruct (federates fed !! federate) as [fs|]; [|done]. cbn zeta.
  rewrite live_connections_update_queue.
  destruct (take _ (tso_queue fs)) as [|m l] eqn:Ht; [by rewrite app_nil_r|].
  by rewrite drain_foldl.
Qed.

#[export] Instance drain_adds federate up_to : AddsCallbacks (drain_tso_up_to federate up_to).
Proof.
  intros node fed out. rewrite drain_eq. destruct (federates fed !! federate); simpl; [|done].
  by apply prefix_app_r.
Qed.

Lemma drain_queues_wf federate up_to node fed out :
  fed_queues_wf fed → fed_queues_wf (drain_tso_up_to federate up_to node fed out).1.
Proof.
  intros Hwf fh fs. rewrite drain_eq. destruct (federates fed !! federate) as [fs0|] eqn:Hf; simpl;
    [|by apply Hwf]. rewrite lookup_alter_Some.
  intros [(-> & fs1 & Hfs1 & ->)|[_ Hfs]]; [|by eapply Hwf]. simpl. apply drop_wf. by eapply Hwf.
Qed.
End effects.

(** ** Properties *)

(** C26: routing a time-stamped message.  The message is queued for exactly
    the joined subscribers that are constrained and have not reached the time
    stamp, behind the messages of the same time, and their queues stay
    sorted; every other joined subscriber is called back at once; nobody else
    is affected.  So each joined subscriber gets the message exactly one
    way. *)
Theorem route_tso_spec {P : Prost} subs time cb node fed out :
  fed_queues_wf fed →
  let '(fed', out') := route_tso_or_immediate subs time cb node fed out in
  ∃ immediate queued : gset FederateHandle,
    immediate ## queued ∧ immediate ∪ queued = subs ∩ dom (federates fed) ∧
    (∀ fh fs, fh ∈ subs → federates fed !! fh = Some fs →
      fh ∈ queued ↔ is_constrained (fs_time fs) = true ∧ f64_gtb time (current_time (fs_time fs)) = true) ∧
    out' = fan_out out (live_connections node fed immediate) cb ∧
    fed_queues_wf fed' ∧
    (∀ fh, fh ∉ queued → federates fed' !! fh = federates fed !! fh) ∧
    (∀ fh fs, fh ∈ queued → federates fed !! fh = Some fs →
      federates fed' !! fh = Some (set_tso_queue (λ q,
        filter (λ m, f64_key (tso_time m) ≤ f64_key time) q ++
        mkTsoMessage time cb :: filter (λ m, f64_key time < f64_key (tso_time m)) q) fs)).
Proof.
  intros Hwf. pose proof (route_lookup subs time cb node fed out) as Hl.
  pose proof (route_queues_wf subs time cb node fed out Hwf) as Hwf'.
  destruct (route_tso_or_immediate subs time cb node fed out) as [fed' out'] eqn:Hr.
  exists (filter (λ fh, must_queue time <$> federates fed !! fh = Some false) subs),
    (filter (λ fh, must_queue time <$> federates fed !! fh = Some true) subs).
  split_and!; [set_solver| | | |done| |].
  - apply set_eq. intros fh. rewrite elem_of_union, elem_of_intersection, !elem_of_filter, elem_of_dom.
    unfold is_Some. destruct (federates fed !! fh) as [fs|]; simpl; [destruct (must_queue time fs)|]; naive_solver.
  - intros fh fs Hin Hfs. rewrite elem_of_filter, Hfs. simpl. rewrite (inj_iff Some). unfold must_queue. rewrite andb_true_iff. tauto.
  - unfold route_tso_or_immediate in Hr. injection Hr as _ <-. case_decide as He; [|done].
    rewrite He. done.
  - intros fh Hfh. simpl in Hl. rewrite Hl. rewrite elem_of_filter in Hfh.
    destruct (federates fed !! fh) as [fs|]; simpl in *; [|done]. unfold routed_fs.
    rewrite decide_False; [done|]. intros [H1 H2]. apply Hfh. by rewrite H2.
  - intros fh fs [Hq Hin]%elem_of_filter Hfs. simpl in Hl. rewrite Hl, Hfs. rewrite Hfs in Hq.
    simpl in *. injection Hq as Hq. pose proof (must_queue_not_nan _ _ Hq) as Hn.
    unfold routed_fs. rewrite decide_True by done.
    f_equal. unfold set_tso_queue. f_equal. apply tso_insert_filter; [by eapply Hwf|done].
Qed.

(** C27: draining releases exactly the messages a grant covers.  From a sorted
    queue, [drain_tso_up_to] calls the federate back with the messages whose
    time stamp is at most [up_to], in time-stamp order and, for equal time
    stamps, in the order they were sent; the later ones stay queued; no other
    federate is affected. *)
Theorem drain_tso_spec {P : Prost} federate up_to node fed out fs :
  fed_queues_wf fed → is_nan up_to = false → federates fed !! federate = Some fs →
  let '(fed', out') := drain_tso_up_to federate up_to node fed out in
  let released := filter (λ m, f64_key (tso_time m) ≤ f64_key up_to) (tso_queue fs) in
  StronglySorted tso_le released ∧
  out' = out ++ deliver (live_connections node fed {[federate]}) released ∧
  fed' = update_federate federate
    (set_tso_queue (λ _, filter (λ m, f64_key up_to < f64_key (tso_time m)) (tso_queue fs))) fed.
Proof.
  intros Hwf Hn Hfs. rewrite drain_eq, Hfs. cbn zeta. pose proof (Hwf _ _ Hfs) as Hq.
  destruct (partition_point_filter _ _ Hq Hn) as [-> Hdrop].
  split_and!; [by apply StronglySorted_filter, Hq|done|].
  unfold update_federate, set_federates. destruct fed; simpl in *. f_equal.
  apply alter_ext. intros fs' Hfs'. unfold set_tso_queue. simplify_eq. by rewrite Hdrop.
Qed.

(** *** Witnesses *)

(** A constrained federate at time 0 and messages at times 2 and 1. *)
Definition tso_one : f64 := F64 (1023 * 2 ^ 52).
Definition tso_two : f64 := F64 (1024 * 2 ^ 52).
Definition tso_fh : FederateHandle := FederateHandle_new 1.
Definition tso_fed : Federation :=
  update_federate tso_fh (set_fs_time (set_is_constrained (λ _, true)))
    (set_federates (λ _, {[ tso_fh := mkFederateSession tso_fh "f" "t" 1 PubSubState_default
      TimeState_default Switches_default [] ]}) inhabitant).
Definition tso_prost : Prost := {| encode_callback := λ _, [] |}.

Lemma tso_fed_wf : fed_queues_wf tso_fed.
Proof.
  intros fh fs. unfold tso_fed. simpl. rewrite lookup_alter_Some.
  intros [(-> & fs1 & Hfs1 & ->)|[_ Hfs]]; [|by apply lookup_singleton_Some in Hfs as [_ <-]; split; [intros m ?%elem_of_nil|constructor]].
  apply lookup_singleton_Some in Hfs1 as [_ <-]. split; [by intros m ?%elem_of_nil|constructor].
Defined.

(** The federation after the two messages: the one of time 1 is first. *)
Definition tso_fed2 : Federation :=
  (route_tso_or_immediate (P := tso_prost) {[tso_fh]} tso_one FederationSaved RtiNode_new
    (route_tso_or_immediate (P := tso_prost) {[tso_fh]} tso_two FederationSaved RtiNode_new tso_fed []).1
    []).1.

(** Federate [tso_fh] has session 1, on connection 1. *)
Definition tso_node : RtiNode := set_connections (insert 1 1%positive) RtiNode_new.
Lemma tso_fed2_wf : fed_queues_wf tso_fed2.
Proof. apply (route_queues_wf (P := tso_prost)), (route_queues_wf (P := tso_prost)), tso_fed_wf. Defined.

Lemma route_tso_witness :
  (λ fs, tso_time <$> tso_queue fs) <$> federates tso_fed2 !! tso_fh = Some [tso_one; tso_two] ∧
  ∃ immediate queued : gset FederateHandle,
    immediate ## queued ∧ immediate ∪ queued = {[tso_fh]} ∩ dom (federates tso_fed) ∧ tso_fh ∈ queued.
Proof.
  split; [vm_compute; reflexivity|].
  pose proof (route_tso_spec (P := tso_prost) {[tso_fh]} tso_two FederationSaved RtiNode_new tso_fed [] tso_fed_wf) as H.
  destruct (route_tso_or_immediate _ _ _ _ _ _) as [fed' out'].
  destruct H as (i & q & Hd & H & Hq & _). exists i, q. split; [exact Hd|]. split; [exact H|].
  destruct (federates tso_fed !! tso_fh) as [fs|] eqn:Hfs; [|vm_compute in Hfs; discriminate].
  apply (Hq tso_fh fs); [by apply elem_of_singleton|exact Hfs|]. vm_compute in Hfs. injection Hfs as <-. by split; vm_compute.
Defined.

(** A grant to time 1 releases the first message and keeps the second. *)
Lemma drain_tso_witness :
  let '(fed', out') := drain_tso_up_to (P := tso_prost) tso_fh tso_one tso_node tso_fed2 [] in
  out' = [mkOutboundCallback 1%positive []] ∧
  (λ fs, tso_time <$> tso_queue fs) <$> federates fed' !! tso_fh = Some [tso_two].
Proof.
  destruct (federates tso_fed2 !! tso_fh) as [fs|] eqn:Hfs; [|vm_compute in Hfs; discriminate].
  pose proof (drain_tso_spec (P := tso_prost) tso_fh tso_one tso_node tso_fed2 [] fs tso_fed2_wf eq_refl Hfs) as H.
  destruct (drain_tso_up_to _ _ _ _ _) as [fed' out']. destruct H as (_ & -> & ->).
  vm_compute in Hfs. injection Hfs as <-. split; vm_compute; reflexivity.
Defined.
