(* ===== verification/TimeMgmt.v ===== *)
(** * Time management services

    The handlers of [dispatch/time_mgmt.rs].  The invariant [fed_time_wf]
    (finite times, non-negative lookaheads, pending advances ahead of the
    current time) is what the coordinator of [TimeCoord] relies on; every
    handler preserves it, whatever the request. *)

From Stdlib Require Import Sorted.
From S2P Require Import Prelude Float64 FloatAdd CoreTypes Fom Exception Proto State Handles.
From S2P Require Import Routing Handler TimeCoord Tso.

Section handlers.
Context {P : Prost}.

Definition single (fh : FederateHandle) : gset FederateHandle := {[fh]}.

Definition enable_time_regulation (lookahead_opt : option ProtoTime) : Handler Resp :=
  m ← get_membership;
  la ← match decode_logical_time_interval <$> lookahead_opt with
       | Some (Ok v) => if is_finite v && f64_geb v f64_ZERO then mret v
                        else ret_early (exception_variant InvalidLookahead (D_f64 v))
       | Some (Err n) => ret_early (exception_variant n "")
       | None => ret_early (exception_variant InvalidLookahead "missing")
       end;
  fs ← get_federate m;
  return_if (is_regulating (fs_time fs)) (exception_variant TimeRegulationAlreadyEnabled "");;
  modify_federate m (set_fs_time (λ t, set_lookahead (λ _, la) (set_is_regulating (λ _, true) t)));;
  let now := current_time (fs_time fs) in
  notify m (single (m_federate_handle m)) (time_regulation_enabled now);;
  on_federation m try_grant_pending_advances;;
  mret EnableTimeRegulationResponse.

Definition disable_time_regulation : Handler Resp :=
  m ← get_membership;
  fs ← get_federate m;
  return_if (negb (is_regulating (fs_time fs))) (exception_variant TimeRegulationIsNotEnabled "");;
  modify_federate m (set_fs_time (set_is_regulating (λ _, false)));;
  on_federation m try_grant_pending_advances;;
  mret DisableTimeRegulationResponse.

Definition enable_time_constrained : Handler Resp :=
  m ← get_membership;
  fs ← get_federate m;
  return_if (is_constrained (fs_time fs)) (exception_variant TimeConstrainedAlreadyEnabled "");;
  modify_federate m (set_fs_time (set_is_constrained (λ _, true)));;
  let now := current_time (fs_time fs) in
  notify m (single (m_federate_handle m)) (time_constrained_enabled now);;
  mret EnableTimeConstrainedResponse.

Definition disable_time_constrained : Handler Resp :=
  m ← get_membership;
  fs ← get_federate m;
  return_if (negb (is_constrained (fs_time fs))) (exception_variant TimeConstrainedIsNotEnabled "");;
  modify_federate m (set_fs_time (set_is_constrained (λ _, false)));;
  mret DisableTimeConstrainedResponse.

(** [try_grant_pending_advances_with_tso]: drain the queues of the federates
    the first round will grant, then grant. *)
Definition pending_list (fed : Federation) : list (FederateHandle * f64) :=
  omap (λ '(fh, fs), (λ t, (fh, t)) <$> pending_advance (fs_time fs)) (map_to_list (federates fed)).

Definition try_grant_pending_advances_with_tso : FedEffect := λ node fed out,
  let bound := lbts fed in
  let to_grant := filter (λ '(fh, t), match federates fed !! fh with
    | Some fs => negb (is_constrained (fs_time fs)) || f64_leb t bound
    | None => false end = true) (pending_list fed) in
  let '(fed', out') :=
    foldl (λ '(fed, out) '(fh, t), drain_tso_up_to fh t node fed out) (fed, out) to_grant in
  try_grant_pending_advances node fed' out'.

Definition time_advance_request (time : option ProtoTime) : Handler Resp :=
  m ← get_membership;
  requested ← match decode_logical_time <$> time with
       | Some (Ok v) => if is_finite v then mret v
                        else ret_early (exception_variant LogicalTimeAlreadyPassed (D_f64 v))
       | Some (Err n) => ret_early (exception_variant n "")
       | None => ret_early (exception_variant InvalidLogicalTime "missing")
       end;
  fs ← get_federate m;
  return_if (bool_decide (pending_advance (fs_time fs) ≠ None)) (exception_variant InTimeAdvancingState "");;
  return_if (f64_ltb requested (current_time (fs_time fs))) (exception_variant LogicalTimeAlreadyPassed "");;
  modify_federate m (set_fs_time (set_pending_advance (λ _, Some requested)));;
  let already_grantable := negb (is_constrained (fs_time fs)) in
  let grant_time := requested in
  (if already_grantable then
     modify_federate m (λ fs, if pending_is grant_time fs then grant grant_time fs else fs);;
     on_federation m (drain_tso_up_to (m_federate_handle m) grant_time);;
     notify m (single (m_federate_handle m)) (time_advance_grant grant_time);;
     on_federation m try_grant_pending_advances_with_tso;;
     ret_early TimeAdvanceRequestResponse
   else mret tt);;
  on_federation m try_grant_pending_advances_with_tso;;
  mret TimeAdvanceRequestResponse.

Definition query_logical_time : Handler Resp :=
  m ← get_membership;
  fs ← get_federate m;
  mret (QueryLogicalTimeResponse (Some (encode_logical_time (current_time (fs_time fs))))).

Definition modify_lookahead (lookahead_opt : option ProtoTime) : Handler Resp :=
  m ← get_membership;
  la ← match decode_logical_time_interval <$> lookahead_opt with
       | Some (Ok v) => if is_finite v && f64_geb v f64_ZERO then mret v
                        else ret_early (exception_variant InvalidLookahead "")
       | _ => ret_early (exception_variant InvalidLookahead "")
       end;
  fs ← get_federate m;
  return_if (negb (is_regulating (fs_time fs))) (exception_variant TimeRegulationIsNotEnabled "");;
  modify_federate m (set_fs_time (set_lookahead (λ _, la)));;
  mret ModifyLookaheadResponse.

Definition query_lits : Handler Resp :=
  m ← get_membership;
  fed ← get_federation m;
  let b := lbts fed in
  mret (QueryLitsResponse (Some {| logical_time_is_valid := is_finite b;
    logical_time := Some (encode_logical_time (if is_finite b then b else f64_ZERO)) |})).

Definition query_lookahead : Handler Resp :=
  m ← get_membership;
  fs ← get_federate m;
  return_if (negb (is_regulating (fs_time fs))) (exception_variant TimeRegulationIsNotEnabled "");;
  mret (QueryLookaheadResponse (Some (encode_logical_time_interval (lookahead (fs_time fs))))).
End handlers.

(** ** The invariant of time management *)

Record session_inv (fs : FederateSession) : Prop := {
  si_time : time_wf (fs_time fs);
  si_queue : queue_wf (tso_queue fs)
}.

Definition time_inv (fed : Federation) : Prop :=
  map_Forall (λ _ fs, session_inv fs) (federates fed).

Lemma time_inv_iff fed : time_inv fed ↔ fed_time_wf fed ∧ fed_queues_wf fed.
Proof.
  split.
  - intros H. split; intros fh fs Hfs; by destruct (H fh fs Hfs).
  - intros [H1 H2] fh fs Hfs. split; [by eapply H1|by eapply H2].
Qed.

Lemma update_federate_inv fh g fed :
  (∀ fs, federates fed !! fh = Some fs → session_inv fs → session_inv (g fs)) →
  time_inv fed → time_inv (update_federate fh g fed).
Proof.
  intros Hg HI k fs. simpl. rewrite lookup_alter_Some.
  intros [(<- & fs0 & Hfs0 & ->)|[_ Hfs]]; [apply Hg; [done|]|]; by eapply HI.
Qed.

Section effects.
Context {P : Prost}.

Lemma try_grant_inv node fed out :
  time_inv fed → time_inv (try_grant_pending_advances node fed out).1.
Proof.
  rewrite !time_inv_iff. intros [H1 H2].
  pose proof (rounds_advanced _ _ _ _ _ (try_grant_pending_advances_rounds node fed out)) as Ha.
  split; [by eapply fed_advanced_wf|].
  intros fh fs' Hfs'. destruct (fed_advanced_inv _ _ _ _ Ha Hfs') as (fs & Hfs & [->|(t & _ & ->)]);
    exact (H2 _ _ Hfs).
Qed.

Lemma drain_inv fh t node fed out :
  time_inv fed → time_inv (drain_tso_up_to fh t node fed out).1.
Proof.
  intros HI. rewrite drain_eq. destruct (federates fed !! fh) as [fs|]; simpl; [|done].
  apply update_federate_inv; [|done]. intros fs' _ []. split; [done|]. by apply drop_wf.
Qed.

Lemma drains_inv l node fed out :
  time_inv fed →
  time_inv (foldl (λ '(fed, out) '(fh, t), drain_tso_up_to fh t node fed out) (fed, out) l).1.
Proof.
  revert fed out. induction l as [|[fh t] l IH]; intros fed out HI; simpl; [done|].
  pose proof (drain_inv fh t node fed out HI). destruct (drain_tso_up_to fh t node fed out). by apply IH.
Qed.

Lemma with_tso_inv node fed out :
  time_inv fed → time_inv (try_grant_pending_advances_with_tso node fed out).1.
Proof.
  intros HI. unfold try_grant_pending_advances_with_tso.
  set (l := filter _ _). pose proof (drains_inv l node fed out HI).
  destruct (foldl _ _ l) as [fed' out']. by apply try_grant_inv.
Qed.

Lemma emit_grants_prefix node fed out l : out `prefix_of` emit_grants node fed out l.
Proof.
  unfold emit_grants. revert out. induction l as [|g l IH]; intros out; simpl; [done|].
  etransitivity; [|apply IH]. rewrite fan_out_app. by apply prefix_app_r.
Qed.

#[export] Instance try_grant_adds : AddsCallbacks try_grant_pending_advances.
Proof.
  intros node fed out. pose proof (try_grant_pending_advances_rounds node fed out) as Hr.
  destruct (rounds_callbacks _ _ _ _ _ Hr) as (granted & _ & _ & ->). apply emit_grants_prefix.
Qed.

Lemma drains_prefix l node fed out :
  out `prefix_of` (foldl (λ '(fed, out) '(fh, t), drain_tso_up_to fh t node fed out) (fed, out) l).2.
Proof.
  revert fed out. induction l as [|[fh t] l IH]; intros fed out; simpl; [done|].
  pose proof (adds_callbacks (e := drain_tso_up_to fh t) node fed out).
  destruct (drain_tso_up_to fh t node fed out). by etransitivity; [|apply IH].
Qed.

#[export] Instance with_tso_adds : AddsCallbacks try_grant_pending_advances_with_tso.
Proof.
  intros node fed out. unfold try_grant_pending_advances_with_tso. set (l := filter _ _).
  pose proof (drains_prefix l node fed out). destruct (foldl _ _ l) as [fed' out'].
  etransitivity; [done|]. apply (adds_callbacks (e := try_grant_pending_advances)).
Qed.
End effects.

(** ** Every handler preserves it *)

Section preservation.
Context {P : Prost}.
Implicit Types (Q : unit → DispatchState → Prop) (Qr : Resp → DispatchState → Prop).

Lemma wp_modify_federate_inv m g Qr Q s :
  all_feds time_inv s →
  (∀ fs, federates (federation_of m s) !! m_federate_handle m = Some fs →
    session_inv fs → session_inv (g fs)) →
  (all_feds time_inv (set_ds_node (fed_update (m_federation m) (update_federate (m_federate_handle m) g)) s) →
   Q tt (set_ds_node (fed_update (m_federation m) (update_federate (m_federate_handle m) g)) s)) →
  wp (modify_federate m g) Qr Q s.
Proof.
  intros HI Hg HQ. unfold modify_federate, modify_federation. apply wp_modify, HQ.
  apply all_feds_update; [|done]. intros fed Hl Hfed. apply update_federate_inv; [|done].
  intros fs Hfs. apply Hg. by rewrite (federation_of_heap m s fed Hl).
Qed.

Lemma wp_notify_inv m ts cb Qr Q s :
  all_feds time_inv s → (∀ s', all_feds time_inv s' → Q tt s') → wp (notify m ts cb) Qr Q s.
Proof. intros HI HQ. by apply wp_modify, HQ. Qed.

Lemma wp_effect_inv m e Qr Q s :
  (∀ node fed out, time_inv fed → time_inv (e node fed out).1) →
  all_feds time_inv s → (∀ s', all_feds time_inv s' → Q tt s') → wp (on_federation m e) Qr Q s.
Proof.
  intros He HI HQ. eapply wp_mono; [apply (all_feds_effect time_inv (Qr := Qr)); [|done]|done|].
  - intros fed Hfed. by apply He.
  - intros [] s' [Hs' _]. by apply HQ.
Qed.

(** Session invariants of the updates the handlers make. *)
Lemma set_time_inv fs g :
  (time_wf (fs_time fs) → time_wf (g (fs_time fs))) → session_inv fs → session_inv (set_fs_time g fs).
Proof. intros Hg [H1 H2]. split; [by apply Hg|done]. Qed.

Lemma set_pending_inv fs r :
  is_finite r = true → f64_ltb r (current_time (fs_time fs)) = false →
  session_inv fs → session_inv (set_fs_time (set_pending_advance (λ _, Some r)) fs).
Proof.
  intros Hr Hlt. apply set_time_inv. intros []. split; [done..|]. intros p [= <-]. split; [done|].
  apply f64_ltb_false in Hlt; [done|by apply is_finite_not_nan..].
Qed.

Lemma lookahead_checked v :
  is_finite v && f64_geb v f64_ZERO = true → is_finite v = true ∧ 0 ≤ f64_key v.
Proof.
  intros [Hf Hg]%andb_true_iff. split; [done|]. unfold f64_geb in Hg. apply f64_leb_key in Hg.
  destruct Hg as (_ & _ & Hg). exact Hg.
Qed.
End preservation.

(** [inv_step] runs a handler keeping the invariant at hand. *)
Ltac inv_step :=
  first
    [ progress wp_step
    | lazymatch goal with
      | |- wp (modify_federate _ _) _ _ _ =>
          apply wp_modify_federate_inv; [assumption| |intros ?]
      | |- wp (notify _ _ _) _ _ _ => apply wp_notify_inv; [assumption|intros ? ?]
      | |- wp (on_federation _ _) _ _ _ => apply wp_effect_inv; [|assumption|intros ? ?]
      end ]; try assumption.

Section preservation_handlers.
Context {P : Prost}.
Notation preserves h := (∀ s, all_feds time_inv s → all_feds time_inv (run h s).1) (only parsing).

Ltac start := intros s HI; apply (run_wp _ (λ _ s', all_feds time_inv s')).

Lemma enable_time_regulation_inv la : preserves (enable_time_regulation la).
Proof.
  start. unfold enable_time_regulation. repeat inv_step; [|intros; by apply try_grant_inv].
  intros fs' _. apply set_time_inv. intros []. match goal with H : _ && _ = true |- _ => apply lookahead_checked in H as [] end.
  by split.
Qed.

Lemma disable_time_regulation_inv : preserves disable_time_regulation.
Proof.
  start. unfold disable_time_regulation. repeat inv_step; [|intros; by apply try_grant_inv].
  intros fs' _. apply set_time_inv. intros []. by split.
Qed.

Lemma enable_time_constrained_inv : preserves enable_time_constrained.
Proof.
  start. unfold enable_time_constrained. repeat inv_step.
  intros fs' _. apply set_time_inv. intros []. by split.
Qed.

Lemma disable_time_constrained_inv : preserves disable_time_constrained.
Proof.
  start. unfold disable_time_constrained. repeat inv_step.
  intros fs' _. apply set_time_inv. intros []. by split.
Qed.

Lemma modify_lookahead_inv la : preserves (modify_lookahead la).
Proof.
  start. unfold modify_lookahead. repeat inv_step.
  intros fs' _. apply set_time_inv. intros []. match goal with H : _ && _ = true |- _ => apply lookahead_checked in H as [] end.
  by split.
Qed.

Lemma time_advance_request_inv t : preserves (time_advance_request t).
Proof.
  start. unfold time_advance_request. repeat inv_step;
    try (intros; by (apply drain_inv || apply with_tso_inv)).
  - intros fs' Hfs'. simplify_eq. by apply set_pending_inv.
  - intros fs' Hfs'. destruct (pending_is _ fs') eqn:Hp; [|done].
    intros [[] ?]. split; [|done]. by split.
Qed.
End preservation_handlers.

(** ** Messages first, then the grant *)

Section order.
Context {P : Prost} (node : RtiNode).

Notation drains := (foldl (λ '(fed, out) '(fh, t), drain_tso_up_to fh t node fed out)).

Lemma drain_lookup_ne fh t fed out k :
  k ≠ fh → federates (drain_tso_up_to fh t node fed out).1 !! k = federates fed !! k.
Proof.
  intros Hk. rewrite drain_eq. destruct (federates fed !! fh); simpl; [|done].
  by rewrite lookup_alter_ne.
Qed.

Lemma drain_times fh t fed out k :
  fs_time <$> federates (drain_tso_up_to fh t node fed out).1 !! k = fs_time <$> federates fed !! k ∧
  fs_session_id <$> federates (drain_tso_up_to fh t node fed out).1 !! k =
    fs_session_id <$> federates fed !! k.
Proof.
  rewrite drain_eq. destruct (federates fed !! fh) as [fs|] eqn:Hfs; simpl; [|done].
  destruct (decide (k = fh)) as [->|Hne]; [rewrite lookup_alter_eq|by rewrite lookup_alter_ne].
  by rewrite Hfs.
Qed.

Lemma drains_frame l fed out k :
  fs_time <$> federates (drains (fed, out) l).1 !! k = fs_time <$> federates fed !! k ∧
  fs_session_id <$> federates (drains (fed, out) l).1 !! k = fs_session_id <$> federates fed !! k ∧
  (k ∉ l.*1 → federates (drains (fed, out) l).1 !! k = federates fed !! k).
Proof.
  revert fed out. induction l as [|[fh t] l IH]; intros fed out; simpl; [done|].
  pose proof (drain_times fh t fed out k) as [H1 H2].
  pose proof (drain_lookup_ne fh t fed out k) as H3.
  destruct (drain_tso_up_to fh t node fed out) as [fed1 out1]. simpl in *.
  destruct (IH fed1 out1) as (I1 & I2 & I3). split_and!; [congruence..|].
  intros Hk. rewrite I3, H3; [done| |]; set_solver.
Qed.

(** The messages of [fs] a grant to [t] releases, and those it leaves. *)
Definition released (t : f64) (fs : FederateSession) : list TsoMessage :=
  filter (λ m, f64_key (tso_time m) ≤ f64_key t) (tso_queue fs).
Definition remaining (t : f64) (fs : FederateSession) : list TsoMessage :=
  filter (λ m, f64_key t < f64_key (tso_time m)) (tso_queue fs).

Lemma drains_deliver l fed out fh t fs :
  time_inv fed → NoDup l.*1 → (fh, t) ∈ l → is_nan t = false → federates fed !! fh = Some fs →
  federates (drains (fed, out) l).1 !! fh = Some (set_tso_queue (λ _, remaining t fs) fs) ∧
  ∃ pre post, (drains (fed, out) l).2 =
    out ++ pre ++ deliver (live_connections node fed {[fh]}) (released t fs) ++ post.
Proof.
  revert fed out. induction l as [|[fh1 t1] l IH]; intros fed out HI Hnd Hin Hn Hfs;
    [by apply elem_of_nil in Hin|]. inversion Hnd as [|? ? Hnin Hnd']; subst. simpl.
  apply elem_of_cons in Hin as [[= <- <-]|Hin].
  - destruct (drain_tso_up_to fh t node fed out) as [fed1 out1] eqn:Hd.
    pose proof (drains_frame l fed1 out1 fh) as (_ & _ & Hk). rewrite (Hk Hnin).
    pose proof (drains_prefix l node fed1 out1) as [post Hpost]. rewrite Hpost.
    rewrite drain_eq, Hfs in Hd. cbn zeta in Hd. injection Hd as <- <-.
    destruct (partition_point_filter (tso_queue fs) t) as [Ht Hdr]; [by eapply HI|done|].
    simpl. rewrite lookup_alter_eq, Hfs, Ht. split.
    + simpl. unfold set_tso_queue. by rewrite Hdr.
    + exists [], post. by rewrite <- app_assoc.
  - assert (Hne : fh ≠ fh1).
    { intros ->. apply Hnin. apply list_elem_of_fmap. by exists (fh1, t). }
    pose proof (drain_lookup_ne fh1 t1 fed out fh Hne) as Hl.
    pose proof (drain_inv fh1 t1 node fed out HI) as HI1.
    pose proof (adds_callbacks (e := drain_tso_up_to fh1 t1) node fed out) as [mid Hmid].
    pose proof (λ k, proj2 (drain_times fh1 t1 fed out k)) as Hsess.
    destruct (drain_tso_up_to fh1 t1 node fed out) as [fed1 out1]. simpl in *.
    destruct (IH fed1 out1 HI1 Hnd' Hin Hn ltac:(congruence)) as (Hq & pre & post & Ho).
    split; [done|]. exists (mid ++ pre), post. rewrite Ho, Hmid, <- !app_assoc.
    by rewrite (live_connections_ext node fed1 fed).
Qed.
End order.

(** ** The grant follows *)

(** LBTS is determined by the times of the federates. *)
Lemma lbts_ext fed fed' :
  fed_time_wf fed → fed_time_wf fed' →
  (∀ fh, fs_time <$> federates fed' !! fh = fs_time <$> federates fed !! fh) →
  f64_key (lbts fed') = f64_key (lbts fed).
Proof.
  assert (Hle : ∀ f1 f2, fed_time_wf f1 → fed_time_wf f2 →
    (∀ fh, fs_time <$> federates f2 !! fh = fs_time <$> federates f1 !! fh) →
    f64_key (lbts f1) ≤ f64_key (lbts f2)).
  { intros f1 f2 H1 H2 He. apply le_lbts; [done|apply lbts_key_INFINITY|].
    intros fh fs2 Hfs2 Hr. specialize (He fh). rewrite Hfs2 in He. symmetry in He.
    apply fmap_Some in He as (fs1 & Hfs1 & Ht). rewrite Ht. rewrite Ht in Hr.
    eapply lbts_lower; [done..|]. apply send_bound_not_nan. by eapply H1. }
  intros H1 H2 He. apply Z.le_antisymm; apply Hle; auto.
Qed.

Lemma rounds_grants {P : Prost} node fed out fed' out' fh fs t :
  rounds node fed out fed' out' → federates fed !! fh = Some fs →
  grants_now (lbts fed) fs = Some t → was_granted fed fed' fh t.
Proof.
  intros Hr Hfs Hg. assert (Hin : (fh, t) ∈ round_grants (lbts fed) fed).
  { apply elem_of_round_grants. eauto. }
  inversion Hr as [? ? Hnil|? ? Hb|? ? ? ? Hb Hr']; subst.
  - pose proof (to_grant_nil_quiescent _ Hnil fh fs Hfs). congruence.
  - by apply round_was_granted.
  - apply (was_granted_trans _ (grant_round fed)); [apply grant_round_advanced|by eapply rounds_advanced|].
    left. by apply round_was_granted.
Qed.

Lemma emit_grants_elem {P : Prost} node fed out l fh t :
  (fh, t) ∈ l → ∃ pre post, emit_grants node fed out l = out ++ pre ++
    ((λ c, mkOutboundCallback c (encode_callback (time_advance_grant t))) <$>
      live_connections node fed {[fh]}) ++ post.
Proof.
  intros (l1 & l2 & ->)%list_elem_of_split.
  rewrite emit_grants_app. destruct (emit_grants_prefix node fed out l1) as [pre ->].
  simpl. rewrite fan_out_app.
  destruct (emit_grants_prefix node fed ((out ++ pre) ++ ((λ c, mkOutboundCallback c (encode_callback (time_advance_grant t))) <$>
      live_connections node fed {[fh]})) l2) as [post Hpost].
  exists pre, post. unfold emit_grants in Hpost |- *. simpl. rewrite Hpost. by rewrite <- !app_assoc.
Qed.

Lemma elem_of_pending_list fed fh t :
  (fh, t) ∈ pending_list fed ↔
    ∃ fs, federates fed !! fh = Some fs ∧ pending_advance (fs_time fs) = Some t.
Proof.
  unfold pending_list. rewrite list_elem_of_omap. split.
  - intros ([fh' fs] & Hin%elem_of_map_to_list & Hg). apply fmap_Some in Hg as (t' & Hg & [= -> ->]).
    by exists fs.
  - intros (fs & Hfs & Hg). exists (fh, fs). rewrite elem_of_map_to_list, Hg. done.
Qed.

Lemma pending_list_NoDup fed : NoDup (pending_list fed).*1.
Proof.
  unfold pending_list. pose proof (NoDup_fst_map_to_list (federates fed)) as Hnd.
  induction (map_to_list (federates fed)) as [|[fh fs] l IH]; simpl in *; [constructor|].
  apply NoDup_cons in Hnd as [Hnin Hnd]. destruct (pending_advance _) as [t|]; simpl; [|by apply IH].
  apply NoDup_cons. split; [|by apply IH].
  intros ([fh' t'] & -> & Hin)%list_elem_of_fmap. apply Hnin.
  apply list_elem_of_omap in Hin as ([fh'' fs''] & Hin & Hg). apply fmap_Some in Hg as (? & _ & [= -> ->]).
  apply list_elem_of_fmap. by exists (fh'', fs'').
Qed.

Lemma NoDup_filter_fst {A B} (p : A * B → Prop) `{!∀ x, Decision (p x)} l :
  NoDup l.*1 → NoDup (filter p l).*1.
Proof.
  induction l as [|[a b] l IH]; simpl; [done|]. intros [Hn Hd]%NoDup_cons.
  rewrite filter_cons. case_decide; simpl; [|by apply IH]. apply NoDup_cons. split; [|by apply IH].
  intros ([a' b'] & -> & [_ Hin]%list_elem_of_filter)%list_elem_of_fmap. apply Hn.
  apply list_elem_of_fmap. by exists (a', b').
Qed.

Lemma grants_now_intro bound fs t :
  pending_advance (fs_time fs) = Some t → is_nan t = false →
  negb (is_constrained (fs_time fs)) || f64_leb t bound = true → grants_now bound fs = Some t.
Proof.
  intros Hp Hn Hb. unfold grants_now, grantable. rewrite Hp. simpl. rewrite Hb. simpl.
  by rewrite f64_eqb_refl.
Qed.

Lemma leb_ext t b b' : is_nan b = false → is_nan b' = false → f64_key b = f64_key b' →
  f64_leb t b = f64_leb t b'.
Proof. intros. apply eq_true_iff_eq. rewrite !f64_leb_key. intuition congruence. Qed.

(** ** The outcome of a time advance request *)

(** The time of one federate after the grants: the same, or the one it asked
    for. *)
Definition time_advanced (t t' : TimeState) : Prop :=
  t' = t ∨ ∃ p, pending_advance t = Some p ∧
    t' = set_pending_advance (λ _, None) (set_current_time (λ _, p) t).

Lemma with_tso_outcome {P : Prost} node fed out fh fs :
  federates fed !! fh = Some fs →
  let fed' := (try_grant_pending_advances_with_tso node fed out).1 in
  quiescent fed' ∧ ∃ fs', federates fed' !! fh = Some fs' ∧ time_advanced (fs_time fs) (fs_time fs').
Proof.
  intros Hfs. unfold try_grant_pending_advances_with_tso. set (l := filter _ _).
  pose proof (drains_frame node l fed out fh) as (Hf & _ & _). rewrite Hfs in Hf.
  destruct (foldl _ _ l) as [fed1 out1]. simpl in *. apply fmap_Some in Hf as (fs1 & Hfs1 & Ht1).
  pose proof (try_grant_pending_advances_rounds node fed1 out1) as Hr.
  destruct (try_grant_pending_advances node fed1 out1) as [fed2 out2]. simpl in *.
  split; [by eapply rounds_quiescent|].
  destruct (fa_some _ _ (rounds_advanced _ _ _ _ _ Hr) _ _ Hfs1) as (fs2 & Hfs2 & Ha).
  exists fs2. split; [done|]. rewrite Ht1. destruct Ha as [->|(t & Hp & ->)]; [by left|right]. by exists t.
Qed.

Lemma pending_is_set t fs :
  is_nan t = false → pending_is t (set_fs_time (set_pending_advance (λ _, Some t)) fs) = true.
Proof. intros Hn. unfold pending_is. simpl. by apply f64_eqb_refl. Qed.

(** What a request for time [t] leaves: the federate is at [t], or it is
    constrained and waits because LBTS is below [t]. *)
Definition tar_outcome (t : f64) (fed' : Federation) (fs : TimeState) (fs' : TimeState) : Prop :=
  (current_time fs' = t ∧ pending_advance fs' = None) ∨
  (is_constrained fs = true ∧ pending_advance fs' = Some t ∧ current_time fs' = current_time fs ∧
   f64_leb t (lbts fed') = false).

(** ** Properties *)

(** C10: messages before the grant.  Take a federation with sorted queues and
    well-formed times and a federate whose pending advance to [t] can be
    granted now.  [try_grant_pending_advances_with_tso] grants it: the
    federate's time becomes [t], it has no pending advance, and its queue
    keeps exactly the messages later than [t].  In the callbacks, all messages
    up to [t] are sent to its connection, in order, before the
    [TimeAdvanceGrant] is. *)
Theorem grant_with_tso {P : Prost} node fed out fh fs t :
  time_inv fed → federates fed !! fh = Some fs → pending_advance (fs_time fs) = Some t →
  negb (is_constrained (fs_time fs)) || f64_leb t (lbts fed) = true →
  let '(fed', out') := try_grant_pending_advances_with_tso node fed out in
  federates fed' !! fh = Some (grant t (set_tso_queue (λ _, remaining t fs) fs)) ∧
  ∃ pre mid post, out' = out ++ pre ++
    deliver (live_connections node fed {[fh]}) (released t fs) ++ mid ++
    ((λ c, mkOutboundCallback c (encode_callback (time_advance_grant t))) <$>
      live_connections node fed {[fh]}) ++ post.
Proof.
  intros HI Hfs Hp Hb. unfold try_grant_pending_advances_with_tso. set (l := filter _ _).
  assert (Hn : is_nan t = false).
  { apply is_finite_not_nan. by eapply (tw_pending _ (si_time _ (HI _ _ Hfs))). }
  assert (Hin : (fh, t) ∈ l).
  { apply list_elem_of_filter. split; [by rewrite Hfs|]. apply elem_of_pending_list. eauto. }
  assert (Hnd : NoDup l.*1) by (apply NoDup_filter_fst, pending_list_NoDup).
  destruct (drains_deliver node l fed out fh t fs HI Hnd Hin Hn Hfs) as (Hq & pre & mid & Ho).
  pose proof (drains_frame node l fed out) as Hf. pose proof (drains_inv l node fed out HI) as HI1.
  destruct (foldl _ _ l) as [fed1 out1]. simpl in *.
  assert (Hkey : f64_key (lbts fed1) = f64_key (lbts fed)).
  { apply lbts_ext; [apply time_inv_iff in HI; tauto|apply time_inv_iff in HI1; tauto|apply Hf]. }
  pose proof (try_grant_pending_advances_rounds node fed1 out1) as Hr.
  pose proof (rounds_callbacks _ _ _ _ _ Hr) as (granted & _ & Hgr & Hout).
  destruct (try_grant_pending_advances node fed1 out1) as [fed2 out2]. simpl in *.
  assert (Hw : was_granted fed1 fed2 fh t).
  { eapply rounds_grants; [done..|]. apply grants_now_intro; [done..|].
    by rewrite (leb_ext t (lbts fed1) (lbts fed)) by (done || apply lbts_not_nan). }
  pose proof Hw as (fs1 & Hfs1 & _ & Hfs2). rewrite Hq in Hfs1. injection Hfs1 as <-. split; [done|].
  apply Hgr in Hw. destruct (emit_grants_elem node fed1 out1 granted fh t Hw) as (mid2 & post & He).
  exists pre, (mid ++ mid2), post. rewrite Hout, He, Ho, <- !app_assoc.
  rewrite (live_connections_ext node fed1 fed) by (intros; apply Hf). done.
Qed.

Definition tar_post (time : option ProtoTime) (s : DispatchState) (r : Resp) (s' : DispatchState) : Prop :=
  (s' = s ∧ ∃ e d, r = ExceptionData e d) ∨
  (r = TimeAdvanceRequestResponse ∧ ∃ m p t fed fs fed' fs',
     membership (ds_ctx s) = Some m ∧ time = Some p ∧ decode_logical_time p = Ok t ∧
     is_finite t = true ∧
     fed_heap (ds_node s) !! m_federation m = Some fed ∧
     federates fed !! m_federate_handle m = Some fs ∧ pending_advance (fs_time fs) = None ∧
     f64_ltb t (current_time (fs_time fs)) = false ∧
     fed_heap (ds_node s') !! m_federation m = Some fed' ∧
     federates fed' !! m_federate_handle m = Some fs' ∧ quiescent fed' ∧
     tar_outcome t fed' (fs_time fs) (fs_time fs')).

(** [time_advance_request], on every branch.  Either the call is rejected
    with an exception and nothing changes, or the caller is a member with no
    advance pending, the requested time is finite and not before its current
    time, the response is [TimeAdvanceRequestResponse], and afterwards the
    federate is at the requested time, or it is constrained, still waits with
    its current time unchanged, and LBTS is below the requested time; no
    advance that could be granted is left pending. *)
Theorem time_advance_request_spec {P : Prost} time s :
  tar_post time s (run (time_advance_request time) s).2 (run (time_advance_request time) s).1.
Proof.
  apply run_wp. unfold time_advance_request.
  wp_run; try (left; split; [done|eexists _, _; reflexivity]).
  destruct (federation_of_lookup _ _ _ _ H0) as (fed & Hfed & Hfs).
  apply fmap_Some in Heqo as (p & -> & Hdec). apply bool_decide_eq_false, dec_stable in H1.
  eapply wp_at_modify_federate; [exact Hfed|]. intros s1 Hs1 _.
  apply (lookup_update_federate _ (set_fs_time (set_pending_advance (λ _, Some a0)))) in Hfs as Hfs1.
  apply wp_bind. destruct (is_constrained (fs_time a1)) eqn:Hc; simpl negb; cbv iota.
  - apply wp_ret. apply wp_bind. eapply wp_at_effect; [exact Hs1|]. intros s2 Hs2 _. apply wp_ret.
    destruct (with_tso_outcome (ds_node s1) _ (ds_callbacks s1) _ _ Hfs1) as (Hq & fs' & Hfs' & Ht).
    right. split; [done|]. eexists a, p, a0, fed, a1, _, fs'. split_and!; try done.
    destruct Ht as [Ht|(p' & [= <-] & Ht)]; [right|left]; rewrite Ht; [|done].
    split_and!; [done..|]. specialize (Hq _ _ Hfs').
    destruct (f64_leb a0 (lbts _)) eqn:Hle; [|done].
    rewrite (grants_now_intro _ _ a0) in Hq; [done|by rewrite Ht|by apply is_finite_not_nan|].
    by rewrite Ht, Hle, orb_true_r.
  - wp_step. eapply wp_at_modify_federate; [exact Hs1|]. intros s2 Hs2 _.
    apply (lookup_update_federate _ (λ fs, if pending_is a0 fs then grant a0 fs else fs)) in Hfs1 as Hfs2.
    cbn beta in Hfs2. rewrite pending_is_set in Hfs2 by (by apply is_finite_not_nan).
    wp_step. eapply wp_at_effect; [exact Hs2|]. intros s3 Hs3 _.
    wp_step. eapply wp_at_notify; [exact Hs3|]. intros s4 Hs4 _.
    wp_step. eapply wp_at_effect; [exact Hs4|]. intros s5 Hs5 _. apply wp_early.
    edestruct (drain_times (ds_node s2) (m_federate_handle a) a0) as [Hd _].
    rewrite Hfs2 in Hd. apply fmap_Some in Hd as (fs3 & Hfs3 & Ht3).
    destruct (with_tso_outcome (ds_node s4) _ (ds_callbacks s4) _ _ Hfs3) as (Hq & fs' & Hfs' & Ht).
    right. split; [done|]. eexists a, p, a0, fed, a1, _, fs'. split_and!; try done. left.
    rewrite <- Ht3 in Ht. destruct Ht as [->|(p' & [=] & _)]. done.
Qed.

(** *** Witnesses and a concrete run *)

Definition f64_THREE : f64 := F64 (1024 * 2 ^ 52 + 2 ^ 51).

(** Federate 1 is at time 1, regulating with lookahead 1 and constrained;
    federate 2 is at time 1, constrained, waits for time 3 and has a message of
    time 3 queued. *)
Definition tar_session (h : Z) (t : TimeState) (q : list TsoMessage) : FederateSession :=
  mkFederateSession (FederateHandle_new h) "f" "t" h PubSubState_default t Switches_default q.
Definition tar_federation (pending1 : option f64) : Federation :=
  set_federates (λ _,
    <[FederateHandle_new 1 := tar_session 1 (mkTimeState true true f64_ONE f64_ONE pending1)
        [mkTsoMessage f64_TWO FederationSaved; mkTsoMessage f64_THREE FederationSaved]]>
    (<[FederateHandle_new 2 := tar_session 2 (mkTimeState false true f64_ONE f64_ZERO (Some f64_THREE))
        [mkTsoMessage f64_THREE FederationSaved]]> ∅))
  (Federation_new "f" MergedFom_new).
Definition tar_state : DispatchState :=
  mkDispatchState (set_fed_heap (λ _, {[ 1%positive := tar_federation None ]}) RtiNode_new)
    (mkSessionContext 1 (Some (mkMembership 1%positive (FederateHandle_new 1) "f"))) [] ∅.

Lemma tar_federation_inv : time_inv (tar_federation (Some f64_TWO)).
Proof.
  intros fh fs. unfold tar_federation. simpl. rewrite lookup_insert_Some.
  intros [[<- <-]|[_ Hl]]; [|rewrite lookup_insert_Some in Hl; destruct Hl as [[<- <-]|[_ Hl]]];
    [split; split; (reflexivity || (apply Z.leb_le; reflexivity) ||
       (intros p [= <-]; split; [reflexivity|apply Z.leb_le; reflexivity]) || idtac)..
    |by rewrite lookup_empty in Hl].
  - intros m Hm. cbn in Hm. apply elem_of_cons in Hm as [->|Hm]; [reflexivity|].
    apply elem_of_cons in Hm as [->|Hm]; [reflexivity|]. by apply elem_of_nil in Hm.
  - repeat constructor. apply Z.leb_le. reflexivity.
  - intros m Hm. cbn in Hm. apply elem_of_cons in Hm as [->|Hm]; [reflexivity|]. by apply elem_of_nil in Hm.
  - repeat constructor.
Defined.

Lemma grant_with_tso_witness :
  let '(fed', out') := try_grant_pending_advances_with_tso (P := sample_prost) RtiNode_new
    (tar_federation (Some f64_TWO)) [] in
  (λ fs, (current_time (fs_time fs), tso_time <$> tso_queue fs)) <$> federates fed' !! FederateHandle_new 1 =
    Some (f64_TWO, [f64_THREE]).
Proof.
  pose proof (grant_with_tso (P := sample_prost) RtiNode_new (tar_federation (Some f64_TWO)) []
    (FederateHandle_new 1) _ f64_TWO tar_federation_inv eq_refl eq_refl eq_refl) as H.
  destruct (try_grant_pending_advances_with_tso _ _ _) as [fed' out']. destruct H as [-> _].
  vm_compute. reflexivity.
Defined.

(** Only the first round is preceded by a drain.  Federate 1 asks for time 2
    and is granted; LBTS rises to 3, so the recursion grants federate 2 as
    well, whose message of time 3 has not been delivered: it is at time 3 with
    a message of time 3 still queued. *)
Theorem second_round_skips_messages :
  let '(s', r) := run (time_advance_request (P := sample_prost) (Some (encode_logical_time f64_TWO))) tar_state in
  r = TimeAdvanceRequestResponse ∧
  (λ fs, (current_time (fs_time fs), tso_time <$> tso_queue fs)) <$>
    federates (fed_at (ds_node s') 1%positive) !! FederateHandle_new 2 = Some (f64_THREE, [f64_THREE]).
Proof. vm_compute. split; reflexivity. Qed.

(** A regulating and constrained federate counts in the LBTS it waits for: a
    request beyond its own time plus lookahead is not granted even when it is
    the only federate. *)
Theorem own_lookahead_blocks :
  let fed := set_federates (λ _, {[ FederateHandle_new 1 :=
    tar_session 1 (mkTimeState true true f64_ONE f64_ONE None) [] ]}) (Federation_new "f" MergedFom_new) in
  let s := mkDispatchState (set_fed_heap (λ _, {[ 1%positive := fed ]}) RtiNode_new)
    (mkSessionContext 1 (Some (mkMembership 1%positive (FederateHandle_new 1) "f"))) [] ∅ in
  let '(s', r) := run (time_advance_request (P := sample_prost) (Some (encode_logical_time f64_THREE))) s in
  r = TimeAdvanceRequestResponse ∧
  (λ fs, (current_time (fs_time fs), pending_advance (fs_time fs))) <$>
    federates (fed_at (ds_node s') 1%positive) !! FederateHandle_new 1 = Some (f64_ONE, Some f64_THREE).
Proof. vm_compute. split; reflexivity. Qed.
