(* ===== verification/Declaration.v ===== *)
(** * Declaration management

    The handlers of [dispatch/declaration.rs]: publication and subscription of
    object class attributes and interaction classes, with the relevance
    advisories they trigger.  A federate's subscriptions are recorded twice,
    in its own [PubSubState] and in the federation's matrix; [subs_consistent]
    is the relation between the two that the handlers keep. *)

From S2P Require Import Prelude CoreTypes Fom Exception Proto State Subscription Handles Routing.
From S2P Require Import Handler.

(** Insert every item of a decoded list, stopping at the first error. *)
Fixpoint decode_set {H} `{Countable H} (dec : ProtoHandle → result HandleError H)
    (l : list ProtoHandle) (out : gset H) : result Resp (gset H) :=
  match l with
  | [] => Ok out
  | a :: l => match dec a with
              | Ok h => decode_set dec l ({[h]} ∪ out)
              | Err (Invalid n) => Err (exception_variant n "")
              end
  end.

Definition decode_handle_set (set : option (list ProtoHandle)) : result Resp (gset AttributeHandle) :=
  match set with None => Ok ∅ | Some l => decode_set decode_attribute l ∅ end.

Definition decode_interaction_or_err (h : option ProtoHandle) : result Resp InteractionClassHandle :=
  ok_or (x ← h; ok (decode_interaction_class x)) (exception_variant InvalidInteractionClassHandle "").

(** [map.entry(k).or_default().extend(set)] *)
Definition entry_extend {K A} `{Countable K, Countable A} (k : K) (s : gset A)
    (m : gmap K (gset A)) : gmap K (gset A) := <[k := s ∪ default ∅ (m !! k)]> m.

(** Remove [s] from the entry of [k] and drop the entry when it is empty. *)
Definition entry_remove {K A} `{Countable K, Countable A} (k : K) (s : gset A)
    (m : gmap K (gset A)) : gmap K (gset A) :=
  match m !! k with
  | Some e => if decide (e ∖ s = ∅) then delete k m else <[k := e ∖ s]> m
  | None => m
  end.

(** [for attr in &set { subs.subscribe_attribute(class, *attr, fh); }] *)
Definition subscribe_all (class : ObjectClassHandle) (set : gset AttributeHandle)
    (fh : FederateHandle) (subs : SubscriptionMatrix) : SubscriptionMatrix :=
  foldl (λ subs attr, (subscribe_attribute class attr fh subs).1) subs (elements set).
Definition unsubscribe_all (class : ObjectClassHandle) (set : gset AttributeHandle)
    (fh : FederateHandle) (subs : SubscriptionMatrix) : SubscriptionMatrix :=
  foldl (λ subs attr, (unsubscribe_attribute class attr fh subs).1) subs (elements set).

Definition fed_class_has_subscribers (fed : Federation) (class : ObjectClassHandle) : bool :=
  class_has_subscribers (subscriptions fed) class.
Definition interaction_has_subscribers (fed : Federation) (class : InteractionClassHandle) : bool :=
  bool_decide (is_Some (by_interaction (subscriptions fed) !! class)).

Section handlers.
Context {P : Prost}.

(** The handles of the sessions that satisfy [p], called back. *)
Definition advise (p : FederateSession → bool) (cb : CallbackRequest) : FedEffect := λ node fed out,
  let targets : gset FederateHandle := list_to_set
    (fs_handle <$> filter (λ fs, p fs = true) (map_to_list (federates fed)).*2) in
  if decide (targets = ∅) then (fed, out)
  else (fed, fan_out out (live_connections node fed targets) cb).

Definition publishes_class (class : ObjectClassHandle) (fs : FederateSession) : bool :=
  object_class_relevance_advisory (switches fs) &&
  bool_decide (is_Some (published_attrs (pub_sub fs) !! class)).
Definition publishes_interaction (class : InteractionClassHandle) (fs : FederateSession) : bool :=
  interaction_relevance_advisory (switches fs) &&
  bool_decide (class ∈ published_interactions (pub_sub fs)).

Definition emit_start_registration (class : ObjectClassHandle) (exclude : FederateHandle) : FedEffect :=
  advise (λ fs, negb (bool_decide (fs_handle fs = exclude)) && publishes_class class fs)
    (start_registration_for_object_class class).
Definition emit_stop_registration (class : ObjectClassHandle) : FedEffect :=
  advise (publishes_class class) (stop_registration_for_object_class class).
Definition emit_turn_interactions_on (class : InteractionClassHandle) (exclude : FederateHandle)
    : FedEffect :=
  advise (λ fs, negb (bool_decide (fs_handle fs = exclude)) && publishes_interaction class fs)
    (turn_interactions_on class).
Definition emit_turn_interactions_off (class : InteractionClassHandle) : FedEffect :=
  advise (publishes_interaction class) (turn_interactions_off class).

Definition publish_object_class_attributes (class : option ProtoHandle)
    (attrs : option (list ProtoHandle)) : Handler Resp :=
  m ← get_membership;
  class ← decode_or_return decode_object_class class (exception_variant InvalidObjectClassHandle "");
  fed ← get_federation m;
  return_if (bool_decide (object_class_def (fed_fom fed) class = None))
    (exception_variant ObjectClassNotDefined "");;
  set ← ok_or_return (decode_handle_set attrs) id;
  modify_federate m (set_pub_sub (set_published_attrs (entry_extend class set)));;
  mret PublishObjectClassAttributesResponse.

Definition unpublish_object_class_attributes (class : option ProtoHandle)
    (attrs : option (list ProtoHandle)) : Handler Resp :=
  m ← get_membership;
  class ← decode_or_return decode_object_class class (exception_variant InvalidObjectClassHandle "");
  set ← ok_or_return (decode_handle_set attrs) id;
  modify_federate m (set_pub_sub (set_published_attrs (entry_remove class set)));;
  mret UnpublishObjectClassAttributesResponse.

(** [has_node] is [node.is_some()]. *)
Definition subscribe_object_class_attributes_inner (class : option ProtoHandle)
    (attrs : option (list ProtoHandle)) (has_node : bool) : Handler Resp :=
  m ← get_membership;
  class ← decode_or_return decode_object_class class (exception_variant InvalidObjectClassHandle "");
  fed ← get_federation m;
  return_if (bool_decide (object_class_def (fed_fom fed) class = None))
    (exception_variant ObjectClassNotDefined "");;
  set ← ok_or_return (decode_handle_set attrs) id;
  let was_subscribed := fed_class_has_subscribers fed class in
  modify_federate m (set_pub_sub (set_subscribed_attrs (entry_extend class set)));;
  modify_federation m (set_subscriptions (subscribe_all class set (m_federate_handle m)));;
  fed ← get_federation m;
  (if has_node && negb was_subscribed && fed_class_has_subscribers fed class
   then on_federation m (emit_start_registration class (m_federate_handle m)) else mret tt);;
  mret SubscribeObjectClassAttributesResponse.

Definition unsubscribe_object_class_attributes_inner (class : option ProtoHandle)
    (attrs : option (list ProtoHandle)) (has_node : bool) : Handler Resp :=
  m ← get_membership;
  class ← decode_or_return decode_object_class class (exception_variant InvalidObjectClassHandle "");
  set ← ok_or_return (decode_handle_set attrs) id;
  fed ← get_federation m;
  let was_subscribed := fed_class_has_subscribers fed class in
  modify_federate m (set_pub_sub (set_subscribed_attrs (entry_remove class set)));;
  modify_federation m (set_subscriptions (unsubscribe_all class set (m_federate_handle m)));;
  fed ← get_federation m;
  (if has_node && was_subscribed && negb (fed_class_has_subscribers fed class)
   then on_federation m (emit_stop_registration class) else mret tt);;
  mret UnsubscribeObjectClassAttributesResponse.

Definition publish_interaction_class (class : option ProtoHandle) : Handler Resp :=
  m ← get_membership;
  class ← ok_or_return (decode_interaction_or_err class) id;
  fed ← get_federation m;
  return_if (bool_decide (interaction_class_def (fed_fom fed) class = None))
    (exception_variant InteractionClassNotDefined "");;
  modify_federate m (set_pub_sub (set_published_interactions (union {[class]})));;
  mret PublishInteractionClassResponse.

Definition unpublish_interaction_class (class : option ProtoHandle) : Handler Resp :=
  m ← get_membership;
  class ← ok_or_return (decode_interaction_or_err class) id;
  modify_federate m (set_pub_sub (set_published_interactions (λ s, s ∖ {[class]})));;
  mret UnpublishInteractionClassResponse.

Definition subscribe_interaction_class_inner (class : option ProtoHandle) (has_node : bool)
    : Handler Resp :=
  m ← get_membership;
  class ← ok_or_return (decode_interaction_or_err class) id;
  fed ← get_federation m;
  return_if (bool_decide (interaction_class_def (fed_fom fed) class = None))
    (exception_variant InteractionClassNotDefined "");;
  let was_subscribed := interaction_has_subscribers fed class in
  modify_federate m (set_pub_sub (set_subscribed_interactions (union {[class]})));;
  modify_federation m
    (set_subscriptions (set_by_interaction (entry_extend class {[m_federate_handle m]})));;
  fed ← get_federation m;
  (if has_node && negb was_subscribed && interaction_has_subscribers fed class
   then on_federation m (emit_turn_interactions_on class (m_federate_handle m)) else mret tt);;
  mret SubscribeInteractionClassResponse.

Definition unsubscribe_interaction_class_inner (class : option ProtoHandle) (has_node : bool)
    : Handler Resp :=
  m ← get_membership;
  class ← ok_or_return (decode_interaction_or_err class) id;
  fed ← get_federation m;
  let was_subscribed := interaction_has_subscribers fed class in
  modify_federate m (set_pub_sub (set_subscribed_interactions (λ s, s ∖ {[class]})));;
  modify_federation m
    (set_subscriptions (set_by_interaction (entry_remove class {[m_federate_handle m]})));;
  fed ← get_federation m;
  (if has_node && was_subscribed && negb (interaction_has_subscribers fed class)
   then on_federation m (emit_turn_interactions_off class) else mret tt);;
  mret UnsubscribeInteractionClassResponse.

(** The [UnpublishObjectClassRequest] and [UnsubscribeObjectClassRequest] arms
    of [dispatch_call]. *)
Definition unpublish_object_class (class : option ProtoHandle) : Handler Resp :=
  m ← get_membership;
  class ← decode_or_return decode_object_class class (exception_variant InvalidObjectClassHandle "");
  modify_federate m (set_pub_sub (set_published_attrs (delete class)));;
  mret UnpublishObjectClassResponse.

Definition unsubscribe_object_class (class : option ProtoHandle) : Handler Resp :=
  m ← get_membership;
  class ← decode_or_return decode_object_class class (exception_variant InvalidObjectClassHandle "");
  modify_federate m (set_pub_sub (set_subscribed_attrs (delete class)));;
  modify_federation m (set_subscriptions (remove_class class));;
  mret UnsubscribeObjectClassResponse.
End handlers.

(** ** Several subscriptions at once *)

Definition triples (class : ObjectClassHandle) (set : gset AttributeHandle) (fh : FederateHandle)
    : gset Triple := set_map (λ a, (class, a, fh)) set.

Lemma elem_of_triples class set fh c a f :
  (c, a, f) ∈ triples class set fh ↔ c = class ∧ a ∈ set ∧ f = fh.
Proof. unfold triples. rewrite elem_of_map. split; [intros (x & [= -> -> ->] & ?)|intros (-> & ? & ->)]; eauto. Qed.

Lemma subscribe_list_represents class fh l m S :
  represents m S → Z.of_nat (size S) + Z.of_nat (length l) < 2 ^ 32 →
  represents (foldl (λ subs attr, (subscribe_attribute class attr fh subs).1) m l)
    (triples class (list_to_set l) fh ∪ S).
Proof.
  revert m S. induction l as [|a l IH]; intros m S Hr Hs; simpl.
  - assert (triples class ∅ fh ∪ S = S) as -> by (unfold triples; set_solver). done.
  - simpl in Hs. destruct (subscribe_sim class a fh m S Hr ltac:(lia)) as [Hr' _].
    pose proof (spec_op_size (OpSubscribe class a fh) S) as Hsz. simpl in Hsz.
    specialize (IH _ _ Hr' ltac:(simpl; lia)). simpl in IH.
    assert (triples class ({[a]} ∪ list_to_set l) fh ∪ S =
            triples class (list_to_set l) fh ∪ ({[(class, a, fh)]} ∪ S)) as ->; [|done].
    apply set_eq. intros [[c' a'] f']. rewrite !elem_of_union, !elem_of_triples, elem_of_union. set_solver.
Qed.

Lemma unsubscribe_list_represents class fh l m S :
  represents m S → Z.of_nat (size S) < 2 ^ 32 →
  represents (foldl (λ subs attr, (unsubscribe_attribute class attr fh subs).1) m l)
    (S ∖ triples class (list_to_set l) fh).
Proof.
  revert m S. induction l as [|a l IH]; intros m S Hr Hs; simpl.
  - assert (S ∖ triples class ∅ fh = S) as -> by (unfold triples; set_solver). done.
  - destruct (unsubscribe_sim class a fh m S Hr Hs) as [Hr' _].
    assert (Hle : (size (S ∖ {[(class, a, fh)]}) ≤ size S)%nat) by (apply subseteq_size; set_solver).
    specialize (IH _ _ Hr' ltac:(simpl; lia)). simpl in IH.
    assert (S ∖ triples class ({[a]} ∪ list_to_set l) fh =
            (S ∖ {[(class, a, fh)]}) ∖ triples class (list_to_set l) fh) as ->; [|done].
    apply set_eq. intros [[c' a'] f']. rewrite !elem_of_difference, !elem_of_triples, elem_of_union. set_solver.
Qed.

Lemma subscribe_all_represents class set fh m S :
  represents m S → Z.of_nat (size S) + Z.of_nat (size set) < 2 ^ 32 →
  represents (subscribe_all class set fh m) (triples class set fh ∪ S).
Proof.
  intros Hr Hs. unfold subscribe_all.
  pose proof (subscribe_list_represents class fh (elements set) m S Hr Hs) as H.
  by rewrite list_to_set_elements_L in H.
Qed.

Lemma unsubscribe_all_represents class set fh m S :
  represents m S → Z.of_nat (size S) < 2 ^ 32 →
  represents (unsubscribe_all class set fh m) (S ∖ triples class set fh).
Proof.
  intros Hr Hs. unfold unsubscribe_all.
  pose proof (unsubscribe_list_represents class fh (elements set) m S Hr Hs) as H.
  by rewrite list_to_set_elements_L in H.
Qed.

Lemma entry_extend_elem {K A} `{Countable K, Countable A} (k k' : K) (s : gset A) m (x : A) :
  x ∈ default ∅ (entry_extend k s m !! k') ↔ (k' = k ∧ x ∈ s) ∨ x ∈ default ∅ (m !! k').
Proof.
  unfold entry_extend. destruct (decide (k' = k)) as [->|Hne].
  - rewrite lookup_insert_eq. simpl. set_solver.
  - rewrite lookup_insert_ne by done. naive_solver.
Qed.

Lemma entry_remove_elem {K A} `{Countable K, Countable A} (k k' : K) (s : gset A) m (x : A) :
  x ∈ default ∅ (entry_remove k s m !! k') ↔ x ∈ default ∅ (m !! k') ∧ ¬ (k' = k ∧ x ∈ s).
Proof.
  unfold entry_remove. destruct (decide (k' = k)) as [->|Hne].
  - destruct (m !! k) as [e|] eqn:He; [|rewrite He; set_solver]. case_decide as Hd.
    + rewrite lookup_delete_eq. simpl. set_solver.
    + rewrite lookup_insert_eq. simpl. set_solver.
  - destruct (m !! k) as [e|] eqn:He; [case_decide|].
    + rewrite lookup_delete_ne by done. naive_solver.
    + rewrite lookup_insert_ne by done. naive_solver.
    + naive_solver.
Qed.

(** ** The two records of a subscription agree *)

Record subs_consistent (fed : Federation) (S : gset Triple) : Prop := {
  sc_matrix : represents (subscriptions fed) S;
  sc_sessions fh fs c a : federates fed !! fh = Some fs →
    (c, a, fh) ∈ S ↔ a ∈ default ∅ (subscribed_attrs (pub_sub fs) !! c)
}.

Section consistency.
Context {P : Prost}.

#[export] Instance advise_adds p cb : AddsCallbacks (advise p cb).
Proof.
  intros node fed out. unfold advise. case_decide; simpl; [done|].
  rewrite fan_out_app. by apply prefix_app_r.
Qed.

Lemma advise_fed p cb node fed out : (advise p cb node fed out).1 = fed.
Proof. unfold advise. by case_decide. Qed.

Lemma subscribe_consistent fed S m class set :
  subs_consistent fed S → Z.of_nat (size S) + Z.of_nat (size set) < 2 ^ 32 →
  subs_consistent
    (set_subscriptions (subscribe_all class set m)
      (update_federate m (set_pub_sub (set_subscribed_attrs (entry_extend class set))) fed))
    (triples class set m ∪ S).
Proof.
  intros [Hm Hs] Hsz. split; [by apply subscribe_all_represents|].
  intros fh fs c a. simpl. rewrite elem_of_union, elem_of_triples, lookup_alter_Some.
  intros [(<- & fs0 & Hfs0 & ->)|[Hne Hfs]].
  - simpl. rewrite entry_extend_elem, (Hs _ _ c a Hfs0). naive_solver.
  - rewrite (Hs _ _ c a Hfs). naive_solver.
Qed.

Lemma unsubscribe_consistent fed S m class set :
  subs_consistent fed S → Z.of_nat (size S) < 2 ^ 32 →
  subs_consistent
    (set_subscriptions (unsubscribe_all class set m)
      (update_federate m (set_pub_sub (set_subscribed_attrs (entry_remove class set))) fed))
    (S ∖ triples class set m).
Proof.
  intros [Hm Hs] Hsz. split; [by apply unsubscribe_all_represents|].
  intros fh fs c a. simpl. rewrite elem_of_difference, elem_of_triples, lookup_alter_Some.
  intros [(<- & fs0 & Hfs0 & ->)|[Hne Hfs]].
  - simpl. rewrite entry_remove_elem, (Hs _ _ c a Hfs0). naive_solver.
  - rewrite (Hs _ _ c a Hfs). naive_solver.
Qed.
End consistency.

(** ** Properties *)

Lemma live_connections_node node node' fed fhs :
  connections node = connections node' → live_connections node fed fhs = live_connections node' fed fhs.
Proof. unfold live_connections. by intros ->. Qed.

Lemma advise_node {P : Prost} p cb node node' fed out :
  connections node = connections node' → advise p cb node fed out = advise p cb node' fed out.
Proof. intros H. unfold advise. by rewrite (live_connections_node node node'). Qed.

Lemma fed_class_has_subscribers_spec fed S class :
  subs_consistent fed S → fed_class_has_subscribers fed class = true ↔ Spec.has_subscribers S class.
Proof. intros [Hm _]. by apply class_has_subscribers_spec. Qed.

Lemma has_subscribers_dec S class : Decision (Spec.has_subscribers S class).
Proof.
  refine (cast_if (decide (filter (λ t : Triple, t.1.1 = class) S ≠ ∅))).
  - apply set_choose_L in n as [[[c a] f] Ht]. apply elem_of_filter in Ht as [Hc Ht].
    simpl in Hc. subst. by exists a, f.
  - intros (a & f & Ht). apply n. intros He.
    assert (Hin : (class, a, f) ∈ filter (λ t : Triple, t.1.1 = class) S) by (by apply elem_of_filter).
    rewrite He in Hin. by apply not_elem_of_empty in Hin.
Defined.
#[export] Existing Instance has_subscribers_dec.

(** The class gets its first subscriber. *)
Lemma first_subscriber S class set fh :
  ¬ Spec.has_subscribers S class ∧ Spec.has_subscribers (triples class set fh ∪ S) class ↔
  ¬ Spec.has_subscribers S class ∧ set ≠ ∅.
Proof.
  split; intros [Hn H]; (split; [done|]).
  - destruct H as (a & f & [Ht|Ht]%elem_of_union).
    + apply elem_of_triples in Ht as (_ & Ha & _). set_solver.
    + destruct Hn. by exists a, f.
  - apply set_choose_L in H as [a Ha]. exists a, fh. apply elem_of_union. left. by apply elem_of_triples.
Qed.

(** Subscribing.  When a member subscribes to attributes [set] of a class
    the FOM defines, the call succeeds; the federation's matrix and the
    federate's own record agree before and after, and what was added is
    exactly the caller's subscription to each attribute of [set];
    [StartRegistrationForObjectClass] goes out exactly when the class gets its
    first subscriber. *)
Theorem subscribe_attributes_spec {P : Prost} s m fed S pc class attrs set :
  membership (ds_ctx s) = Some m → at_fed m s fed → subs_consistent fed S →
  decode_object_class pc = Ok class → object_class_def (fed_fom fed) class ≠ None →
  decode_handle_set attrs = Ok set → Z.of_nat (size S) + Z.of_nat (size set) < 2 ^ 32 →
  let '(s', r) := run (subscribe_object_class_attributes_inner (Some pc) attrs true) s in
  r = SubscribeObjectClassAttributesResponse ∧
  ∃ fed', at_fed m s' fed' ∧ subs_consistent fed' (triples class set (m_federate_handle m) ∪ S) ∧
    ds_callbacks s' =
      if decide (¬ Spec.has_subscribers S class ∧ set ≠ ∅)
      then (emit_start_registration class (m_federate_handle m) (ds_node s) fed' (ds_callbacks s)).2
      else ds_callbacks s.
Proof.
  intros Hm Hfed HS Hc Hdef Hset Hsz. apply run_wp_let.
  rewrite <- (federation_of_heap m s fed Hfed) in Hdef.
  unfold subscribe_object_class_attributes_inner. wp_det.
  rewrite (federation_of_heap m s fed Hfed).
  eapply wp_at_modify_federate; [exact Hfed|]. intros s1 Hs1 I1. wp_det.
  eapply wp_at_modify_federation; [exact Hs1|]. intros s2 Hs2 I2. wp_det.
  rewrite (federation_of_heap m s2 _ Hs2).
  pose proof (subscribe_consistent fed S (m_federate_handle m) class set HS Hsz) as HS'.
  set (fed' := set_subscriptions _ _) in *.
  pose proof (io_trans _ _ _ _ _ I1 I2) as I. rewrite (io_callbacks _ _ _ I1) in I.
  assert (Hb : (true && negb (fed_class_has_subscribers fed class) && fed_class_has_subscribers fed' class = true)
    ↔ ¬ Spec.has_subscribers S class ∧ set ≠ ∅).
  { rewrite <- (first_subscriber S class set (m_federate_handle m)). simpl.
    rewrite andb_true_iff, negb_true_iff, (fed_class_has_subscribers_spec _ _ _ HS').
    by rewrite (bool_false_iff _ _ (fed_class_has_subscribers_spec _ _ _ HS)). }
  destruct (true && _ && _).
  - eapply wp_at_effect; [exact Hs2|]. intros s3 Hs3 I3. apply wp_ret. split; [done|].
    unfold emit_start_registration in Hs3, I3 |- *. rewrite advise_fed in Hs3. exists fed'.
    split_and!; [done|done|]. rewrite decide_True by (by apply Hb). rewrite (io_callbacks _ _ _ I3), (io_callbacks _ _ _ I).
    by rewrite (advise_node _ _ _ (ds_node s)) by apply I.
  - apply wp_ret. wp_det. split; [done|]. exists fed'. split_and!; [done..|].
    rewrite decide_False by (rewrite <- Hb; done). apply I.
Qed.

(** Unsubscribing.  When a member unsubscribes from attributes [set] of a
    class, the matrix and the federate's own record agree before and after;
    what was removed is exactly the caller's subscriptions to those
    attributes; [StopRegistrationForObjectClass] goes out exactly when the
    class loses its last subscriber. *)
Theorem unsubscribe_attributes_spec {P : Prost} s m fed S pc class attrs set :
  membership (ds_ctx s) = Some m → at_fed m s fed → subs_consistent fed S →
  decode_object_class pc = Ok class →
  decode_handle_set attrs = Ok set → Z.of_nat (size S) < 2 ^ 32 →
  let S' := S ∖ triples class set (m_federate_handle m) in
  let '(s', r) := run (unsubscribe_object_class_attributes_inner (Some pc) attrs true) s in
  r = UnsubscribeObjectClassAttributesResponse ∧
  ∃ fed', at_fed m s' fed' ∧ subs_consistent fed' S' ∧
    ds_callbacks s' =
      if decide (Spec.has_subscribers S class ∧ ¬ Spec.has_subscribers S' class)
      then (emit_stop_registration class (ds_node s) fed' (ds_callbacks s)).2
      else ds_callbacks s.
Proof.
  intros Hm Hfed HS Hc Hset Hsz S'. apply run_wp_let.
  unfold unsubscribe_object_class_attributes_inner. wp_det.
  rewrite (federation_of_heap m s fed Hfed).
  eapply wp_at_modify_federate; [exact Hfed|]. intros s1 Hs1 I1. wp_det.
  eapply wp_at_modify_federation; [exact Hs1|]. intros s2 Hs2 I2. wp_det.
  rewrite (federation_of_heap m s2 _ Hs2).
  pose proof (unsubscribe_consistent fed S (m_federate_handle m) class set HS Hsz) as HS'.
  fold S' in HS'. set (fed' := set_subscriptions _ _) in *.
  pose proof (io_trans _ _ _ _ _ I1 I2) as I. rewrite (io_callbacks _ _ _ I1) in I.
  assert (Hb : (true && fed_class_has_subscribers fed class && negb (fed_class_has_subscribers fed' class) = true)
    ↔ Spec.has_subscribers S class ∧ ¬ Spec.has_subscribers S' class).
  { simpl. rewrite andb_true_iff, negb_true_iff, (fed_class_has_subscribers_spec _ _ _ HS).
    by rewrite (bool_false_iff _ _ (fed_class_has_subscribers_spec _ _ _ HS')). }
  destruct (true && _ && _).
  - eapply wp_at_effect; [exact Hs2|]. intros s3 Hs3 I3. apply wp_ret. split; [done|].
    unfold emit_stop_registration in Hs3, I3 |- *. rewrite advise_fed in Hs3. exists fed'.
    split_and!; [done|done|]. rewrite decide_True by (by apply Hb). rewrite (io_callbacks _ _ _ I3), (io_callbacks _ _ _ I).
    by rewrite (advise_node _ _ _ (ds_node s)) by apply I.
  - apply wp_ret. wp_det. split; [done|]. exists fed'. split_and!; [done..|].
    rewrite decide_False by (rewrite <- Hb; done). apply I.
Qed.

(** *** Witnesses and a concrete run *)

(** A FOM with one object class, handle 1, and one attribute, handle 1. *)
Definition demo_fom : MergedFom :=
  {| modules := [];
     object_classes := {[ ObjectClassHandle_new 1 :=
       {| oc_name := "HLAobjectRoot"; oc_parent := None; oc_attributes := [];
          oc_semantics := None |} ]};
     interaction_classes := ∅;
     object_class_table := {[ "HLAobjectRoot"%string := ObjectClassHandle_new 1 ]};
     attribute_table := {[ (ObjectClassHandle_new 1, "HLAprivilegeToDeleteObject"%string) := AttributeHandle_new 1 ]};
     interaction_class_table := ∅; parameter_table := ∅; dimension_table := ∅ |}.
Definition demo_session (h : Z) : FederateSession :=
  mkFederateSession (FederateHandle_new h) "f" "t" h PubSubState_default TimeState_default
    Switches_default [].
Definition demo_federation : Federation :=
  set_federates (λ _, <[FederateHandle_new 1 := demo_session 1]>
    (<[FederateHandle_new 2 := demo_session 2]> ∅)) (Federation_new "f" demo_fom).
Definition demo_state (h : Z) (fed : Federation) : DispatchState :=
  mkDispatchState (set_fed_heap (λ _, {[ 1%positive := fed ]}) RtiNode_new)
    (mkSessionContext h (Some (mkMembership 1%positive (FederateHandle_new h) "f"))) [] ∅.
Definition demo_class : ProtoHandle := encode_object_class (ObjectClassHandle_new 1).
Definition demo_attrs : option (list ProtoHandle) := Some [encode_attribute (AttributeHandle_new 1)].
Definition demo_prost : Prost := {| encode_callback := λ _, [] |}.

Lemma demo_consistent : subs_consistent demo_federation ∅.
Proof.
  split; [apply represents_default|]. intros fh fs c a. unfold demo_federation. simpl.
  rewrite !lookup_insert_Some, lookup_empty.
  intros [[<- <-]|[_ [[<- <-]|[_ ?]]]]; [..|done]; simpl; rewrite lookup_empty; done.
Defined.

Lemma subscribe_attributes_witness :
  (run (subscribe_object_class_attributes_inner (P := demo_prost) (Some demo_class) demo_attrs true)
    (demo_state 1 demo_federation)).2 = SubscribeObjectClassAttributesResponse.
Proof.
  pose proof (subscribe_attributes_spec (P := demo_prost) (demo_state 1 demo_federation)
    (mkMembership 1%positive (FederateHandle_new 1) "f") demo_federation ∅ demo_class
    (ObjectClassHandle_new 1) demo_attrs {[AttributeHandle_new 1]} eq_refl eq_refl demo_consistent
    eq_refl ltac:(done) eq_refl ltac:(vm_compute; reflexivity)) as H.
  destruct (run _ _) as [s' r]. exact (proj1 H).
Defined.

Lemma unsubscribe_attributes_witness :
  (run (unsubscribe_object_class_attributes_inner (P := demo_prost) (Some demo_class) demo_attrs true)
    (demo_state 1 demo_federation)).2 = UnsubscribeObjectClassAttributesResponse.
Proof.
  pose proof (unsubscribe_attributes_spec (P := demo_prost) (demo_state 1 demo_federation)
    (mkMembership 1%positive (FederateHandle_new 1) "f") demo_federation ∅ demo_class
    (ObjectClassHandle_new 1) demo_attrs {[AttributeHandle_new 1]} eq_refl eq_refl demo_consistent
    eq_refl eq_refl ltac:(vm_compute; reflexivity)) as H.
  destruct (run _ _) as [s' r]. exact (proj1 H).
Defined.

(** [UnsubscribeObjectClassRequest] calls [remove_class], which removes the
    subscriptions of every federate: after federate 1 subscribes and federate
    2, which never subscribed, unsubscribes from the class, the matrix has no
    subscriber left although federate 1's own record still has its
    subscription. *)
Theorem unsubscribe_object_class_drops_others :
  let s1 := (run (subscribe_object_class_attributes_inner (P := demo_prost) (Some demo_class) demo_attrs true)
    (demo_state 1 demo_federation)).1 in
  let fed1 := fed_at (ds_node s1) 1%positive in
  let s2 := (run (unsubscribe_object_class (Some demo_class)) (demo_state 2 fed1)).1 in
  let fed2 := fed_at (ds_node s2) 1%positive in
  attr_set (subscriptions fed1) (ObjectClassHandle_new 1) (AttributeHandle_new 1) = {[FederateHandle_new 1]} ∧
  attr_set (subscriptions fed2) (ObjectClassHandle_new 1) (AttributeHandle_new 1) = ∅ ∧
  (λ fs, subscribed_attrs (pub_sub fs) !! ObjectClassHandle_new 1) <$> federates fed2 !! FederateHandle_new 1 =
    Some (Some {[AttributeHandle_new 1]}).
Proof. vm_compute. repeat split. Qed.
