(* ===== verification/Ddm.v ===== *)
(** * Data distribution management

    Regions: their life cycle ([dispatch/ddm_lifecycle.rs]), the overlap test
    and the filtering of subscribers ([dispatch/ddm_matching.rs]), and the
    region-aware subscriptions of [dispatch/restore.rs]. *)

From S2P Require Import Prelude CoreTypes Fom Exception Proto State Subscription Handles Routing.
From S2P Require Import Handler Declaration.

(** ** Matching *)

(** The closure of the loop body: two regions overlap when the ranges of
    every dimension they share intersect. *)
Definition ranges_intersect (p s : Z * Z) : bool := (p.1 <=? s.2) && (s.1 <=? p.2).

Definition regions_overlap (rp rs : Region) : bool :=
  forallb (λ d, match committed rp !! d, committed rs !! d with
                | Some bp, Some bs => ranges_intersect bp bs
                | _, _ => true end)
    (filter (λ d, is_Some (committed rs !! d)) (map_to_list (committed rp)).*1).

Definition regions_overlap_any (fed : Federation) (pub_regions sub_regions : gset RegionHandle) : bool :=
  if bool_decide (pub_regions = ∅) || bool_decide (sub_regions = ∅) then true
  else existsb (λ p, existsb (λ s,
         match regions fed !! p, regions fed !! s with
         | Some rp, Some rs => regions_overlap rp rs
         | _, _ => false
         end) (elements sub_regions)) (elements pub_regions).

Definition sub_regions_of (class : ObjectClassHandle) (attr : AttributeHandle) (fs : FederateSession)
    : gset RegionHandle := default ∅ (subscribed_attrs_regions (pub_sub fs) !! (class, attr)).

Definition filter_subscribers_by_regions (fed : Federation) (subscribers : gset FederateHandle)
    (instance : ObjectInstanceHandle) (class : ObjectClassHandle) (attr : AttributeHandle)
    : gset FederateHandle :=
  match object_instances fed !! instance with
  | None => ∅
  | Some i =>
      let pub_regions := default ∅ (attribute_regions i !! attr) in
      if decide (pub_regions = ∅) then subscribers
      else filter (λ fh, match federates fed !! fh with
                         | Some fs => regions_overlap_any fed pub_regions (sub_regions_of class attr fs)
                         | None => false end = true) subscribers
  end.

(** ** Life cycle *)

(** [h.data.len() == 8], then [u64::from_be_bytes]. *)
Definition decode_region (h : ProtoHandle) : option RegionHandle :=
  if (length h =? 8)%nat then Some (RegionHandle_new (from_be_bytes h)) else None.
Definition decode_dimension (h : ProtoHandle) : option DimensionHandle :=
  if (length h =? 4)%nat then Some (DimensionHandle_new (from_be_bytes h)) else None.

Definition create_region (dimensions : option (list ProtoHandle)) : Handler Resp :=
  m ← get_membership;
  let dims : gmap DimensionHandle (Z * Z) :=
    foldl (λ acc d, <[d := (0, u32_MAX)]> acc) ∅ (omap decode_dimension (default [] dimensions)) in
  fed ← get_federation m;
  let raw_id := next_region_id fed in
  modify_federation m (set_next_region_id (fetch_add64 1));;
  let handle := RegionHandle_new raw_id in
  modify_federation m (set_regions (insert handle (mkRegion handle (m_federate_handle m) dims dims)));;
  mret (CreateRegionResponse (Some (to_be_bytes 8 raw_id))).

(** The loop over the region handles; the early return keeps what was
    committed before it. *)
Fixpoint commit_regions (m : Membership) (rhs : list RegionHandle) : Handler unit :=
  match rhs with
  | [] => mret tt
  | rh :: rhs =>
      fed ← get_federation m;
      (match regions fed !! rh with
       | Some r =>
           return_if (negb (bool_decide (region_owner r = m_federate_handle m)))
             (exception_variant RegionNotCreatedByThisFederate "");;
           modify_federation m (set_regions (alter (λ r, set_committed (λ _, staged r) r) rh))
       | None => mret tt
       end);;
      commit_regions m rhs
  end.

Definition commit_region_modifications (rs : option (list ProtoHandle)) : Handler Resp :=
  m ← get_membership;
  commit_regions m (omap decode_region (default [] rs));;
  mret CommitRegionModificationsResponse.

Definition delete_region (region : option ProtoHandle) : Handler Resp :=
  m ← get_membership;
  rh ← some_or_return (h ← region; decode_region h) (exception_variant InvalidRegion "");
  fed ← get_federation m;
  match regions fed !! rh with
  | Some r =>
      if bool_decide (region_owner r = m_federate_handle m)
      then modify_federation m (set_regions (delete rh));; mret DeleteRegionResponse
      else mret (exception_variant RegionNotCreatedByThisFederate "")
  | None => mret (exception_variant InvalidRegion "")
  end.

Definition get_range_bounds (region dimension : option ProtoHandle) : Handler Resp :=
  m ← get_membership;
  rh ← some_or_return (h ← region; decode_region h) (exception_variant InvalidRegion "");
  dh ← some_or_return (h ← dimension; decode_dimension h) (exception_variant InvalidDimension "");
  fed ← get_federation m;
  r ← some_or_return (regions fed !! rh) (exception_variant InvalidRegion "");
  let bounds := default (0, u32_MAX) (committed r !! dh) in
  mret (GetRangeBoundsResponse (Some {| rb_lower := bounds.1; rb_upper := bounds.2 |})).

Definition set_range_bounds (region dimension : option ProtoHandle) (bounds : option ProtoRangeBounds)
    : Handler Resp :=
  m ← get_membership;
  rh ← some_or_return (h ← region; decode_region h) (exception_variant InvalidRegion "");
  dh ← some_or_return (h ← dimension; decode_dimension h) (exception_variant InvalidDimension "");
  bounds ← match bounds with
    | Some b => if rb_lower b <=? rb_upper b then mret (rb_lower b, rb_upper b)
                else ret_early (exception_variant InvalidRangeBound "lower > upper")
    | None => ret_early (exception_variant InvalidRangeBound "missing")
    end;
  fed ← get_federation m;
  match regions fed !! rh with
  | Some r =>
      if bool_decide (region_owner r = m_federate_handle m)
      then modify_federation m (set_regions (alter (set_staged (insert dh bounds)) rh));;
           mret SetRangeBoundsResponse
      else mret (exception_variant RegionNotCreatedByThisFederate "")
  | None => mret (exception_variant InvalidRegion "")
  end.

(** ** Region-aware subscriptions *)

(** An [AttributeSetRegionSetPair]. *)
Record ProtoAttrRegionPair := mkAttrRegionPair {
  attribute_set : option (list ProtoHandle);
  region_set : option (list ProtoHandle)
}.

Definition decode_attr_region_pairs (pairs : option (list ProtoAttrRegionPair))
    : gmap AttributeHandle (gset RegionHandle) :=
  match pairs with
  | None => ∅
  | Some list =>
      foldl (λ out pair,
        let attrs := omap (λ h, ok (decode_attribute h)) (default [] (attribute_set pair)) in
        let regions : gset RegionHandle :=
          list_to_set (omap decode_region (default [] (region_set pair))) in
        foldl (λ out a, entry_extend a regions out) out attrs) ∅ list
  end.

Section handlers.
Context {P : Prost}.

Definition subscribe_object_class_attributes_with_regions (class : option ProtoHandle)
    (pairs : option (list ProtoAttrRegionPair)) : Handler Resp :=
  m ← get_membership;
  class ← decode_or_return decode_object_class class (exception_variant InvalidObjectClassHandle "");
  fed ← get_federation m;
  return_if (bool_decide (object_class_def (fed_fom fed) class = None))
    (exception_variant ObjectClassNotDefined "");;
  let attr_regions := decode_attr_region_pairs pairs in
  let was_subscribed := fed_class_has_subscribers fed class in
  modify_federate m (set_pub_sub (λ ps,
    foldl (λ ps '(attr, regions),
      set_subscribed_attrs_regions (entry_extend (class, attr) regions)
        (set_subscribed_attrs (entry_extend class {[attr]}) ps)) ps (map_to_list attr_regions)));;
  modify_federation m (set_subscriptions (subscribe_all class (dom attr_regions) (m_federate_handle m)));;
  fed ← get_federation m;
  (if negb was_subscribed && fed_class_has_subscribers fed class
   then on_federation m (emit_start_registration class (m_federate_handle m)) else mret tt);;
  mret SubscribeObjectClassAttributesWithRegionsResponse.

Definition unsubscribe_object_class_attributes_with_regions (class : option ProtoHandle)
    (pairs : option (list ProtoAttrRegionPair)) : Handler Resp :=
  m ← get_membership;
  class ← decode_or_return decode_object_class class (exception_variant InvalidObjectClassHandle "");
  let attr_regions := decode_attr_region_pairs pairs in
  modify_federate m (set_pub_sub (set_subscribed_attrs_regions (λ sr,
    foldl (λ sr '(attr, regions), entry_remove (class, attr) regions sr) sr (map_to_list attr_regions))));;
  mret UnsubscribeObjectClassAttributesWithRegionsResponse.
End handlers.

(** ** Regions as sets of points

    A point has a coordinate on every dimension; a region is the box of the
    points within its committed ranges, unbounded on the other dimensions. *)

Definition in_region (pt : DimensionHandle → Z) (r : Region) : Prop :=
  ∀ d b, committed r !! d = Some b → b.1 ≤ pt d ≤ b.2.

(** Ranges are not empty. *)
Definition ranges_ok (m : gmap DimensionHandle (Z * Z)) : Prop :=
  map_Forall (λ _ b, b.1 ≤ b.2) m.
Record region_ok (r : Region) : Prop := {
  ro_committed : ranges_ok (committed r);
  ro_staged : ranges_ok (staged r)
}.
Definition regions_inv (fed : Federation) : Prop := map_Forall (λ _ r, region_ok r) (regions fed).

Lemma regions_overlap_spec rp rs :
  regions_overlap rp rs = true ↔
    ∀ d bp bs, committed rp !! d = Some bp → committed rs !! d = Some bs → ranges_intersect bp bs = true.
Proof.
  unfold regions_overlap. rewrite forallb_forall. split.
  - intros H d bp bs Hp Hs. specialize (H d). rewrite Hp, Hs in H. apply H.
    apply list_elem_of_In, list_elem_of_filter. split; [done|].
    apply list_elem_of_fmap. exists (d, bp). split; [done|]. by apply elem_of_map_to_list.
  - intros H d _. destruct (committed rp !! d) eqn:Hp, (committed rs !! d) eqn:Hs; [|done..].
    by eapply H.
Qed.

Lemma ranges_intersect_sym p s : ranges_intersect p s = ranges_intersect s p.
Proof. unfold ranges_intersect. apply andb_comm. Qed.

Lemma regions_overlap_sym rp rs : regions_overlap rp rs = regions_overlap rs rp.
Proof.
  apply eq_true_iff_eq. rewrite !regions_overlap_spec. split; intros H d b1 b2 H1 H2;
    rewrite ranges_intersect_sym; by eapply H.
Qed.

Lemma overlap_point rp rs :
  ranges_ok (committed rp) → ranges_ok (committed rs) →
  regions_overlap rp rs = true ↔ ∃ pt, in_region pt rp ∧ in_region pt rs.
Proof.
  intros Hp Hs. rewrite regions_overlap_spec. split.
  - intros H. exists (λ d, match committed rp !! d, committed rs !! d with
      | Some bp, Some bs => Z.max bp.1 bs.1 | Some bp, None => bp.1 | None, Some bs => bs.1
      | None, None => 0 end).
    split; intros d b Hb; rewrite Hb.
    + pose proof (Hp d b Hb) as Hok. simpl in Hok. destruct (committed rs !! d) as [b'|] eqn:Hb'; [|lia].
      specialize (H d b b' Hb Hb'). unfold ranges_intersect in H.
      apply andb_true_iff in H as [H1%Z.leb_le H2%Z.leb_le]. lia.
    + pose proof (Hs d b Hb) as Hok. simpl in Hok. destruct (committed rp !! d) as [b'|] eqn:Hb'; [|lia].
      specialize (H d b' b Hb' Hb). unfold ranges_intersect in H.
      apply andb_true_iff in H as [H1%Z.leb_le H2%Z.leb_le]. lia.
  - intros (pt & H1 & H2) d bp bs Hbp Hbs. specialize (H1 _ _ Hbp). specialize (H2 _ _ Hbs).
    unfold ranges_intersect. apply andb_true_iff. rewrite !Z.leb_le. lia.
Qed.

(** *** The invariant is kept by the life cycle *)

Lemma create_ranges_ok l acc :
  ranges_ok acc → ranges_ok (foldl (λ acc d, <[d := (0, u32_MAX)]> acc) acc l).
Proof.
  revert acc. induction l as [|d l IH]; intros acc Ha; simpl; [done|].
  apply IH. apply map_Forall_insert_2; [done|done].
Qed.

Section invariant.
Notation preserves h := (∀ s, all_feds regions_inv s → all_feds regions_inv (run h s).1) (only parsing).
Ltac start := intros s HI; apply (run_wp _ (λ _ s', all_feds regions_inv s')).

Lemma wp_modify_regions m g Qr (Q : unit → DispatchState → Prop) s :
  all_feds regions_inv s →
  (∀ fed, at_fed m s fed → regions_inv fed → regions_inv (g fed)) →
  (∀ s', all_feds regions_inv s' → Q tt s') → wp (modify_federation m g) Qr Q s.
Proof. intros HI Hg HQ. apply wp_modify, HQ. by apply all_feds_update. Qed.

Ltac reg_step :=
  first [ progress wp_step
        | lazymatch goal with |- wp (modify_federation _ _) _ _ _ =>
            apply wp_modify_regions; [assumption| |intros ? ?] end ]; try assumption.

Lemma create_region_inv dims : preserves (create_region dims).
Proof.
  start. unfold create_region. repeat reg_step; [by intros fed _ HF|].
  intros fed _ HF. apply map_Forall_insert_2; [|done].
  split; apply create_ranges_ok; apply map_Forall_empty.
Qed.

Lemma commit_regions_inv m rhs Qr s :
  all_feds regions_inv s → (∀ r s', all_feds regions_inv s' → Qr r s') →
  wp (commit_regions m rhs) Qr (λ _ s', all_feds regions_inv s') s.
Proof.
  intros HI HQ. revert s HI. induction rhs as [|rh rhs IH]; intros s HI; cbn [commit_regions]; [done|].
  wp_step. wp_step. wp_step. wp_step. destruct (regions _ !! rh) as [r|] eqn:Hr.
  - wp_step. wp_step; [by apply HQ|]. apply wp_modify_regions; [done| |intros; by apply IH].
    intros fed _ HF. intros k r'. simpl. rewrite lookup_alter_Some.
    intros [(<- & r0 & Hr0 & ->)|[_ ?]]; [|by eapply HF]. destruct (HF _ _ Hr0). by split.
  - wp_step. by apply IH.
Qed.

Lemma commit_region_modifications_inv rs : preserves (commit_region_modifications rs).
Proof.
  start. unfold commit_region_modifications. wp_step. wp_run; [done|].
  eapply wp_mono; [by apply commit_regions_inv with (Qr := λ _ s', all_feds regions_inv s')|done|].
  intros ? s' ?. by wp_step.
Qed.

Lemma delete_region_inv r : preserves (delete_region r).
Proof.
  start. unfold delete_region. repeat reg_step. intros fed _ HF. by apply map_Forall_delete.
Qed.

Lemma set_range_bounds_inv r d b : preserves (set_range_bounds r d b).
Proof.
  start. unfold set_range_bounds. repeat reg_step. intros fed _ HF k r'. simpl.
  rewrite lookup_alter_Some. intros [(<- & rg & Hrg & ->)|[_ ?]]; [|by eapply HF].
  destruct (HF _ _ Hrg) as [? ?]. split; [done|]. simpl. apply map_Forall_insert_2; [|done].
  simpl. by apply Z.leb_le.
Qed.
End invariant.

(** ** Properties *)

(** C24: the overlap test is exact.  For publisher and subscriber regions with
    non-empty ranges, [regions_overlap_any] holds exactly when one side has no
    region (unrestricted) or some known publisher region and some known
    subscriber region share a point. *)
Theorem regions_overlap_exact fed pub_regions sub_regions :
  regions_inv fed →
  regions_overlap_any fed pub_regions sub_regions = true ↔
    pub_regions = ∅ ∨ sub_regions = ∅ ∨
    ∃ p s rp rs pt, p ∈ pub_regions ∧ s ∈ sub_regions ∧
      regions fed !! p = Some rp ∧ regions fed !! s = Some rs ∧ in_region pt rp ∧ in_region pt rs.
Proof.
  intros HI. unfold regions_overlap_any.
  destruct (bool_decide_reflect (pub_regions = ∅)); [naive_solver|].
  destruct (bool_decide_reflect (sub_regions = ∅)); [naive_solver|]. simpl.
  rewrite existsb_exists. setoid_rewrite existsb_exists. split.
  - intros (p & Hp & s & Hs & Hov). do 2 right.
    apply list_elem_of_In, elem_of_elements in Hp. apply list_elem_of_In, elem_of_elements in Hs.
    destruct (regions fed !! p) as [rp|] eqn:Hrp; [|done].
    destruct (regions fed !! s) as [rs|] eqn:Hrs; [|done].
    apply overlap_point in Hov as (pt & H1 & H2); [|by eapply HI..].
    by exists p, s, rp, rs, pt.
  - intros [?|[?|(p & s & rp & rs & pt & Hp & Hs & Hrp & Hrs & H1 & H2)]]; [done..|].
    exists p. split; [by apply list_elem_of_In, elem_of_elements|].
    exists s. split; [by apply list_elem_of_In, elem_of_elements|].
    rewrite Hrp, Hrs. apply overlap_point; [by eapply HI..|]. by exists pt.
Qed.

(** Ranges stay non-empty.  Whatever region request any session makes, if
    every region of every federation has [lower ≤ upper] on each of its
    committed and staged ranges before, it has after. *)
Theorem region_services_invariant s :
  all_feds regions_inv s →
  (∀ dims, all_feds regions_inv (run (create_region dims) s).1) ∧
  (∀ rs, all_feds regions_inv (run (commit_region_modifications rs) s).1) ∧
  (∀ r, all_feds regions_inv (run (delete_region r) s).1) ∧
  (∀ r d b, all_feds regions_inv (run (set_range_bounds r d b) s).1).
Proof.
  intros HI. split_and!; intros.
  - by apply create_region_inv.
  - by apply commit_region_modifications_inv.
  - by apply delete_region_inv.
  - by apply set_range_bounds_inv.
Qed.

(** *** Witnesses and concrete runs *)

(** Two regions on dimension 1: [0,5] owned by federate 1 and [4,9] owned by
    federate 2, both with pending modifications. *)
Definition ddm_region (h owner l u : Z) : Region :=
  mkRegion (RegionHandle_new h) (FederateHandle_new owner)
    {[ DimensionHandle_new 1 := (l, u) ]} {[ DimensionHandle_new 1 := (l + 100, u + 100) ]}.
Definition ddm_federation : Federation :=
  set_regions (λ _, <[RegionHandle_new 1 := ddm_region 1 1 0 5]>
    (<[RegionHandle_new 2 := ddm_region 2 2 4 9]> ∅)) demo_federation.

Lemma ddm_federation_inv : regions_inv ddm_federation.
Proof.
  intros k r. unfold ddm_federation. simpl. rewrite !lookup_insert_Some, lookup_empty.
  intros [[<- <-]|[_ [[<- <-]|[_ ?]]]]; [..|done]; split; simpl;
    apply map_Forall_singleton; apply Z.leb_le; reflexivity.
Defined.

Lemma regions_overlap_witness :
  regions_overlap_any ddm_federation {[RegionHandle_new 1]} {[RegionHandle_new 2]} = true ∧
  (∃ p s rp rs pt, p ∈ ({[RegionHandle_new 1]} : gset RegionHandle) ∧ s ∈ ({[RegionHandle_new 2]} : gset RegionHandle) ∧
      regions ddm_federation !! p = Some rp ∧ regions ddm_federation !! s = Some rs ∧
      in_region pt rp ∧ in_region pt rs).
Proof.
  assert (H : regions_overlap_any ddm_federation {[RegionHandle_new 1]} {[RegionHandle_new 2]} = true)
    by (vm_compute; reflexivity).
  split; [exact H|].
  apply (regions_overlap_exact ddm_federation {[RegionHandle_new 1]} {[RegionHandle_new 2]} ddm_federation_inv) in H.
  destruct H as [H|[H|H]]; [by apply (f_equal size) in H; vm_compute in H..|exact H].
Defined.

Lemma region_services_witness :
  all_feds regions_inv (run (create_region None) (demo_state 1 ddm_federation)).1.
Proof.
  apply region_services_invariant. intros r fed. simpl. rewrite lookup_singleton_Some.
  intros [_ <-]. exact ddm_federation_inv.
Defined.

(** The commit loop returns at the first region of another federate and keeps
    what it committed before: the call reports
    [RegionNotCreatedByThisFederate] and region 1 has its new range. *)
Theorem commit_partial :
  let '(s', r) := run (commit_region_modifications (Some [to_be_bytes 8 1; to_be_bytes 8 2]))
    (demo_state 1 ddm_federation) in
  r = exception_variant RegionNotCreatedByThisFederate "" ∧
  committed <$> regions (fed_at (ds_node s') 1%positive) !! RegionHandle_new 1 =
    Some {[ DimensionHandle_new 1 := (100, 105) ]}.
Proof. vm_compute. split; reflexivity. Qed.

(** Unsubscribing from the last region widens the subscription.  Federate 1
    subscribes restricted to region 1, which does not overlap region 2; after
    it unsubscribes from region 1 it matches updates from region 2. *)
Theorem unsubscribe_last_region_widens :
  let pair := Some [mkAttrRegionPair demo_attrs (Some [to_be_bytes 8 1])] in
  let fed0 := set_regions (insert (RegionHandle_new 2) (ddm_region 2 2 7 9)) ddm_federation in
  let s1 := (run (subscribe_object_class_attributes_with_regions (P := demo_prost) (Some demo_class) pair)
    (demo_state 1 fed0)).1 in
  let s2 := (run (unsubscribe_object_class_attributes_with_regions (Some demo_class) pair) s1).1 in
  let matches s := (λ fs, regions_overlap_any (fed_at (ds_node s) 1%positive) {[RegionHandle_new 2]}
    (sub_regions_of (ObjectClassHandle_new 1) (AttributeHandle_new 1) fs)) <$>
    federates (fed_at (ds_node s) 1%positive) !! FederateHandle_new 1 in
  matches s1 = Some false ∧ matches s2 = Some true.
Proof. vm_compute. split; reflexivity. Qed.
