(* ===== verification/ObjectMgmt.v ===== *)
(** * Object management

    [dispatch/object_mgmt.rs]: registration of object instances and the
    discovery callbacks, with the region variant of [dispatch/restore.rs]. *)

From stdpp Require Import pretty.
From S2P Require Import Prelude CoreTypes Fom Exception Proto State Subscription Handles Routing.
From S2P Require Import Handler Declaration Ddm.

(** ** Discovery *)

(** The loop that marks [instance] as discovered by the federates in [l] and
    collects those that had not discovered it. *)
Definition discover (instance : ObjectInstanceHandle) : FederateSession → FederateSession :=
  set_pub_sub (set_discovered_instances (union {[instance]})).
Definition mark_step (instance : ObjectInstanceHandle) (st : Federation * list FederateHandle)
    (fh : FederateHandle) : Federation * list FederateHandle :=
  match federates st.1 !! fh with
  | Some fs =>
      if decide (instance ∈ discovered_instances (pub_sub fs)) then st
      else (update_federate fh (discover instance) st.1, st.2 ++ [fh])
  | None => st
  end.
Definition mark_discovered (instance : ObjectInstanceHandle) (l : list FederateHandle)
    (fed : Federation) : Federation * list FederateHandle :=
  foldl (mark_step instance) (fed, []) l.

Definition registration_candidates (fed : Federation) (class : ObjectClassHandle)
    (producer : FederateHandle) : gset FederateHandle :=
  foldl (λ out anc,
    foldl (λ out fh, if decide (fh = producer) then out else {[fh]} ∪ out) out
      (subscribers_of_class (subscriptions fed) anc)) ∅ (inheritance_chain (fed_fom fed) class).

Section handlers.
Context {P : Prost}.

Definition notify_subscribers_of_registration (instance : ObjectInstanceHandle)
    (class : ObjectClassHandle) (name : string) (producer : FederateHandle) : FedEffect := λ node fed out,
  let candidates := registration_candidates fed class producer in
  let '(fed', to_notify) := mark_discovered instance (elements candidates) fed in
  let targets : gset FederateHandle := list_to_set to_notify in
  if decide (targets = ∅) then (fed', out)
  else (fed', fan_out out (live_connections node fed' targets)
                (discover_object_instance instance class name producer)).

(** [notify_subscribers_of_registration_subset] of [dispatch/data_flow.rs]. *)
Definition notify_subscribers_of_registration_subset (instance : ObjectInstanceHandle)
    (class : ObjectClassHandle) (producer : FederateHandle) (candidates : gset FederateHandle)
    : FedEffect := λ node fed out,
  if decide (candidates = ∅) then (fed, out)
  else match object_instances fed !! instance with
  | None => (fed, out)
  | Some inst =>
      let name := inst_name inst in
      let '(fed', to_notify) := mark_discovered instance (elements candidates) fed in
      let targets : gset FederateHandle := list_to_set to_notify in
      if decide (targets = ∅) then (fed', out)
      else (fed', fan_out out (live_connections node fed' targets)
                    (discover_object_instance instance class name producer))
  end.

(** ** Registration

    [Err] results of the Rust function are early returns. *)
Definition register_object_instance (class : option ProtoHandle) (requested_name : option string)
    : Handler ObjectInstanceHandle :=
  m ← get_membership;
  class ← decode_or_return decode_object_class class (exception_variant InvalidObjectClassHandle "");
  fed ← get_federation m;
  return_if (bool_decide (object_class_def (fed_fom fed) class = None))
    (exception_variant ObjectClassNotDefined "");;
  fs ← get_federate m;
  return_if (bool_decide (published_attrs (pub_sub fs) !! class = None))
    (exception_variant ObjectClassNotPublished "");;
  fed ← get_federation m;
  let raw_id := next_object_id fed in
  modify_federation m (set_next_object_id (fetch_add64 1));;
  let handle := ObjectInstanceHandle_new raw_id in
  name ← match requested_name with
    | Some n =>
        fed ← get_federation m;
        return_if (existsb (λ inst, bool_decide (inst_name inst = n)) (map_to_list (object_instances fed)).*2)
          (exception_variant ObjectInstanceNameInUse n);;
        mret n
    | None => mret ("HLA" +:+ pretty raw_id)
    end;
  fs ← get_federate m;
  let attribute_owners : gmap AttributeHandle FederateHandle :=
    gset_to_gmap (m_federate_handle m) (default ∅ (published_attrs (pub_sub fs) !! class)) in
  modify_federation m (set_object_instances (insert handle
    (mkObjectInstance handle class name (m_federate_handle m) attribute_owners ∅)));;
  on_federation m (notify_subscribers_of_registration handle class name (m_federate_handle m));;
  mret handle.

(** The two arms of [dispatch_call]. *)
Definition register_object_instance_call (class : option ProtoHandle) : Handler Resp :=
  handle ← register_object_instance class None;
  mret (RegisterObjectInstanceResponse (Some (encode_object_instance handle))).
Definition register_object_instance_with_name_call (class : option ProtoHandle) (name : string)
    : Handler Resp :=
  handle ← register_object_instance class (Some name);
  mret (RegisterObjectInstanceWithNameResponse (Some (encode_object_instance handle))).

Definition register_object_instance_with_regions (class : option ProtoHandle)
    (requested_name : option string) (pairs : option (list ProtoAttrRegionPair))
    : Handler ObjectInstanceHandle :=
  let attr_regions := decode_attr_region_pairs pairs in
  handle ← register_object_instance class requested_name;
  o ← gets (λ s, membership (ds_ctx s));
  (match o with
   | Some m => modify_federation m
       (set_object_instances (alter (set_attribute_regions (λ _, attr_regions)) handle))
   | None => mret tt
   end);;
  mret handle.

Definition register_object_instance_with_regions_call (class : option ProtoHandle)
    (pairs : option (list ProtoAttrRegionPair)) : Handler Resp :=
  handle ← register_object_instance_with_regions class None pairs;
  mret (RegisterObjectInstanceWithRegionsResponse (Some (encode_object_instance handle))).
Definition register_object_instance_with_name_and_regions_call (class : option ProtoHandle)
    (name : string) (pairs : option (list ProtoAttrRegionPair)) : Handler Resp :=
  handle ← register_object_instance_with_regions class (Some name) pairs;
  mret (RegisterObjectInstanceWithNameAndRegionsResponse (Some (encode_object_instance handle))).
End handlers.

(** ** Who discovers *)

Lemma discover_known instance fs :
  instance ∈ discovered_instances (pub_sub fs) → discover instance fs = fs.
Proof.
  destruct fs as [? ? ? ? [] ? ? ?]. unfold discover, set_pub_sub, set_discovered_instances. simpl.
  intros H. do 2 f_equal. set_solver.
Qed.

Definition undiscovered (instance : ObjectInstanceHandle) (fed : Federation) (fh : FederateHandle) : Prop :=
  ∃ fs, federates fed !! fh = Some fs ∧ instance ∉ discovered_instances (pub_sub fs).

Lemma mark_step_frame instance st fh k :
  federates (mark_step instance st fh).1 !! k =
    (if decide (k = fh) then discover instance <$> federates st.1 !! k else federates st.1 !! k) ∧
  (mark_step instance st fh).1 = set_federates (λ _, federates (mark_step instance st fh).1) st.1.
Proof.
  unfold mark_step. destruct (federates st.1 !! fh) as [fs|] eqn:Hfs.
  - destruct (decide (instance ∈ _)) as [Hin|Hin]; cbn [fst].
    + split; [|by destruct st as [[]]]. destruct (decide (k = fh)) as [->|]; [|done].
      rewrite Hfs. simpl. by rewrite discover_known.
    + split; [|done]. simpl. destruct (decide (k = fh)) as [->|].
      * by rewrite lookup_alter_eq.
      * by rewrite lookup_alter_ne.
  - split; [|by destruct st as [[]]]. destruct (decide (k = fh)) as [->|]; [|done]. by rewrite Hfs.
Qed.

Lemma mark_foldl instance l st :
  NoDup l →
  (∀ k, federates (foldl (mark_step instance) st l).1 !! k =
    (if decide (k ∈ l) then discover instance <$> federates st.1 !! k else federates st.1 !! k)) ∧
  (foldl (mark_step instance) st l).1 =
    set_federates (λ _, federates (foldl (mark_step instance) st l).1) st.1 ∧
  (∀ k, k ∈ (foldl (mark_step instance) st l).2 ↔ k ∈ st.2 ∨ (k ∈ l ∧ undiscovered instance st.1 k)).
Proof.
  revert st. induction l as [|fh l IH]; intros st Hnd; simpl.
  { split_and!; [done|by destruct st as [[]]|set_solver]. }
  apply NoDup_cons in Hnd as [Hnin Hnd].
  destruct (IH (mark_step instance st fh) Hnd) as (IH1 & IH2 & IH3).
  pose proof (λ k, proj1 (mark_step_frame instance st fh k)) as F1.
  pose proof (proj2 (mark_step_frame instance st fh fh)) as F2.
  split_and!.
  - intros k. rewrite IH1, F1. destruct (decide (k = fh)) as [->|Hne].
    + rewrite decide_False by done. by rewrite decide_True by set_solver.
    + destruct (decide (k ∈ l)); [by rewrite decide_True by set_solver|by rewrite decide_False by set_solver].
  - rewrite IH2 at 1. rewrite F2. done.
  - intros k. rewrite IH3. assert (Hu : ∀ k, k ≠ fh →
      undiscovered instance (mark_step instance st fh).1 k ↔ undiscovered instance st.1 k).
    { intros k' Hne. unfold undiscovered. by rewrite F1, decide_False. }
    assert (Hs : k ∈ (mark_step instance st fh).2 ↔ k ∈ st.2 ∨ (k = fh ∧ undiscovered instance st.1 k)).
    { unfold mark_step, undiscovered. destruct (federates st.1 !! fh) as [fs|] eqn:Hfs.
      - destruct (decide (instance ∈ _)) as [Hin|Hin]; cbn [snd].
        + split; [by left|]. intros [?|(-> & fs' & ? & ?)]; [done|congruence].
        + rewrite elem_of_app, list_elem_of_singleton. split; [intros [?| ->]; eauto 6|].
          intros [?|[-> _]]; tauto.
      - split; [by left|]. intros [?|(-> & fs' & ? & ?)]; [done|congruence]. }
    rewrite Hs, elem_of_cons. destruct (decide (k = fh)) as [->|Hne]; [tauto|].
    rewrite (Hu k Hne). tauto.
Qed.

Lemma mark_discovered_spec instance l fed :
  NoDup l →
  (∀ k, federates (mark_discovered instance l fed).1 !! k =
    (if decide (k ∈ l) then discover instance <$> federates fed !! k else federates fed !! k)) ∧
  (mark_discovered instance l fed).1 =
    set_federates (λ _, federates (mark_discovered instance l fed).1) fed ∧
  (∀ k, k ∈ (mark_discovered instance l fed).2 ↔ k ∈ l ∧ undiscovered instance fed k).
Proof.
  intros Hnd. destruct (mark_foldl instance l (fed, []) Hnd) as (H1 & H2 & H3).
  split_and!; [done..|]. intros k. unfold mark_discovered. rewrite H3. set_solver.
Qed.

Lemma elem_of_registration_candidates fed class producer fh :
  fh ∈ registration_candidates fed class producer ↔
    fh ≠ producer ∧ ∃ anc, anc ∈ inheritance_chain (fed_fom fed) class ∧
      fh ∈ subscribers_of_class (subscriptions fed) anc.
Proof.
  unfold registration_candidates.
  rewrite (elem_of_foldl_union _ (λ anc fh, ∃ x, x ∈ subscribers_of_class (subscriptions fed) anc ∧
    (fh = x ∧ x ≠ producer))).
  - set_solver.
  - intros anc out. apply (elem_of_foldl_union _ (λ x fh, fh = x ∧ x ≠ producer)).
    intros x out'. case_decide; set_solver.
Qed.

(** Handles in use are below the next one. *)
Record instances_fresh (fed : Federation) : Prop := {
  if_instances h : is_Some (object_instances fed !! h) → oih_raw h < next_object_id fed;
  if_discovered fh fs h : federates fed !! fh = Some fs →
    h ∈ discovered_instances (pub_sub fs) → oih_raw h < next_object_id fed
}.

Lemma live_connections_mark node instance l fed fhs :
  NoDup l →
  live_connections node (mark_discovered instance l fed).1 fhs = live_connections node fed fhs.
Proof.
  intros Hnd. apply live_connections_ext. intros k.
  destruct (mark_discovered_spec instance l fed Hnd) as [-> _].
  case_decide; [|done]. by destruct (federates fed !! k).
Qed.

(** What [notify_subscribers_of_registration] does, with its targets. *)
Lemma notify_registration_spec {P : Prost} instance class name producer node fed out :
  ∃ targets : gset FederateHandle,
    (∀ fh, fh ∈ targets ↔ fh ∈ registration_candidates fed class producer ∧ undiscovered instance fed fh) ∧
    let fed' := (notify_subscribers_of_registration instance class name producer node fed out).1 in
    fed' = set_federates (λ _, federates fed') fed ∧
    (∀ k, federates fed' !! k = (if decide (k ∈ registration_candidates fed class producer)
      then discover instance <$> federates fed !! k else federates fed !! k)) ∧
    (notify_subscribers_of_registration instance class name producer node fed out).2 =
      fan_out out (live_connections node fed targets) (discover_object_instance instance class name producer).
Proof.
  unfold notify_subscribers_of_registration.
  set (cands := registration_candidates fed class producer).
  pose proof (NoDup_elements cands) as Hnd.
  destruct (mark_discovered_spec instance (elements cands) fed Hnd) as (H1 & H2 & H3).
  pose proof (live_connections_mark node instance (elements cands) fed) as Hlive.
  destruct (mark_discovered instance (elements cands) fed) as [fed1 to_notify]. simpl in *.
  exists (list_to_set to_notify). split.
  - intros fh. rewrite elem_of_list_to_set, H3, elem_of_elements. done.
  - assert (H1' : ∀ k, federates fed1 !! k = (if decide (k ∈ cands)
      then discover instance <$> federates fed !! k else federates fed !! k)).
    { intros k. rewrite H1. apply decide_ext. apply elem_of_elements. }
    destruct (decide (list_to_set to_notify = ∅)) as [He|He]; simpl.
    + split_and!; [done..|]. rewrite He. done.
    + split_and!; [done..|]. by rewrite Hlive.
Qed.

Lemma registration_candidates_spec fed S class producer fh :
  FomWf (fed_fom fed) → represents (subscriptions fed) S →
  fh ∈ registration_candidates fed class producer ↔
    fh ≠ producer ∧ ∃ anc a, ancestor (fed_fom fed) class anc ∧ (anc, a, fh) ∈ S.
Proof.
  intros Hwf HS. rewrite elem_of_registration_candidates.
  setoid_rewrite inheritance_chain_spec; [|done].
  setoid_rewrite (subscribers_of_class_spec _ _ _ _ HS). naive_solver.
Qed.

Lemma undiscovered_fresh fed fh :
  instances_fresh fed →
  undiscovered (ObjectInstanceHandle_new (next_object_id fed)) fed fh ↔ is_Some (federates fed !! fh).
Proof.
  intros Hfresh. unfold undiscovered. split; [intros (fs & -> & _); eauto|].
  intros [fs Hfs]. exists fs. split; [done|]. intros Hd.
  apply (if_discovered _ Hfresh _ _ _ Hfs) in Hd. simpl in Hd. lia.
Qed.

(** ** Properties *)

(** Registration and discovery.  When a member that publishes a class the
    FOM defines registers an instance of it, the instance gets a handle that
    was not in use, its attributes published by the registrar are owned by the
    registrar and no others are owned, and [DiscoverObjectInstance] goes to
    exactly the other joined federates that subscribe to an attribute of the
    class or of one of its ancestors; each of them has the instance recorded
    as discovered. *)
Theorem register_object_instance_spec {P : Prost} s m fed fs S pc class pubs :
  membership (ds_ctx s) = Some m → at_fed m s fed → FomWf (fed_fom fed) →
  represents (subscriptions fed) S → instances_fresh fed →
  decode_object_class pc = Ok class → object_class_def (fed_fom fed) class ≠ None →
  federates fed !! m_federate_handle m = Some fs → published_attrs (pub_sub fs) !! class = Some pubs →
  let h := ObjectInstanceHandle_new (next_object_id fed) in
  let name := "HLA" +:+ pretty (next_object_id fed) in
  let '(s', r) := run (register_object_instance_call (Some pc)) s in
  r = RegisterObjectInstanceResponse (Some (encode_object_instance h)) ∧
  ∃ fed' (targets : gset FederateHandle), at_fed m s' fed' ∧
    object_instances fed !! h = None ∧
    object_instances fed' = <[h := mkObjectInstance h class name (m_federate_handle m)
      (gset_to_gmap (m_federate_handle m) pubs) ∅]> (object_instances fed) ∧
    (∀ fh, fh ∈ targets ↔ fh ≠ m_federate_handle m ∧ is_Some (federates fed !! fh) ∧
      ∃ anc a, ancestor (fed_fom fed) class anc ∧ (anc, a, fh) ∈ S) ∧
    ds_callbacks s' = fan_out (ds_callbacks s) (live_connections (ds_node s) fed targets)
      (discover_object_instance h class name (m_federate_handle m)) ∧
    (∀ fh fs', fh ∈ targets → federates fed' !! fh = Some fs' → h ∈ discovered_instances (pub_sub fs')).
Proof.
  intros Hm Hfed Hwf HS Hfresh Hc Hdef Hfs Hpub h name. apply run_wp_let.
  pose proof (federation_of_heap m s fed Hfed) as Hf.
  assert (Hpub' : published_attrs (pub_sub fs) !! class ≠ None) by (by rewrite Hpub).
  rewrite <- Hf in Hdef. pose proof Hfs as Hfs0. rewrite <- Hf in Hfs0.
  unfold register_object_instance_call, register_object_instance. wp_det. rewrite Hf.
  eapply wp_at_modify_federation; [exact Hfed|]. intros s1 Hs1 I1. wp_det.
  rewrite (federation_of_heap m s1 _ Hs1). eapply wp_some_eq; [exact Hfs|]. wp_det.
  rewrite Hpub. cbn [default]. fold h name.
  eapply wp_at_modify_federation; [exact Hs1|]. intros s2 Hs2 I2. wp_det.
  eapply wp_at_effect; [exact Hs2|]. intros s3 Hs3 I3. wp_det. split; [done|].
  set (fed2 := set_object_instances _ _) in *.
  destruct (notify_registration_spec h class name (m_federate_handle m) (ds_node s2) fed2 (ds_callbacks s2))
    as (targets & Ht & Hrest & Hfeds & Hcb).
  assert (Hcands : ∀ fh, fh ∈ registration_candidates fed2 class (m_federate_handle m) ↔
    fh ≠ m_federate_handle m ∧ ∃ anc a, ancestor (fed_fom fed) class anc ∧ (anc, a, fh) ∈ S)
    by (intros fh; apply (registration_candidates_spec fed2); [exact Hwf|exact HS]).
  pose proof (io_trans _ _ _ _ _ I1 I2) as I. rewrite (io_callbacks _ _ _ I1) in I.
  eexists _, targets. split; [exact Hs3|]. split_and!.
  - apply eq_None_not_Some. intros Hsome. apply (if_instances _ Hfresh) in Hsome. simpl in Hsome. lia.
  - rewrite Hrest. done.
  - intros fh. rewrite Ht, Hcands. change (undiscovered h fed2 fh) with (undiscovered h fed fh).
    pose proof (undiscovered_fresh fed fh Hfresh) as Hu. fold h in Hu. tauto.
  - rewrite (io_callbacks _ _ _ I3), Hcb, (io_callbacks _ _ _ I).
    rewrite (live_connections_node (ds_node s2) (ds_node s)) by apply I. done.
  - intros fh fs' Hin Hfs'. apply Ht in Hin as [Hin _]. rewrite Hfeds, decide_True in Hfs' by done.
    apply fmap_Some in Hfs' as (fs0 & _ & ->). simpl. set_solver.
Qed.

(** *** Witness and a concrete run *)

(** Federate 1 publishes the class, federate 2 subscribes to it. *)
Definition reg_federation : Federation :=
  set_subscriptions (λ m, (subscribe_attribute (ObjectClassHandle_new 1) (AttributeHandle_new 1) (FederateHandle_new 2) m).1)
    (update_federate (FederateHandle_new 1)
      (set_pub_sub (set_published_attrs (insert (ObjectClassHandle_new 1) {[AttributeHandle_new 1]})))
      demo_federation).
Definition reg_triples : gset Triple :=
  {[(ObjectClassHandle_new 1, AttributeHandle_new 1, FederateHandle_new 2)]}.

Lemma demo_fom_wf : FomWf demo_fom.
Proof.
  split; unfold object_class_handle, object_class_def, interaction_class_handle, interaction_class_def; simpl.
  - intros n h. rewrite lookup_singleton_Some. intros [<- <-]. eexists.
    split; [apply lookup_singleton_eq|done].
  - intros h d. rewrite lookup_singleton_Some. intros [<- <-]. apply lookup_singleton_eq.
  - intros h d p. rewrite lookup_singleton_Some. intros [<- <-]. done.
  - intros n h. by rewrite lookup_empty.
  - intros h d. by rewrite lookup_empty.
  - intros h d p. by rewrite lookup_empty.
Defined.

Lemma reg_represents : represents (subscriptions reg_federation) reg_triples.
Proof.
  pose proof (subscribe_sim (ObjectClassHandle_new 1) (AttributeHandle_new 1) (FederateHandle_new 2)
    SubscriptionMatrix_default ∅ represents_default ltac:(vm_compute; reflexivity)) as [H _].
  unfold Spec.subscribe in H. cbn [fst] in H. rewrite union_empty_r_L in H. exact H.
Defined.

Lemma reg_fresh : instances_fresh reg_federation.
Proof.
  split.
  - intros h [i Hi]. simpl in Hi. by rewrite lookup_empty in Hi.
  - intros fh fs h Hfs Hh. unfold reg_federation, demo_federation in Hfs. simpl in Hfs.
    apply lookup_alter_Some in Hfs. rewrite !lookup_insert_Some, lookup_empty in Hfs.
    destruct Hfs as [(<- & fs0 & Hfs0 & ->)|[_ [[<- <-]|[_ [[<- <-]|[_ ?]]]]]]; [|set_solver..|done].
    rewrite !lookup_insert_Some, lookup_empty in Hfs0.
    destruct Hfs0 as [[_ <-]|[_ [[_ <-]|[_ ?]]]]; [set_solver..|done].
Defined.

Lemma register_object_instance_witness :
  (run (register_object_instance_call (P := demo_prost) (Some demo_class)) (demo_state 1 reg_federation)).2 =
    RegisterObjectInstanceResponse (Some (encode_object_instance (ObjectInstanceHandle_new 1))).
Proof.
  pose proof (register_object_instance_spec (P := demo_prost) (demo_state 1 reg_federation)
    (mkMembership 1%positive (FederateHandle_new 1) "f") reg_federation _ reg_triples demo_class
    (ObjectClassHandle_new 1) {[AttributeHandle_new 1]} eq_refl eq_refl demo_fom_wf reg_represents
    reg_fresh eq_refl ltac:(done) eq_refl eq_refl) as H.
  cbv zeta in H. destruct (run _ _) as [s' r]. exact (proj1 H).
Defined.

(** Generated names are not checked against names in use: after instance 1 is
    registered with the requested name "HLA2", the next unnamed instance,
    number 2, gets the same name. *)
Theorem generated_name_collides :
  let s1 := (run (register_object_instance_with_name_call (P := demo_prost) (Some demo_class) "HLA2")
    (demo_state 1 reg_federation)).1 in
  let s2 := (run (register_object_instance_call (P := demo_prost) (Some demo_class)) s1).1 in
  inst_name <$> object_instances (fed_at (ds_node s2) 1%positive) !! ObjectInstanceHandle_new 1 = Some "HLA2"%string ∧
  inst_name <$> object_instances (fed_at (ds_node s2) 1%positive) !! ObjectInstanceHandle_new 2 = Some "HLA2"%string.
Proof. vm_compute. split; reflexivity. Qed.
