(* ===== verification/DataFlow.v ===== *)
(** * Data flow

    The handlers of [dispatch/data_flow.rs]: attribute updates, interactions
    and deletions, with and without time stamps. *)

From S2P Require Import Prelude Float64 CoreTypes Fom Exception Proto State Subscription Handles.
From S2P Require Import Routing Handler Tso Declaration Ddm ObjectMgmt.

(** ** Value maps *)

Fixpoint decode_value_list {H} `{Countable H} (dec : ProtoHandle → result HandleError H)
    (missing : Resp) (l : ProtoValueMap) (out : gmap H (list byte)) : result Resp (gmap H (list byte)) :=
  match l with
  | [] => Ok out
  | (handle, value) :: l =>
      match handle with
      | None => Err missing
      | Some p => match dec p with
                  | Ok h => decode_value_list dec missing l (<[h := value]> out)
                  | Err (Invalid n) => Err (exception_variant n "")
                  end
      end
  end.

Definition decode_attribute_value_map (map : option ProtoValueMap)
    : result Resp (gmap AttributeHandle (list byte)) :=
  match map with
  | None => Ok ∅
  | Some l => decode_value_list decode_attribute (exception_variant InvalidAttributeHandle "missing handle") l ∅
  end.
Definition decode_parameter_value_map (map : option ProtoValueMap)
    : result Resp (gmap ParameterHandle (list byte)) :=
  match map with
  | None => Ok ∅
  | Some l => decode_value_list decode_parameter (exception_variant InvalidParameterHandle "missing handle") l ∅
  end.

(** [match inst.attribute_owners.get(attr) { Some(owner) if *owner == fh => {} ... }]
    for every attribute. *)
Definition owns_all (fh : FederateHandle) (inst : ObjectInstance)
    (values : gmap AttributeHandle (list byte)) : bool :=
  forallb (λ attr, bool_decide (attribute_owners inst !! attr = Some fh)) (map_to_list values).*1.

Section handlers.
Context {P : Prost}.

(** The subscribers of an update: those of the class or an ancestor that match
    on the regions of at least one of the attributes. *)
Definition update_subscribers (fed : Federation) (instance : ObjectInstanceHandle)
    (class : ObjectClassHandle) (attrs : list AttributeHandle) (producer : FederateHandle)
    : gset FederateHandle :=
  let subscribers := subscribers_for_attributes fed class attrs (Some producer) in
  foldl (λ matched attr,
    filter_subscribers_by_regions fed subscribers instance class attr ∪ matched) ∅ attrs.

Definition update_attribute_values (instance : option ProtoHandle) (values : option ProtoValueMap)
    (tag : list byte) : Handler Resp :=
  m ← get_membership;
  instance_handle ← decode_or_return decode_object_instance instance
    (exception_variant ObjectInstanceNotKnown "missing handle");
  values ← ok_or_return (decode_attribute_value_map values) id;
  fed ← get_federation m;
  inst ← some_or_return (object_instances fed !! instance_handle) (exception_variant ObjectInstanceNotKnown "");
  return_if (negb (owns_all (m_federate_handle m) inst values)) (exception_variant AttributeNotOwned "");;
  let attrs_list := (map_to_list values).*1 in
  let class := inst_class inst in
  let subscribers := update_subscribers fed instance_handle class attrs_list (m_federate_handle m) in
  on_federation m (notify_subscribers_of_registration_subset instance_handle class
    (m_federate_handle m) subscribers);;
  notify m subscribers (reflect_attribute_values instance_handle values tag (m_federate_handle m));;
  mret UpdateAttributeValuesResponse.

Definition decode_time_or_return (time : option ProtoTime) : Handler f64 :=
  match decode_logical_time <$> time with
  | Some (Ok t) => mret t
  | Some (Err n) => ret_early (exception_variant n "")
  | None => ret_early (exception_variant InvalidLogicalTime "")
  end.

Definition update_attribute_values_with_time (instance : option ProtoHandle)
    (values : option ProtoValueMap) (tag : list byte) (time : option ProtoTime) : Handler Resp :=
  m ← get_membership;
  instance_handle ← decode_or_return decode_object_instance instance
    (exception_variant ObjectInstanceNotKnown "");
  values ← ok_or_return (decode_attribute_value_map values) id;
  time ← decode_time_or_return time;
  fed ← get_federation m;
  inst ← some_or_return (object_instances fed !! instance_handle) (exception_variant ObjectInstanceNotKnown "");
  return_if (negb (owns_all (m_federate_handle m) inst values)) (exception_variant AttributeNotOwned "");;
  let attrs_list := (map_to_list values).*1 in
  let class := inst_class inst in
  (match federates fed !! m_federate_handle m with
   | Some fs =>
       if is_regulating (fs_time fs) then
         let lbts := f64_add (current_time (fs_time fs)) (lookahead (fs_time fs)) in
         return_if (f64_ltb time lbts) (exception_variant InvalidLogicalTime
           (D_cat [D_str "time "; D_f64 time; D_str " < current+lookahead "; D_f64 lbts]))
       else mret tt
   | None => mret tt
   end);;
  let subscribers := subscribers_for_attributes fed class attrs_list (Some (m_federate_handle m)) in
  on_federation m (notify_subscribers_of_registration_subset instance_handle class
    (m_federate_handle m) subscribers);;
  let callback := reflect_attribute_values_with_time instance_handle values tag (m_federate_handle m) time in
  on_federation m (route_tso_or_immediate subscribers time callback);;
  mret (UpdateAttributeValuesWithTimeResponse None).

(** The checks that [send_interaction] and [send_interaction_with_time] start
    with. *)
Definition sender_of (class : option ProtoHandle) : Handler (Membership * InteractionClassHandle) :=
  m ← get_membership;
  class ← decode_or_return decode_interaction_class class (exception_variant InvalidInteractionClassHandle "");
  fed ← get_federation m;
  return_if (bool_decide (interaction_class_def (fed_fom fed) class = None))
    (exception_variant InteractionClassNotDefined "");;
  fs ← get_federate m;
  return_if (negb (bool_decide (class ∈ published_interactions (pub_sub fs))))
    (exception_variant InteractionClassNotPublished "");;
  mret (m, class).

Definition send_interaction_with_time (class : option ProtoHandle) (params : option ProtoValueMap)
    (tag : list byte) (time : option ProtoTime) : Handler Resp :=
  '(m, class) ← sender_of class;
  params ← ok_or_return (decode_parameter_value_map params) id;
  time ← decode_time_or_return time;
  fed ← get_federation m;
  let subscribers := subscribers_for_interaction fed class (Some (m_federate_handle m)) in
  let callback := receive_interaction_with_time class params tag (m_federate_handle m) time in
  on_federation m (route_tso_or_immediate subscribers time callback);;
  mret (SendInteractionWithTimeResponse None).

Definition send_interaction (class : option ProtoHandle) (params : option ProtoValueMap)
    (tag : list byte) : Handler Resp :=
  '(m, class) ← sender_of class;
  params ← ok_or_return (decode_parameter_value_map params) id;
  fed ← get_federation m;
  let subscribers := subscribers_for_interaction fed class (Some (m_federate_handle m)) in
  notify m subscribers (receive_interaction class params tag (m_federate_handle m));;
  mret SendInteractionResponse.

(** Remove an instance from the records of the federates other than [self];
    the federates that had discovered it. *)
Definition discoverers (instance : ObjectInstanceHandle) (self : FederateHandle) (fed : Federation)
    : gset FederateHandle :=
  list_to_set (filter (λ fh, fh ≠ self ∧
    (λ fs, bool_decide (instance ∈ discovered_instances (pub_sub fs))) <$> federates fed !! fh = Some true)
    (map_to_list (federates fed)).*1).
Definition undiscover (instance : ObjectInstanceHandle) (self : FederateHandle) (fed : Federation)
    : Federation :=
  set_federates (map_imap (λ fh fs, Some (if decide (fh = self) then fs
    else set_pub_sub (set_discovered_instances (λ d, d ∖ {[instance]})) fs))) fed.

(** The part the two deletion handlers share: checks, removal of the instance
    and of its discovery records; the federates to notify. *)
Definition remove_instance (m : Membership) (instance_handle : ObjectInstanceHandle)
    : Handler (gset FederateHandle) :=
  fed ← get_federation m;
  inst ← some_or_return (object_instances fed !! instance_handle) (exception_variant ObjectInstanceNotKnown "");
  return_if (negb (bool_decide (registrar inst = m_federate_handle m)))
    (exception_variant DeletePrivilegeNotHeld "");;
  modify_federation m (set_object_instances (delete instance_handle));;
  fed ← get_federation m;
  let to_notify := discoverers instance_handle (m_federate_handle m) fed in
  modify_federation m (undiscover instance_handle (m_federate_handle m));;
  mret to_notify.

Definition delete_object_instance_with_time (instance : option ProtoHandle) (tag : list byte)
    (time : option ProtoTime) : Handler Resp :=
  m ← get_membership;
  instance_handle ← decode_or_return decode_object_instance instance
    (exception_variant ObjectInstanceNotKnown "");
  time ← decode_time_or_return time;
  to_notify ← remove_instance m instance_handle;
  let callback := remove_object_instance_with_time instance_handle tag (m_federate_handle m) time in
  on_federation m (route_tso_or_immediate to_notify time callback);;
  mret (DeleteObjectInstanceWithTimeResponse None).

Definition delete_object_instance (instance : option ProtoHandle) (tag : list byte) : Handler Resp :=
  m ← get_membership;
  instance_handle ← decode_or_return decode_object_instance instance
    (exception_variant ObjectInstanceNotKnown "");
  to_notify ← remove_instance m instance_handle;
  notify m to_notify (remove_object_instance instance_handle tag (m_federate_handle m));;
  mret DeleteObjectInstanceResponse.
End handlers.

(** ** Who is reached *)

Lemma elem_of_attr_set m S c a f : represents m S →
  (∃ set, by_attribute m !! (c, a) = Some set ∧ f ∈ set) ↔ (c, a, f) ∈ S.
Proof.
  intros HS. rewrite <- (rep_attr _ _ HS). unfold attr_set.
  destruct (by_attribute m !! (c, a)); simpl; set_solver.
Qed.

(** The region condition of an update of [attr]: the instance has no regions
    for the attribute, or one of them overlaps one of the subscriber's. *)
Definition region_match (fed : Federation) (inst : ObjectInstance) (attr : AttributeHandle)
    (fh : FederateHandle) : Prop :=
  default ∅ (attribute_regions inst !! attr) = ∅ ∨
  ∃ fs, federates fed !! fh = Some fs ∧
    regions_overlap_any fed (default ∅ (attribute_regions inst !! attr))
      (sub_regions_of (inst_class inst) attr fs) = true.

Lemma elem_of_filter_regions fed subs instance inst attr fh :
  object_instances fed !! instance = Some inst →
  fh ∈ filter_subscribers_by_regions fed subs instance (inst_class inst) attr ↔
    fh ∈ subs ∧ region_match fed inst attr fh.
Proof.
  intros Hi. unfold filter_subscribers_by_regions, region_match. rewrite Hi. cbv zeta.
  destruct (decide (default ∅ (attribute_regions inst !! attr) = ∅)) as [He|He]; [tauto|].
  rewrite elem_of_filter. destruct (federates fed !! fh) as [fs|].
  - split; [intros [H ?]; split; [done|]; right; by exists fs|].
    intros [? [?|(fs' & Hfs & H)]]; [done|]. by injection Hfs as ->.
  - split; [by intros [? _]|]. intros [? [?|(fs' & Hfs & H)]]; done.
Qed.

(** Federate [fh] is to reflect an update of [attrs] of [inst]. *)
Definition reflects_to (fed : Federation) (S : gset Triple) (inst : ObjectInstance)
    (attrs : gset AttributeHandle) (producer fh : FederateHandle) : Prop :=
  fh ≠ producer ∧
  (∃ anc a, ancestor (fed_fom fed) (inst_class inst) anc ∧ a ∈ attrs ∧ (anc, a, fh) ∈ S) ∧
  (∃ a, a ∈ attrs ∧ region_match fed inst a fh).

Lemma elem_of_map_keys {K V} `{Countable K} (m : gmap K V) k :
  k ∈ (map_to_list m).*1 ↔ k ∈ dom m.
Proof.
  rewrite elem_of_dom, list_elem_of_fmap. split.
  - intros ([k' v] & -> & Hin%elem_of_map_to_list). by exists v.
  - intros [v Hv]. exists (k, v). split; [done|]. by apply elem_of_map_to_list.
Qed.

Lemma elem_of_subscribers_of_update fed S class (values : gmap AttributeHandle (list byte)) producer fh :
  FomWf (fed_fom fed) → represents (subscriptions fed) S →
  fh ∈ subscribers_for_attributes fed class (map_to_list values).*1 (Some producer) ↔
    fh ≠ producer ∧ ∃ anc a, ancestor (fed_fom fed) class anc ∧ a ∈ dom values ∧ (anc, a, fh) ∈ S.
Proof.
  intros Hwf HS. rewrite elem_of_subscribers_for_attributes.
  split; intros [Hne H]; (split; [congruence|]).
  - destruct H as (anc & a & set & Hc & Ha & Hset). exists anc, a.
    rewrite <- inheritance_chain_spec, <- elem_of_map_keys, <- (elem_of_attr_set _ _ _ _ _ HS) by done. eauto.
  - destruct H as (anc & a & Hc & Ha & Hin).
    apply (elem_of_attr_set _ _ _ _ _ HS) in Hin as (set & ?).
    apply elem_of_map_keys in Ha. apply inheritance_chain_spec in Hc; [|done]. by exists anc, a, set.
Qed.

Lemma elem_of_update_subscribers fed S instance inst (values : gmap AttributeHandle (list byte)) producer fh :
  FomWf (fed_fom fed) → represents (subscriptions fed) S →
  object_instances fed !! instance = Some inst →
  fh ∈ update_subscribers fed instance (inst_class inst) (map_to_list values).*1 producer ↔
    reflects_to fed S inst (dom values) producer fh.
Proof.
  intros Hwf HS Hi. unfold update_subscribers. cbv zeta.
  rewrite (elem_of_foldl_union _ (λ a fh, fh ∈ filter_subscribers_by_regions fed
    (subscribers_for_attributes fed (inst_class inst) (map_to_list values).*1 (Some producer))
    instance (inst_class inst) a)) by set_solver.
  setoid_rewrite (elem_of_filter_regions _ _ _ _ _ _ Hi).
  setoid_rewrite (elem_of_subscribers_of_update _ S _ _ _ _ Hwf HS). setoid_rewrite elem_of_map_keys.
  unfold reflects_to. split.
  - intros [H|(a & Ha & [[Hne H] Hr])]; [by apply not_elem_of_empty in H|]. eauto 6.
  - intros (Hne & H & a & Ha & Hr). right. exists a. done.
Qed.

Lemma owns_all_spec fh inst values :
  owns_all fh inst values = true ↔ ∀ a, a ∈ dom values → attribute_owners inst !! a = Some fh.
Proof.
  unfold owns_all. rewrite forallb_forall. setoid_rewrite bool_decide_eq_true.
  split; intros H a Ha.
  - apply H, list_elem_of_In, elem_of_map_keys, Ha.
  - apply H. apply elem_of_map_keys. by apply list_elem_of_In.
Qed.

(** Late discovery: the candidates that had not discovered the instance are
    called back, and all are marked. *)
Lemma notify_subset_spec {P : Prost} instance class producer cands node fed out inst :
  object_instances fed !! instance = Some inst →
  ∃ targets : gset FederateHandle,
    (∀ fh, fh ∈ targets ↔ fh ∈ cands ∧ undiscovered instance fed fh) ∧
    let '(fed', out') := notify_subscribers_of_registration_subset instance class producer cands node fed out in
    fed' = set_federates (λ _, federates fed') fed ∧
    (∀ k, federates fed' !! k = (if decide (k ∈ cands)
      then discover instance <$> federates fed !! k else federates fed !! k)) ∧
    out' = fan_out out (live_connections node fed targets)
      (discover_object_instance instance class (inst_name inst) producer).
Proof.
  intros Hi. unfold notify_subscribers_of_registration_subset. rewrite Hi.
  destruct (decide (cands = ∅)) as [->|Hne].
  { exists ∅. split_and!; [set_solver|by destruct fed|set_solver|done]. }
  pose proof (NoDup_elements cands) as Hnd.
  destruct (mark_discovered_spec instance (elements cands) fed Hnd) as (H1 & H2 & H3).
  pose proof (live_connections_mark node instance (elements cands) fed) as Hlive.
  destruct (mark_discovered instance (elements cands) fed) as [fed1 to_notify]. simpl in *.
  exists (list_to_set to_notify). split.
  { intros fh. rewrite elem_of_list_to_set, H3, elem_of_elements. done. }
  assert (H1' : ∀ k, federates fed1 !! k = (if decide (k ∈ cands)
    then discover instance <$> federates fed !! k else federates fed !! k)).
  { intros k. rewrite H1. apply decide_ext, elem_of_elements. }
  destruct (decide (list_to_set to_notify = ∅)) as [He|He]; split_and!; try done.
  - by rewrite He.
  - by rewrite Hlive.
Qed.

Lemma live_connections_discover node fed fed' instance (cands fhs : gset FederateHandle) :
  (∀ k, federates fed' !! k = (if decide (k ∈ cands)
    then discover instance <$> federates fed !! k else federates fed !! k)) →
  live_connections node fed' fhs = live_connections node fed fhs.
Proof.
  intros H. apply live_connections_ext. intros k. rewrite H.
  destruct (decide (k ∈ cands)); [|done]. by destruct (federates fed !! k).
Qed.

(** An accepted update: late discoveries, then the reflections. *)
Lemma update_owned {P : Prost} s m fed pi instance inst pv values tag :
  membership (ds_ctx s) = Some m → at_fed m s fed →
  decode_object_instance pi = Ok instance → decode_attribute_value_map pv = Ok values →
  object_instances fed !! instance = Some inst →
  let self := m_federate_handle m in
  (∀ a, a ∈ dom values → attribute_owners inst !! a = Some self) →
  let targets := update_subscribers fed instance (inst_class inst) (map_to_list values).*1 self in
  let '(s', r) := run (update_attribute_values (Some pi) pv tag) s in
  r = UpdateAttributeValuesResponse ∧ ∃ fed' (late : gset FederateHandle), at_fed m s' fed' ∧
    (∀ fh, fh ∈ late ↔ fh ∈ targets ∧ undiscovered instance fed fh) ∧
    ds_callbacks s' =
      fan_out (fan_out (ds_callbacks s) (live_connections (ds_node s) fed late)
        (discover_object_instance instance (inst_class inst) (inst_name inst) self))
      (live_connections (ds_node s) fed targets) (reflect_attribute_values instance values tag self) ∧
    fed' = set_federates (λ _, federates fed') fed ∧
    (∀ fh, federates fed' !! fh = (if decide (fh ∈ targets)
      then discover instance <$> federates fed !! fh else federates fed !! fh)).
Proof.
  intros Hm Hfed Hpi Hpv Hi self Hown targets. apply run_wp_let.
  pose proof (federation_of_heap m s fed Hfed) as Hf.
  unfold update_attribute_values. wp_det. rewrite Hf. eapply wp_some_eq; [exact Hi|]. wp_step.
  apply wp_continue; [by apply negb_false_iff, owns_all_spec|]. wp_det. fold self. fold targets.
  destruct (notify_subset_spec instance (inst_class inst) self targets (ds_node s) fed
    (ds_callbacks s) inst Hi) as (late & Hlate & Hn).
  eapply wp_at_effect; [exact Hfed|].
  destruct (notify_subscribers_of_registration_subset _ _ _ _ _ _ _) as [fed' out'].
  destruct Hn as (Hrest & Hfeds & Hout). cbn [fst snd]. intros s1 Hs1 I1. wp_det.
  eapply wp_at_notify; [exact Hs1|]. intros s2 Hs2 I2. wp_det. split; [done|].
  exists fed', late. split_and!; [exact Hs2|done| |done..].
  rewrite (io_callbacks _ _ _ I2), (io_callbacks _ _ _ I1), Hout.
  rewrite (live_connections_node (ds_node s1) (ds_node s)) by apply I1.
  by rewrite (live_connections_discover _ _ _ _ _ _ Hfeds).
Qed.

(** ** Properties *)

(** C16: attribute updates.  A member that updates attributes of a known
    instance is rejected, with nothing changed, unless it owns every one of
    them.  Otherwise [ReflectAttributeValues] goes to exactly the other
    federates that subscribe to one of the attributes at the instance's class
    or an ancestor and match the regions of one of the attributes; before it,
    those among them that had not discovered the instance get
    [DiscoverObjectInstance], and the federation changes only by recording
    that discovery. *)
Theorem update_attribute_values_spec {P : Prost} s m fed S pi instance inst pv values tag :
  membership (ds_ctx s) = Some m → at_fed m s fed → FomWf (fed_fom fed) →
  represents (subscriptions fed) S →
  decode_object_instance pi = Ok instance → decode_attribute_value_map pv = Ok values →
  object_instances fed !! instance = Some inst →
  let self := m_federate_handle m in
  let '(s', r) := run (update_attribute_values (Some pi) pv tag) s in
  (s' = s ∧ r = exception_variant AttributeNotOwned "" ∧
    ∃ a, a ∈ dom values ∧ attribute_owners inst !! a ≠ Some self) ∨
  (r = UpdateAttributeValuesResponse ∧ (∀ a, a ∈ dom values → attribute_owners inst !! a = Some self) ∧
   ∃ fed' (targets late : gset FederateHandle), at_fed m s' fed' ∧
    (∀ fh, fh ∈ targets ↔ reflects_to fed S inst (dom values) self fh) ∧
    (∀ fh, fh ∈ late ↔ fh ∈ targets ∧ undiscovered instance fed fh) ∧
    ds_callbacks s' =
      fan_out (fan_out (ds_callbacks s) (live_connections (ds_node s) fed late)
        (discover_object_instance instance (inst_class inst) (inst_name inst) self))
      (live_connections (ds_node s) fed targets) (reflect_attribute_values instance values tag self) ∧
    fed' = set_federates (λ _, federates fed') fed ∧
    (∀ fh, federates fed' !! fh = (if decide (fh ∈ targets)
      then discover instance <$> federates fed !! fh else federates fed !! fh))).
Proof.
  intros Hm Hfed Hwf HS Hpi Hpv Hi self.
  destruct (decide (set_Exists (λ a, attribute_owners inst !! a ≠ Some self) (dom values))) as [(a & Ha & Hne)|Hn].
  - apply run_wp_let. pose proof (federation_of_heap m s fed Hfed) as Hf.
    unfold update_attribute_values. wp_det. rewrite Hf. eapply wp_some_eq; [exact Hi|]. wp_step.
    apply wp_return_if; intros Hown; [left; by eauto|].
    apply negb_false_iff in Hown. rewrite owns_all_spec in Hown. by destruct (Hne (Hown a Ha)).
  - assert (Hown : ∀ a, a ∈ dom values → attribute_owners inst !! a = Some self).
    { intros a Ha. destruct (decide (attribute_owners inst !! a = Some self)); [done|]. by destruct Hn; exists a. }
    pose proof (update_owned s m fed pi instance inst pv values tag Hm Hfed Hpi Hpv Hi Hown) as H. cbv zeta in H.
    destruct (run _ _) as [s' r]. destruct H as (-> & fed' & late & H1 & H2 & H3 & H4 & H5).
    right. split_and!; [done|done|]. eexists fed', _, late. split_and!; [done| |done..].
    intros fh. by apply elem_of_update_subscribers.
Qed.

(** Interactions.  A member that publishes an interaction class the FOM
    defines and sends an interaction of it changes no federation, and
    [ReceiveInteraction] goes to exactly the other federates that subscribe to
    the class or to one of its ancestors. *)
Theorem send_interaction_spec {P : Prost} s m fed fs pc class pp params tag :
  membership (ds_ctx s) = Some m → at_fed m s fed → FomWf (fed_fom fed) →
  decode_interaction_class pc = Ok class → interaction_class_def (fed_fom fed) class ≠ None →
  federates fed !! m_federate_handle m = Some fs → class ∈ published_interactions (pub_sub fs) →
  decode_parameter_value_map pp = Ok params →
  let self := m_federate_handle m in
  let '(s', r) := run (send_interaction (Some pc) pp tag) s in
  r = SendInteractionResponse ∧ ds_node s' = ds_node s ∧
  ∃ targets : gset FederateHandle,
    (∀ fh, fh ∈ targets ↔ ∃ anc, iancestor (fed_fom fed) class anc ∧ isubscribes fed (Some self) anc fh) ∧
    ds_callbacks s' = fan_out (ds_callbacks s) (live_connections (ds_node s) fed targets)
      (receive_interaction class params tag self).
Proof.
  intros Hm Hfed Hwf Hpc Hdef Hfs Hpub Hpp self. apply run_wp_let.
  pose proof (federation_of_heap m s fed Hfed) as Hf.
  unfold send_interaction, sender_of. wp_det. rewrite Hf.
  apply wp_continue; [by apply bool_decide_eq_false_2|]. wp_det. rewrite Hf. eapply wp_some_eq; [exact Hfs|].
  wp_det. apply wp_continue; [by apply negb_false_iff, bool_decide_eq_true_2|]. wp_det.
  rewrite Hf. unfold notify. apply wp_modify. wp_det. split_and!; [done..|].
  exists (subscribers_for_interaction fed class (Some self)). rewrite Hf. split; [|done].
  intros fh. by apply elem_of_subscribers_for_interaction.
Qed.

Lemma elem_of_discoverers instance self fed fh :
  fh ∈ discoverers instance self fed ↔ fh ≠ self ∧
    ∃ fs, federates fed !! fh = Some fs ∧ instance ∈ discovered_instances (pub_sub fs).
Proof.
  unfold discoverers. rewrite elem_of_list_to_set, list_elem_of_filter, elem_of_map_keys, elem_of_dom.
  split.
  - intros [[Hne H] _]. split; [done|]. apply fmap_Some in H as (fs & Hfs & H). exists fs.
    split; [done|]. by apply eq_sym, bool_decide_eq_true in H.
  - intros (Hne & fs & Hfs & H). split_and!; [done| |by exists fs]. rewrite Hfs. simpl.
    by rewrite bool_decide_eq_true_2.
Qed.

(** Deletion.  Only the registrar can delete an instance: anyone else is
    rejected with nothing changed.  A deletion removes the instance and its
    discovery records, and [RemoveObjectInstance] goes to exactly the other
    federates that had discovered it. *)
Theorem delete_object_instance_spec {P : Prost} s m fed pi instance inst tag :
  membership (ds_ctx s) = Some m → at_fed m s fed →
  decode_object_instance pi = Ok instance → object_instances fed !! instance = Some inst →
  let self := m_federate_handle m in
  let '(s', r) := run (delete_object_instance (Some pi) tag) s in
  (registrar inst ≠ self ∧ s' = s ∧ r = exception_variant DeletePrivilegeNotHeld "") ∨
  (registrar inst = self ∧ r = DeleteObjectInstanceResponse ∧
   ∃ fed' (targets : gset FederateHandle), at_fed m s' fed' ∧
    (∀ fh, fh ∈ targets ↔ fh ≠ self ∧
      ∃ fs, federates fed !! fh = Some fs ∧ instance ∈ discovered_instances (pub_sub fs)) ∧
    ds_callbacks s' = fan_out (ds_callbacks s) (live_connections (ds_node s) fed targets)
      (remove_object_instance instance tag self) ∧
    object_instances fed' = delete instance (object_instances fed) ∧
    (∀ fh fs', fh ≠ self → federates fed' !! fh = Some fs' →
      instance ∉ discovered_instances (pub_sub fs'))).
Proof.
  intros Hm Hfed Hpi Hi self. apply run_wp_let.
  pose proof (federation_of_heap m s fed Hfed) as Hf.
  unfold delete_object_instance, remove_instance. wp_det. rewrite Hf.
  eapply wp_some_eq; [exact Hi|]. wp_step. apply wp_return_if; intros Hr.
  { left. by apply negb_true_iff, bool_decide_eq_false in Hr. }
  apply negb_false_iff, bool_decide_eq_true in Hr. wp_det.
  eapply wp_at_modify_federation; [exact Hfed|]. intros s1 Hs1 I1. wp_det.
  rewrite (federation_of_heap m s1 _ Hs1).
  eapply wp_at_modify_federation; [exact Hs1|]. intros s2 Hs2 I2. wp_det.
  eapply wp_at_notify; [exact Hs2|]. intros s3 Hs3 I3. wp_det. right. split_and!; [done..|].
  set (targets := discoverers _ _ _) in *. eexists _, targets. split_and!; [exact Hs3| | |done|].
  - intros fh. unfold targets. rewrite elem_of_discoverers. done.
  - pose proof (io_trans _ _ _ _ _ I1 I2) as I. rewrite (io_callbacks _ _ _ I1) in I.
    rewrite (io_callbacks _ _ _ I3), (io_callbacks _ _ _ I). f_equal.
    rewrite (live_connections_node (ds_node s2) (ds_node s)) by apply I.
    apply live_connections_ext. intros fh. simpl. rewrite map_lookup_imap.
    destruct (federates fed !! fh); simpl; [|done]. by destruct (decide _).
  - intros fh fs' Hne. simpl. rewrite map_lookup_imap, bind_Some. intros (fs & _ & Heq).
    rewrite decide_False in Heq by done. injection Heq as <-. simpl. set_solver.
Qed.

(** *** Witnesses *)

(** [reg_federation] with instance 1 of the class registered by federate 1. *)
Definition upd_instance : ObjectInstance :=
  mkObjectInstance (ObjectInstanceHandle_new 1) (ObjectClassHandle_new 1) "HLA1" (FederateHandle_new 1)
    {[ AttributeHandle_new 1 := FederateHandle_new 1 ]} ∅.
Definition upd_federation : Federation :=
  set_object_instances (λ _, {[ ObjectInstanceHandle_new 1 := upd_instance ]}) reg_federation.
Definition upd_instance_arg : ProtoHandle := encode_object_instance (ObjectInstanceHandle_new 1).
Definition upd_values_arg : option ProtoValueMap := Some [(Some (encode_attribute (AttributeHandle_new 1)), [])].
Definition demo_member (h : Z) : Membership := mkMembership 1%positive (FederateHandle_new h) "f".

Lemma update_attribute_values_witness :
  let '(s', r) := run (update_attribute_values (P := demo_prost) (Some upd_instance_arg) upd_values_arg [])
    (demo_state 1 upd_federation) in
  r = UpdateAttributeValuesResponse.
Proof.
  pose proof (update_attribute_values_spec (P := demo_prost) (demo_state 1 upd_federation) (demo_member 1)
    upd_federation reg_triples upd_instance_arg (ObjectInstanceHandle_new 1) upd_instance upd_values_arg
    {[ AttributeHandle_new 1 := [] ]} [] eq_refl eq_refl demo_fom_wf reg_represents eq_refl eq_refl eq_refl) as H.
  cbv zeta in H. destruct (run _ _) as [s' r]. destruct H as [(_ & _ & a & Ha & Hne)|[H _]]; [|exact H].
  exfalso. rewrite dom_singleton_L in Ha. apply elem_of_singleton in Ha as ->. by apply Hne.
Defined.

(** Federate 2 did not register the instance; federate 1 did. *)
Lemma delete_object_instance_witness :
  let '(s', r) := run (delete_object_instance (P := demo_prost) (Some upd_instance_arg) [])
    (demo_state 2 upd_federation) in
  r = exception_variant DeletePrivilegeNotHeld "".
Proof.
  pose proof (delete_object_instance_spec (P := demo_prost) (demo_state 2 upd_federation) (demo_member 2)
    upd_federation upd_instance_arg (ObjectInstanceHandle_new 1) upd_instance [] eq_refl eq_refl eq_refl eq_refl) as H.
  cbv zeta in H. destruct (run _ _) as [s' r]. destruct H as [(_ & _ & H)|[H _]]; [exact H|discriminate H].
Defined.

(** A FOM with one interaction class, handle 1, that federate 1 publishes. *)
Definition int_fom : MergedFom :=
  {| modules := []; object_classes := ∅;
     interaction_classes := {[ InteractionClassHandle_new 1 :=
       {| ic_name := "HLAinteractionRoot"; ic_parent := None; ic_order := OrderReceive;
          ic_transportation := "HLAreliable"; ic_parameters := []; ic_semantics := None |} ]};
     object_class_table := ∅; attribute_table := ∅;
     interaction_class_table := {[ "HLAinteractionRoot"%string := InteractionClassHandle_new 1 ]};
     parameter_table := ∅; dimension_table := ∅ |}.
Definition int_session (h : Z) (t : TimeState) : FederateSession :=
  set_pub_sub (set_published_interactions (λ _, {[InteractionClassHandle_new 1]}))
    (set_fs_time (λ _, t) (demo_session h)).
Definition int_federation : Federation :=
  set_federates (λ _, {[ FederateHandle_new 1 := int_session 1 TimeState_default ]}) (Federation_new "f" int_fom).
Definition int_class : ProtoHandle := encode_interaction_class (InteractionClassHandle_new 1).

Lemma int_fom_wf : FomWf int_fom.
Proof.
  split; unfold object_class_handle, object_class_def, interaction_class_handle, interaction_class_def; simpl.
  - intros n h. by rewrite lookup_empty.
  - intros h d. by rewrite lookup_empty.
  - intros h d p. by rewrite lookup_empty.
  - intros n h. rewrite lookup_singleton_Some. intros [<- <-]. eexists.
    split; [apply lookup_singleton_eq|done].
  - intros h d. rewrite lookup_singleton_Some. intros [<- <-]. apply lookup_singleton_eq.
  - intros h d p. rewrite lookup_singleton_Some. intros [<- <-]. done.
Defined.

Lemma send_interaction_witness :
  let '(s', r) := run (send_interaction (P := demo_prost) (Some int_class) None [])
    (demo_state 1 int_federation) in
  r = SendInteractionResponse.
Proof.
  pose proof (send_interaction_spec (P := demo_prost) (demo_state 1 int_federation) (demo_member 1)
    int_federation (int_session 1 TimeState_default) int_class (InteractionClassHandle_new 1) None ∅ []
    eq_refl eq_refl int_fom_wf eq_refl ltac:(done) eq_refl ltac:(vm_compute; reflexivity) eq_refl) as H.
  cbv zeta in H. destruct (run _ _) as [s' r]. exact (proj1 H).
Defined.
