(* ===== verification/Causality.v ===== *)
(** * Causality of time-stamped updates

    What time management and the data flow give together: in a federation
    where no constrained federate is ahead of LBTS, a time-stamped update that
    the RTI accepts is not in the past of any constrained federate, and the
    services that advance time keep the federation that way. *)

From S2P Require Import Prelude Float64 FloatAdd CoreTypes Fom Exception Proto State Subscription.
From S2P Require Import Handles Routing TimeCoord Handler Tso TimeMgmt Declaration Ddm ObjectMgmt.
From S2P Require Import DataFlow.

(** No constrained federate is ahead of LBTS. *)
Definition causal (fed : Federation) : Prop :=
  ∀ fh fs, federates fed !! fh = Some fs → is_constrained (fs_time fs) = true →
    f64_leb (current_time (fs_time fs)) (lbts fed) = true.

Record causal_inv (fed : Federation) : Prop := {
  ci_time : time_inv fed;
  ci_causal : causal fed
}.

(** A change of the federates that keeps the invariant: nobody new, nobody
    newly regulating or constrained, bounds not lowered, the times of
    constrained federates within the old LBTS. *)
Definition no_ahead (fed fed' : Federation) : Prop :=
  ∀ fh fs', federates fed' !! fh = Some fs' → ∃ fs, federates fed !! fh = Some fs ∧
    (is_regulating (fs_time fs') = true → is_regulating (fs_time fs) = true ∧
      f64_key (send_bound (fs_time fs)) ≤ f64_key (send_bound (fs_time fs'))) ∧
    (is_constrained (fs_time fs') = true → is_constrained (fs_time fs) = true ∧
      current_time (fs_time fs') = current_time (fs_time fs)).

Lemma no_ahead_lbts fed fed' :
  time_inv fed → time_inv fed' → no_ahead fed fed' → f64_key (lbts fed) ≤ f64_key (lbts fed').
Proof.
  rewrite !time_inv_iff. intros [H1 _] [H2 _] Hn. apply le_lbts; [done|apply lbts_key_INFINITY|].
  intros fh fs' Hfs' Hr. destruct (Hn _ _ Hfs') as (fs & Hfs & Hreg & _).
  destruct (Hreg Hr) as [Hr' Hle]. etransitivity; [|exact Hle]. eapply lbts_lower; [done..|].
  apply send_bound_not_nan. by eapply H1.
Qed.

Lemma causal_key fed fh fs :
  causal fed → federates fed !! fh = Some fs → is_constrained (fs_time fs) = true →
  f64_key (current_time (fs_time fs)) ≤ f64_key (lbts fed).
Proof. intros H Hfs Hc. specialize (H fh fs Hfs Hc). apply f64_leb_key in H. tauto. Qed.

Lemma causal_intro fed :
  time_inv fed → (∀ fh fs, federates fed !! fh = Some fs → is_constrained (fs_time fs) = true →
    f64_key (current_time (fs_time fs)) ≤ f64_key (lbts fed)) → causal_inv fed.
Proof.
  intros HI H. split; [done|]. intros fh fs Hfs Hc. apply f64_leb_key.
  split_and!; [|apply lbts_not_nan|by eapply H]. apply is_finite_not_nan. by eapply (tw_current _ (si_time _ (HI _ _ Hfs))).
Qed.

Lemma no_ahead_causal fed fed' :
  causal_inv fed → time_inv fed' → no_ahead fed fed' → causal_inv fed'.
Proof.
  intros [HI Hc] HI' Hn. apply causal_intro; [done|]. intros fh fs' Hfs' Hcon.
  destruct (Hn _ _ Hfs') as (fs & Hfs & _ & H). destruct (H Hcon) as [Hcon' ->].
  etransitivity; [by eapply causal_key|by apply no_ahead_lbts].
Qed.

(** Changes that leave the times alone. *)
Lemma same_times_no_ahead fed fed' :
  (∀ fh, fs_time <$> federates fed' !! fh = fs_time <$> federates fed !! fh) → no_ahead fed fed'.
Proof.
  intros H fh fs' Hfs'. specialize (H fh). rewrite Hfs' in H. symmetry in H.
  apply fmap_Some in H as (fs & Hfs & Ht). exists fs. simpl in Ht. rewrite Ht.
  split_and!; [done|by intros; split..].
Qed.

(** Changes of one federate. *)
Lemma update_no_ahead fh g fed :
  (∀ fs, federates fed !! fh = Some fs →
    (is_regulating (fs_time (g fs)) = true → is_regulating (fs_time fs) = true ∧
      f64_key (send_bound (fs_time fs)) ≤ f64_key (send_bound (fs_time (g fs)))) ∧
    (is_constrained (fs_time (g fs)) = true → is_constrained (fs_time fs) = true ∧
      current_time (fs_time (g fs)) = current_time (fs_time fs))) →
  no_ahead fed (update_federate fh g fed).
Proof.
  intros Hg k fs'. simpl. rewrite lookup_alter_Some.
  intros [(-> & fs & Hfs & ->)|[_ Hfs]]; [exists fs; split; [done|by apply Hg]|].
  exists fs'. split_and!; [done|by intros; split..].
Qed.

Section effects.
Context {P : Prost}.

Lemma try_grant_causal node fed out :
  causal_inv fed → causal_inv (try_grant_pending_advances node fed out).1.
Proof.
  intros [HI Hc]. pose proof (try_grant_inv node fed out HI) as HI'.
  pose proof (try_grant_pending_advances_rounds node fed out) as Hr.
  set (fed' := (try_grant_pending_advances node fed out).1) in *. apply time_inv_iff in HI as [Hwf _].
  pose proof (rounds_advanced _ _ _ _ _ Hr) as Ha. pose proof (fed_advanced_lbts _ _ Ha Hwf) as Hl.
  apply causal_intro; [done|]. intros fh fs' Hfs' Hcon.
  destruct (fed_advanced_inv _ _ _ _ Ha Hfs') as (fs & Hfs & Had).
  destruct (advanced_flags _ _ Had) as [_ Hflag]. rewrite Hcon in Hflag. symmetry in Hflag.
  destruct (rounds_within _ _ _ _ _ _ _ _ Hr Hwf Hfs Hfs' Hflag) as [->|?]; [|done].
  etransitivity; [by eapply causal_key|done].
Qed.

Lemma drains_causal l node fed out : causal_inv fed →
  causal_inv (foldl (λ '(fed, out) '(fh, t), drain_tso_up_to fh t node fed out) (fed, out) l).1.
Proof.
  intros Hc. eapply no_ahead_causal; [done|apply drains_inv, Hc|].
  apply same_times_no_ahead. intros fh. apply drains_frame.
Qed.

Lemma drain_causal fh t node fed out :
  causal_inv fed → causal_inv (drain_tso_up_to fh t node fed out).1.
Proof.
  intros Hc. eapply no_ahead_causal; [done|apply drain_inv, Hc|].
  apply same_times_no_ahead. intros k. apply drain_times.
Qed.

Lemma with_tso_causal node fed out :
  causal_inv fed → causal_inv (try_grant_pending_advances_with_tso node fed out).1.
Proof.
  intros Hc. unfold try_grant_pending_advances_with_tso.
  set (l := filter _ _). pose proof (drains_causal l node fed out Hc).
  destruct (foldl _ _ l) as [fed' out']. by apply try_grant_causal.
Qed.

Lemma route_causal subs t cb node fed out :
  causal_inv fed → causal_inv (route_tso_or_immediate subs t cb node fed out).1.
Proof.
  intros Hc. pose proof (route_lookup subs t cb node fed out) as Hl.
  pose proof (ci_time _ Hc) as HI. apply time_inv_iff in HI as [Hwf Hq].
  assert (Ht : ∀ fh, fs_time <$> federates (route_tso_or_immediate subs t cb node fed out).1 !! fh =
    fs_time <$> federates fed !! fh).
  { intros fh. rewrite Hl. destruct (federates fed !! fh) as [fs|]; simpl; [|done].
    f_equal. unfold routed_fs. by destruct (decide _). }
  eapply no_ahead_causal; [done| |by apply same_times_no_ahead]. apply time_inv_iff.
  split; [|by apply route_queues_wf]. intros fh fs' Hfs'. specialize (Ht fh). rewrite Hfs' in Ht.
  symmetry in Ht. apply fmap_Some in Ht as (fs & Hfs & ->). by eapply Hwf.
Qed.
End effects.

(** ** The services keep the invariant *)

Section services.
Context {P : Prost}.
Implicit Types (Q : unit → DispatchState → Prop) (Qr : Resp → DispatchState → Prop).

Lemma wp_effect_causal m e Qr Q s :
  (∀ node fed out, causal_inv fed → causal_inv (e node fed out).1) →
  all_feds causal_inv s → (∀ s', all_feds causal_inv s' → Q tt s') → wp (on_federation m e) Qr Q s.
Proof.
  intros He HI HQ. eapply wp_mono; [apply (all_feds_effect causal_inv (Qr := Qr)); [|done]|done|].
  - intros fed Hfed. by apply He.
  - intros [] s' [Hs' _]. by apply HQ.
Qed.

(** A change of the caller: well formed if it was, and not ahead. *)
Lemma wp_modify_federate_causal m g Qr Q s :
  all_feds causal_inv s →
  (∀ fs, federates (federation_of m s) !! m_federate_handle m = Some fs → session_inv fs →
    session_inv (g fs) ∧
    (is_regulating (fs_time (g fs)) = true → is_regulating (fs_time fs) = true ∧
      f64_key (send_bound (fs_time fs)) ≤ f64_key (send_bound (fs_time (g fs)))) ∧
    (is_constrained (fs_time (g fs)) = true → is_constrained (fs_time fs) = true ∧
      current_time (fs_time (g fs)) = current_time (fs_time fs))) →
  (∀ s', all_feds causal_inv s' → (∀ fed, at_fed m s fed → at_fed m s' (update_federate (m_federate_handle m) g fed)) →
    Q tt s') →
  wp (modify_federate m g) Qr Q s.
Proof.
  intros HI Hg HQ. unfold modify_federate, modify_federation. apply wp_modify, HQ.
  - apply all_feds_update; [|done]. intros fed Hl Hfed. rewrite (federation_of_heap m s fed Hl) in Hg.
    pose proof (ci_time _ Hfed) as Ht.
    eapply no_ahead_causal; [done|apply update_federate_inv; [|done]|apply update_no_ahead];
      intros fs Hfs; [intros ?|]; apply Hg; [done..|by eapply Ht].
  - intros fed Hl. unfold at_fed in *. simpl. by rewrite lookup_alter_eq, Hl.
Qed.

Lemma grant_not_ahead t fs :
  is_constrained (fs_time fs) = false → pending_is t fs = true → is_finite t = true → session_inv fs →
  session_inv (grant t fs) ∧
  (is_regulating (fs_time (grant t fs)) = true → is_regulating (fs_time fs) = true ∧
    f64_key (send_bound (fs_time fs)) ≤ f64_key (send_bound (fs_time (grant t fs)))) ∧
  (is_constrained (fs_time (grant t fs)) = true → is_constrained (fs_time fs) = true ∧
    current_time (fs_time (grant t fs)) = current_time (fs_time fs)).
Proof.
  intros Hc Hp Hf [[Hcur Hla Hnn Hpend] Hq]. unfold pending_is in Hp.
  destruct (pending_advance (fs_time fs)) as [p|] eqn:Hpa; [|done]. destruct (Hpend p eq_refl) as [Hpf Hle].
  apply f64_eqb_key in Hp as (_ & _ & Hp). split_and!; [by split| |simpl; congruence].
  intros Hr. split; [done|]. unfold send_bound. simpl. apply f64_add_mono; [done..|lia].
Qed.

Notation preserves h := (∀ s, all_feds causal_inv s → all_feds causal_inv (run h s).1) (only parsing).
Ltac start := intros s HI; apply (run_wp _ (λ _ s', all_feds causal_inv s')).
Ltac causal_step :=
  first
    [ progress wp_step
    | lazymatch goal with
      | |- wp (modify_federate _ _) _ _ _ =>
          apply wp_modify_federate_causal; [assumption| |intros ? ? ?]
      | |- wp (notify _ _ _) _ _ _ => apply wp_modify
      | |- wp (on_federation _ _) _ _ _ => apply wp_effect_causal; [|assumption|intros ? ?]
      end ]; try assumption.

Lemma disable_time_regulation_causal : preserves disable_time_regulation.
Proof.
  start. unfold disable_time_regulation. repeat causal_step; [|intros; by apply try_grant_causal].
  intros fs' _ [[] ?]. by split_and!.
Qed.
Lemma disable_time_constrained_causal : preserves disable_time_constrained.
Proof.
  start. unfold disable_time_constrained. repeat causal_step.
  intros fs' _ [[] ?]. by split_and!.
Qed.

Lemma time_advance_request_causal t : preserves (time_advance_request t).
Proof.
  start. unfold time_advance_request. repeat causal_step;
    try (intros; by (apply drain_causal || apply with_tso_causal)).
  - intros fs' Hfs' Hinv. split_and!; [|done..]. simplify_eq. by apply set_pending_inv.
  - intros fs' Hfs' Hinv. destruct (pending_is _ fs') eqn:Hp; [|by split_and!].
    apply grant_not_ahead; [|done..].
    match goal with H : ∀ fed, at_fed _ _ fed → _ |- _ => rename H into Hupd end.
    match goal with H : federates (federation_of _ s) !! _ = Some ?x |- _ =>
      destruct (federation_of_lookup _ _ _ _ H) as (fed & Hfed & Hfs) end.
    apply Hupd in Hfed. rewrite (federation_of_heap _ _ _ Hfed) in Hfs'.
    rewrite (lookup_update_federate _ _ _ _ Hfs) in Hfs'. injection Hfs' as <-.
    by apply negb_true_iff.
Qed.

Lemma subset_causal instance class producer cands node fed out :
  causal_inv fed →
  causal_inv (notify_subscribers_of_registration_subset instance class producer cands node fed out).1.
Proof.
  intros Hc. destruct (object_instances fed !! instance) as [inst|] eqn:Hi.
  - destruct (notify_subset_spec instance class producer cands node fed out inst Hi) as (late & _ & Hn).
    destruct (notify_subscribers_of_registration_subset _ _ _ _ _ _ _) as [fed' out'].
    destruct Hn as (_ & Hl & _). simpl.
    eapply no_ahead_causal; [done| |apply same_times_no_ahead].
    + intros fh fs'. rewrite Hl. destruct (decide _); [|by apply Hc].
      intros (fs & Hfs & ->)%fmap_Some. pose proof (ci_time _ Hc _ _ Hfs) as []. by split.
    + intros fh. rewrite Hl. destruct (decide _); [|done]. by destruct (federates fed !! fh).
  - unfold notify_subscribers_of_registration_subset. rewrite Hi. by destruct (decide _).
Qed.

Lemma update_with_time_causal pi pv tag pt : preserves (update_attribute_values_with_time pi pv tag pt).
Proof.
  start. unfold update_attribute_values_with_time, decode_time_or_return. repeat causal_step;
    intros; by (apply subset_causal || apply route_causal).
Qed.
Lemma send_with_time_causal pc pp tag pt : preserves (send_interaction_with_time pc pp tag pt).
Proof.
  start. unfold send_interaction_with_time, sender_of, decode_time_or_return. repeat causal_step;
    intros; by apply route_causal.
Qed.
End services.

(** ** Properties *)

(** The services that advance time or carry time stamps, and those that end
    time regulation or constraint. *)
Inductive timed_service {P : Prost} : Handler Resp → Prop :=
| ts_advance t : timed_service (time_advance_request t)
| ts_disable_regulation : timed_service disable_time_regulation
| ts_disable_constrained : timed_service disable_time_constrained
| ts_update pi pv tag pt : timed_service (update_attribute_values_with_time pi pv tag pt)
| ts_send pc pp tag pt : timed_service (send_interaction_with_time pc pp tag pt).

(** Calls of sessions [ctx] one after the other; each sees the node its
    predecessors left. *)
Definition run_call (s : DispatchState) (c : SessionContext * Handler Resp) : DispatchState :=
  (run c.2 (set_ds_ctx (λ _, c.1) s)).1.

(** C1: causality is kept.  If times and queues are well formed and no
    constrained federate is ahead of LBTS in any federation, the same holds
    after any sequence of time advance requests, time-stamped updates and
    interactions, and calls that end time regulation or constraint, made by
    any sessions. *)
Theorem causality_preserved {P : Prost} s calls :
  all_feds causal_inv s → Forall (λ c, timed_service c.2) calls →
  all_feds causal_inv (foldl run_call s calls).
Proof.
  intros HI Hcalls. revert s HI. induction Hcalls as [|[ctx h] l Hh Hl IH]; intros s HI; [done|].
  simpl. apply IH. unfold run_call. simpl in *.
  assert (HI' : all_feds causal_inv (set_ds_ctx (λ _, ctx) s)) by exact HI.
  destruct Hh; [by apply time_advance_request_causal|by apply disable_time_regulation_causal
    |by apply disable_time_constrained_causal|by apply update_with_time_causal|by apply send_with_time_causal].
Qed.

Lemma decode_value_list_err {H} `{Countable H} (dec : ProtoHandle → result HandleError H) missing l out r :
  (∃ e d, missing = ExceptionData e d) → decode_value_list dec missing l out = Err r →
  ∃ e d, r = ExceptionData e d.
Proof.
  intros Hm. revert out. induction l as [|[[p|] v] l IH]; intros out; simpl; [done| |by intros [= <-]].
  destruct (dec p) as [h|[n]]; [|intros [= <-]; unfold exception_variant; eauto]. apply IH.
Qed.

Lemma decode_attribute_value_map_err pv r :
  decode_attribute_value_map pv = Err r → ∃ e d, r = ExceptionData e d.
Proof.
  unfold decode_attribute_value_map. destruct pv; [|done].
  apply decode_value_list_err. unfold exception_variant. eauto.
Qed.

(** C30: no update arrives in the past.  When a regulating member updates
    attributes with a time stamp in a federation with the causality
    invariant, the call is rejected with an exception and nothing changes, or
    the time stamp is not below the sender's current time plus lookahead, it
    is not in the past of any constrained federate, and the invariant holds
    afterwards. *)
Theorem update_with_time_not_past {P : Prost} s m fed fs pi pv tag pt :
  membership (ds_ctx s) = Some m → at_fed m s fed → causal_inv fed →
  federates fed !! m_federate_handle m = Some fs → is_regulating (fs_time fs) = true →
  let '(s', r) := run (update_attribute_values_with_time pi pv tag pt) s in
  (s' = s ∧ ∃ e d, r = ExceptionData e d) ∨
  (r = UpdateAttributeValuesWithTimeResponse None ∧
   ∃ p t fed', pt = Some p ∧ decode_logical_time p = Ok t ∧ at_fed m s' fed' ∧ causal_inv fed' ∧
    f64_ltb t (send_bound (fs_time fs)) = false ∧
    ∀ fh fs', federates fed !! fh = Some fs' → is_constrained (fs_time fs') = true →
      f64_ltb t (current_time (fs_time fs')) = false).
Proof.
  intros Hm Hfed Hc Hfs Hr. apply run_wp_let. pose proof (federation_of_heap m s fed Hfed) as Hf.
  unfold update_attribute_values_with_time, decode_time_or_return. wp_step. wp_step. wp_step. wp_step.
  eapply wp_some_eq; [exact Hm|].
  wp_run; try (left; split; [done|unfold exception_variant, id; eauto; by eapply decode_attribute_value_map_err]).
  all: rewrite Hf in *; simplify_eq; try congruence.
  eapply wp_at_effect; [exact Hfed|]. intros s1 Hs1 _. wp_step.
  eapply wp_at_effect; [exact Hs1|]. intros s2 Hs2 _. wp_step. right. split; [done|].
  match goal with H : decode_logical_time <$> pt = Some _ |- _ => apply fmap_Some in H as (p & -> & Hd) end.
  eexists p, _, _. split_and!; [done|by symmetry|exact Hs2|by apply route_causal, subset_causal|done|].
  intros fh fs' Hfs' Hcon. destruct (f64_ltb _ (current_time _)) eqn:Hlt; [|done]. exfalso.
  apply f64_ltb_key in Hlt as (Hn & _ & Hlt). pose proof (causal_key _ _ _ (ci_causal _ Hc) Hfs' Hcon) as Hk.
  pose proof (ci_time _ Hc) as Hti. apply time_inv_iff in Hti as [Hwf _].
  pose proof (send_bound_not_nan _ (Hwf _ _ Hfs)) as Hnb. pose proof (lbts_lower _ _ _ Hfs Hr Hnb) as Hlow.
  match goal with H : f64_ltb _ (f64_add _ _) = false |- _ => apply f64_ltb_false in H; [|done|exact Hnb] end.
  unfold send_bound in *. lia.
Qed.

(** *** Witnesses and limits *)

(** Federate 1 regulates at time 0 with lookahead 2 and owns instance 1;
    federate 2 is constrained at time 1. *)
Definition causal_federation : Federation :=
  update_federate (FederateHandle_new 1) (set_fs_time (λ _, mkTimeState true false f64_ZERO f64_TWO None))
    (update_federate (FederateHandle_new 2) (set_fs_time (λ _, mkTimeState false true f64_ONE f64_ZERO None))
      upd_federation).

Lemma causal_federation_inv : causal_inv causal_federation.
Proof.
  assert (Hall : ∀ fh fs, federates causal_federation !! fh = Some fs →
    (fs_time fs = mkTimeState true false f64_ZERO f64_TWO None ∨
     fs_time fs = mkTimeState false true f64_ONE f64_ZERO None) ∧ tso_queue fs = []).
  { intros fh fs Hfs. apply elem_of_map_to_list in Hfs. vm_compute in Hfs.
    repeat (apply elem_of_cons in Hfs as [Hfs|Hfs]; [injection Hfs as _ ->; vm_compute; eauto|]).
    by apply elem_of_nil in Hfs. }
  apply causal_intro.
  - intros fh fs Hfs. destruct (Hall fh fs Hfs) as [[Ht|Ht] Hq].
    all: split; [rewrite Ht; split; [reflexivity|reflexivity|by apply Z.leb_le|done]|].
    all: rewrite Hq; split; [by intros m ?%elem_of_nil|constructor].
  - intros fh fs Hfs Hc. destruct (Hall fh fs Hfs) as [[Ht|Ht] _]; rewrite Ht in *; [done|].
    apply Z.leb_le. vm_compute. reflexivity.
Defined.

Lemma causal_state_inv : all_feds causal_inv (demo_state 1 causal_federation).
Proof.
  intros r fed Hr. simpl in Hr. apply lookup_singleton_Some in Hr as [_ <-]. apply causal_federation_inv.
Defined.

Lemma causality_preserved_witness :
  all_feds causal_inv (foldl run_call (demo_state 1 causal_federation)
    [(ds_ctx (demo_state 1 causal_federation),
      time_advance_request (P := demo_prost) (Some (encode_logical_time f64_ONE)))]).
Proof.
  apply (causality_preserved (P := demo_prost)); [exact causal_state_inv|].
  constructor; [constructor|constructor].
Defined.

(** A time stamp of 1 is below 0 + 2: rejected. *)
Lemma update_with_time_not_past_witness :
  let '(s', r) := run (update_attribute_values_with_time (P := demo_prost) (Some upd_instance_arg)
    upd_values_arg [] (Some (encode_logical_time f64_ONE))) (demo_state 1 causal_federation) in
  ∃ e d, r = ExceptionData e d.
Proof.
  pose proof (update_with_time_not_past (P := demo_prost) (demo_state 1 causal_federation) (demo_member 1)
    causal_federation _ (Some upd_instance_arg) upd_values_arg [] (Some (encode_logical_time f64_ONE))
    eq_refl eq_refl causal_federation_inv eq_refl eq_refl) as H.
  destruct (run _ _) as [s' r]. destruct H as [[_ H]|(_ & p & t & fed' & [= <-] & Ht & _ & _ & Hlt & _)];
    [exact H|]. exfalso. vm_compute in Ht. injection Ht as <-. vm_compute in Hlt. discriminate Hlt.
Defined.

(** Federate 1 regulates at time 0 with lookahead 2 and publishes an
    interaction class; federate 2 subscribes to it and is constrained at 2. *)
Definition late_federation : Federation :=
  set_subscriptions (λ _, mkSubscriptionMatrix ∅
    {[ InteractionClassHandle_new 1 := {[FederateHandle_new 2]} ]} ∅)
  (set_federates (λ _,
    <[FederateHandle_new 1 := int_session 1 (mkTimeState true false f64_ZERO f64_TWO None)]>
    (<[FederateHandle_new 2 := int_session 2 (mkTimeState false true f64_TWO f64_ZERO None)]> ∅))
    int_federation).

(** [send_interaction_with_time] does not check the time stamp against the
    sender's lookahead: one of time 1 is accepted from a federate that
    promised not to send below 2, and reaches, at once, a constrained federate
    that is already at time 2. *)
Theorem send_with_time_in_the_past :
  let s := set_ds_node (set_connections (λ _, {[ 2 := 7%positive ]})) (demo_state 1 late_federation) in
  let '(s', r) := run (send_interaction_with_time (P := demo_prost) (Some int_class) None []
    (Some (encode_logical_time f64_ONE))) s in
  r = SendInteractionWithTimeResponse None ∧ lbts late_federation = f64_TWO ∧
  map target (ds_callbacks s') = [7%positive].
Proof. vm_compute. repeat split. Qed.

(** [enable_time_regulation] accepts a regulator behind a constrained
    federate: afterwards the constrained federate at time 1 is ahead of LBTS,
    which is 0. *)
Theorem enable_regulation_breaks_causality :
  let fed := update_federate (FederateHandle_new 1) (set_fs_time (λ _, TimeState_default)) causal_federation in
  let s := (run (enable_time_regulation (P := demo_prost) (Some (encode_logical_time_interval f64_ZERO)))
    (demo_state 1 fed)).1 in
  ∃ fs, federates fed !! FederateHandle_new 2 = Some fs ∧
    f64_leb (current_time (fs_time fs)) (lbts fed) = true ∧
    f64_leb (current_time (fs_time fs)) (lbts (fed_at (ds_node s) 1%positive)) = false.
Proof.
  intros fed s. eexists. split; [vm_compute; reflexivity|]. split; vm_compute; reflexivity.
Qed.
