(* ===== verification/Ownership.v ===== *)
(** * Ownership management

    The handlers of [dispatch/ownership.rs]: who owns an attribute of an
    instance, acquiring what nobody owns, divesting what one owns. *)

From S2P Require Import Prelude CoreTypes Fom Exception Proto State Subscription Handles Routing.
From S2P Require Import Handler TimeMgmt Declaration ObjectMgmt Tso Ddm DataFlow.

(** ** The loops *)

(** [groups.entry(owner).or_default().push(a)] for every attribute. *)
Definition owner_groups (owners : gmap AttributeHandle FederateHandle) (attrs : list AttributeHandle)
    : gmap (option FederateHandle) (list AttributeHandle) :=
  foldl (λ groups a, let owner := owners !! a in
    <[owner := default [] (groups !! owner) ++ [a]]> groups) ∅ attrs.

(** The owners, and the attributes secured and unavailable so far. *)
Definition acquire_step (self : FederateHandle)
    (st : gmap AttributeHandle FederateHandle * list AttributeHandle * list AttributeHandle)
    (a : AttributeHandle) : gmap AttributeHandle FederateHandle * list AttributeHandle * list AttributeHandle :=
  let '(owners, secured, unavailable) := st in
  match owners !! a with
  | Some _ => (owners, secured, unavailable ++ [a])
  | None => (<[a := self]> owners, secured ++ [a], unavailable)
  end.

Definition divest_step (self : FederateHandle)
    (st : gmap AttributeHandle FederateHandle * list AttributeHandle) (a : AttributeHandle)
    : gmap AttributeHandle FederateHandle * list AttributeHandle :=
  let '(owners, divested) := st in
  match owners !! a with
  | Some o => if decide (o = self) then (delete a owners, divested ++ [a]) else st
  | None => st
  end.

Section handlers.
Context {P : Prost}.

Definition is_attribute_owned_by_federate (instance attribute : option ProtoHandle) : Handler Resp :=
  m ← get_membership;
  instance ← decode_or_return decode_object_instance instance (exception_variant ObjectInstanceNotKnown "");
  attribute ← decode_or_return decode_attribute attribute (exception_variant InvalidAttributeHandle "");
  fed ← get_federation m;
  inst ← some_or_return (object_instances fed !! instance) (exception_variant ObjectInstanceNotKnown "");
  mret (IsAttributeOwnedByFederateResponse
    (bool_decide (attribute_owners inst !! attribute = Some (m_federate_handle m)))).

(** The checks the other three handlers start with. *)
Definition ownership_args (instance : option ProtoHandle) (attrs : option (list ProtoHandle))
    : Handler (Membership * ObjectInstanceHandle * gset AttributeHandle * ObjectInstance) :=
  m ← get_membership;
  instance_h ← decode_or_return decode_object_instance instance (exception_variant ObjectInstanceNotKnown "");
  attrs ← ok_or_return (decode_handle_set attrs) id;
  fed ← get_federation m;
  inst ← some_or_return (object_instances fed !! instance_h) (exception_variant ObjectInstanceNotKnown "");
  mret (m, instance_h, attrs, inst).

Definition query_attribute_ownership (instance : option ProtoHandle) (attrs : option (list ProtoHandle))
    : Handler Resp :=
  '(m, instance_h, attrs, inst) ← ownership_args instance attrs;
  let groups := owner_groups (attribute_owners inst) (elements attrs) in
  on_federation m (λ node fed out,
    let registrant := live_connections node fed (single (m_federate_handle m)) in
    (fed, foldl (λ out g, fan_out out registrant
       match g.1 with
       | Some o => inform_attribute_ownership instance_h g.2 o
       | None => attribute_is_not_owned instance_h g.2
       end) out (map_to_list groups)));;
  mret QueryAttributeOwnershipResponse.

Definition set_owners (instance_h : ObjectInstanceHandle)
    (owners : gmap AttributeHandle FederateHandle) : Federation → Federation :=
  set_object_instances (alter (set_attribute_owners (λ _, owners)) instance_h).

Definition attribute_ownership_acquisition_if_available (instance : option ProtoHandle)
    (attrs : option (list ProtoHandle)) (tag : list byte) : Handler Resp :=
  '(m, instance_h, attrs, inst) ← ownership_args instance attrs;
  let '(owners, secured, unavailable) :=
    foldl (acquire_step (m_federate_handle m)) (attribute_owners inst, [], []) (elements attrs) in
  modify_federation m (set_owners instance_h owners);;
  (if decide (secured = []) then mret tt
   else notify m (single (m_federate_handle m))
     (attribute_ownership_acquisition_notification instance_h secured tag));;
  (if decide (unavailable = []) then mret tt
   else notify m (single (m_federate_handle m))
     (attribute_ownership_unavailable instance_h unavailable tag));;
  mret AttributeOwnershipAcquisitionIfAvailableResponse.

Definition unconditional_attribute_ownership_divestiture (instance : option ProtoHandle)
    (attrs : option (list ProtoHandle)) (_tag : list byte) : Handler Resp :=
  '(m, instance_h, attrs, inst) ← ownership_args instance attrs;
  let '(owners, divested) :=
    foldl (divest_step (m_federate_handle m)) (attribute_owners inst, []) (elements attrs) in
  modify_federation m (set_owners instance_h owners);;
  (if decide (divested = []) then mret tt
   else
     fed ← get_federation m;
     match inst_class <$> object_instances fed !! instance_h with
     | Some class =>
         let subscribers := subscribers_for_attributes fed class divested None in
         notify m subscribers (attribute_is_not_owned instance_h divested)
     | None => mret tt
     end);;
  mret UnconditionalAttributeOwnershipDivestitureResponse.
End handlers.

(** ** What the loops compute *)

Lemma filter_ext_elem {A} (P Q : A → Prop) `{!∀ x, Decision (P x), !∀ x, Decision (Q x)} (l : list A) :
  (∀ a, a ∈ l → P a ↔ Q a) → filter P l = filter Q l.
Proof.
  induction l as [|x l IH]; intros Hl; [done|]. rewrite !filter_cons, IH by set_solver.
  apply decide_ext. apply Hl. set_solver.
Qed.

Lemma acquire_foldl self l owners sec un :
  NoDup l →
  let '(owners', sec', un') := foldl (acquire_step self) (owners, sec, un) l in
  sec' = sec ++ filter (λ a, owners !! a = None) l ∧
  un' = un ++ filter (λ a, is_Some (owners !! a)) l ∧
  ∀ a, owners' !! a = if decide (a ∈ l ∧ owners !! a = None) then Some self else owners !! a.
Proof.
  intros Hnd. revert owners sec un. induction Hnd as [|x l Hx Hnd IH]; intros owners sec un.
  { cbn [foldl]. rewrite ?filter_nil, !app_nil_r. split_and!; [done..|]. intros a.
    rewrite decide_False; [done|]. by intros [?%elem_of_nil _]. }
  cbn [foldl]. rewrite !filter_cons. unfold acquire_step at 2.
  destruct (owners !! x) as [o|] eqn:Hox.
  - rewrite decide_False, decide_True by eauto. specialize (IH owners sec (un ++ [x])).
    destruct (foldl _ _ _) as [[ow' sec'] un']. destruct IH as (-> & -> & IH).
    split_and!; [done|by rewrite <- app_assoc|]. intros a. rewrite IH. apply decide_ext.
    split; [intros []; split; [set_solver|done]|]. intros [[->|Ha]%elem_of_cons Hn]; [congruence|done].
  - rewrite decide_True by done. rewrite (decide_False (P := is_Some None)) by (by intros [? ?]).
    specialize (IH (<[x := self]> owners) (sec ++ [x]) un).
    destruct (foldl _ _ _) as [[ow' sec'] un']. destruct IH as (-> & -> & IH).
    assert (Hl : ∀ a, a ∈ l → <[x := self]> owners !! a = owners !! a)
      by (intros a Ha; apply lookup_insert_ne; intros ->; done).
    split_and!.
    + rewrite <- app_assoc. simpl. do 2 f_equal. apply filter_ext_elem.
      intros a Ha. by rewrite Hl.
    + f_equal. apply filter_ext_elem. intros a Ha. by rewrite Hl.
    + intros a. rewrite IH. destruct (decide (a = x)) as [->|Hne].
      * rewrite lookup_insert_eq, decide_False by (by intros []). rewrite decide_True; [done|].
        split; [set_solver|done].
      * rewrite lookup_insert_ne by done. apply decide_ext. set_solver.
Qed.

Lemma divest_foldl self l owners d :
  NoDup l →
  let '(owners', d') := foldl (divest_step self) (owners, d) l in
  d' = d ++ filter (λ a, owners !! a = Some self) l ∧
  ∀ a, owners' !! a = if decide (a ∈ l ∧ owners !! a = Some self) then None else owners !! a.
Proof.
  intros Hnd. revert owners d. induction Hnd as [|x l Hx Hnd IH]; intros owners d.
  { cbn [foldl]. rewrite ?filter_nil, app_nil_r. split; [done|]. intros a.
    rewrite decide_False; [done|]. by intros [?%elem_of_nil _]. }
  cbn [foldl]. rewrite filter_cons. unfold divest_step at 2.
  destruct (decide (owners !! x = Some self)) as [Hox|Hox].
  - rewrite Hox, decide_True by done. specialize (IH (delete x owners) (d ++ [x])).
    destruct (foldl _ _ _) as [ow' d']. destruct IH as (-> & IH). split.
    + rewrite <- app_assoc. simpl. do 2 f_equal. apply filter_ext_elem.
      intros a Ha. rewrite lookup_delete_ne; [done|]. intros ->. done.
    + intros a. rewrite IH. destruct (decide (a = x)) as [->|Hne].
      * rewrite lookup_delete_eq, decide_False by (by intros [_ ?]). rewrite decide_True; [done|].
        split; [set_solver|done].
      * rewrite lookup_delete_ne by done. apply decide_ext. set_solver.
  - assert (Hs : match owners !! x with Some o => if decide (o = self) then (delete x owners, d ++ [x])
      else (owners, d) | None => (owners, d) end = (owners, d)).
    { destruct (owners !! x) as [o|]; [|done]. by rewrite decide_False by congruence. }
    rewrite Hs. specialize (IH owners d). destruct (foldl _ _ _) as [ow' d']. destruct IH as (-> & IH).
    split; [done|]. intros a. rewrite IH. apply decide_ext.
    split; [intros []; split; [set_solver|done]|]. intros [[->|Ha]%elem_of_cons Hn]; [congruence|done].
Qed.

(** ** Properties *)

(** The messages that carry callback [cb] to [conns], when [l] is not empty. *)
Definition sent_unless_empty {P : Prost} {A} `{EqDecision A} (l : list A) (conns : list ConnRef)
    (cb : CallbackRequest) : list OutboundCallback :=
  if decide (l = []) then [] else (λ c, mkOutboundCallback c (encode_callback cb)) <$> conns.

Lemma wp_at_notify_unless {P : Prost} {A} `{EqDecision A} {Qr : Resp → DispatchState → Prop}
    (Q : unit → DispatchState → Prop) (l : list A) m ts cb s fed :
  at_fed m s fed →
  (∀ s', at_fed m s' fed →
    io s s' (ds_callbacks s ++ sent_unless_empty l (live_connections (ds_node s) fed ts) cb) → Q tt s') →
  wp (if decide (l = []) then mret tt else notify m ts cb) Qr Q s.
Proof.
  intros Hs HQ. unfold sent_unless_empty in HQ. destruct (decide (l = [])).
  - apply wp_ret, HQ; [done|]. by rewrite app_nil_r.
  - eapply wp_at_notify; [done|]. rewrite fan_out_app. done.
Qed.

Lemma lookup_set_owners h owners fed inst :
  object_instances fed !! h = Some inst →
  object_instances (set_owners h owners fed) !! h = Some (set_attribute_owners (λ _, owners) inst).
Proof. intros H. simpl. by rewrite lookup_alter_eq, H. Qed.

(** Acquiring ownership.  A member that asks for attributes [attrs] of a
    known instance becomes the owner of exactly those nobody owned; no other
    owner changes.  It is told which attributes it secured and which were not
    available. *)
Theorem acquisition_spec {P : Prost} s m fed pi instance inst pa attrs tag :
  membership (ds_ctx s) = Some m → at_fed m s fed →
  decode_object_instance pi = Ok instance → decode_handle_set pa = Ok attrs →
  object_instances fed !! instance = Some inst →
  let self := m_federate_handle m in
  let conns := live_connections (ds_node s) fed (single self) in
  let secured := filter (λ a, attribute_owners inst !! a = None) (elements attrs) in
  let unavailable := filter (λ a, is_Some (attribute_owners inst !! a)) (elements attrs) in
  let '(s', r) := run (attribute_ownership_acquisition_if_available (Some pi) pa tag) s in
  r = AttributeOwnershipAcquisitionIfAvailableResponse ∧
  ∃ owners', at_fed m s' (set_owners instance owners' fed) ∧
    (∀ a, owners' !! a = if decide (a ∈ attrs ∧ attribute_owners inst !! a = None)
                         then Some self else attribute_owners inst !! a) ∧
    ds_callbacks s' = (ds_callbacks s ++
      sent_unless_empty secured conns (attribute_ownership_acquisition_notification instance secured tag)) ++
      sent_unless_empty unavailable conns (attribute_ownership_unavailable instance unavailable tag).
Proof.
  intros Hm Hfed Hpi Hpa Hi self conns secured unavailable. apply run_wp_let.
  pose proof (federation_of_heap m s fed Hfed) as Hf.
  unfold attribute_ownership_acquisition_if_available, ownership_args. wp_det. rewrite Hf.
  eapply wp_some_eq; [exact Hi|]. wp_det. fold self.
  pose proof (acquire_foldl self (elements attrs) (attribute_owners inst) [] [] (NoDup_elements attrs)) as Hfold.
  destruct (foldl _ _ _) as [[owners sec] un]. destruct Hfold as (Hsec & Hun & Howners). simpl in Hsec, Hun.
  subst sec un. fold secured unavailable. wp_step.
  eapply wp_at_modify_federation; [exact Hfed|]. intros s1 Hs1 I1. wp_step.
  eapply (wp_at_notify_unless _ secured); [exact Hs1|]. intros s2 Hs2 I2. wp_step.
  eapply (wp_at_notify_unless _ unavailable); [exact Hs2|]. intros s3 Hs3 I3. wp_step. split; [done|].
  exists owners. split_and!; [exact Hs3| |].
  - intros a. rewrite Howners. apply decide_ext. by rewrite elem_of_elements.
  - rewrite (io_callbacks _ _ _ I3), (io_callbacks _ _ _ I2), (io_callbacks _ _ _ I1).
    rewrite (live_connections_node (ds_node s2) (ds_node s)), (live_connections_node (ds_node s1) (ds_node s));
      [done|apply I1|etransitivity; [apply I2|apply I1]].
Qed.

(** Divesting ownership.  A member that divests attributes [attrs] of a
    known instance stops being the owner of exactly those it owned, they are
    owned by nobody afterwards, and no other owner changes.  The subscribers
    of the divested attributes, at the instance's class or an ancestor, are
    told that they are not owned. *)
Theorem divestiture_spec {P : Prost} s m fed S pi instance inst pa attrs tag :
  membership (ds_ctx s) = Some m → at_fed m s fed → FomWf (fed_fom fed) →
  represents (subscriptions fed) S →
  decode_object_instance pi = Ok instance → decode_handle_set pa = Ok attrs →
  object_instances fed !! instance = Some inst →
  let self := m_federate_handle m in
  let divested := filter (λ a, attribute_owners inst !! a = Some self) (elements attrs) in
  let '(s', r) := run (unconditional_attribute_ownership_divestiture (Some pi) pa tag) s in
  r = UnconditionalAttributeOwnershipDivestitureResponse ∧
  ∃ owners' (targets : gset FederateHandle), at_fed m s' (set_owners instance owners' fed) ∧
    (∀ a, owners' !! a = if decide (a ∈ attrs ∧ attribute_owners inst !! a = Some self)
                         then None else attribute_owners inst !! a) ∧
    (∀ fh, fh ∈ targets ↔ ∃ anc a, ancestor (fed_fom fed) (inst_class inst) anc ∧ a ∈ attrs ∧
      attribute_owners inst !! a = Some self ∧ (anc, a, fh) ∈ S) ∧
    ds_callbacks s' = ds_callbacks s ++ sent_unless_empty divested
      (live_connections (ds_node s) fed targets) (attribute_is_not_owned instance divested).
Proof.
  intros Hm Hfed Hwf HS Hpi Hpa Hi self divested. apply run_wp_let.
  pose proof (federation_of_heap m s fed Hfed) as Hf.
  unfold unconditional_attribute_ownership_divestiture, ownership_args. wp_det. rewrite Hf.
  eapply wp_some_eq; [exact Hi|]. wp_det. fold self.
  pose proof (divest_foldl self (elements attrs) (attribute_owners inst) [] (NoDup_elements attrs)) as Hfold.
  destruct (foldl _ _ _) as [owners d]. destruct Hfold as (Hd & Howners). simpl in Hd.
  subst d. fold divested. wp_step.
  eapply wp_at_modify_federation; [exact Hfed|]. intros s1 Hs1 I1. wp_step.
  set (targets := subscribers_for_attributes fed (inst_class inst) divested None).
  assert (Hstep : wp (if decide (divested = []) then mret tt
     else notify m targets (attribute_is_not_owned instance divested)) 
     (λ _ _, False) (λ _ s', at_fed m s' (set_owners instance owners fed) ∧
       ds_callbacks s' = ds_callbacks s ++ sent_unless_empty divested
         (live_connections (ds_node s) fed targets) (attribute_is_not_owned instance divested)) s1).
  { eapply (wp_at_notify_unless _ divested); [exact Hs1|]. intros s2 Hs2 I2. split; [exact Hs2|].
    rewrite (io_callbacks _ _ _ I2), (io_callbacks _ _ _ I1).
    by rewrite (live_connections_node (ds_node s1) (ds_node s)) by apply I1. }
  apply (wp_mono (λ _ _, False) _ (λ _ s', at_fed m s' (set_owners instance owners fed) ∧
       ds_callbacks s' = ds_callbacks s ++ sent_unless_empty divested
         (live_connections (ds_node s) fed targets) (attribute_is_not_owned instance divested))).
  - destruct (decide (divested = [])); [exact Hstep|]. wp_step. unfold get_federation. apply wp_gets.
    rewrite (federation_of_heap m s1 _ Hs1), (lookup_set_owners _ _ _ _ Hi). exact Hstep.
  - done.
  - intros [] s2 [Hs2 Hcb]. wp_step. split; [done|]. exists owners, targets. split_and!; [exact Hs2| | |exact Hcb].
    + intros a. rewrite Howners. apply decide_ext. by rewrite elem_of_elements.
    + intros fh. unfold targets. rewrite elem_of_subscribers_for_attributes. split.
      * intros [_ (anc & a & set & Hanc & Ha & Hset)]. exists anc, a.
        apply list_elem_of_filter in Ha as [Ho Ha%elem_of_elements].
        apply inheritance_chain_spec in Hanc; [|done]. split_and!; [done..|].
        apply (rep_attr _ _ HS). unfold attr_set. destruct Hset as [-> ?]. done.
      * intros (anc & a & Hanc & Ha & Ho & Hin). split; [done|]. apply (rep_attr _ _ HS) in Hin.
        unfold attr_set in Hin. destruct (by_attribute (subscriptions fed) !! (anc, a)) as [set|] eqn:Hs;
          simpl in Hin; [|by apply not_elem_of_empty in Hin].
        exists anc, a, set. split_and!; [by apply inheritance_chain_spec| |done..].
        apply list_elem_of_filter. rewrite elem_of_elements. done.
Qed.

(** *** Witnesses *)

Definition own_attrs : gset AttributeHandle := {[AttributeHandle_new 1]}.

(** Instance 1 belongs to federate 1: federate 2 does not get attribute 1. *)
Lemma acquisition_witness :
  let '(s', r) := run (attribute_ownership_acquisition_if_available (P := demo_prost)
    (Some upd_instance_arg) demo_attrs []) (demo_state 2 upd_federation) in
  ∃ owners', at_fed (demo_member 2) s' (set_owners (ObjectInstanceHandle_new 1) owners' upd_federation) ∧
    owners' !! AttributeHandle_new 1 = Some (FederateHandle_new 1).
Proof.
  pose proof (acquisition_spec (P := demo_prost) (demo_state 2 upd_federation) (demo_member 2)
    upd_federation upd_instance_arg (ObjectInstanceHandle_new 1) upd_instance demo_attrs
    own_attrs [] eq_refl eq_refl eq_refl ltac:(vm_compute; reflexivity) eq_refl) as H.
  cbv zeta in H. destruct (run _ _) as [s' r]. destruct H as (_ & owners' & Hs' & Ho & _).
  exists owners'. split; [exact Hs'|]. rewrite Ho, decide_False; [reflexivity|]. intros [_ Hn]. discriminate Hn.
Defined.

Lemma divestiture_witness :
  let '(s', r) := run (unconditional_attribute_ownership_divestiture (P := demo_prost)
    (Some upd_instance_arg) demo_attrs []) (demo_state 1 upd_federation) in
  ∃ owners', at_fed (demo_member 1) s' (set_owners (ObjectInstanceHandle_new 1) owners' upd_federation) ∧
    owners' !! AttributeHandle_new 1 = None.
Proof.
  pose proof (divestiture_spec (P := demo_prost) (demo_state 1 upd_federation) (demo_member 1)
    upd_federation reg_triples upd_instance_arg (ObjectInstanceHandle_new 1) upd_instance demo_attrs
    own_attrs [] eq_refl eq_refl demo_fom_wf reg_represents eq_refl
    ltac:(vm_compute; reflexivity) eq_refl) as H.
  cbv zeta in H. destruct (run _ _) as [s' r]. destruct H as (_ & owners' & targets & Hs' & Ho & _).
  exists owners'. split; [exact Hs'|]. rewrite Ho, decide_True; [reflexivity|].
  split; [vm_compute; reflexivity|reflexivity].
Defined.

(** The handlers check neither that the class has the attribute nor that the
    caller publishes it: federate 2, which publishes nothing, acquires
    attribute 99 of instance 1, which its class does not have. *)
Theorem acquires_undefined_attribute :
  let s' := (run (attribute_ownership_acquisition_if_available (P := demo_prost)
    (Some upd_instance_arg) (Some [encode_attribute (AttributeHandle_new 99)]) [])
    (demo_state 2 upd_federation)).1 in
  (inst ← object_instances (fed_at (ds_node s') 1%positive) !! ObjectInstanceHandle_new 1;
   attribute_owners inst !! AttributeHandle_new 99) = Some (FederateHandle_new 2).
Proof. vm_compute. reflexivity. Qed.
