(* ===== verification/SyncPoints.v ===== *)
(** * Synchronization points

    [dispatch/sync_points.rs]: registration of a synchronization point and
    the barrier its participants pass when all of them have achieved it. *)

From S2P Require Import Prelude CoreTypes Fom Exception Proto State Handles Routing Handler.
From S2P Require Import TimeMgmt Declaration.

Section handlers.
Context {P : Prost}.

(** The participant set as the arm of [dispatch_call] decodes it: bytes that
    are not a handle are skipped. *)
Definition decode_participants (set : option (list ProtoHandle)) : gset FederateHandle :=
  list_to_set (omap (λ h, (λ c, FederateHandle_new (och_raw c)) <$> ok (decode_object_class h))
    (default [] set)).

Definition register_synchronization_point (label : string) (tag : list byte)
    (participant_subset : option (gset FederateHandle)) : Handler Resp :=
  m ← get_membership;
  return_if (bool_decide (label = ""%string))
    (exception_variant InvalidSynchronizationPointLabel "label must not be empty");;
  fed ← get_federation m;
  let participants : gset FederateHandle :=
    match participant_subset with
    | Some s => if decide (s = ∅) then dom (federates fed) else s
    | None => dom (federates fed)
    end in
  match sync_points fed !! label with
  | Some _ =>
      notify m (single (m_federate_handle m)) (synchronization_point_registration_failed label 0)
  | None =>
      modify_federation m (set_sync_points (insert label (mkSyncPoint label tag participants ∅ ∅)));;
      notify m (single (m_federate_handle m)) (synchronization_point_registration_succeeded label);;
      notify m participants (announce_synchronization_point label tag)
  end;;
  mret RegisterFederationSynchronizationPointResponse.

(** The two registration arms of [dispatch_call]. *)
Definition register_synchronization_point_call (label : string) (tag : list byte) : Handler Resp :=
  register_synchronization_point label tag None.
Definition register_synchronization_point_with_set_call (label : string) (tag : list byte)
    (set : option (list ProtoHandle)) : Handler Resp :=
  register_synchronization_point label tag (Some (decode_participants set)).

(** [sp.achieved.insert(fh); if !successfully { sp.failed_to_sync.insert(fh); }] *)
Definition record_achieved (fh : FederateHandle) (successfully : bool) (sp : SyncPoint) : SyncPoint :=
  set_failed_to_sync (λ f, if successfully then f else {[fh]} ∪ f)
    (set_achieved (λ a, {[fh]} ∪ a) sp).

Definition synchronization_point_achieved (label : string) (successfully : bool) : Handler Resp :=
  m ← get_membership;
  fed ← get_federation m;
  sp ← some_or_return (sync_points fed !! label)
    (exception_variant SynchronizationPointLabelNotAnnounced label);
  return_if (negb (bool_decide (m_federate_handle m ∈ participants sp)))
    (exception_variant FederateNotInSynchronizationGroup
      (D_cat [D_str "federate "; D_int (fh_raw (m_federate_handle m)); D_str " not in sync set for "; D_str label]));;
  let sp := record_achieved (m_federate_handle m) successfully sp in
  (if (size (achieved sp) =? size (participants sp))%nat then
     modify_federation m (set_sync_points (delete label));;
     notify m (participants sp) (federation_synchronized label (failed_to_sync sp))
   else modify_federation m (set_sync_points (insert label sp)));;
  mret SynchronizationPointAchievedResponse.
End handlers.

(** ** The invariant *)

Record sync_point_wf (label : string) (sp : SyncPoint) : Prop := {
  sw_label : sp_label sp = label;
  sw_achieved : achieved sp ⊆ participants sp;
  sw_failed : failed_to_sync sp ⊆ achieved sp
}.
Definition sync_wf (fed : Federation) : Prop := map_Forall sync_point_wf (sync_points fed).

Lemma record_achieved_wf label fh b sp :
  sync_point_wf label sp → fh ∈ participants sp → sync_point_wf label (record_achieved fh b sp).
Proof. intros [Hl Ha Hf] Hin. split; simpl; [done|set_solver|]. destruct b; set_solver. Qed.

(** Counting suffices: nobody else can have achieved it. *)
Lemma all_achieved label sp :
  sync_point_wf label sp →
  (size (achieved sp) =? size (participants sp))%nat = true ↔ achieved sp = participants sp.
Proof.
  intros [_ Ha _]. rewrite Nat.eqb_eq. split; [|by intros ->]. intros Hs.
  apply set_eq. intros x. split; [by apply Ha|]. intros Hx.
  destruct (decide (x ∈ achieved sp)) as [?|Hn]; [done|]. exfalso.
  assert (size (achieved sp) < size (participants sp))%nat; [|lia].
  apply subset_size. split; [done|]. intros Hsub. apply Hn, Hsub, Hx.
Qed.

(** ** Properties *)

(** The synchronization-point invariant.  In every federation, those that
    achieved a point are participants of it and those that failed are among
    those that achieved it; both services keep this, whoever calls them. *)
Theorem sync_services_invariant {P : Prost} s label tag subset b :
  all_feds sync_wf s →
  all_feds sync_wf (run (register_synchronization_point label tag subset) s).1 ∧
  all_feds sync_wf (run (synchronization_point_achieved label b) s).1.
Proof.
  intros HI. split; apply (run_wp _ (λ _ s', all_feds sync_wf s')).
  - unfold register_synchronization_point. wp_run; try done.
    unfold modify_federation. apply wp_modify. wp_step. apply wp_modify. apply wp_modify. wp_step.
    apply all_feds_update; [|done]. intros fed Hl Hwf. simpl. apply map_Forall_insert_2; [|exact Hwf].
    split; simpl; [done|set_solver..].
  - unfold synchronization_point_achieved. wp_run; try done.
    all: unfold modify_federation; apply wp_modify; try (apply wp_modify); wp_step.
    all: apply all_feds_update; [|done]; intros fed Hl Hwf; simpl.
    + by apply map_Forall_delete.
    + apply map_Forall_insert_2; [|exact Hwf]. apply record_achieved_wf.
      * rewrite (federation_of_heap _ _ _ Hl) in H0. by eapply Hwf.
      * by apply negb_false_iff, bool_decide_eq_true in H1.
Qed.

(** Federate [c.1] of federation [r] reports the point as achieved. *)
Definition achieve {P : Prost} (r : FedRef) (label : string) (s : DispatchState)
    (c : FederateHandle * bool) : DispatchState :=
  (run (synchronization_point_achieved label c.2)
    (set_ds_ctx (λ _, mkSessionContext 0 (Some (mkMembership r c.1 ""))) s)).1.

Lemma achieve_step {P : Prost} r label s c fed sp :
  fed_heap (ds_node s) !! r = Some fed → sync_wf fed →
  sync_points fed !! label = Some sp → c.1 ∈ participants sp →
  let sp' := record_achieved c.1 c.2 sp in
  let s' := achieve r label s c in
  connections (ds_node s') = connections (ds_node s) ∧
  if decide (achieved sp' = participants sp)
  then fed_heap (ds_node s') !! r = Some (set_sync_points (delete label) fed) ∧
       ds_callbacks s' = fan_out (ds_callbacks s) (live_connections (ds_node s) fed (participants sp))
         (federation_synchronized label (failed_to_sync sp'))
  else fed_heap (ds_node s') !! r = Some (set_sync_points (insert label sp') fed) ∧
       ds_callbacks s' = ds_callbacks s.
Proof.
  intros Hr Hwf Hsp Hin sp' s'. unfold s', achieve.
  set (s0 := set_ds_ctx _ s). set (m := mkMembership r c.1 "").
  assert (Hs0 : at_fed m s0 fed) by exact Hr. pose proof (federation_of_heap m s0 fed Hs0) as Hf.
  pose proof (record_achieved_wf _ c.1 c.2 _ (Hwf _ _ Hsp) Hin) as Hwf'. fold sp' in Hwf'.
  apply (run_wp _ (λ _ x, connections (ds_node x) = connections (ds_node s) ∧
    if decide (achieved sp' = participants sp)
    then fed_heap (ds_node x) !! r = Some (set_sync_points (delete label) fed) ∧
       ds_callbacks x = fan_out (ds_callbacks s) (live_connections (ds_node s) fed (participants sp))
         (federation_synchronized label (failed_to_sync sp'))
    else fed_heap (ds_node x) !! r = Some (set_sync_points (insert label sp') fed) ∧
       ds_callbacks x = ds_callbacks s)).
  unfold synchronization_point_achieved. do 4 wp_step. eapply (wp_some_eq _ _ m); [done|]. wp_det. rewrite Hf.
  eapply wp_some_eq; [exact Hsp|]. wp_step.
  apply wp_continue; [by apply negb_false_iff, bool_decide_eq_true_2|]. change (m_federate_handle m) with c.1.
  fold sp'. wp_step. destruct (size (achieved sp') =? size (participants sp'))%nat eqn:Hall.
  - apply (all_achieved _ _ Hwf') in Hall. change (participants sp') with (participants sp) in Hall.
    wp_step.
    eapply wp_at_modify_federation; [exact Hs0|]. intros s1 Hs1 I1.
    eapply wp_at_notify; [exact Hs1|]. intros s2 Hs2 I2. wp_step. rewrite decide_True by done.
    split_and!; [|exact Hs2|].
    + rewrite (io_connections _ _ _ I2). apply I1.
    + rewrite (io_callbacks _ _ _ I2), (io_callbacks _ _ _ I1).
      rewrite (live_connections_node (ds_node s1) (ds_node s)) by apply I1.
      by rewrite (live_connections_ext (ds_node s) (set_sync_points (delete label) fed) fed).
  - eapply wp_at_modify_federation; [exact Hs0|]. intros s1 Hs1 I1. wp_step. rewrite decide_False.
    2:{ intros He. apply (all_achieved _ _ Hwf') in He. congruence. }
    split_and!; [apply I1|exact Hs1|apply I1].
Qed.

(** While participants are missing, the point stays and nobody is called. *)
Lemma achieve_run {P : Prost} r label l s fed sp :
  fed_heap (ds_node s) !! r = Some fed → sync_wf fed → sync_points fed !! label = Some sp →
  (∀ c, c ∈ l → c.1 ∈ participants sp) → list_to_set l.*1 ∪ achieved sp ≠ participants sp →
  let s' := foldl (achieve r label) s l in
  ∃ fed' sp', fed_heap (ds_node s') !! r = Some fed' ∧ sync_wf fed' ∧
    sync_points fed' !! label = Some sp' ∧ federates fed' = federates fed ∧
    participants sp' = participants sp ∧ achieved sp' = list_to_set l.*1 ∪ achieved sp ∧
    (∀ x, x ∈ failed_to_sync sp' ↔ x ∈ failed_to_sync sp ∨ (x, false) ∈ l) ∧
    ds_callbacks s' = ds_callbacks s ∧ connections (ds_node s') = connections (ds_node s).
Proof.
  revert s fed sp. induction l as [|c l IH]; intros s fed sp Hr Hwf Hsp Hl Hne; cbn [foldl].
  { exists fed, sp. split_and!; try done; [simpl; set_solver|set_solver]. }
  assert (Hc : c.1 ∈ participants sp) by (apply Hl; set_solver).
  destruct (achieve_step r label s c fed sp Hr Hwf Hsp Hc) as [Hconn Hstep].
  pose proof (record_achieved_wf _ c.1 c.2 _ (Hwf _ _ Hsp) Hc) as Hwf'.
  destruct (decide (achieved (record_achieved c.1 c.2 sp) = participants sp)) as [He|Hd].
  { exfalso. apply Hne. apply set_eq. intros x. split.
    - intros [Hx|Hx]%elem_of_union; [|by apply (sw_achieved _ _ (Hwf _ _ Hsp))].
      apply elem_of_list_to_set, list_elem_of_fmap in Hx as (c' & -> & Hc'). by apply Hl.
    - rewrite <- He. simpl. set_solver. }
  destruct Hstep as [Hr' Hcb].
  destruct (IH (achieve r label s c) _ (record_achieved c.1 c.2 sp) Hr') as (fed' & sp' & H1 & H2 & H3 & H4 & H5 & H6 & H7 & H8 & H9).
  - simpl. apply map_Forall_insert_2; [done|exact Hwf].
  - simpl. apply lookup_insert_eq.
  - intros c' Hc'. simpl. apply Hl. set_solver.
  - simpl. intros He. apply Hne. rewrite <- He. simpl. set_solver.
  - exists fed', sp'. split_and!; try done.
    + rewrite H6. simpl. set_solver.
    + intros x. rewrite H7. destruct c as [fh []]; simpl; set_solver.
    + congruence.
    + congruence.
Qed.

(** C22: a synchronization point is a barrier.  Let participants of a fresh
    point report it as achieved, in any order and any number of times, until
    all but [last] have.  Up to then the point stays and nobody is called
    back; the report of [last] removes the point and sends
    [FederationSynchronized] to the participants, with exactly those in the
    failed set that reported a failure. *)
Theorem sync_barrier {P : Prost} r label s fed sp l last :
  fed_heap (ds_node s) !! r = Some fed → sync_wf fed → sync_points fed !! label = Some sp →
  achieved sp = ∅ → (∀ c, c ∈ l → c.1 ∈ participants sp) → last.1 ∈ participants sp →
  list_to_set l.*1 ≠ participants sp → {[last.1]} ∪ list_to_set l.*1 = participants sp →
  let s1 := foldl (achieve r label) s l in
  let s2 := achieve r label s1 last in
  ds_callbacks s1 = ds_callbacks s ∧
  (sync_points <$> fed_heap (ds_node s1) !! r) ≫= lookup label ≠ None ∧
  (sync_points <$> fed_heap (ds_node s2) !! r) ≫= lookup label = None ∧
  ∃ failed : gset FederateHandle, (∀ x, x ∈ failed ↔ (x, false) ∈ l ++ [last]) ∧
    ds_callbacks s2 = fan_out (ds_callbacks s) (live_connections (ds_node s) fed (participants sp))
      (federation_synchronized label failed).
Proof.
  intros Hr Hwf Hsp Ha Hl Hlast Hne Hall s1 s2.
  destruct (achieve_run r label l s fed sp Hr Hwf Hsp Hl) as
    (fed' & sp' & H1 & H2 & H3 & H4 & H5 & H6 & H7 & H8 & H9); [by rewrite Ha, union_empty_r_L|].
  fold s1 in H1, H8, H9. rewrite Ha, union_empty_r_L in H6.
  assert (Hlast' : last.1 ∈ participants sp') by (by rewrite H5).
  destruct (achieve_step r label s1 last fed' sp' H1 H2 H3 Hlast') as [_ Hstep]. fold s2 in Hstep.
  rewrite decide_True in Hstep by (simpl; by rewrite H6, H5). destruct Hstep as [Hr2 Hcb].
  rewrite Hr2, H1. split_and!; [done|simpl; by rewrite H3|simpl; apply lookup_delete_eq|].
  exists (failed_to_sync (record_achieved last.1 last.2 sp')). split.
  - assert (Hf0 : failed_to_sync sp = ∅) by (pose proof (sw_failed _ _ (Hwf _ _ Hsp)); set_solver).
    intros x. destruct last as [fh []]; simpl; rewrite ?elem_of_union, H7, Hf0; set_solver.
  - rewrite Hcb, H8, H5. f_equal. rewrite (live_connections_node (ds_node s1) (ds_node s)) by done.
    apply live_connections_ext. intros fh. by rewrite H4.
Qed.

(** *** Witnesses *)

Definition sync_fh (h : Z) : FederateHandle := FederateHandle_new h.
Definition sync_point : SyncPoint := mkSyncPoint "go" [] {[sync_fh 1; sync_fh 2]} ∅ ∅.
Definition sync_federation : Federation := set_sync_points (λ _, {[ "go"%string := sync_point ]}) demo_federation.

Lemma sync_federation_wf : sync_wf sync_federation.
Proof.
  intros label sp Hsp. simpl in Hsp. apply lookup_singleton_Some in Hsp as [<- <-].
  split; simpl; [reflexivity|set_solver..].
Defined.

Lemma sync_services_witness :
  all_feds sync_wf (demo_state 1 sync_federation) ∧
  all_feds sync_wf (run (synchronization_point_achieved (P := demo_prost) "go" true) (demo_state 1 sync_federation)).1.
Proof.
  assert (H : all_feds sync_wf (demo_state 1 sync_federation)).
  { intros r fed Hr. simpl in Hr. apply lookup_singleton_Some in Hr as [_ <-]. apply sync_federation_wf. }
  split; [exact H|]. exact (proj2 (sync_services_invariant (P := demo_prost) _ "go" [] None true H)).
Defined.

(** Federate 1 reports twice, then federate 2 with a failure. *)
Lemma sync_barrier_witness :
  let s1 := foldl (achieve (P := demo_prost) 1%positive "go") (demo_state 1 sync_federation)
    [(sync_fh 1, true); (sync_fh 1, true)] in
  (sync_points <$> fed_heap (ds_node s1) !! 1%positive) ≫= lookup "go"%string ≠ None.
Proof.
  pose proof (sync_barrier (P := demo_prost) 1%positive "go" (demo_state 1 sync_federation) sync_federation
    sync_point [(sync_fh 1, true); (sync_fh 1, true)] (sync_fh 2, false) eq_refl sync_federation_wf eq_refl
    eq_refl) as H.
  cbv zeta in H. apply H.
  - intros c Hc. repeat (apply elem_of_cons in Hc as [->|Hc]); [set_solver..|by apply elem_of_nil in Hc].
  - simpl. set_solver.
  - intros He. assert (Hin : sync_fh 2 ∈ participants sync_point) by (simpl; set_solver).
    rewrite <- He in Hin. vm_compute in Hin. discriminate Hin.
  - vm_compute. reflexivity.
Defined.

(** Participants that resign stay in the set: a point with a participant that
    is not joined is not reached by the joined ones. *)
Theorem resigned_participant_blocks :
  let s1 := achieve (P := demo_prost) 1%positive "go" (demo_state 1
    (set_federates (delete (sync_fh 2)) sync_federation)) (sync_fh 1, true) in
  (sync_points <$> fed_heap (ds_node s1) !! 1%positive) ≫= lookup "go"%string ≠ None ∧
  ds_callbacks s1 = [].
Proof. vm_compute. split; [discriminate|reflexivity]. Qed.
