(* ===== verification/FederationMgmt.v ===== *)
(** * Federation management

    [dispatch/federation_mgmt.rs] and the arms of [dispatch_call] that call
    it: creating and destroying federation executions, joining, resigning and
    listing.  The XML deserializer (quick-xml) is a parameter; what the code
    does with its result is [into_fom_module] of [Fom]. *)

From stdpp Require Import fin_sets.
From S2P Require Import Prelude CoreTypes Fom Merge Exception Proto State Handles Routing Handler.
From S2P Require Import Declaration ObjectMgmt.

(** [quick_xml::de::from_str::<XmlObjectModel>], with the text of its error. *)
Class QuickXml := xml_from_str : string → result string XmlObjectModel.

(** ** Text *)

(** [std::str::from_utf8]: the well-formed UTF-8 byte sequences. *)
Definition in_range (lo hi : Z) (b : byte) : bool := (lo <=? byte_val b) && (byte_val b <=? hi).
Definition continuation : byte → bool := in_range 0x80 0xBF.

Fixpoint utf8_valid (l : list byte) : bool :=
  match l with
  | [] => true
  | b0 :: l1 =>
      if in_range 0 0x7F b0 then utf8_valid l1
      else match l1 with
      | [] => false
      | b1 :: l2 =>
          if in_range 0xC2 0xDF b0 then continuation b1 && utf8_valid l2
          else match l2 with
          | [] => false
          | b2 :: l3 =>
              if in_range 0xE0 0xEF b0 then
                (if in_range 0xE0 0xE0 b0 then in_range 0xA0 0xBF b1
                 else if in_range 0xED 0xED b0 then in_range 0x80 0x9F b1
                 else continuation b1) && continuation b2 && utf8_valid l3
              else match l3 with
              | [] => false
              | b3 :: l4 =>
                  in_range 0xF0 0xF4 b0 &&
                  (if in_range 0xF0 0xF0 b0 then in_range 0x90 0xBF b1
                   else if in_range 0xF4 0xF4 b0 then in_range 0x80 0x8F b1
                   else continuation b1) && continuation b2 && continuation b3 && utf8_valid l4
              end
          end
      end
  end.

(** [{:08X}] of a [u32]. *)
Definition hex_digit (z : Z) : Ascii.ascii :=
  Ascii.ascii_of_nat (Z.to_nat (if z <? 10 then 48 + z else 55 + z)).
Definition hex8 (z : Z) : string :=
  String.string_of_list_ascii ((λ i, hex_digit (z / 16 ^ i mod 16)) <$> [7; 6; 5; 4; 3; 2; 1; 0]).

(** ** FOM modules on the wire *)

Inductive ProtoFomModule :=
| FileModule (name : string) (content : list byte)
| CompressedModule (data : list byte)
| UrlModule (url : string).

Section federation_mgmt.
Context {P : Prost} {X : QuickXml}.

(** [FomModule::parse] *)
Definition parse_fom_module (xml_input : string) : result FomError FomModule :=
  raw ← map_err Xml (xml_from_str xml_input);
  into_fom_module raw.

Definition decode_fom_module (pm : option ProtoFomModule) : result Details FomModule :=
  match pm with
  | Some (FileModule name content) =>
      if utf8_valid content then
        map_err (λ e, D_cat [D_str name; D_str ": "; D_fom_error e])
          (parse_fom_module (String.string_of_list_byte content))
      else Err (D_cat [D_str "FOM module "; D_str name; D_str " content is not UTF-8: "; D_utf8_error content])
  | Some (CompressedModule _) => Err (D_str "compressed FOM modules not yet supported")
  | Some (UrlModule _) => Err (D_str "URL FOM modules not yet supported")
  | None => Err (D_str "FomModule has no oneof variant set")
  end.

Fixpoint decode_fom_modules (l : list (option ProtoFomModule)) (out : list FomModule)
    : result Details (list FomModule) :=
  match l with
  | [] => Ok out
  | pm :: l => m ← decode_fom_module pm; decode_fom_modules l (out ++ [m])
  end.

(** ** Create and destroy *)

(** [Arc::new(federation)] and its insertion in the registry. *)
Definition insert_federation (name : string) (fed : Federation) (node : RtiNode) : RtiNode :=
  let r : FedRef := fresh (dom (fed_heap node)) in
  set_federations (insert name r) (set_fed_heap (insert r fed) node).

Definition create_federation_inner (federation_name : string)
    (proto_modules : list (option ProtoFomModule)) : Handler unit :=
  return_if (bool_decide (federation_name = ""%string))
    (exception_variant ErrorReadingFdd "federationName must not be empty");;
  node ← gets ds_node;
  return_if (bool_decide (is_Some (federations node !! federation_name)))
    (exception_variant FederationExecutionAlreadyExists federation_name);;
  modules ← ok_or_return (decode_fom_modules proto_modules []) (exception_variant CouldNotOpenFdd);
  fom ← (if decide (length modules = 0%nat) then mret (default_fom node)
         else ok_or_return (merge modules) (λ e, exception_variant ErrorReadingFdd (D_fom_error e)));
  modify (set_ds_node (insert_federation federation_name (Federation_new federation_name fom))).

(** The six arms of [dispatch_call] differ in where the modules come from and
    in the response. *)
Definition create_federation_call (federation_name : string)
    (modules : list (option ProtoFomModule)) (response : Resp) : Handler Resp :=
  create_federation_inner federation_name modules;;
  mret response.

Definition destroy_federation_execution (federation_name : string) : Handler Resp :=
  node ← gets ds_node;
  r ← some_or_return (federations node !! federation_name)
    (exception_variant FederationExecutionDoesNotExist federation_name);
  return_if (negb (bool_decide (federates (fed_at node r) = ∅)))
    (exception_variant FederatesCurrentlyJoined federation_name);;
  modify (set_ds_node (set_federations (delete federation_name)));;
  mret DestroyFederationExecutionResponse.

(** ** Join and resign *)

Definition join (requested_name : option string) (federation_name : string) : Handler JoinResult :=
  ctx ← gets ds_ctx;
  return_if (is_joined ctx) (exception_variant FederateAlreadyExecutionMember
    (D_cat [D_str "session "; D_int (ctx_session_id ctx)]));;
  node ← gets ds_node;
  r ← some_or_return (federations node !! federation_name)
    (exception_variant FederationExecutionDoesNotExist federation_name);
  let raw_handle := next_federate_id (fed_at node r) in
  modify (set_ds_node (fed_update r (set_next_federate_id (fetch_add32 1))));;
  let federate_handle := FederateHandle_new raw_handle in
  node ← gets ds_node;
  federate_name ← match requested_name with
    | Some n =>
        return_if (existsb (λ f, bool_decide (fs_name f = n)) (map_to_list (federates (fed_at node r))).*2)
          (exception_variant FederateNameAlreadyInUse n);;
        mret n
    | None => mret ("federate-" +:+ hex8 raw_handle)
    end;
  modify (set_ds_node (fed_update r (set_federates (insert federate_handle
    (mkFederateSession federate_handle federate_name "" (ctx_session_id ctx) PubSubState_default
      TimeState_default Switches_default [])))));;
  modify (set_ds_ctx (set_membership (λ _, Some (mkMembership r federate_handle federate_name))));;
  mret {| jr_federate_handle := Some (encode_federate federate_handle);
          jr_logical_time_implementation_name := "HLAfloat64Time" |}.

(** The four arms of [dispatch_call]. *)
Definition join_call (requested_name : option string) (federation_name : string)
    (response : option JoinResult → Resp) : Handler Resp :=
  jr ← join requested_name federation_name;
  mret (response (Some jr)).

Definition resign : Handler Resp :=
  o ← gets (λ s, membership (ds_ctx s));
  m ← some_or_return o (exception_variant FederateNotExecutionMember "");
  modify (set_ds_ctx (set_membership (λ _, None)));;
  modify_federation m (set_federates (delete (m_federate_handle m)));;
  mret ResignFederationExecutionResponse.

(** ** Reports *)

Definition report_target (s : DispatchState) : list ConnRef :=
  match connections (ds_node s) !! ctx_session_id (ds_ctx s) with Some c => [c] | None => [] end.

Definition list_federation_execution_members (federation_name : string) : Handler Resp :=
  modify (λ s, set_ds_callbacks (λ out, fan_out out (report_target s)
    match federations (ds_node s) !! federation_name with
    | Some r => report_federation_execution_members federation_name
        ((λ fs, (fs_name fs, fs_federate_type fs)) <$> (map_to_list (federates (fed_at (ds_node s) r))).*2)
    | None => report_federation_execution_does_not_exist federation_name
    end) s);;
  mret ListFederationExecutionMembersResponse.

Definition list_federation_executions : Handler Resp :=
  modify (λ s, set_ds_callbacks (λ out, fan_out out (report_target s)
    (report_federation_executions (map_to_list (federations (ds_node s))).*1)) s);;
  mret ListFederationExecutionsResponse.
End federation_mgmt.

(** ** The invariant of the registry *)

Record fed_wf (fed : Federation) : Prop := {
  fw_fom : FomWf (fed_fom fed);
  fw_next : 0 < next_federate_id fed;
  fw_members fh fs : federates fed !! fh = Some fs →
    fs_handle fs = fh ∧ 0 < fh_raw fh < next_federate_id fed
}.

Record node_wf (node : RtiNode) : Prop := {
  nw_default : FomWf (default_fom node);
  nw_registered name r : federations node !! name = Some r →
    ∃ fed, fed_heap node !! r = Some fed ∧ fed_name fed = name;
  nw_fed r fed : fed_heap node !! r = Some fed → fed_wf fed
}.

(** Two names never share a federation. *)
Lemma registry_injective node name name' r :
  node_wf node → federations node !! name = Some r → federations node !! name' = Some r → name = name'.
Proof.
  intros Hwf H1 H2. destruct (nw_registered _ Hwf _ _ H1) as (fed & Hf & <-).
  destruct (nw_registered _ Hwf _ _ H2) as (fed' & Hf' & <-). congruence.
Qed.

Lemma node_wf_update node r g :
  node_wf node →
  (∀ fed, fed_heap node !! r = Some fed → fed_wf fed → fed_wf (g fed) ∧ fed_name (g fed) = fed_name fed) →
  node_wf (fed_update r g node).
Proof.
  intros [Hd Hr Hf] Hg. split; simpl; [done| |].
  - intros name r' H. destruct (Hr _ _ H) as (fed & Hfed & Hn). destruct (decide (r' = r)) as [->|Hne].
    + exists (g fed). rewrite lookup_alter_eq, Hfed. split; [done|].
      destruct (Hg fed Hfed (Hf _ _ Hfed)) as [_ ->]. done.
    + exists fed. by rewrite lookup_alter_ne.
  - intros r' fed'. rewrite lookup_alter_Some. intros [(-> & fed & Hfed & ->)|[_ Hfed]]; [|by eapply Hf].
    apply Hg; [done|by eapply Hf].
Qed.

Lemma node_wf_insert node name fed :
  node_wf node → fed_wf fed → fed_name fed = name → node_wf (insert_federation name fed node).
Proof.
  intros [Hd Hr Hf] Hfed Hname. unfold insert_federation.
  set (r := fresh (dom (fed_heap node))).
  assert (Hfresh : fed_heap node !! r = None).
  { apply not_elem_of_dom. apply is_fresh. }
  split; simpl; [done| |].
  - intros name' r'. rewrite lookup_insert_Some. intros [[<- <-]|[Hne H]].
    + exists fed. by rewrite lookup_insert_eq.
    + destruct (Hr _ _ H) as (fed' & Hfed' & Hn). exists fed'.
      rewrite lookup_insert_ne; [done|]. intros <-. congruence.
  - intros r' fed'. rewrite lookup_insert_Some. intros [[_ <-]|[_ H]]; [done|by eapply Hf].
Qed.

Lemma Federation_new_wf name fom : FomWf fom → fed_wf (Federation_new name fom).
Proof. intros H. split; [done|simpl; lia|]. intros fh fs. simpl. by rewrite lookup_empty. Qed.

Lemma merge_wf ms fom : modules_small ms → merge ms = Ok fom → FomWf fom.
Proof.
  intros Hs. unfold merge. destruct (merge_modules ms) as [r|] eqn:Hm; [|done].
  intros ->. by eapply merge_modules_fom_wf.
Qed.

(** ** Properties *)

(** Creating a federation.  A create request is rejected with nothing
    changed, or the name was free and not empty, and afterwards it is
    registered with a new federation, with that name, no federates and the FOM
    of the modules (the default FOM when there are none); every federation
    that existed is untouched, and the registry invariant still holds: names
    are registered one to one, every FOM is well formed. *)
Theorem create_federation_spec {X : QuickXml} s name mods response :
  node_wf (ds_node s) → (∀ ms, decode_fom_modules mods [] = Ok ms → modules_small ms) →
  let '(s', r) := run (create_federation_call name mods response) s in
  (s' = s ∧ ∃ e d, r = ExceptionData e d) ∨
  (r = response ∧ node_wf (ds_node s') ∧ federations (ds_node s) !! name = None ∧ name ≠ ""%string ∧
   ∃ ref fom ms, fed_heap (ds_node s) !! ref = None ∧ decode_fom_modules mods [] = Ok ms ∧
     (if decide (length ms = 0%nat) then fom = default_fom (ds_node s) else merge ms = Ok fom) ∧
     federations (ds_node s') = <[name := ref]> (federations (ds_node s)) ∧
     fed_heap (ds_node s') = <[ref := Federation_new name fom]> (fed_heap (ds_node s))).
Proof.
  intros Hwf Hsmall. apply run_wp_let. unfold create_federation_call, create_federation_inner.
  wp_step. wp_step. apply wp_return_if; intros Hn; [left; unfold exception_variant; eauto|].
  do 3 wp_step. apply wp_return_if; intros Hf; [left; unfold exception_variant; eauto|].
  do 2 wp_step; [left; unfold exception_variant; eauto|]. rename a into ms.
  apply bool_decide_eq_false in Hn. apply bool_decide_eq_false, eq_None_not_Some in Hf.
  set (post := λ (fom : MergedFom) (x : DispatchState), x = s ∧ FomWf fom ∧
    if decide (length ms = 0%nat) then fom = default_fom (ds_node s) else merge ms = Ok fom).
  wp_step. apply (wp_mono (λ (r : Resp) (x : DispatchState), x = s ∧ ∃ e d, r = ExceptionData e d) _ post).
  - unfold post. destruct (decide (length ms = 0%nat)).
    + wp_step. split_and!; [done|apply Hwf|done].
    + apply wp_ok; [unfold exception_variant; eauto|]. intros fom Hm. split_and!; [done| |done].
      eapply merge_wf; [by apply Hsmall|done].
  - intros r x [-> ?]. by left.
  - intros fom x (-> & Hfom & Hm). apply wp_modify. wp_step. right. split_and!; try done.
    + simpl. apply node_wf_insert; [done|by apply Federation_new_wf|done].
    + eexists (fresh (dom (fed_heap (ds_node s)))), fom, ms. split_and!; try done.
      apply not_elem_of_dom, is_fresh.
Qed.

(** Destroying a federation.  It is rejected with nothing changed while
    federates are joined or when the name is not registered; otherwise exactly
    that name is removed from the registry and nothing else changes, and
    a join under that name is rejected from then on. *)
Theorem destroy_federation_spec s name req resp :
  let '(s', r) := run (destroy_federation_execution name) s in
  (s' = s ∧ ∃ e d, r = ExceptionData e d) ∨
  (r = DestroyFederationExecutionResponse ∧
   (∃ ref, federations (ds_node s) !! name = Some ref ∧ federates (fed_at (ds_node s) ref) = ∅) ∧
   s' = set_ds_node (set_federations (delete name)) s ∧
   (membership (ds_ctx s) = None →
    run (join_call req name resp) s' =
      (s', exception_variant FederationExecutionDoesNotExist name))).
Proof.
  apply run_wp_let. unfold destroy_federation_execution. wp_run.
  - left. unfold exception_variant. eauto.
  - left. unfold exception_variant. eauto.
  - apply wp_modify. wp_step. right. split_and!; [done| |done|].
    + exists a. split; [done|]. by apply negb_false_iff, bool_decide_eq_true in H0.
    + intros Hm. unfold join_call, join, run, return_if, is_joined, mbind, M_bind, gets, some_or_return. simpl.
      rewrite Hm. simpl. by rewrite lookup_delete_eq.
Qed.

(** The session a join adds. *)
Definition joined_session (h : FederateHandle) (n : string) (sid : Z) : FederateSession :=
  mkFederateSession h n "" sid PubSubState_default TimeState_default Switches_default [].

(** What a join leaves: a new federate under a handle nobody had, and the
    session a member through it. *)
Definition join_post (req : option string) (name : string) (s : DispatchState) (jr : JoinResult)
    (s' : DispatchState) : Prop :=
  membership (ds_ctx s) = None ∧
  ∃ ref fed n, federations (ds_node s) !! name = Some ref ∧ fed_heap (ds_node s) !! ref = Some fed ∧
    let h := FederateHandle_new (next_federate_id fed) in
    federates fed !! h = None ∧
    (∀ n', req = Some n' → n = n' ∧ ∀ fh fs, federates fed !! fh = Some fs → fs_name fs ≠ n) ∧
    jr = {| jr_federate_handle := Some (encode_federate h);
            jr_logical_time_implementation_name := "HLAfloat64Time" |} ∧
    ds_ctx s' = set_membership (λ _, Some (mkMembership ref h n)) (ds_ctx s) ∧
    fed_heap (ds_node s') = <[ref := set_federates (insert h (joined_session h n (ctx_session_id (ds_ctx s))))
      (set_next_federate_id (fetch_add32 1) fed)]> (fed_heap (ds_node s)) ∧
    federations (ds_node s') = federations (ds_node s) ∧ ds_callbacks s' = ds_callbacks s.

(** Handle space left in the federations. *)
Definition handles_left (node : RtiNode) : Prop :=
  ∀ r fed, fed_heap node !! r = Some fed → next_federate_id fed + 1 < 2 ^ 32.

Lemma fetch_add32_small v : 0 < v → v + 1 < 2 ^ 32 → fetch_add32 1 v = v + 1.
Proof. intros. unfold fetch_add32, wrap_u. apply Z.mod_small. lia. Qed.

Lemma bump_wf fed : next_federate_id fed + 1 < 2 ^ 32 → fed_wf fed →
  fed_wf (set_next_federate_id (fetch_add32 1) fed).
Proof.
  intros Hs [Hfom Hn Hm]. split; simpl; [done|rewrite fetch_add32_small by done; lia|].
  intros fh fs Hfs. rewrite fetch_add32_small by done. destruct (Hm _ _ Hfs). split; [done|lia].
Qed.

Lemma add_federate_wf fed n sid : next_federate_id fed + 1 < 2 ^ 32 → fed_wf fed →
  let h := FederateHandle_new (next_federate_id fed) in
  fed_wf (set_federates (insert h (joined_session h n sid)) (set_next_federate_id (fetch_add32 1) fed)).
Proof.
  intros Hs Hwf. destruct (bump_wf fed Hs Hwf) as [Hfom Hn Hm]. split; simpl; [done..|].
  intros fh fs. rewrite lookup_insert_Some. intros [[<- <-]|[_ Hfs]]; [|by apply Hm].
  destruct Hwf. split; [done|]. simpl. rewrite fetch_add32_small by done. lia.
Qed.

Lemma new_handle_free fed : fed_wf fed → federates fed !! FederateHandle_new (next_federate_id fed) = None.
Proof.
  intros Hwf. apply eq_None_not_Some. intros [fs Hfs]. apply (fw_members _ Hwf) in Hfs as [_ Hlt].
  simpl in Hlt. lia.
Qed.

Lemma names_free n (l : list FederateSession) :
  existsb (λ f, bool_decide (fs_name f = n)) l = false → ∀ fs, fs ∈ l → fs_name fs ≠ n.
Proof.
  intros H fs Hfs Hn. apply not_true_iff_false in H. apply H, existsb_exists. exists fs.
  split; [by apply list_elem_of_In|by apply bool_decide_eq_true_2].
Qed.

Lemma join_wp req name s :
  node_wf (ds_node s) → handles_left (ds_node s) →
  wp (join req name) 
    (λ r s', (∃ e d, r = ExceptionData e d) ∧ ds_ctx s' = ds_ctx s ∧ node_wf (ds_node s') ∧
      ∀ ref, federates <$> fed_heap (ds_node s') !! ref = federates <$> fed_heap (ds_node s) !! ref)
    (λ jr s', join_post req name s jr s' ∧ node_wf (ds_node s')) s.
Proof.
  intros Hwf Hleft. unfold join. do 3 wp_step. apply wp_return_if; intros Hj.
  { split_and!; [unfold exception_variant; eauto|done..]. }
  do 4 wp_step. { split_and!; [unfold exception_variant; eauto|done..]. }
  rename a into ref, H into Href. destruct (nw_registered _ Hwf _ _ Href) as (fed & Hfed & Hname).
  pose proof (nw_fed _ Hwf _ _ Hfed) as Hfw. pose proof (Hleft _ _ Hfed) as Hl.
  assert (Hat : fed_at (ds_node s) ref = fed) by (unfold fed_at, lookup_total, map_lookup_total; by rewrite Hfed).
  rewrite Hat. wp_step. apply wp_modify. do 2 wp_step.
  set (s1 := set_ds_node _ s). wp_step.
  assert (Hs1 : fed_heap (ds_node s1) !! ref = Some (set_next_federate_id (fetch_add32 1) fed)).
  { simpl. by rewrite lookup_alter_eq, Hfed. }
  assert (Hat1 : fed_at (ds_node s1) ref = set_next_federate_id (fetch_add32 1) fed)
    by (unfold fed_at, lookup_total, map_lookup_total; by rewrite Hs1).
  assert (Hwf1 : node_wf (ds_node s1)).
  { simpl. apply node_wf_update; [done|]. intros fed0 H0 Hw0. rewrite Hfed in H0. injection H0 as <-.
    split; [by apply bump_wf|done]. }
  apply (wp_mono (λ (r : Resp) (x : DispatchState), (∃ e d, r = ExceptionData e d) ∧ x = s1) _
    (λ n x, x = s1 ∧ ∀ n', req = Some n' → n = n' ∧ ∀ fh fs, federates fed !! fh = Some fs → fs_name fs ≠ n)).
  - destruct req as [n|].
    + wp_step. apply wp_return_if; intros Hex; [unfold exception_variant; eauto|]. wp_step.
      split; [done|]. intros n' [= ->]. split; [done|]. intros fh fs Hfs.
      rewrite Hat1 in Hex. apply (names_free _ _ Hex). apply list_elem_of_fmap. exists (fh, fs).
      split; [done|]. by apply elem_of_map_to_list.
    + wp_step. done.
  - intros r x [He ->]. split_and!; [done|done|done|]. intros ref'. simpl.
    destruct (decide (ref' = ref)) as [->|Hne]; [|by rewrite lookup_alter_ne].
    rewrite lookup_alter_eq, Hfed. done.
  - intros n x [-> Hn]. wp_step. apply wp_modify. wp_step. apply wp_modify. wp_step. split.
    + split; [unfold is_joined in Hj; apply bool_decide_eq_false, eq_None_not_Some in Hj; done|].
      exists ref, fed, n. cbv zeta. split_and!; try done; [by apply new_handle_free|].
      simpl. rewrite alter_alter_eq. apply map_eq. intros k.
      destruct (decide (k = ref)) as [->|Hne];
        [by rewrite lookup_alter_eq, lookup_insert_eq, Hfed|by rewrite lookup_alter_ne, lookup_insert_ne].
    + cbn [ds_node set_ds_node set_ds_ctx]. apply node_wf_update; [exact Hwf1|].
      intros fed0 H0 Hw0. change (fed_heap (ds_node s1) !! ref = Some fed0) in H0. rewrite Hs1 in H0. injection H0 as <-.
      split; [|done]. apply (add_federate_wf fed n (ctx_session_id (ds_ctx s)) Hl Hfw).
Qed.

(** Joining.  With handles left, a join is rejected, leaving the session
    and the members of every federation as they were, or the session was not
    joined and becomes a member of the named federation under a handle no
    federate has; when it asked for a name, it gets it and nobody else in the
    federation has it.  Nothing else changes, and the registry invariant holds
    in both cases. *)
Theorem join_spec req name s resp :
  node_wf (ds_node s) → handles_left (ds_node s) →
  let '(s', r) := run (join_call req name resp) s in
  node_wf (ds_node s') ∧
  (((∃ e d, r = ExceptionData e d) ∧ ds_ctx s' = ds_ctx s ∧
    ∀ ref, federates <$> fed_heap (ds_node s') !! ref = federates <$> fed_heap (ds_node s) !! ref) ∨
   ∃ jr, r = resp (Some jr) ∧ join_post req name s jr s').
Proof.
  intros Hwf Hleft. apply run_wp_let. unfold join_call. wp_step.
  eapply wp_mono; [by apply join_wp|..].
  - intros r s' (He & Hctx & Hw & Hf). split; [done|]. by left.
  - intros jr s' [Hp Hw]. wp_step. split; [done|]. right. by exists jr.
Qed.

(** Resigning undoes joining.  When a session joins a federation and then
    resigns, it is no longer a member, and every federation has exactly the
    members it had before, with their state untouched. *)
Theorem join_resign_roundtrip req name s s1 jr resp :
  node_wf (ds_node s) → handles_left (ds_node s) →
  run (join_call req name resp) s = (s1, resp (Some jr)) → (∀ e d, resp (Some jr) ≠ ExceptionData e d) →
  let '(s2, r) := run resign s1 in
  r = ResignFederationExecutionResponse ∧ membership (ds_ctx s2) = None ∧
  ∀ ref, federates <$> fed_heap (ds_node s2) !! ref = federates <$> fed_heap (ds_node s) !! ref.
Proof.
  intros Hwf Hleft Hjoin Hne.
  assert (Hp : ∃ jr', join_post req name s jr' s1).
  { unfold join_call, run, mbind, M_bind in Hjoin. pose proof (join_wp req name s Hwf Hleft) as Hw. unfold wp in Hw.
    destruct (join req name s) as [s' [r|jr']]; simpl in Hjoin; injection Hjoin as -> Hr.
    - destruct Hw as [(e & d & He) _]. exfalso. apply (Hne e d). congruence.
    - exists jr'. apply Hw. }
  destruct Hp as (jr' & _ & ref & fed & n & _ & Hfed & Hfree & _ & _ & Hctx & Hheap & _).
  unfold resign, run, mbind, M_bind, gets, some_or_return. rewrite Hctx. simpl. split_and!; [done..|].
  intros ref'. rewrite Hheap. destruct (decide (ref' = ref)) as [->|Hd].
  - rewrite lookup_alter_eq, lookup_insert_eq, Hfed. simpl. f_equal. rewrite delete_insert_eq.
    by rewrite delete_id.
  - by rewrite lookup_alter_ne, lookup_insert_ne.
Qed.

(** *** Witnesses *)

(** A node with the federation "demo" of the demo FOM, registered by a session
    that has joined nothing. *)
Definition no_xml : QuickXml := λ _, Err ""%string.
Definition fresh_state : DispatchState := mkDispatchState (set_default_fom (λ _, demo_fom) RtiNode_new) (SessionContext_new 7) [] ∅.
Definition created_state : DispatchState :=
  (run (create_federation_call (X := no_xml) "demo" [] CreateFederationExecutionResponse) fresh_state).1.

Lemma fresh_node_wf : node_wf (ds_node fresh_state).
Proof.
  split; [exact demo_fom_wf|intros name r; simpl; by rewrite lookup_empty|].
  intros r fed. simpl. by rewrite lookup_empty.
Defined.

Lemma create_federation_witness :
  node_wf (ds_node created_state) ∧ federations (ds_node created_state) !! "demo"%string = Some 1%positive.
Proof.
  split; [|vm_compute; reflexivity].
  pose proof (create_federation_spec (X := no_xml) fresh_state "demo" [] CreateFederationExecutionResponse
    fresh_node_wf) as H.
  unfold created_state. destruct (run _ _) as [s' r]. destruct H as [[-> _]|(_ & Hw & _)];
    [|exact fresh_node_wf|exact Hw].
  intros ms [= <-]. split; simpl; lia.
Defined.

Lemma created_handles_left : handles_left (ds_node created_state).
Proof.
  intros r fed Hr. apply elem_of_map_to_list in Hr. vm_compute in Hr.
  apply elem_of_cons in Hr as [Hr|Hr]; [injection Hr as _ ->; vm_compute; reflexivity|by apply elem_of_nil in Hr].
Defined.

Lemma created_node_wf : node_wf (ds_node created_state).
Proof.
  change (ds_node created_state) with (insert_federation "demo" (Federation_new "demo" demo_fom) (ds_node fresh_state)).
  apply node_wf_insert; [exact fresh_node_wf|apply Federation_new_wf, demo_fom_wf|reflexivity].
Defined.

Lemma join_witness :
  let '(s', r) := run (join_call (Some "a"%string) "demo" JoinFederationExecutionResponse) created_state in
  node_wf (ds_node s').
Proof.
  pose proof (join_spec (Some "a"%string) "demo" created_state JoinFederationExecutionResponse
    created_node_wf created_handles_left) as H.
  destruct (run _ _) as [s' r]. exact (proj1 H).
Defined.

Lemma join_resign_witness :
  let '(s1, r1) := run (join_call None "demo" JoinFederationExecutionResponse) created_state in
  let '(s2, r2) := run resign s1 in
  r2 = ResignFederationExecutionResponse ∧ membership (ds_ctx s2) = None.
Proof.
  destruct (run (join_call None "demo" JoinFederationExecutionResponse) created_state) as [s1 r1] eqn:Hj.
  assert (Hr : ∃ jr, r1 = JoinFederationExecutionResponse (Some jr)).
  { apply (f_equal snd) in Hj. vm_compute in Hj. subst r1. eexists. reflexivity. }
  destruct Hr as [jr ->].
  pose proof (join_resign_roundtrip None "demo" created_state s1 jr JoinFederationExecutionResponse
    created_node_wf created_handles_left Hj ltac:(discriminate)) as H.
  destruct (run resign s1) as [s2 r2]. destruct H as (H1 & H2 & _). split; assumption.
Defined.

(** Generated federate names are not checked: a federate that asked for
    "federate-00000002" and the next one, which asked for none, share it. *)
Theorem generated_federate_name_collides :
  let s1 := (run (join_call (Some "federate-00000002"%string) "demo" JoinFederationExecutionResponse) created_state).1 in
  let s2 := (run (join_call None "demo" JoinFederationExecutionResponse)
    (set_ds_ctx (λ _, SessionContext_new 8) s1)).1 in
  (fs_name <$> federates (fed_at (ds_node s2) 1%positive) !! FederateHandle_new 1,
   fs_name <$> federates (fed_at (ds_node s2) 1%positive) !! FederateHandle_new 2) =
  (Some "federate-00000002"%string, Some "federate-00000002"%string).
Proof. vm_compute. reflexivity. Qed.
