(* ===== verification/Persistence.v ===== *)
(** * Snapshots of a federation

    [persistence.rs]: what a save captures, how a snapshot is applied, and the
    file it is kept in.  Federates are named in a snapshot, not numbered, so
    that it can be applied after their handles were reassigned.  The JSON
    codec (serde_json) and the outcome of operating-system calls are
    parameters. *)

From Stdlib Require Import Ascii.
From S2P Require Import Prelude CoreTypes Fom State.

(** ** Capture *)

(** [federates.values().map(|fs| (fs.handle, fs.name.clone())).collect()] and
    the reverse: a later entry replaces an earlier one. *)
Definition handle_to_name (fed : Federation) : gmap FederateHandle string :=
  foldl (λ m fs, <[fs_handle fs := fs_name fs]> m) ∅ (map_to_list (federates fed)).*2.
Definition name_to_handle (fed : Federation) : gmap string FederateHandle :=
  foldl (λ m fs, <[fs_name fs := fs_handle fs]> m) ∅ (map_to_list (federates fed)).*2.

Definition ser_instance (names : gmap FederateHandle string) (inst : ObjectInstance) : SerInstance :=
  mkSerInstance (oih_raw (inst_handle inst)) (och_raw (inst_class inst)) (inst_name inst)
    (default "<unknown>"%string (names !! registrar inst))
    (omap (λ '(attr, fed), (λ n, (ah_raw attr, n)) <$> names !! fed) (map_to_list (attribute_owners inst))).

Definition ser_sync_point (names : gmap FederateHandle string) (sp : SyncPoint) : SerSyncPoint :=
  mkSerSyncPoint (sp_label sp) (sp_tag sp) (omap (λ fh, names !! fh) (elements (participants sp))).

Definition snapshot (fed : Federation) : FederationSnapshot :=
  let names := handle_to_name fed in
  mkFederationSnapshot (fed_name fed)
    (ser_instance names <$> (map_to_list (object_instances fed)).*2)
    (ser_sync_point names <$> (map_to_list (sync_points fed)).*2).

(** ** Application *)

(** [.collect()] of a list of pairs into a map. *)
Definition collect_map {K A} `{Countable K} (l : list (K * A)) : gmap K A :=
  foldl (λ m p, <[p.1 := p.2]> m) ∅ l.

(** One iteration of the instance loop: the instances and [next_object_id].
    The addition is the release build's; it only overflows for the last
    handle. *)
Definition apply_instance (handles : gmap string FederateHandle)
    (st : gmap ObjectInstanceHandle ObjectInstance * Z) (ser : SerInstance)
    : gmap ObjectInstanceHandle ObjectInstance * Z :=
  let handle := ObjectInstanceHandle_new (ser_handle ser) in
  match handles !! registrar_name ser with
  | None => st
  | Some reg =>
      let owners := collect_map (omap (λ '(attr, n), (λ h, (AttributeHandle_new attr, h)) <$> handles !! n)
        (ser_attribute_owners ser)) in
      (<[handle := mkObjectInstance handle (ObjectClassHandle_new (ser_class ser)) (ser_name ser) reg owners ∅]> st.1,
       if st.2 <=? ser_handle ser then wrap_u 64 (ser_handle ser + 1) else st.2)
  end.

Definition apply_sync_point (handles : gmap string FederateHandle) (m : gmap string SyncPoint)
    (ser : SerSyncPoint) : gmap string SyncPoint :=
  <[ser_label ser := mkSyncPoint (ser_label ser) (ser_tag ser)
      (list_to_set (omap (λ n, handles !! n) (ser_participants ser))) ∅ ∅]> m.

Definition apply_snapshot (snap : FederationSnapshot) (fed : Federation) : Federation :=
  let handles := name_to_handle fed in
  let '(instances, next) := foldl (apply_instance handles) (∅, next_object_id fed) (snap_instances snap) in
  set_sync_points (λ _, foldl (apply_sync_point handles) ∅ (snap_sync_points snap))
    (set_next_object_id (λ _, next) (set_object_instances (λ _, instances) fed)).

(** ** Files *)

(** [s.replace(['/', '\\'], "_")] *)
Definition safe_char (c : Ascii.ascii) : Ascii.ascii :=
  if bool_decide (c = "/"%char) || bool_decide (c = "\"%char) then "_"%char else c.
Fixpoint safe_name (s : string) : string :=
  match s with EmptyString => EmptyString | String c s => String (safe_char c) (safe_name s) end.

(** [Path::join] with a relative file name. *)
Fixpoint ends_with_slash (s : string) : bool :=
  match s with
  | EmptyString => false
  | String c EmptyString => bool_decide (c = "/"%char)
  | String _ s => ends_with_slash s
  end.
Definition path_join (dir file : string) : string :=
  if bool_decide (dir = ""%string) || ends_with_slash dir then dir +:+ file else dir +:+ "/" +:+ file.

Definition snapshot_path (save_dir federation label : string) : string :=
  path_join save_dir (safe_name federation +:+ "__" +:+ safe_name label +:+ ".json").

(** [serde_json::to_string_pretty] and [from_str] on snapshots. *)
Class Serde := {
  to_json : FederationSnapshot → option string;
  from_json : string → option FederationSnapshot
}.
(** The documented round trip of a derived serializer. *)
Class SerdeLaw (J : Serde) : Prop :=
  serde_roundtrip snap text : to_json snap = Some text → from_json text = Some snap.

(** Which operating-system calls succeed. *)
Class Os := {
  os_create_dir_ok : string → bool;
  os_write_ok : string → bool;
  os_read_ok : string → bool
}.

Inductive ReadError := NotFound | OtherError.

Section files.
Context {J : Serde} {O : Os}.

(** [None]: an I/O or serialization error. *)
Definition write_snapshot (save_dir federation label : string) (snap : FederationSnapshot)
    (disk : gmap string string) : option (gmap string string) :=
  if os_create_dir_ok save_dir then
    let path := snapshot_path save_dir federation label in
    json ← to_json snap;
    if os_write_ok path then Some (<[path := json]> disk) else None
  else None.

Definition read_snapshot (save_dir federation label : string) (disk : gmap string string)
    : result ReadError FederationSnapshot :=
  let path := snapshot_path save_dir federation label in
  match disk !! path with
  | None => Err NotFound
  | Some text => if os_read_ok path then ok_or (from_json text) OtherError else Err OtherError
  end.
End files.

(** ** Names and handles *)

(** Federates are stored under their own handles and have distinct names. *)
Record names_wf (fed : Federation) : Prop := {
  nm_handle fh fs : federates fed !! fh = Some fs → fs_handle fs = fh;
  nm_unique fh fs fh' fs' : federates fed !! fh = Some fs → federates fed !! fh' = Some fs' →
    fs_name fs = fs_name fs' → fh = fh'
}.

(** Loops that insert, for each item, at most one entry, under distinct keys. *)
Lemma foldl_insert_partial {A K V} `{Countable K} (f : A → K) (g : A → option V) l (m : gmap K V) k v :
  (∀ a b, a ∈ l → b ∈ l → f a = f b → a = b) →
  foldl (λ m a, match g a with Some v => <[f a := v]> m | None => m end) m l !! k = Some v ↔
    (∃ a, a ∈ l ∧ f a = k ∧ g a = Some v) ∨ ((∀ a, a ∈ l → f a = k → g a = None) ∧ m !! k = Some v).
Proof.
  revert m. induction l as [|x l IH]; intros m Hinj; simpl.
  { split; [intros ?; right; split; [by intros a ?%elem_of_nil|done]|].
    intros [(a & ?%elem_of_nil & _)|[_ ?]]; done. }
  rewrite IH by (intros a b Ha Hb; apply Hinj; set_solver). split.
  - intros [(a & Ha & ?)|[Hn Hm]]; [left; exists a; split; [set_solver|done]|].
    destruct (g x) as [w|] eqn:Hg.
    + rewrite lookup_insert_Some in Hm. destruct Hm as [[<- <-]|[Hne Hm]].
      * left. exists x. split; [set_solver|done].
      * right. split; [|done]. intros a [->|Ha]%elem_of_cons; [done|by apply Hn].
    + right. split; [|done]. intros a [->|Ha]%elem_of_cons; [done|by apply Hn].
  - intros [(a & [->|Ha]%elem_of_cons & Hk & Hv)|[Hn Hm]].
    + rewrite Hv. destruct (decide (Exists (λ b, f b = k) l)) as [He|He].
      * apply Exists_exists in He as (b & Hb & Hfb). left. exists b. split; [done|].
        assert (b = x) as -> by (apply Hinj; [set_solver..|congruence]). done.
      * right. split; [|by rewrite Hk, lookup_insert_eq].
        intros b Hb Hfb. exfalso. apply He, Exists_exists. eauto.
    + left. eauto.
    + right. split; [intros a Ha; apply Hn; set_solver|]. destruct (g x) eqn:Hg; [|done].
      rewrite lookup_insert_ne; [done|]. intros Hk. rewrite (Hn x ltac:(set_solver) Hk) in Hg. done.
Qed.

Lemma foldl_insert_lookup {A K V} `{Countable K} (f : A → K) (g : A → V) l k v :
  (∀ a b, a ∈ l → b ∈ l → f a = f b → a = b) →
  foldl (λ m a, <[f a := g a]> m) (∅ : gmap K V) l !! k = Some v ↔ ∃ a, a ∈ l ∧ f a = k ∧ g a = v.
Proof.
  intros Hinj. rewrite (foldl_insert_partial f (λ a, Some (g a)) l ∅ k v Hinj), lookup_empty.
  split; [intros [(a & ? & ? & [= ?])|[_ ?]]; [eauto|done]|]. intros (a & ? & ? & <-). left. eauto.
Qed.

Lemma elem_of_values {K V} `{Countable K} (m : gmap K V) v : v ∈ (map_to_list m).*2 ↔ ∃ k, m !! k = Some v.
Proof.
  rewrite list_elem_of_fmap. split.
  - intros ([k v'] & -> & Hin%elem_of_map_to_list). by exists k.
  - intros [k Hk]. exists (k, v). split; [done|]. by apply elem_of_map_to_list.
Qed.

Section names.
Context (fed : Federation) (Hwf : names_wf fed).

Lemma session_inj fs fs' : fs ∈ (map_to_list (federates fed)).*2 → fs' ∈ (map_to_list (federates fed)).*2 →
  fs_handle fs = fs_handle fs' → fs = fs'.
Proof.
  rewrite !elem_of_values. intros [k Hk] [k' Hk'] Heq.
  rewrite (nm_handle _ Hwf _ _ Hk), (nm_handle _ Hwf _ _ Hk') in Heq. congruence.
Qed.

Lemma handle_to_name_lookup fh : handle_to_name fed !! fh = fs_name <$> federates fed !! fh.
Proof.
  apply option_eq. intros n. unfold handle_to_name.
  rewrite (foldl_insert_lookup fs_handle fs_name) by (intros; by apply session_inj). rewrite fmap_Some. split.
  - intros (fs & [k Hk]%elem_of_values & <- & <-).
    exists fs. by rewrite (nm_handle _ Hwf _ _ Hk).
  - intros (fs & Hfs & ->). exists fs. split_and!; [apply elem_of_values; eauto|by eapply nm_handle|done].
Qed.

Lemma name_to_handle_lookup n fh :
  name_to_handle fed !! n = Some fh ↔ ∃ fs, federates fed !! fh = Some fs ∧ fs_name fs = n.
Proof.
  unfold name_to_handle. rewrite (foldl_insert_lookup fs_name fs_handle).
  - split.
    + intros (fs & [k Hk]%elem_of_values & <- & <-).
      exists fs. by rewrite (nm_handle _ Hwf _ _ Hk).
    + intros (fs & Hfs & <-). exists fs. split_and!; [apply elem_of_values; eauto|done|by eapply nm_handle].
  - intros fs fs' [k Hk]%elem_of_values [k' Hk']%elem_of_values Heq.
    pose proof (nm_unique _ Hwf _ _ _ _ Hk Hk' Heq). congruence.
Qed.

(** Names lead back to the handles they came from. *)
Lemma rename_id fh : is_Some (federates fed !! fh) →
  (n ← handle_to_name fed !! fh; name_to_handle fed !! n) = Some fh.
Proof.
  intros [fs Hfs]. rewrite handle_to_name_lookup, Hfs. simpl. apply name_to_handle_lookup. eauto.
Qed.
End names.

(** ** Applying a snapshot *)

(** The handle, in [fed2], of the federate that has [fh]'s name. *)
Definition rename (fed1 fed2 : Federation) (fh : FederateHandle) : option FederateHandle :=
  n ← handle_to_name fed1 !! fh; name_to_handle fed2 !! n.

(** Instances and synchronization points are stored under their own names. *)
Record keys_wf (fed : Federation) : Prop := {
  kw_instance h inst : object_instances fed !! h = Some inst → inst_handle inst = h;
  kw_label label sp : sync_points fed !! label = Some sp → sp_label sp = label
}.

Section apply.
Context (fed1 fed2 : Federation) (Hkeys : keys_wf fed1).
Notation names := (handle_to_name fed1).
Notation handles := (name_to_handle fed2).

Lemma elem_of_ser_owners (owners : gmap AttributeHandle FederateHandle) a h :
  (a, h) ∈ omap (λ '(attr, n), (λ h, (AttributeHandle_new attr, h)) <$> handles !! n)
    (omap (λ '(attr, fed), (λ n, (ah_raw attr, n)) <$> names !! fed) (map_to_list owners)) ↔
  ∃ o, owners !! a = Some o ∧ rename fed1 fed2 o = Some h.
Proof.
  unfold rename. rewrite list_elem_of_omap. split.
  - intros ([attr n] & Hin & Heq). apply fmap_Some in Heq as (h' & Hh & [= -> ->]).
    apply list_elem_of_omap in Hin as ([a o] & Ho & Heq). apply elem_of_map_to_list in Ho.
    apply fmap_Some in Heq as (n' & Hn & [= -> ->]). exists o. rewrite Hn. destruct a. done.
  - intros (o & Ho & Hr). apply bind_Some in Hr as (n & Hn & Hh). exists (ah_raw a, n).
    rewrite Hh. destruct a as [a]. split; [|done]. apply list_elem_of_omap. exists (AttributeHandle_new a, o).
    rewrite elem_of_map_to_list, Hn. done.
Qed.

Lemma restored_owners (owners : gmap AttributeHandle FederateHandle) :
  collect_map (omap (λ '(attr, n), (λ h, (AttributeHandle_new attr, h)) <$> handles !! n)
    (omap (λ '(attr, fed), (λ n, (ah_raw attr, n)) <$> names !! fed) (map_to_list owners))) =
  omap (rename fed1 fed2) owners.
Proof.
  apply map_eq. intros a. apply option_eq. intros h. unfold collect_map.
  rewrite (foldl_insert_lookup fst snd).
  - rewrite lookup_omap, bind_Some. split.
    + intros ([a' h'] & Hin%elem_of_ser_owners & <- & <-). done.
    + intros Ho. exists (a, h). split; [by apply elem_of_ser_owners|done].
  - intros [a1 h1] [a2 h2] (o1 & Ho1 & Hr1)%elem_of_ser_owners (o2 & Ho2 & Hr2)%elem_of_ser_owners.
    simpl. intros ->. congruence.
Qed.

(** What becomes of instance [inst]: [None] when its registrar is not there. *)
Definition restored (inst : ObjectInstance) : option ObjectInstance :=
  reg ← handles !! default "<unknown>"%string (names !! registrar inst);
  Some (mkObjectInstance (inst_handle inst) (inst_class inst) (inst_name inst) reg
    (omap (rename fed1 fed2) (attribute_owners inst)) ∅).

Lemma apply_instance_ser inst st :
  (apply_instance handles st (ser_instance names inst)).1 =
    match restored inst with Some i => <[inst_handle inst := i]> st.1 | None => st.1 end.
Proof.
  unfold apply_instance, restored, ser_instance. simpl. destruct (handles !! _) as [reg|]; simpl; [|done].
  rewrite restored_owners. by destruct inst as [[] []].
Qed.

Lemma apply_instances_fst l st :
  (foldl (apply_instance handles) st (ser_instance names <$> l)).1 =
    foldl (λ m inst, match restored inst with Some i => <[inst_handle inst := i]> m | None => m end) st.1 l.
Proof.
  revert st. induction l as [|inst l IH]; intros st; [done|]. cbn [fmap list_fmap foldl].
  change (list_fmap _ _ (ser_instance names) l) with (ser_instance names <$> l).
  by rewrite IH, apply_instance_ser.
Qed.

Lemma apply_instances_lookup next h :
  (foldl (apply_instance handles) (∅, next) (ser_instance names <$> (map_to_list (object_instances fed1)).*2)).1 !! h =
    object_instances fed1 !! h ≫= restored.
Proof.
  rewrite apply_instances_fst. apply option_eq. intros i. cbn [fst].
  rewrite (foldl_insert_partial inst_handle restored).
  - rewrite bind_Some. split.
    + intros [(inst & [k Hk]%elem_of_values & <- & Hr)|[_ H]]; [|by rewrite lookup_empty in H].
      rewrite (kw_instance _ Hkeys _ _ Hk). eauto.
    + intros (inst & Hinst & Hr). left. exists inst.
      split_and!; [apply elem_of_values; eauto|by eapply kw_instance|done].
  - intros i1 i2 [k1 H1]%elem_of_values [k2 H2]%elem_of_values Heq.
    rewrite (kw_instance _ Hkeys _ _ H1), (kw_instance _ Hkeys _ _ H2) in Heq. congruence.
Qed.

Lemma apply_sync_points_lookup label :
  foldl (apply_sync_point handles) ∅ (ser_sync_point names <$> (map_to_list (sync_points fed1)).*2) !! label =
    sp ← sync_points fed1 !! label;
    Some (mkSyncPoint label (sp_tag sp)
      (list_to_set (omap (rename fed1 fed2) (elements (participants sp)))) ∅ ∅).
Proof.
  apply option_eq. intros x. rewrite foldl_fmap. unfold apply_sync_point. simpl.
  rewrite (foldl_insert_lookup sp_label (λ sp, mkSyncPoint (sp_label sp) (sp_tag sp)
    (list_to_set (omap (λ n, handles !! n) (omap (λ fh, names !! fh) (elements (participants sp))))) ∅ ∅)).
  - rewrite bind_Some.
    assert (Hom : ∀ l : list FederateHandle, omap (λ n, handles !! n) (omap (λ fh, names !! fh) l) =
      omap (rename fed1 fed2) l).
    { unfold rename. induction l as [|fh l IH]; [done|]. simpl.
      destruct (names !! fh) as [n|]; simpl; [|exact IH].
      destruct (handles !! n); simpl; [f_equal|]; exact IH. }
    split.
    + intros (sp & [k Hk]%elem_of_values & <- & <-). exists sp.
      rewrite (kw_label _ Hkeys _ _ Hk), Hom. done.
    + intros (sp & Hsp & [= <-]). exists sp. rewrite (kw_label _ Hkeys _ _ Hsp), Hom.
      split_and!; [apply elem_of_values; eauto|done..].
  - intros i1 i2 [k1 H1]%elem_of_values [k2 H2]%elem_of_values Heq.
    rewrite (kw_label _ Hkeys _ _ H1), (kw_label _ Hkeys _ _ H2) in Heq. congruence.
Qed.
End apply.

(** [next_object_id] ends above every restored handle. *)
Lemma apply_instances_next handles l m next :
  (∀ ser, ser ∈ l → 0 ≤ ser_handle ser < 2 ^ 64 - 1) →
  let '(m', next') := foldl (apply_instance handles) (m, next) l in
  next ≤ next' ∧ ∀ h, is_Some (m' !! h) → is_Some (m !! h) ∨ oih_raw h < next'.
Proof.
  revert m next. induction l as [|ser l IH]; intros m next Hl; cbn [foldl].
  { split; [lia|]. by left. }
  assert (Hser : 0 ≤ ser_handle ser < 2 ^ 64 - 1) by (apply Hl; set_solver).
  unfold apply_instance at 2. cbn [fst snd]. destruct (handles !! registrar_name ser) as [reg|].
  - specialize (IH (<[ObjectInstanceHandle_new (ser_handle ser) := mkObjectInstance (ObjectInstanceHandle_new (ser_handle ser))
        (ObjectClassHandle_new (ser_class ser)) (ser_name ser) reg
        (collect_map (omap (λ '(attr, n), (λ h, (AttributeHandle_new attr, h)) <$> handles !! n) (ser_attribute_owners ser))) ∅]> m)
      (if next <=? ser_handle ser then wrap_u 64 (ser_handle ser + 1) else next) ltac:(intros x Hx; apply Hl; set_solver)).
    destruct (foldl _ _ l) as [m' next']. destruct IH as [IH1 IH2].
    unfold wrap_u in IH1. rewrite Z.mod_small in IH1 by lia. destruct (Z.leb_spec next (ser_handle ser)).
    all: split; [lia|]; intros h Hh; destruct (IH2 h Hh) as [Hm|?]; [|by right].
    all: destruct Hm as [i Hi]; apply lookup_insert_Some in Hi as [[<- _]|[_ Hi]]; [right; simpl; lia|left; eauto].
  - apply IH. intros x Hx. apply Hl. set_solver.
Qed.

(** ** Properties *)

(** Applying a snapshot to a federation whose federates may have other
    handles than when it was taken.  Exactly the instances whose registrar is
    there by name come back, under the same handle, class and name, with the
    registrar and the owners replaced by the federates that have their names
    now (an attribute whose owner is missing becomes unowned); synchronization
    points come back with the participants that are there and nobody having
    achieved them; new instances get handles above every restored one; nothing
    else of the federation changes. *)
Theorem apply_snapshot_spec fed1 fed2 :
  keys_wf fed1 →
  (∀ h, is_Some (object_instances fed1 !! h) → 0 ≤ oih_raw h < 2 ^ 64 - 1) →
  let fed' := apply_snapshot (snapshot fed1) fed2 in
  (∀ h, object_instances fed' !! h = (inst ← object_instances fed1 !! h; restored fed1 fed2 inst)) ∧
  (∀ label, sync_points fed' !! label = (sp ← sync_points fed1 !! label;
    Some (mkSyncPoint label (sp_tag sp)
      (list_to_set (omap (rename fed1 fed2) (elements (participants sp)))) ∅ ∅))) ∧
  next_object_id fed2 ≤ next_object_id fed' ∧
  (∀ h, is_Some (object_instances fed' !! h) → oih_raw h < next_object_id fed') ∧
  fed' = set_sync_points (λ _, sync_points fed') (set_next_object_id (λ _, next_object_id fed')
    (set_object_instances (λ _, object_instances fed') fed2)).
Proof.
  intros Hk Hrange fed'. unfold fed', apply_snapshot. cbn [snap_instances snap_sync_points snapshot].
  pose proof (apply_instances_lookup fed1 fed2 Hk (next_object_id fed2)) as Hl.
  pose proof (apply_instances_next (name_to_handle fed2)
    (ser_instance (handle_to_name fed1) <$> (map_to_list (object_instances fed1)).*2) ∅ (next_object_id fed2)) as Hn.
  destruct (foldl (apply_instance _) _ _) as [instances next]. simpl in Hl.
  destruct Hn as [Hn1 Hn2].
  { intros ser (inst & -> & [h Hh]%elem_of_values)%list_elem_of_fmap. simpl.
    rewrite (kw_instance _ Hk _ _ Hh). apply Hrange. eauto. }
  simpl. split_and!; [done|by apply apply_sync_points_lookup|done| |done].
  intros h Hh. destruct (Hn2 h Hh) as [[i Hi]|?]; [by rewrite lookup_empty in Hi|done].
Qed.

(** Everyone a federation's instances and points mention is joined. *)
Record members_joined (fed : Federation) : Prop := {
  mj_registrar h inst : object_instances fed !! h = Some inst → is_Some (federates fed !! registrar inst);
  mj_owner h inst a o : object_instances fed !! h = Some inst → attribute_owners inst !! a = Some o →
    is_Some (federates fed !! o);
  mj_participant label sp fh : sync_points fed !! label = Some sp → fh ∈ participants sp →
    is_Some (federates fed !! fh)
}.

Lemma rename_same fed fh : names_wf fed → is_Some (federates fed !! fh) → rename fed fed fh = Some fh.
Proof. intros Hn Hj. by apply rename_id. Qed.

(** Save and restore with the same members is the identity, up to what a
    snapshot does not hold.  When federate names are distinct and everyone
    mentioned is joined, applying a federation's own snapshot gives back every
    instance with its registrar and owners, with its regions dropped, and
    every synchronization point with its participants, with the record of who
    achieved it dropped. *)
Theorem snapshot_roundtrip fed :
  names_wf fed → keys_wf fed → members_joined fed →
  let fed' := apply_snapshot (snapshot fed) fed in
  object_instances fed' = set_attribute_regions (λ _, ∅) <$> object_instances fed ∧
  sync_points fed' = (λ sp, set_achieved (λ _, ∅) (set_failed_to_sync (λ _, ∅) sp)) <$> sync_points fed.
Proof.
  intros Hn Hk Hj fed'. unfold fed', apply_snapshot. cbn [snap_instances snap_sync_points snapshot].
  pose proof (apply_instances_lookup fed fed Hk (next_object_id fed)) as Hl.
  destruct (foldl (apply_instance _) _ _) as [instances next]. simpl in *. split.
  - apply map_eq. intros h. rewrite Hl, lookup_fmap.
    destruct (object_instances fed !! h) as [inst|] eqn:Hi; simpl; [|done]. unfold restored.
    destruct (mj_registrar _ Hj _ _ Hi) as [fs Hfs]. rewrite handle_to_name_lookup, Hfs by done. simpl.
    assert (name_to_handle fed !! fs_name fs = Some (registrar inst)) as -> by (apply name_to_handle_lookup; eauto).
    simpl. f_equal. unfold set_attribute_regions. f_equal.
    apply map_eq. intros a. rewrite lookup_omap.
    destruct (attribute_owners inst !! a) as [o|] eqn:Ho; simpl; [|done].
    apply rename_same; [done|]. by eapply mj_owner.
  - apply map_eq. intros label. rewrite apply_sync_points_lookup, lookup_fmap by done.
    destruct (sync_points fed !! label) as [sp|] eqn:Hsp; simpl; [|done].
    f_equal. unfold set_achieved, set_failed_to_sync. simpl. rewrite (kw_label _ Hk _ _ Hsp). f_equal.
    apply set_eq. intros fh. rewrite elem_of_list_to_set, list_elem_of_omap. split.
    + intros (fh' & Hin%elem_of_elements & Hr).
      rewrite rename_same in Hr by (done || by eapply mj_participant). by simplify_eq.
    + intros Hin. exists fh. rewrite elem_of_elements. split; [done|].
      apply rename_same; [done|by eapply mj_participant].
Qed.

(** *** Witnesses *)

(** Federates "a" and "b", an instance of "a" with an attribute owned by "b",
    and a synchronization point of both that "a" has achieved.  [moved] is the
    federation after both rejoined, with other handles. *)
Definition saved_session (h : Z) (n : string) : FederateSession :=
  mkFederateSession (FederateHandle_new h) n "" h PubSubState_default TimeState_default Switches_default [].
Definition saved_members (h1 h2 : Z) : gmap FederateHandle FederateSession :=
  <[FederateHandle_new h1 := saved_session h1 "a"]> {[ FederateHandle_new h2 := saved_session h2 "b" ]}.
Definition saved_instance : ObjectInstance :=
  mkObjectInstance (ObjectInstanceHandle_new 5) (ObjectClassHandle_new 1) "x" (FederateHandle_new 1)
    {[ AttributeHandle_new 1 := FederateHandle_new 2 ]} ∅.
Definition saved_point : SyncPoint :=
  mkSyncPoint "go" [] {[FederateHandle_new 1; FederateHandle_new 2]} {[FederateHandle_new 1]} ∅.
Definition saved : Federation :=
  set_object_instances (λ _, {[ ObjectInstanceHandle_new 5 := saved_instance ]})
    (set_sync_points (λ _, {[ "go"%string := saved_point ]})
      (set_federates (λ _, saved_members 1 2) (Federation_new "f" MergedFom_new))).
Definition moved : Federation :=
  set_federates (λ _, saved_members 8 9) (Federation_new "f" MergedFom_new).

Lemma saved_keys : keys_wf saved.
Proof.
  split; simpl.
  - intros h inst Hi. apply lookup_singleton_Some in Hi as [<- <-]. reflexivity.
  - intros label sp Hs. apply lookup_singleton_Some in Hs as [<- <-]. reflexivity.
Defined.
Lemma saved_names : names_wf saved.
Proof.
  split; simpl; unfold saved_members.
  - intros fh fs. rewrite lookup_insert_Some, lookup_singleton_Some.
    intros [[<- <-]|[_ [<- <-]]]; reflexivity.
  - intros fh fs fh' fs'. rewrite !lookup_insert_Some, !lookup_singleton_Some.
    intros [[<- <-]|[_ [<- <-]]] [[<- <-]|[_ [<- <-]]] H; (reflexivity || discriminate H).
Defined.
Lemma saved_joined : members_joined saved.
Proof.
  split; simpl.
  - intros h inst Hi. apply lookup_singleton_Some in Hi as [<- <-]. eexists. reflexivity.
  - intros h inst a o Hi Ho. apply lookup_singleton_Some in Hi as [<- <-]. simpl in Ho.
    apply lookup_singleton_Some in Ho as [<- <-]. eexists. reflexivity.
  - intros label sp fh Hs Hin. apply lookup_singleton_Some in Hs as [<- <-]. simpl in Hin.
    apply elem_of_union in Hin as [Hin|Hin]; apply elem_of_singleton in Hin as ->; eexists; reflexivity.
Defined.

Lemma apply_snapshot_witness :
  let fed' := apply_snapshot (snapshot saved) moved in
  registrar <$> object_instances fed' !! ObjectInstanceHandle_new 5 = Some (FederateHandle_new 8) ∧
  next_object_id moved ≤ next_object_id fed'.
Proof.
  split; [vm_compute; reflexivity|].
  pose proof (apply_snapshot_spec saved moved saved_keys) as H. cbv zeta in H.
  destruct H as (_ & _ & H & _); [|exact H].
  intros h [i Hi]. simpl in Hi. apply lookup_singleton_Some in Hi as [<- _]. simpl. lia.
Defined.

Lemma snapshot_roundtrip_witness :
  object_instances (apply_snapshot (snapshot saved) saved) = {[ ObjectInstanceHandle_new 5 := saved_instance ]}.
Proof.
  rewrite (proj1 (snapshot_roundtrip saved saved_names saved_keys saved_joined)). vm_compute. reflexivity.
Defined.

(** The file name does not determine federation and label. *)
Theorem snapshot_path_collides :
  snapshot_path "./hla4-saves" "a__b" "c" = snapshot_path "./hla4-saves" "a" "b__c" ∧
  snapshot_path "./hla4-saves" "a/b" "c" = snapshot_path "./hla4-saves" "a_b" "c".
Proof. vm_compute. split; reflexivity. Qed.
