(* ===== verification/SaveRestore.v ===== *)
(** * Federation save and restore

    The save and restore services of [dispatch/save.rs] and
    [dispatch/restore.rs]: one operation at a time per federation, a status
    per federate, and completion when every federate has reported. *)

From S2P Require Import Prelude CoreTypes Fom Exception Proto State Handles Routing Handler.
From S2P Require Import TimeMgmt Declaration Persistence.

Section handlers.
Context {P : Prost} {J : Serde} {O : Os}.

(** ** Save *)

Definition request_federation_save (label : string) : Handler Resp :=
  m ← get_membership;
  return_if (bool_decide (label = ""%string)) (exception_variant InvalidSaveLabel "");;
  fed ← get_federation m;
  let participants : gset FederateHandle := dom (federates fed) in
  return_if (bool_decide (current_save fed ≠ None)) (exception_variant SaveInProgress "");;
  modify_federation m (λ fed, set_last_save_label (λ _, Some label)
    (set_current_save (λ _, Some (mkSaveOperation label (gset_to_gmap SaveInitiated participants))) fed));;
  notify m participants (initiate_federate_save label);;
  mret RequestFederationSaveResponse.

Definition set_save_status (fh : FederateHandle) (st : SaveStatus) (save : SaveOperation)
    : Federation → Federation := set_current_save (λ _, Some (set_save_statuses (insert fh st) save)).

Definition federate_save_begun : Handler Resp :=
  m ← get_membership;
  fed ← get_federation m;
  save ← some_or_return (current_save fed) (exception_variant SaveNotInProgress "");
  match save_statuses save !! m_federate_handle m with
  | Some SaveInitiated =>
      modify_federation m (set_save_status (m_federate_handle m) BegunSave save);;
      mret FederateSaveBegunResponse
  | Some _ => mret (exception_variant FederateNotInSaveInitiated "")
  | None => mret (exception_variant FederateNotInSaveSet "")
  end.

(** A failed write is logged and otherwise ignored. *)
Definition persist_federation_snapshot_on_success (m : Membership) : Handler unit :=
  modify (λ s,
    let fed := federation_of m s in
    match last_save_label fed with
    | None => s
    | Some label =>
        match write_snapshot (save_dir (ds_node s)) (fed_name fed) label (snapshot fed) (ds_disk s) with
        | Some disk => set_ds_disk (λ _, disk) s
        | None => s
        end
    end).

Definition save_done (st : SaveStatus) : bool :=
  match st with SaveComplete | SaveNotComplete => true | _ => false end.

(** [if let Some(any_failed) = outcome { ... }] *)
Definition end_save (m : Membership) (any_failed : bool) : Handler unit :=
  fed ← get_federation m;
  let participants : gset FederateHandle := dom (federates fed) in
  (if any_failed then mret tt else persist_federation_snapshot_on_success m);;
  notify m participants (if any_failed then federation_not_saved 0 else federation_saved).

Definition federate_save_progressed (successfully : bool) : Handler Resp :=
  m ← get_membership;
  fed ← get_federation m;
  save ← some_or_return (current_save fed) (exception_variant SaveNotInProgress "");
  let new_status := if successfully then SaveComplete else SaveNotComplete in
  let statuses := <[m_federate_handle m := new_status]> (save_statuses save) in
  let any_failed := existsb (λ st, bool_decide (st = SaveNotComplete)) (map_to_list statuses).*2 in
  let all_done := forallb save_done (map_to_list statuses).*2 in
  (if all_done then
     modify_federation m (set_current_save (λ _, None));;
     end_save m any_failed
   else modify_federation m (set_save_status (m_federate_handle m) new_status save));;
  mret (if successfully then FederateSaveCompleteResponse else FederateSaveNotCompleteResponse).

Definition abort_federation_save : Handler Resp :=
  m ← get_membership;
  fed ← get_federation m;
  return_if (bool_decide (current_save fed = None)) (exception_variant SaveNotInProgress "");;
  modify_federation m (set_current_save (λ _, None));;
  mret AbortFederationSaveResponse.

(** ** Restore *)

(** [InitiateFederateRestore] to each participant. *)
Definition initiate_restores (label : string) (l : list (FederateHandle * string)) : FedEffect :=
  λ node fed out, (fed, foldl (λ out p,
    fan_out out (live_connections node fed (single p.1)) (initiate_federate_restore label p.2 p.1)) out l).

Definition request_federation_restore (label : string) : Handler Resp :=
  m ← get_membership;
  return_if (bool_decide (label = ""%string)) (exception_variant InvalidRestoreLabel "");;
  node ← gets ds_node;
  disk ← gets ds_disk;
  fed ← get_federation m;
  snap ← match read_snapshot (save_dir node) (fed_name fed) label disk with
    | Ok s => mret (Some s)
    | Err NotFound => mret None
    | Err OtherError =>
        notify m (single (m_federate_handle m)) (request_federation_restore_failed label);;
        ret_early RequestFederationRestoreResponse
    end;
  let participants := (λ fs, (fs_handle fs, fs_name fs)) <$> (map_to_list (federates fed)).*2 in
  return_if (bool_decide (current_restore fed ≠ None)) (exception_variant RestoreInProgress "");;
  modify_federation m (set_current_restore (λ _, Some (mkRestoreOperation label
    (gset_to_gmap RestoreInitiated (list_to_set participants.*1)))));;
  (match snap with
   | Some snap => modify_federation m (apply_snapshot snap)
   | None => mret tt
   end);;
  notify m (single (m_federate_handle m)) (request_federation_restore_succeeded label);;
  notify m (list_to_set participants.*1) federation_restore_begun;;
  on_federation m (initiate_restores label participants);;
  mret RequestFederationRestoreResponse.

Definition restore_done (st : RestoreStatus) : bool :=
  match st with RestoreComplete | RestoreNotComplete => true | _ => false end.

Definition federate_restore_progressed (successfully : bool) : Handler Resp :=
  m ← get_membership;
  fed ← get_federation m;
  restore ← some_or_return (current_restore fed) (exception_variant RestoreNotInProgress "");
  let new_status := if successfully then RestoreComplete else RestoreNotComplete in
  let statuses := <[m_federate_handle m := new_status]> (restore_statuses restore) in
  let any_failed := existsb (λ st, bool_decide (st = RestoreNotComplete)) (map_to_list statuses).*2 in
  let all_done := forallb restore_done (map_to_list statuses).*2 in
  (if all_done then
     modify_federation m (set_current_restore (λ _, None));;
     fed ← get_federation m;
     notify m (dom (federates fed)) (if any_failed then federation_not_restored 0 else federation_restored)
   else modify_federation m (set_current_restore (λ _, Some (set_restore_statuses (λ _, statuses) restore))));;
  mret (if successfully then FederateRestoreCompleteResponse else FederateRestoreNotCompleteResponse).

Definition abort_federation_restore : Handler Resp :=
  m ← get_membership;
  fed ← get_federation m;
  return_if (bool_decide (current_restore fed = None)) (exception_variant RestoreNotInProgress "");;
  modify_federation m (set_current_restore (λ _, None));;
  mret AbortFederationRestoreResponse.
End handlers.

(** ** One report *)

Section report.
Context {P : Prost} {J : Serde} {O : Os}.

Definition save_status (ok : bool) : SaveStatus := if ok then SaveComplete else SaveNotComplete.

(** The files after the snapshot of [fed] was written, if it could be. *)
Definition saved_disk (node : RtiNode) (fed : Federation) (disk : gmap string string)
    : gmap string string :=
  match last_save_label fed with
  | None => disk
  | Some label => default disk (write_snapshot (save_dir node) (fed_name fed) label (snapshot fed) disk)
  end.

Lemma forallb_values {V} (p : V → bool) (m : gmap FederateHandle V) :
  forallb p (map_to_list m).*2 = true ↔ ∀ fh v, m !! fh = Some v → p v = true.
Proof.
  rewrite forallb_forall. setoid_rewrite <- list_elem_of_In. setoid_rewrite elem_of_values. naive_solver.
Qed.
Lemma existsb_values {V} (p : V → bool) (m : gmap FederateHandle V) :
  existsb p (map_to_list m).*2 = true ↔ ∃ fh v, m !! fh = Some v ∧ p v = true.
Proof.
  rewrite existsb_exists. setoid_rewrite <- list_elem_of_In. setoid_rewrite elem_of_values. naive_solver.
Qed.

Definition all_reported (statuses : gmap FederateHandle SaveStatus) : Prop :=
  ∀ fh st, statuses !! fh = Some st → save_done st = true.
Definition some_failed (statuses : gmap FederateHandle SaveStatus) : bool :=
  existsb (λ st, bool_decide (st = SaveNotComplete)) (map_to_list statuses).*2.

(** What a report leaves: the save goes on, or it ends. *)
Definition report_post (m : Membership) (fed : Federation) (save : SaveOperation) (ok : bool)
    (s s' : DispatchState) : Prop :=
  let statuses := <[m_federate_handle m := save_status ok]> (save_statuses save) in
  connections (ds_node s') = connections (ds_node s) ∧ save_dir (ds_node s') = save_dir (ds_node s) ∧
  ((¬ all_reported statuses ∧
    at_fed m s' (set_current_save (λ _, Some (set_save_statuses (λ _, statuses) save)) fed) ∧
    ds_callbacks s' = ds_callbacks s ∧ ds_disk s' = ds_disk s) ∨
   (all_reported statuses ∧ at_fed m s' (set_current_save (λ _, None) fed) ∧
    ds_callbacks s' = fan_out (ds_callbacks s) (live_connections (ds_node s) fed (dom (federates fed)))
      (if some_failed statuses then federation_not_saved 0 else federation_saved) ∧
    ds_disk s' = if some_failed statuses then ds_disk s else saved_disk (ds_node s) fed (ds_disk s))).

Lemma end_save_wp (Qr : Resp → DispatchState → Prop) m b s fed :
  at_fed m s fed →
  wp (end_save m b) Qr (λ _ s', at_fed m s' fed ∧ connections (ds_node s') = connections (ds_node s) ∧
    save_dir (ds_node s') = save_dir (ds_node s) ∧
    ds_callbacks s' = fan_out (ds_callbacks s) (live_connections (ds_node s) fed (dom (federates fed)))
      (if b then federation_not_saved 0 else federation_saved) ∧
    ds_disk s' = if b then ds_disk s else saved_disk (ds_node s) fed (ds_disk s)) s.
Proof.
  intros Hs. unfold end_save. wp_step. unfold get_federation. apply wp_gets.
  rewrite (federation_of_heap m s fed Hs). apply wp_bind. destruct b.
  - apply wp_ret. eapply wp_at_notify; [exact Hs|]. intros s1 Hs1 I1. split_and!; [exact Hs1|apply I1..].
  - unfold persist_federation_snapshot_on_success. apply wp_modify. rewrite (federation_of_heap m s fed Hs).
    unfold saved_disk. destruct (last_save_label fed) as [label|]; [destruct (write_snapshot _ _ _ _ _) as [disk|]|].
    all: eapply wp_at_notify; [exact Hs|]; intros s1 Hs1 I1; split_and!; [exact Hs1|apply I1..].
Qed.

Lemma report_step s m fed save ok :
  membership (ds_ctx s) = Some m → at_fed m s fed → current_save fed = Some save →
  report_post m fed save ok s (run (federate_save_progressed ok) s).1 ∧
  (run (federate_save_progressed ok) s).2 =
    if ok then FederateSaveCompleteResponse else FederateSaveNotCompleteResponse.
Proof.
  intros Hm Hfed Hsave. pose proof (federation_of_heap m s fed Hfed) as Hf.
  apply (run_wp _ (λ r s', report_post m fed save ok s s' ∧
    r = if ok then FederateSaveCompleteResponse else FederateSaveNotCompleteResponse)).
  unfold federate_save_progressed. wp_det. rewrite Hf. eapply wp_some_eq; [exact Hsave|].
  fold (save_status ok). cbv zeta. set (statuses := <[_ := save_status ok]> _). fold (some_failed statuses). wp_step.
  destruct (forallb save_done (map_to_list statuses).*2) eqn:Hall.
  - rewrite forallb_values in Hall. wp_step.
    eapply wp_at_modify_federation; [exact Hfed|]. intros s1 Hs1 I1.
    eapply (wp_mono (λ _ _, False)); [apply end_save_wp, Hs1|done|]. intros [] s2 (Hs2 & Hc & Hd & Hcb & Hdisk). wp_step. split; [|done].
    split_and!; [by rewrite Hc, (io_connections _ _ _ I1)|by rewrite Hd, (io_save_dir _ _ _ I1)|].
    right. split_and!; [done|exact Hs2| |].
    + rewrite Hcb, (io_callbacks _ _ _ I1), (live_connections_node (ds_node s1) (ds_node s)) by apply I1. done.
    + rewrite Hdisk, (io_disk _ _ _ I1). unfold saved_disk. by rewrite (io_save_dir _ _ _ I1).
  - apply not_true_iff_false in Hall. rewrite forallb_values in Hall.
    eapply wp_at_modify_federation; [exact Hfed|]. intros s1 Hs1 I1. wp_step. split; [|done].
    split_and!; [apply I1|apply I1|]. left. split_and!; [done|exact Hs1|apply I1|apply I1].
Qed.
End report.

(** ** Properties *)

(** A report during a save, on every branch.  The member's status is
    recorded.  While some federate has not reported, the save goes on and
    nobody is called back; when everyone has, the save is over, every joined
    federate is told [FederationSaved], or [FederationNotSaved] if any
    reported a failure, and in the first case the snapshot of the federation
    is written under the label of the save, if it can be. *)
Theorem save_report_spec {P : Prost} {J : Serde} {O : Os} s m fed save ok :
  membership (ds_ctx s) = Some m → at_fed m s fed → current_save fed = Some save →
  let '(s', r) := run (federate_save_progressed ok) s in
  report_post m fed save ok s s' ∧
  r = if ok then FederateSaveCompleteResponse else FederateSaveNotCompleteResponse.
Proof.
  intros Hm Hfed Hsave. pose proof (report_step s m fed save ok Hm Hfed Hsave) as H.
  by destruct (run (federate_save_progressed ok) s).
Qed.

(** C25: what a save wrote, a restore applies.  Let the last report complete a
    save of federation [fed] without failures, and its file be written.  If a
    member of a federation of the same name then requests a restore with the
    same label, the files unchanged and no restore in progress, that
    federation gets the snapshot of [fed] applied, its restore in progress
    with every federate to report, and the request succeeds. *)
Theorem save_then_restore {P : Prost} {J : Serde} {O : Os} `{!SerdeLaw J} s m fed save label s2 m2 fed2 text :
  membership (ds_ctx s) = Some m → at_fed m s fed → current_save fed = Some save →
  (∀ fh st, save_statuses save !! fh = Some st → fh ≠ m_federate_handle m → st = SaveComplete) →
  last_save_label fed = Some label → label ≠ ""%string →
  os_create_dir_ok (save_dir (ds_node s)) = true → to_json (snapshot fed) = Some text →
  let path := snapshot_path (save_dir (ds_node s)) (fed_name fed) label in
  os_write_ok path = true → os_read_ok path = true →
  ds_disk s2 = ds_disk (run (federate_save_progressed true) s).1 →
  membership (ds_ctx s2) = Some m2 → at_fed m2 s2 fed2 → current_restore fed2 = None →
  fed_name fed2 = fed_name fed → save_dir (ds_node s2) = save_dir (ds_node s) →
  let '(s', r) := run (request_federation_restore label) s2 in
  r = RequestFederationRestoreResponse ∧
  at_fed m2 s' (apply_snapshot (snapshot fed)
    (set_current_restore (λ _, Some (mkRestoreOperation label (gset_to_gmap RestoreInitiated
      (list_to_set (fs_handle <$> (map_to_list (federates fed2)).*2))))) fed2)).
Proof.
  intros Hm Hfed Hsave Hst Hlabel Hne Hdir Hjson path Hw Hr Hdisk Hm2 Hfed2 Hcr Hname Hsd.
  assert (Hread : read_snapshot (save_dir (ds_node s2)) (fed_name fed2) label (ds_disk s2) = Ok (snapshot fed)).
  { destruct (report_step s m fed save true Hm Hfed Hsave) as [(_ & _ & [(Hnot & _)|(_ & _ & _ & Hd)]) _].
    - exfalso. apply Hnot. intros fh st. rewrite lookup_insert_Some. intros [[_ <-]|[Hn Hs]]; [done|].
      by rewrite (Hst fh st Hs).
    - rewrite Hdisk, Hd. replace (some_failed _) with false.
      2:{ symmetry. apply not_true_iff_false. unfold some_failed. rewrite existsb_values.
          intros (fh & st & Hs & Hb). apply bool_decide_eq_true in Hb. rewrite lookup_insert_Some in Hs.
          destruct Hs as [[_ <-]|[Hn Hs]]; [done|]. rewrite (Hst fh st Hs) in Hb; done. }
      unfold saved_disk, write_snapshot, read_snapshot. rewrite Hlabel, Hdir, Hsd, Hname. cbv zeta. fold path.
      rewrite Hjson. simpl. rewrite Hw. simpl. rewrite lookup_insert_eq, Hr. by rewrite (serde_roundtrip _ _ Hjson). }
  apply run_wp_let. pose proof (federation_of_heap m2 s2 fed2 Hfed2) as Hf2. unfold request_federation_restore.
  wp_det. rewrite Hf2, Hread. apply wp_ret. wp_step.
  apply wp_continue; [rewrite Hcr; by apply bool_decide_eq_false_2; intros []|]. wp_step.
  eapply wp_at_modify_federation; [exact Hfed2|]. intros s3 Hs3 _. wp_step.
  eapply wp_at_modify_federation; [exact Hs3|]. intros s4 Hs4 _. wp_step.
  eapply wp_at_notify; [exact Hs4|]. intros s5 Hs5 _. wp_step.
  eapply wp_at_notify; [exact Hs5|]. intros s6 Hs6 _. wp_step.
  eapply wp_at_effect; [exact Hs6|]. intros s7 Hs7 _. wp_step. split; [done|].
  cbn [initiate_restores fst] in Hs7. rewrite <- list_fmap_compose in Hs7. exact Hs7.
Qed.

(** *** Witnesses *)

(** A codec with the round trip: the binary digits of the encoding that
    makes snapshots countable. *)
#[local] Instance byte_eq_dec : EqDecision byte := Byte.byte_eq_dec.
#[local] Instance byte_countable : Countable byte := inj_countable Byte.to_N Byte.of_N Byte.of_to_N.
#[local] Instance ser_instance_eq_dec : EqDecision SerInstance.
Proof. solve_decision. Defined.
#[local] Instance ser_sync_point_eq_dec : EqDecision SerSyncPoint.
Proof. solve_decision. Defined.
#[local] Instance snapshot_eq_dec : EqDecision FederationSnapshot.
Proof. solve_decision. Defined.
#[local] Instance ser_instance_countable : Countable SerInstance.
Proof.
  apply (inj_countable' (λ i, (ser_handle i, ser_class i, ser_name i, registrar_name i, ser_attribute_owners i))
    (λ '(a, b, c, d, e), mkSerInstance a b c d e)). by intros [].
Defined.
#[local] Instance ser_sync_point_countable : Countable SerSyncPoint.
Proof.
  apply (inj_countable' (λ i, (ser_label i, ser_tag i, ser_participants i))
    (λ '(a, b, c), mkSerSyncPoint a b c)). by intros [].
Defined.
#[local] Instance snapshot_countable : Countable FederationSnapshot.
Proof.
  apply (inj_countable' (λ i, (federation_name i, snap_instances i, snap_sync_points i))
    (λ '(a, b, c), mkFederationSnapshot a b c)). by intros [].
Defined.

Fixpoint digits (p : positive) : string :=
  match p with xH => EmptyString | xO p => String Ascii.zero (digits p) | xI p => String Ascii.one (digits p) end.
Fixpoint undigits (s : string) : positive :=
  match s with
  | EmptyString => xH
  | String c s => if bool_decide (c = Ascii.zero) then xO (undigits s) else xI (undigits s)
  end.
Lemma undigits_digits p : undigits (digits p) = p.
Proof. induction p as [p IH|p IH|]; cbn [digits undigits]; [by rewrite IH..|done]. Qed.

Definition digit_serde : Serde :=
  {| to_json := λ snap, Some (digits (encode snap)); from_json := λ text, decode (undigits text) |}.
#[local] Instance digit_serde_law : SerdeLaw digit_serde.
Proof. intros snap text [= <-]. simpl. by rewrite undigits_digits, decode_encode. Defined.
Definition reliable_os : Os :=
  {| os_create_dir_ok := λ _, true; os_write_ok := λ _, true; os_read_ok := λ _, true |}.

(** Federates "a" (1) and "b" (2) save; "b" has reported, "a" reports last. *)
Definition saving : Federation :=
  set_last_save_label (λ _, Some "s"%string)
    (set_current_save (λ _, Some (mkSaveOperation "s"
      (<[FederateHandle_new 1 := BegunSave]> {[ FederateHandle_new 2 := SaveComplete ]}))) saved).
Definition saving_op : SaveOperation := mkSaveOperation "s"
  (<[FederateHandle_new 1 := BegunSave]> {[ FederateHandle_new 2 := SaveComplete ]}).
Definition save_member : Membership := mkMembership 1%positive (FederateHandle_new 1) "f".

Lemma save_report_witness :
  let '(s', r) := run (federate_save_progressed (P := demo_prost) (J := digit_serde) (O := reliable_os) true)
    (demo_state 1 saving) in
  r = FederateSaveCompleteResponse.
Proof.
  pose proof (save_report_spec (P := demo_prost) (J := digit_serde) (O := reliable_os) (demo_state 1 saving)
    save_member saving saving_op true eq_refl eq_refl eq_refl) as H.
  destruct (run _ _) as [s' r]. exact (proj2 H).
Defined.

(** Afterwards a node on which the federates have other handles restores. *)
Definition restoring_state : DispatchState :=
  set_ds_disk (λ _, ds_disk (run (federate_save_progressed (P := demo_prost) (J := digit_serde)
    (O := reliable_os) true) (demo_state 1 saving)).1) (demo_state 8 moved).

Lemma save_then_restore_witness :
  let '(s', r) := run (request_federation_restore (P := demo_prost) (J := digit_serde) (O := reliable_os) "s")
    restoring_state in
  r = RequestFederationRestoreResponse.
Proof.
  pose proof (save_then_restore (P := demo_prost) (J := digit_serde) (O := reliable_os) (demo_state 1 saving)
    save_member saving saving_op "s" restoring_state (mkMembership 1%positive (FederateHandle_new 8) "f") moved
    (digits (encode (snapshot saving)))) as H.
  cbv zeta in H. destruct (run (request_federation_restore _) _) as [s' r]. apply H; try reflexivity.
  - intros fh st. simpl. rewrite lookup_insert_Some, lookup_singleton_Some.
    intros [[<- _]|[_ [_ <-]]] Hne; [by destruct Hne|reflexivity].
  - discriminate.
Defined.

(** A federate that is not in the save set may report, and its report counts:
    federate 3, which joined after the save began, fails the save. *)
Theorem late_joiner_fails_save :
  let fed := set_current_save (λ _, Some (mkSaveOperation "s" {[ FederateHandle_new 1 := SaveInitiated ]})) saved in
  let s1 := (run (federate_save_progressed (P := demo_prost) (J := digit_serde) (O := reliable_os) false)
    (demo_state 3 fed)).1 in
  save_statuses <$> current_save (fed_at (ds_node s1) 1%positive) =
    Some (<[FederateHandle_new 3 := SaveNotComplete]> {[ FederateHandle_new 1 := SaveInitiated ]}).
Proof. vm_compute. reflexivity. Qed.

(** [FederationSaved] is sent although nothing could be written. *)
Definition broken_os : Os :=
  {| os_create_dir_ok := λ _, false; os_write_ok := λ _, false; os_read_ok := λ _, false |}.
Theorem saved_without_file :
  let s := set_ds_node (set_connections (λ _, {[ 1 := 7%positive ]})) (demo_state 1 saving) in
  let P := {| encode_callback := λ cb, match cb with FederationSaved => [Byte.x01] | _ => [] end |} in
  let s1 := (run (federate_save_progressed (P := P) (J := digit_serde) (O := broken_os) true) s).1 in
  ds_disk s1 = ∅ ∧ ds_callbacks s1 = [mkOutboundCallback 7%positive [Byte.x01]].
Proof. vm_compute. split; reflexivity. Qed.
