(* ===== verification/Advisories.v ===== *)
(** * Switches and directed interactions

    [dispatch/advisories.rs]: the per-federate switches and the automatic
    resign directive; [dispatch/directed.rs]: interactions directed at an
    object instance. *)

From S2P Require Import Prelude CoreTypes Fom Exception Proto State Subscription Handles Routing.
From S2P Require Import Handler Declaration Ddm ObjectMgmt Tso DataFlow.

(** ** Switches *)

Definition get_switch_bool (getter : Switches → bool) (wrap : bool → Resp) : Handler Resp :=
  m ← get_membership;
  fs ← get_federate m;
  mret (wrap (getter (switches fs))).

Definition set_switch_bool (value : bool) (setter : (bool → bool) → Switches → Switches) (wrap : Resp)
    : Handler Resp :=
  m ← get_membership;
  fs ← get_federate m;
  modify_federate m (set_switches (setter (λ _, value)));;
  mret wrap.

Definition encode_resign_action (a : ResignAction) : Z :=
  match a with
  | UnconditionallyDivestAttributes => 0
  | DeleteObjects => 1
  | CancelPendingOwnershipAcquisitions => 2
  | DeleteObjectsThenDivest => 3
  | CancelThenDeleteThenDivest => 4
  | NoAction => 5
  end.

(** [match value { 0 => ..., other => return ... }] *)
Definition decode_resign_action (value : Z) : result Resp ResignAction :=
  if value =? 0 then Ok UnconditionallyDivestAttributes
  else if value =? 1 then Ok DeleteObjects
  else if value =? 2 then Ok CancelPendingOwnershipAcquisitions
  else if value =? 3 then Ok DeleteObjectsThenDivest
  else if value =? 4 then Ok CancelThenDeleteThenDivest
  else if value =? 5 then Ok NoAction
  else Err (exception_variant InvalidResignAction (D_int value)).

Definition get_automatic_resign_directive : Handler Resp :=
  m ← get_membership;
  fs ← get_federate m;
  mret (GetAutomaticResignDirectiveResponse (encode_resign_action (automatic_resign_directive (switches fs)))).

Definition set_automatic_resign_directive_call (value : Z) : Handler Resp :=
  m ← get_membership;
  action ← ok_or_return (decode_resign_action value) id;
  fs ← get_federate m;
  modify_federate m (set_switches (set_automatic_resign_directive (λ _, action)));;
  mret SetAutomaticResignDirectiveResponse.

(** ** Directed interactions *)

Definition decode_interaction_class_set (set : option (list ProtoHandle)) : list InteractionClassHandle :=
  omap (λ h, ok (decode_interaction_class h)) (default [] set).

(** The checks of the four declaration handlers. *)
Definition directed_class (class : option ProtoHandle) : Handler (Membership * ObjectClassHandle) :=
  m ← get_membership;
  class ← decode_or_return decode_object_class class (exception_variant InvalidObjectClassHandle "");
  mret (m, class).

Definition publish_object_class_directed_interactions (class : option ProtoHandle)
    (interactions : option (list ProtoHandle)) : Handler Resp :=
  '(m, class) ← directed_class class;
  let ix : gset InteractionClassHandle := list_to_set (decode_interaction_class_set interactions) in
  modify_federate m (set_pub_sub (set_published_directed_interactions (entry_extend class ix)));;
  mret PublishObjectClassDirectedInteractionsResponse.

(** [None] removes the whole entry. *)
Definition remove_directed (class : ObjectClassHandle) (interactions : option (list ProtoHandle))
    (m : gmap ObjectClassHandle (gset InteractionClassHandle)) : gmap ObjectClassHandle (gset InteractionClassHandle) :=
  match interactions with
  | Some set => entry_remove class (list_to_set (decode_interaction_class_set (Some set))) m
  | None => delete class m
  end.

Definition unpublish_object_class_directed_interactions (class : option ProtoHandle)
    (interactions : option (list ProtoHandle)) : Handler Resp :=
  '(m, class) ← directed_class class;
  modify_federate m (set_pub_sub (set_published_directed_interactions (remove_directed class interactions)));;
  mret UnpublishObjectClassDirectedInteractionsResponse.

Definition subscribe_object_class_directed_interactions (class : option ProtoHandle)
    (interactions : option (list ProtoHandle)) : Handler Resp :=
  '(m, class) ← directed_class class;
  let ix : gset InteractionClassHandle := list_to_set (decode_interaction_class_set interactions) in
  modify_federate m (set_pub_sub (set_subscribed_directed_interactions (entry_extend class ix)));;
  mret SubscribeObjectClassDirectedInteractionsResponse.

Definition unsubscribe_object_class_directed_interactions (class : option ProtoHandle)
    (interactions : option (list ProtoHandle)) : Handler Resp :=
  '(m, class) ← directed_class class;
  modify_federate m (set_pub_sub (set_subscribed_directed_interactions (remove_directed class interactions)));;
  mret UnsubscribeObjectClassDirectedInteractionsResponse.

(** The registrar of the instance and the directed subscribers of its class. *)
Definition directed_targets (fed : Federation) (inst : ObjectInstance) (class : InteractionClassHandle)
    (self : FederateHandle) : gset FederateHandle :=
  (if decide (registrar inst = self) then ∅ else {[registrar inst]}) ∪
  list_to_set (fs_handle <$> filter (λ fs, fs_handle fs ≠ self ∧
      class ∈ default ∅ (subscribed_directed_interactions (pub_sub fs) !! inst_class inst))
    (map_to_list (federates fed)).*2).

Definition send_directed_interaction {P : Prost} (class instance : option ProtoHandle)
    (params : option ProtoValueMap) (tag : list byte) : Handler Resp :=
  m ← get_membership;
  class ← decode_or_return decode_interaction_class class (exception_variant InvalidInteractionClassHandle "");
  instance_h ← decode_or_return decode_object_instance instance (exception_variant ObjectInstanceNotKnown "");
  params ← ok_or_return (decode_parameter_value_map params) id;
  fed ← get_federation m;
  inst ← some_or_return (object_instances fed !! instance_h) (exception_variant ObjectInstanceNotKnown "");
  let targets := directed_targets fed inst class (m_federate_handle m) in
  notify m targets (receive_directed_interaction class instance_h params tag (m_federate_handle m));;
  mret SendDirectedInteractionResponse.

(** ** Properties *)

(** The directive a federate sets is the one it reads back. *)
Lemma resign_action_roundtrip a : decode_resign_action (encode_resign_action a) = Ok a.
Proof. by destruct a. Qed.

(** A directed interaction changes no federation and goes to exactly the
    registrar of the instance and the federates with a directed subscription
    for the instance's class and the interaction class, the sender excepted. *)
Theorem send_directed_spec {P : Prost} s m fed pc class pi instance inst pp params tag :
  membership (ds_ctx s) = Some m → at_fed m s fed →
  (∀ fh fs, federates fed !! fh = Some fs → fs_handle fs = fh) →
  decode_interaction_class pc = Ok class → decode_object_instance pi = Ok instance →
  decode_parameter_value_map pp = Ok params → object_instances fed !! instance = Some inst →
  let self := m_federate_handle m in
  let '(s', r) := run (send_directed_interaction (Some pc) (Some pi) pp tag) s in
  r = SendDirectedInteractionResponse ∧ ds_node s' = ds_node s ∧
  ∃ targets : gset FederateHandle,
    (∀ fh, fh ∈ targets ↔ fh ≠ self ∧ (fh = registrar inst ∨ ∃ fs ix, federates fed !! fh = Some fs ∧
      subscribed_directed_interactions (pub_sub fs) !! inst_class inst = Some ix ∧ class ∈ ix)) ∧
    ds_callbacks s' = fan_out (ds_callbacks s) (live_connections (ds_node s) fed targets)
      (receive_directed_interaction class instance params tag self).
Proof.
  intros Hm Hfed Hh Hc Hpi Hp Hi self. apply run_wp_let. pose proof (federation_of_heap m s fed Hfed) as Hf.
  unfold send_directed_interaction. wp_det. rewrite Hf. eapply wp_some_eq; [exact Hi|]. wp_det.
  unfold notify. apply wp_modify. wp_det. split_and!; [done..|]. rewrite Hf.
  exists (directed_targets fed inst class self). split; [|done]. intros fh. unfold directed_targets.
  rewrite elem_of_union, elem_of_list_to_set, list_elem_of_fmap. split.
  - intros [H|(fs & -> & H)].
    + destruct (decide (registrar inst = self)); set_solver.
    + apply list_elem_of_filter in H as [[Hne Hin] Hv]. split; [done|right].
      apply list_elem_of_fmap in Hv as ([k v] & -> & Hkv%elem_of_map_to_list). simpl in *.
      destruct (subscribed_directed_interactions (pub_sub v) !! inst_class inst) as [ix|] eqn:Hix; simpl in Hin;
        [|by apply not_elem_of_empty in Hin].
      exists v, ix. by rewrite (Hh _ _ Hkv).
  - intros [Hne [->|(fs & ix & Hfs & Hix & Hin)]].
    + left. rewrite decide_False by done. set_solver.
    + right. exists fs. split; [by rewrite (Hh _ _ Hfs)|]. apply list_elem_of_filter. split.
      * rewrite (Hh _ _ Hfs). split; [done|]. by rewrite Hix.
      * apply list_elem_of_fmap. exists (fh, fs). split; [done|]. by apply elem_of_map_to_list.
Qed.

Lemma send_directed_witness :
  let '(s', r) := run (send_directed_interaction (P := demo_prost)
    (Some (encode_interaction_class (InteractionClassHandle_new 1))) (Some upd_instance_arg) None [])
    (demo_state 2 upd_federation) in
  r = SendDirectedInteractionResponse.
Proof.
  pose proof (send_directed_spec (P := demo_prost) (demo_state 2 upd_federation) (demo_member 2) upd_federation
    (encode_interaction_class (InteractionClassHandle_new 1)) (InteractionClassHandle_new 1) upd_instance_arg
    (ObjectInstanceHandle_new 1) upd_instance None ∅ [] eq_refl eq_refl) as H.
  cbv zeta in H. destruct (run _ _) as [s' r]. apply H; try reflexivity.
  intros fh fs Hfs. apply elem_of_map_to_list in Hfs. vm_compute in Hfs.
  repeat (apply elem_of_cons in Hfs as [Hfs|Hfs]; [injection Hfs as -> ->; reflexivity|]).
  by apply elem_of_nil in Hfs.
Defined.
