(* ===== verification/Lookup.v ===== *)
(** * Lookups

    Names and handles: [dispatch/handle_lookup.rs] (classes, attributes,
    parameters), [dispatch/instance_lookup.rs] (instances and dimensions) and
    [dispatch/introspection.rs] (federates, order and transportation types). *)

From stdpp Require Import pretty.
From S2P Require Import Prelude CoreTypes Fom Exception Proto State Subscription Handles Routing.
From S2P Require Import Handler Declaration Ddm ObjectMgmt.

(** [match decode(&h) { Ok(h) => h, Err(HandleError::Invalid(n)) => return ... }] *)
Definition decoded {H} (r : result HandleError H) : Handler H :=
  ok_or_return r (λ e, match e with Invalid n => exception_variant n "" end).

(** [{handle:?}] of a newtype over an integer. *)
Definition D_debug (type : string) (raw : Z) : Details := D_cat [D_str type; D_str "("; D_int raw; D_str ")"].

(** ** Classes, attributes, parameters *)

Definition get_object_class_handle (name : string) : Handler Resp :=
  m ← get_membership;
  fed ← get_federation m;
  h ← some_or_return (object_class_handle (fed_fom fed) name) (exception_variant NameNotFound name);
  mret (GetObjectClassHandleResponse (Some (encode_object_class h))).

Definition get_object_class_name (h : ProtoHandle) : Handler Resp :=
  m ← get_membership;
  handle ← decoded (decode_object_class h);
  fed ← get_federation m;
  d ← some_or_return (object_class_def (fed_fom fed) handle)
    (exception_variant InvalidObjectClassHandle (D_debug "ObjectClassHandle" (och_raw handle)));
  mret (GetObjectClassNameResponse (oc_name d)).

Definition get_attribute_handle (class : ProtoHandle) (attr_name : string) : Handler Resp :=
  m ← get_membership;
  class ← decoded (decode_object_class class);
  fed ← get_federation m;
  return_if (bool_decide (object_class_def (fed_fom fed) class = None))
    (exception_variant InvalidObjectClassHandle (D_debug "ObjectClassHandle" (och_raw class)));;
  h ← some_or_return (attribute_handle (fed_fom fed) class attr_name) (exception_variant NameNotFound attr_name);
  mret (GetAttributeHandleResponse (Some (encode_attribute h))).

Definition get_attribute_name (class attr : ProtoHandle) : Handler Resp :=
  m ← get_membership;
  class ← decoded (decode_object_class class);
  attr ← decoded (decode_attribute attr);
  fed ← get_federation m;
  def ← some_or_return (object_class_def (fed_fom fed) class) (exception_variant InvalidObjectClassHandle "");
  a ← some_or_return
    (List.find (λ a, bool_decide (attribute_handle (fed_fom fed) class (attr_name a) = Some attr)) (oc_attributes def))
    (exception_variant AttributeNotDefined (D_debug "AttributeHandle" (ah_raw attr)));
  mret (GetAttributeNameResponse (attr_name a)).

Definition get_interaction_class_handle (name : string) : Handler Resp :=
  m ← get_membership;
  fed ← get_federation m;
  h ← some_or_return (interaction_class_handle (fed_fom fed) name) (exception_variant NameNotFound name);
  mret (GetInteractionClassHandleResponse (Some (encode_interaction_class h))).

Definition get_interaction_class_name (h : ProtoHandle) : Handler Resp :=
  m ← get_membership;
  handle ← decoded (decode_interaction_class h);
  fed ← get_federation m;
  d ← some_or_return (interaction_class_def (fed_fom fed) handle) (exception_variant InvalidInteractionClassHandle "");
  mret (GetInteractionClassNameResponse (ic_name d)).

Definition get_parameter_handle (class : ProtoHandle) (param_name : string) : Handler Resp :=
  m ← get_membership;
  class ← decoded (decode_interaction_class class);
  fed ← get_federation m;
  return_if (bool_decide (interaction_class_def (fed_fom fed) class = None))
    (exception_variant InvalidInteractionClassHandle "");;
  h ← some_or_return (parameter_handle (fed_fom fed) class param_name) (exception_variant NameNotFound param_name);
  mret (GetParameterHandleResponse (Some (encode_parameter h))).

Definition get_parameter_name (class param : ProtoHandle) : Handler Resp :=
  m ← get_membership;
  class ← decoded (decode_interaction_class class);
  param ← decoded (decode_parameter param);
  fed ← get_federation m;
  def ← some_or_return (interaction_class_def (fed_fom fed) class) (exception_variant InvalidInteractionClassHandle "");
  p ← some_or_return
    (List.find (λ p, bool_decide (parameter_handle (fed_fom fed) class (param_name p) = Some param)) (ic_parameters def))
    (exception_variant InteractionParameterNotDefined "");
  mret (GetParameterNameResponse (param_name p)).

(** ** Instances *)

Definition get_object_instance_handle (name : string) : Handler Resp :=
  m ← get_membership;
  fed ← get_federation m;
  inst ← some_or_return
    (List.find (λ i, bool_decide (inst_name i = name)) (map_to_list (object_instances fed)).*2)
    (exception_variant ObjectInstanceNotKnown name);
  mret (GetObjectInstanceHandleResponse (Some (encode_object_instance (inst_handle inst)))).

(** The instance the next two look up. *)
Definition known_instance (instance : option ProtoHandle) : Handler ObjectInstance :=
  m ← get_membership;
  h ← decode_or_return decode_object_instance instance (exception_variant ObjectInstanceNotKnown "");
  fed ← get_federation m;
  some_or_return (object_instances fed !! h) (exception_variant ObjectInstanceNotKnown "").

Definition get_object_instance_name (instance : option ProtoHandle) : Handler Resp :=
  inst ← known_instance instance;
  mret (GetObjectInstanceNameResponse (inst_name inst)).

Definition get_known_object_class_handle (instance : option ProtoHandle) : Handler Resp :=
  inst ← known_instance instance;
  mret (GetKnownObjectClassHandleResponse (Some (encode_object_class (inst_class inst)))).

Definition local_delete_object_instance (instance : option ProtoHandle) : Handler Resp :=
  m ← get_membership;
  h ← decode_or_return decode_object_instance instance (exception_variant ObjectInstanceNotKnown "");
  modify_federate m (set_pub_sub (set_discovered_instances (λ d, d ∖ {[h]})));;
  mret LocalDeleteObjectInstanceResponse.

(** ** Dimensions *)

Definition get_dimension_handle (name : string) : Handler Resp :=
  m ← get_membership;
  fed ← get_federation m;
  h ← some_or_return (dimension_handle (fed_fom fed) name) (exception_variant NameNotFound name);
  mret (GetDimensionHandleResponse (Some (to_be_bytes 4 (dh_raw h)))).

Definition get_dimension_name (dimension : option ProtoHandle) : Handler Resp :=
  h ← some_or_return (d ← dimension; decode_dimension d) (exception_variant InvalidDimensionHandle "");
  mret (GetDimensionNameResponse ("Dim" +:+ pretty (dh_raw h))).

Definition get_dimension_upper_bound (_dimension : option ProtoHandle) : Handler Resp :=
  mret (GetDimensionUpperBoundResponse u32_MAX).

Definition get_dimension_handle_set (region : option ProtoHandle) : Handler Resp :=
  m ← get_membership;
  rh ← some_or_return (h ← region; decode_region h) (exception_variant InvalidRegion "");
  fed ← get_federation m;
  r ← some_or_return (regions fed !! rh) (exception_variant InvalidRegion "");
  mret (GetDimensionHandleSetResponse (Some ((λ d, to_be_bytes 4 (dh_raw d)) <$> (map_to_list (committed r)).*1))).

Definition get_available_dimensions_for_object_class (_class : option ProtoHandle) : Handler Resp :=
  mret (GetAvailableDimensionsForObjectClassResponse (Some [])).
Definition get_available_dimensions_for_interaction_class (_class : option ProtoHandle) : Handler Resp :=
  mret (GetAvailableDimensionsForInteractionClassResponse (Some [])).

(** ** Federates and well-known values *)

Definition get_federate_handle (name : string) : Handler Resp :=
  m ← get_membership;
  fed ← get_federation m;
  fs ← some_or_return (List.find (λ f, bool_decide (fs_name f = name)) (map_to_list (federates fed)).*2)
    (exception_variant NameNotFound name);
  mret (GetFederateHandleResponse (Some (encode_federate (fs_handle fs)))).

Definition get_federate_name (handle : ProtoHandle) : Handler Resp :=
  m ← get_membership;
  return_if (negb (length handle =? 4)%nat) (exception_variant InvalidFederateHandle "");;
  let fh := FederateHandle_new (from_be_bytes handle) in
  fed ← get_federation m;
  fs ← some_or_return (federates fed !! fh) (exception_variant InvalidFederateHandle "");
  mret (GetFederateNameResponse (fs_name fs)).

Definition get_order_type (name : string) : Handler Resp :=
  raw ← (if bool_decide (name = "Receive"%string) then mret 0
         else if bool_decide (name = "TimeStamp"%string) || bool_decide (name = "TimestampOrder"%string) then mret 1
         else ret_early (exception_variant InvalidOrderName name));
  mret (GetOrderTypeResponse raw).

Definition get_order_name (order_type : Z) : Handler Resp :=
  name ← (if order_type =? 0 then mret "Receive"%string
          else if order_type =? 1 then mret "TimeStamp"%string
          else ret_early (exception_variant InvalidOrderType (D_int order_type)));
  mret (GetOrderNameResponse name).

Definition get_transportation_type_handle (name : string) : Handler Resp :=
  raw ← (if bool_decide (name = "HLAreliable"%string) then mret 1
         else if bool_decide (name = "HLAbestEffort"%string) then mret 2
         else ret_early (exception_variant InvalidTransportationName name));
  mret (GetTransportationTypeHandleResponse (Some (to_be_bytes 4 raw))).

Definition get_transportation_type_name (handle : ProtoHandle) : Handler Resp :=
  return_if (negb (length handle =? 4)%nat) (exception_variant InvalidTransportationTypeHandle "");;
  let raw := from_be_bytes handle in
  name ← (if raw =? 1 then mret "HLAreliable"%string
          else if raw =? 2 then mret "HLAbestEffort"%string
          else ret_early (exception_variant InvalidTransportationTypeHandle (D_int raw)));
  mret (GetTransportationTypeNameResponse name).

Lemma run_eq (h : Handler Resp) s s' r : wp h (λ r' s'', s'' = s' ∧ r' = r) (λ r' s'', s'' = s' ∧ r' = r) s → run h s = (s', r).
Proof. intros H. apply run_wp_let in H. destruct (run h s). by destruct H as [-> ->]. Qed.

(** ** Properties *)

(** Class names and handles translate back and forth.  For a member of a
    federation with a well-formed FOM whose handles fit the wire format,
    asking for the handle of an object class the FOM names succeeds, asking for
    the name of that handle gives the name back, and neither call changes
    anything. *)
Theorem class_lookup_roundtrip s m fed name h :
  membership (ds_ctx s) = Some m → at_fed m s fed → FomWf (fed_fom fed) → u_in 32 (och_raw h) →
  object_class_handle (fed_fom fed) name = Some h →
  run (get_object_class_handle name) s = (s, GetObjectClassHandleResponse (Some (encode_object_class h))) ∧
  run (get_object_class_name (encode_object_class h)) s = (s, GetObjectClassNameResponse name).
Proof.
  intros Hm Hfed Hwf Hr Hn. pose proof (federation_of_heap m s fed Hfed) as Hf.
  destruct (fom_object_handle name h Hn) as (d & Hd & <-).
  assert (Hdec : decode_object_class (encode_object_class h) = Ok h) by (by apply wire_roundtrip).
  split; apply run_eq.
  - unfold get_object_class_handle. wp_det. rewrite Hf. eapply wp_some_eq; [exact Hn|]. by wp_det.
  - unfold get_object_class_name, decoded. wp_det. rewrite Hf. eapply wp_some_eq; [exact Hd|]. by wp_det.
Qed.

Lemma class_lookup_witness :
  run (get_object_class_name demo_class) (demo_state 1 demo_federation) =
    (demo_state 1 demo_federation, GetObjectClassNameResponse "HLAobjectRoot").
Proof.
  apply (class_lookup_roundtrip (demo_state 1 demo_federation) (mkMembership 1%positive (FederateHandle_new 1) "f")
    demo_federation "HLAobjectRoot" (ObjectClassHandle_new 1) eq_refl eq_refl demo_fom_wf);
    [unfold u_in; simpl; lia|reflexivity].
Defined.
