(* ===== verification/Dispatch.v ===== *)
(** * The dispatcher

    [dispatch_call] of [dispatch/mod.rs]: one arm per request of the FedPro
    protocol.  A request carries the fields its arm uses and
    those the federate library sets; [CallRequest]
    without a variant is [None]. *)

From stdpp Require Import pretty.
From S2P Require Import Prelude Float64 CoreTypes Fom Merge Exception Proto State Subscription.
From S2P Require Import Handles Routing TimeCoord Handler Tso TimeMgmt Declaration Ddm ObjectMgmt.
From S2P Require Import DataFlow Ownership SyncPoints FederationMgmt Persistence SaveRestore.
From S2P Require Import Advisories Lookup.

Inductive Req :=
| CreateFederationExecutionRequest (federation_name : string) (fom_module : option (option ProtoFomModule))
| CreateFederationExecutionWithTimeRequest (federation_name : string) (fom_module : option (option ProtoFomModule))
| CreateFederationExecutionWithModulesAndTimeRequest (federation_name : string) (fom_modules : option (list (option ProtoFomModule)))
| CreateFederationExecutionWithMimRequest (federation_name : string) (fom_modules : option (list (option ProtoFomModule))) (mim_module : option (option ProtoFomModule))
| CreateFederationExecutionWithMimAndTimeRequest (federation_name : string) (fom_modules : option (list (option ProtoFomModule))) (mim_module : option (option ProtoFomModule))
| CreateFederationExecutionWithModulesRequest (federation_name : string) (fom_modules : option (list (option ProtoFomModule)))
| DestroyFederationExecutionRequest (federation_name : string)
| GetObjectClassRelevanceAdvisorySwitchRequest
| SetObjectClassRelevanceAdvisorySwitchRequest (value : bool)
| GetAttributeRelevanceAdvisorySwitchRequest
| SetAttributeRelevanceAdvisorySwitchRequest (value : bool)
| GetAttributeScopeAdvisorySwitchRequest
| SetAttributeScopeAdvisorySwitchRequest (value : bool)
| GetInteractionRelevanceAdvisorySwitchRequest
| SetInteractionRelevanceAdvisorySwitchRequest (value : bool)
| GetConveyRegionDesignatorSetsSwitchRequest
| SetConveyRegionDesignatorSetsSwitchRequest (value : bool)
| GetServiceReportingSwitchRequest
| SetServiceReportingSwitchRequest (value : bool)
| GetExceptionReportingSwitchRequest
| SetExceptionReportingSwitchRequest (value : bool)
| GetSendServiceReportsToFileSwitchRequest
| SetSendServiceReportsToFileSwitchRequest (value : bool)
| GetAutoProvideSwitchRequest
| GetDelaySubscriptionEvaluationSwitchRequest
| GetAdvisoriesUseKnownClassSwitchRequest
| GetAllowRelaxedDdmSwitchRequest
| GetNonRegulatedGrantSwitchRequest
| GetAutomaticResignDirectiveRequest
| SetAutomaticResignDirectiveRequest (value : Z)
| ConnectRequest
| ConnectWithCredentialsRequest
| ConnectWithConfigurationRequest
| ConnectWithConfigurationAndCredentialsRequest
| DisconnectRequest
| GetObjectInstanceHandleRequest (object_instance_name : string)
| GetObjectInstanceNameRequest (object_instance : option ProtoHandle)
| GetKnownObjectClassHandleRequest (object_instance : option ProtoHandle)
| LocalDeleteObjectInstanceRequest (object_instance : option ProtoHandle)
| GetDimensionHandleRequest (dimension_name : string)
| GetDimensionNameRequest (dimension : option ProtoHandle)
| GetDimensionUpperBoundRequest (dimension : option ProtoHandle)
| GetDimensionHandleSetRequest (region : option ProtoHandle)
| GetAvailableDimensionsForObjectClassRequest (object_class : option ProtoHandle)
| GetAvailableDimensionsForInteractionClassRequest (interaction_class : option ProtoHandle)
| GetFederateHandleRequest (federate_name : string)
| GetFederateNameRequest (federate : option ProtoHandle)
| GetOrderTypeRequest (order_type_name : string)
| GetOrderNameRequest (order_type : Z)
| GetTransportationTypeHandleRequest (transportation_type_name : string)
| GetTransportationTypeNameRequest (transportation_type : option ProtoHandle)
| ListFederationExecutionMembersRequest (federation_name : string)
| ListFederationExecutionsRequest
| JoinFederationExecutionRequest (federate_type : string) (federation_name : string)
| JoinFederationExecutionWithNameRequest (federate_name : string) (federate_type : string) (federation_name : string)
| JoinFederationExecutionWithModulesRequest (federation_name : string)
| JoinFederationExecutionWithNameAndModulesRequest (federate_name : string) (federation_name : string)
| ResignFederationExecutionRequest (resign_action : Z)
| GetObjectClassHandleRequest (object_class_name : string)
| GetObjectClassNameRequest (object_class : option ProtoHandle)
| GetAttributeHandleRequest (object_class : option ProtoHandle) (attribute_name : string)
| GetAttributeNameRequest (object_class : option ProtoHandle) (attribute : option ProtoHandle)
| GetInteractionClassHandleRequest (interaction_class_name : string)
| GetInteractionClassNameRequest (interaction_class : option ProtoHandle)
| GetParameterHandleRequest (interaction_class : option ProtoHandle) (parameter_name : string)
| GetParameterNameRequest (interaction_class : option ProtoHandle) (parameter : option ProtoHandle)
| PublishObjectClassAttributesRequest (object_class : option ProtoHandle) (attributes : option (list ProtoHandle))
| UnpublishObjectClassAttributesRequest (object_class : option ProtoHandle) (attributes : option (list ProtoHandle))
| SubscribeObjectClassAttributesRequest (object_class : option ProtoHandle) (attributes : option (list ProtoHandle))
| UnsubscribeObjectClassAttributesRequest (object_class : option ProtoHandle) (attributes : option (list ProtoHandle))
| PublishInteractionClassRequest (interaction_class : option ProtoHandle)
| UnpublishInteractionClassRequest (interaction_class : option ProtoHandle)
| SubscribeInteractionClassRequest (interaction_class : option ProtoHandle)
| UnsubscribeInteractionClassRequest (interaction_class : option ProtoHandle)
| RegisterObjectInstanceRequest (object_class : option ProtoHandle)
| RegisterObjectInstanceWithNameRequest (object_class : option ProtoHandle) (object_instance_name : string)
| UpdateAttributeValuesRequest (object_instance : option ProtoHandle) (attribute_values : option ProtoValueMap) (tag : list byte)
| SendInteractionRequest (interaction_class : option ProtoHandle) (parameter_values : option ProtoValueMap) (tag : list byte)
| DeleteObjectInstanceRequest (object_instance : option ProtoHandle) (tag : list byte)
| UpdateAttributeValuesWithTimeRequest (object_instance : option ProtoHandle) (attribute_values : option ProtoValueMap) (tag : list byte) (time : option ProtoTime)
| SendInteractionWithTimeRequest (interaction_class : option ProtoHandle) (parameter_values : option ProtoValueMap) (tag : list byte) (time : option ProtoTime)
| DeleteObjectInstanceWithTimeRequest (object_instance : option ProtoHandle) (tag : list byte) (time : option ProtoTime)
| IsAttributeOwnedByFederateRequest (object_instance : option ProtoHandle) (attribute : option ProtoHandle)
| QueryAttributeOwnershipRequest (object_instance : option ProtoHandle) (attributes : option (list ProtoHandle))
| UnconditionalAttributeOwnershipDivestitureRequest (object_instance : option ProtoHandle) (attributes : option (list ProtoHandle)) (tag : list byte)
| AttributeOwnershipAcquisitionRequest (object_instance : option ProtoHandle) (desired_attributes : option (list ProtoHandle)) (tag : list byte)
| NegotiatedAttributeOwnershipDivestitureRequest (object_instance : option ProtoHandle) (attributes : option (list ProtoHandle)) (tag : list byte)
| AttributeOwnershipReleaseDeniedRequest
| AttributeOwnershipDivestitureIfWantedRequest (object_instance : option ProtoHandle) (attributes : option (list ProtoHandle)) (tag : list byte)
| CancelNegotiatedAttributeOwnershipDivestitureRequest
| CancelAttributeOwnershipAcquisitionRequest
| ConfirmDivestitureRequest
| AttributeOwnershipAcquisitionIfAvailableRequest (object_instance : option ProtoHandle) (desired_attributes : option (list ProtoHandle)) (tag : list byte)
| RequestFederationSaveRequest (label : string)
| FederateSaveBegunRequest
| FederateSaveCompleteRequest
| FederateSaveNotCompleteRequest
| AbortFederationSaveRequest
| RequestFederationSaveWithTimeRequest (label : string)
| QueryFederationSaveStatusRequest
| QueryFederationRestoreStatusRequest
| RequestFederationRestoreRequest (label : string)
| FederateRestoreCompleteRequest
| FederateRestoreNotCompleteRequest
| AbortFederationRestoreRequest
| RegisterFederationSynchronizationPointRequest (label : string) (tag : list byte)
| RegisterFederationSynchronizationPointWithSetRequest (label : string) (tag : list byte) (synchronization_set : option (list ProtoHandle))
| SynchronizationPointAchievedRequest (label : string) (successfully : bool)
| CreateRegionRequest (dimensions : option (list ProtoHandle))
| CommitRegionModificationsRequest (regions_ : option (list ProtoHandle))
| DeleteRegionRequest (region : option ProtoHandle)
| GetRangeBoundsRequest (region : option ProtoHandle) (dimension : option ProtoHandle)
| SetRangeBoundsRequest (region : option ProtoHandle) (dimension : option ProtoHandle) (range_bounds : option ProtoRangeBounds)
| SubscribeObjectClassAttributesWithRegionsRequest (object_class : option ProtoHandle) (pairs : option (list ProtoAttrRegionPair))
| UnsubscribeObjectClassAttributesWithRegionsRequest (object_class : option ProtoHandle) (pairs : option (list ProtoAttrRegionPair))
| SubscribeInteractionClassWithRegionsRequest
| UnsubscribeInteractionClassWithRegionsRequest
| SendInteractionWithRegionsRequest (interaction_class : option ProtoHandle) (parameter_values : option ProtoValueMap) (tag : list byte)
| RegisterObjectInstanceWithRegionsRequest (object_class : option ProtoHandle) (pairs : option (list ProtoAttrRegionPair))
| EnableTimeRegulationRequest (lookahead_ : option ProtoTime)
| DisableTimeRegulationRequest
| EnableTimeConstrainedRequest
| DisableTimeConstrainedRequest
| TimeAdvanceRequestRequest (time : option ProtoTime)
| NextMessageRequestRequest (time : option ProtoTime)
| QueryLogicalTimeRequest
| QueryLookaheadRequest
| ModifyLookaheadRequest (lookahead_ : option ProtoTime)
| QueryLitsRequest
| RetractRequest
| ChangeAttributeOrderTypeRequest
| ChangeDefaultAttributeOrderTypeRequest
| ChangeInteractionOrderTypeRequest
| RequestAttributeTransportationTypeChangeRequest
| QueryAttributeTransportationTypeRequest
| RequestInteractionTransportationTypeChangeRequest
| QueryInteractionTransportationTypeRequest
| NormalizeServiceGroupRequest (service_group : Z)
| NormalizeFederateHandleRequest (federate : option ProtoHandle)
| NormalizeObjectClassHandleRequest (object_class : option ProtoHandle)
| NormalizeInteractionClassHandleRequest (interaction_class : option ProtoHandle)
| NormalizeObjectInstanceHandleRequest (object_instance : option ProtoHandle)
| GetUpdateRateValueRequest
| GetUpdateRateValueForAttributeRequest
| RequestAttributeValueUpdateWithRegionsRequest
| SubscribeObjectClassAttributesWithRateRequest (object_class : option ProtoHandle) (attributes : option (list ProtoHandle))
| SubscribeObjectClassAttributesPassivelyRequest (object_class : option ProtoHandle) (attributes : option (list ProtoHandle))
| SubscribeObjectClassAttributesPassivelyWithRateRequest (object_class : option ProtoHandle) (attributes : option (list ProtoHandle))
| SubscribeInteractionClassPassivelyRequest (interaction_class : option ProtoHandle)
| SubscribeObjectClassAttributesWithRegionsAndRateRequest
| SendInteractionWithRegionsAndTimeRequest (interaction_class : option ProtoHandle) (parameter_values : option ProtoValueMap) (tag : list byte) (time : option ProtoTime)
| RegisterObjectInstanceWithNameAndRegionsRequest (object_class : option ProtoHandle) (object_instance_name : string) (pairs : option (list ProtoAttrRegionPair))
| AssociateRegionsForUpdatesRequest
| UnassociateRegionsForUpdatesRequest
| UnpublishObjectClassRequest (object_class : option ProtoHandle)
| UnsubscribeObjectClassRequest (object_class : option ProtoHandle)
| ReserveObjectInstanceNameRequest
| ReserveMultipleObjectInstanceNamesRequest
| ReleaseObjectInstanceNameRequest
| ReleaseMultipleObjectInstanceNamesRequest
| RequestClassAttributeValueUpdateRequest
| RequestInstanceAttributeValueUpdateRequest
| EnableAsynchronousDeliveryRequest
| DisableAsynchronousDeliveryRequest
| TimeAdvanceRequestAvailableRequest (time : option ProtoTime)
| NextMessageRequestAvailableRequest (time : option ProtoTime)
| FlushQueueRequestRequest (time : option ProtoTime)
| QueryGaltRequest
| PublishObjectClassDirectedInteractionsRequest (object_class : option ProtoHandle) (interaction_classes_ : option (list ProtoHandle))
| UnpublishObjectClassDirectedInteractionsRequest (object_class : option ProtoHandle)
| UnpublishObjectClassDirectedInteractionsWithSetRequest (object_class : option ProtoHandle) (interaction_classes_ : option (list ProtoHandle))
| SubscribeObjectClassDirectedInteractionsRequest (object_class : option ProtoHandle) (interaction_classes_ : option (list ProtoHandle))
| SubscribeObjectClassDirectedInteractionsUniversallyRequest (object_class : option ProtoHandle) (interaction_classes_ : option (list ProtoHandle))
| UnsubscribeObjectClassDirectedInteractionsRequest (object_class : option ProtoHandle)
| UnsubscribeObjectClassDirectedInteractionsWithSetRequest (object_class : option ProtoHandle) (interaction_classes_ : option (list ProtoHandle))
| SendDirectedInteractionRequest (interaction_class : option ProtoHandle) (object_instance : option ProtoHandle) (parameter_values : option ProtoValueMap) (tag : list byte)
| SendDirectedInteractionWithTimeRequest
| ChangeDefaultAttributeTransportationTypeRequest.

Section dispatch.
Context {P : Prost} {X : QuickXml} {J : Serde} {O : Os}.

(** [Option::into_iter().collect()] *)
Definition option_list {A} (o : option A) : list A := match o with Some a => [a] | None => [] end.

(** [h.filter(|h| h.data.len() == n).map(from_be_bytes).unwrap_or(0)] *)
Definition normalize (n : nat) (h : option ProtoHandle) : Z :=
  match h with Some p => if (length p =? n)%nat then from_be_bytes p else 0 | None => 0 end.

Definition query_galt : Handler Resp :=
  m ← get_membership;
  fed ← get_federation m;
  let b := lbts fed in
  mret (QueryGaltResponse (Some {| logical_time_is_valid := is_finite b;
    logical_time := Some (encode_logical_time (if is_finite b then b else f64_ZERO)) |})).

(** The arms follow the sections of the source, the last section first. *)

(** Directed interactions, and the catch-all. *)
Definition dispatch_directed (variant : Req) : Handler Resp :=
  match variant with
  | PublishObjectClassDirectedInteractionsRequest object_class interaction_classes_ =>
      publish_object_class_directed_interactions object_class interaction_classes_
  | UnpublishObjectClassDirectedInteractionsRequest object_class =>
      unpublish_object_class_directed_interactions object_class None
  | UnpublishObjectClassDirectedInteractionsWithSetRequest object_class interaction_classes_ =>
      unpublish_object_class_directed_interactions object_class interaction_classes_
  | SubscribeObjectClassDirectedInteractionsRequest object_class interaction_classes_ =>
      subscribe_object_class_directed_interactions object_class interaction_classes_
  | SubscribeObjectClassDirectedInteractionsUniversallyRequest object_class interaction_classes_ =>
      subscribe_object_class_directed_interactions object_class interaction_classes_
  | UnsubscribeObjectClassDirectedInteractionsRequest object_class =>
      unsubscribe_object_class_directed_interactions object_class None
  | UnsubscribeObjectClassDirectedInteractionsWithSetRequest object_class interaction_classes_ =>
      unsubscribe_object_class_directed_interactions object_class interaction_classes_
  | SendDirectedInteractionRequest interaction_class object_instance parameter_values tag =>
      send_directed_interaction interaction_class object_instance parameter_values tag
  | SendDirectedInteractionWithTimeRequest =>
      mret (SendDirectedInteractionWithTimeResponse None)
  | ChangeDefaultAttributeTransportationTypeRequest =>
      mret ChangeDefaultAttributeTransportationTypeResponse
  | _ => mret (exception_variant RtiInternalError "service not yet implemented")
  end.

(** Name reservation, value requests, delivery mode and the variants of the time advance. *)
Definition dispatch_reservation (variant : Req) : Handler Resp :=
  match variant with
  | ReserveObjectInstanceNameRequest =>
      mret ReserveObjectInstanceNameResponse
  | ReserveMultipleObjectInstanceNamesRequest =>
      mret ReserveMultipleObjectInstanceNamesResponse
  | ReleaseObjectInstanceNameRequest =>
      mret ReleaseObjectInstanceNameResponse
  | ReleaseMultipleObjectInstanceNamesRequest =>
      mret ReleaseMultipleObjectInstanceNamesResponse
  | RequestClassAttributeValueUpdateRequest =>
      mret RequestClassAttributeValueUpdateResponse
  | RequestInstanceAttributeValueUpdateRequest =>
      mret RequestInstanceAttributeValueUpdateResponse
  | EnableAsynchronousDeliveryRequest =>
      mret EnableAsynchronousDeliveryResponse
  | DisableAsynchronousDeliveryRequest =>
      mret DisableAsynchronousDeliveryResponse
  | TimeAdvanceRequestAvailableRequest time =>
      time_advance_request time
  | NextMessageRequestAvailableRequest time =>
      time_advance_request time
  | FlushQueueRequestRequest time =>
      time_advance_request time
  | QueryGaltRequest =>
      query_galt
  | _ => dispatch_directed variant
  end.

(** Update rates, passive and region variants, unpublish and unsubscribe of whole classes. *)
Definition dispatch_variants (variant : Req) : Handler Resp :=
  match variant with
  | GetUpdateRateValueRequest =>
      mret (GetUpdateRateValueResponse f64_ZERO)
  | GetUpdateRateValueForAttributeRequest =>
      mret (GetUpdateRateValueForAttributeResponse f64_ZERO)
  | RequestAttributeValueUpdateWithRegionsRequest =>
      mret RequestAttributeValueUpdateWithRegionsResponse
  | SubscribeObjectClassAttributesWithRateRequest object_class attributes =>
      subscribe_object_class_attributes_inner object_class attributes true
  | SubscribeObjectClassAttributesPassivelyRequest object_class attributes =>
      subscribe_object_class_attributes_inner object_class attributes true
  | SubscribeObjectClassAttributesPassivelyWithRateRequest object_class attributes =>
      subscribe_object_class_attributes_inner object_class attributes true
  | SubscribeInteractionClassPassivelyRequest interaction_class =>
      subscribe_interaction_class_inner interaction_class true
  | SubscribeObjectClassAttributesWithRegionsAndRateRequest =>
      mret SubscribeObjectClassAttributesWithRegionsAndRateResponse
  | SendInteractionWithRegionsAndTimeRequest interaction_class parameter_values tag time =>
      send_interaction_with_time interaction_class parameter_values tag time
  | RegisterObjectInstanceWithNameAndRegionsRequest object_class object_instance_name pairs =>
      register_object_instance_with_name_and_regions_call object_class object_instance_name pairs
  | AssociateRegionsForUpdatesRequest =>
      mret AssociateRegionsForUpdatesResponse
  | UnassociateRegionsForUpdatesRequest =>
      mret UnassociateRegionsForUpdatesResponse
  | UnpublishObjectClassRequest object_class =>
      unpublish_object_class object_class
  | UnsubscribeObjectClassRequest object_class =>
      unsubscribe_object_class object_class
  | _ => dispatch_reservation variant
  end.

(** Time management, order and transportation changes, normalization. *)
Definition dispatch_time (variant : Req) : Handler Resp :=
  match variant with
  | EnableTimeRegulationRequest lookahead_ =>
      enable_time_regulation lookahead_
  | DisableTimeRegulationRequest =>
      disable_time_regulation
  | EnableTimeConstrainedRequest =>
      enable_time_constrained
  | DisableTimeConstrainedRequest =>
      disable_time_constrained
  | TimeAdvanceRequestRequest time =>
      time_advance_request time
  | NextMessageRequestRequest time =>
      time_advance_request time
  | QueryLogicalTimeRequest =>
      query_logical_time
  | QueryLookaheadRequest =>
      query_lookahead
  | ModifyLookaheadRequest lookahead_ =>
      modify_lookahead lookahead_
  | QueryLitsRequest =>
      query_lits
  | RetractRequest =>
      mret RetractResponse
  | ChangeAttributeOrderTypeRequest =>
      mret ChangeAttributeOrderTypeResponse
  | ChangeDefaultAttributeOrderTypeRequest =>
      mret ChangeDefaultAttributeOrderTypeResponse
  | ChangeInteractionOrderTypeRequest =>
      mret ChangeInteractionOrderTypeResponse
  | RequestAttributeTransportationTypeChangeRequest =>
      mret RequestAttributeTransportationTypeChangeResponse
  | QueryAttributeTransportationTypeRequest =>
      mret QueryAttributeTransportationTypeResponse
  | RequestInteractionTransportationTypeChangeRequest =>
      mret RequestInteractionTransportationTypeChangeResponse
  | QueryInteractionTransportationTypeRequest =>
      mret QueryInteractionTransportationTypeResponse
  | NormalizeServiceGroupRequest service_group =>
      mret (NormalizeServiceGroupResponse (wrap_u 32 service_group))
  | NormalizeFederateHandleRequest federate =>
      mret (NormalizeFederateHandleResponse (normalize 4 federate))
  | NormalizeObjectClassHandleRequest object_class =>
      mret (NormalizeObjectClassHandleResponse (normalize 4 object_class))
  | NormalizeInteractionClassHandleRequest interaction_class =>
      mret (NormalizeInteractionClassHandleResponse (normalize 4 interaction_class))
  | NormalizeObjectInstanceHandleRequest object_instance =>
      mret (NormalizeObjectInstanceHandleResponse (wrap_u 32 (normalize 8 object_instance)))
  | _ => dispatch_variants variant
  end.

(** Data distribution management. *)
Definition dispatch_ddm (variant : Req) : Handler Resp :=
  match variant with
  | CreateRegionRequest dimensions =>
      create_region dimensions
  | CommitRegionModificationsRequest regions_ =>
      commit_region_modifications regions_
  | DeleteRegionRequest region =>
      delete_region region
  | GetRangeBoundsRequest region dimension =>
      get_range_bounds region dimension
  | SetRangeBoundsRequest region dimension range_bounds =>
      set_range_bounds region dimension range_bounds
  | SubscribeObjectClassAttributesWithRegionsRequest object_class pairs =>
      subscribe_object_class_attributes_with_regions object_class pairs
  | UnsubscribeObjectClassAttributesWithRegionsRequest object_class pairs =>
      unsubscribe_object_class_attributes_with_regions object_class pairs
  | SubscribeInteractionClassWithRegionsRequest =>
      mret SubscribeInteractionClassWithRegionsResponse
  | UnsubscribeInteractionClassWithRegionsRequest =>
      mret UnsubscribeInteractionClassWithRegionsResponse
  | SendInteractionWithRegionsRequest interaction_class parameter_values tag =>
      send_interaction interaction_class parameter_values tag
  | RegisterObjectInstanceWithRegionsRequest object_class pairs =>
      register_object_instance_with_regions_call object_class pairs
  | _ => dispatch_time variant
  end.

(** Save, restore and synchronization points. *)
Definition dispatch_save_restore_sync (variant : Req) : Handler Resp :=
  match variant with
  | RequestFederationSaveRequest label =>
      request_federation_save label
  | FederateSaveBegunRequest =>
      federate_save_begun
  | FederateSaveCompleteRequest =>
      federate_save_progressed true
  | FederateSaveNotCompleteRequest =>
      federate_save_progressed false
  | AbortFederationSaveRequest =>
      abort_federation_save
  | RequestFederationSaveWithTimeRequest label =>
      request_federation_save label
  | QueryFederationSaveStatusRequest =>
      mret QueryFederationSaveStatusResponse
  | QueryFederationRestoreStatusRequest =>
      mret QueryFederationRestoreStatusResponse
  | RequestFederationRestoreRequest label =>
      request_federation_restore label
  | FederateRestoreCompleteRequest =>
      federate_restore_progressed true
  | FederateRestoreNotCompleteRequest =>
      federate_restore_progressed false
  | AbortFederationRestoreRequest =>
      abort_federation_restore
  | RegisterFederationSynchronizationPointRequest label tag =>
      register_synchronization_point_call label tag
  | RegisterFederationSynchronizationPointWithSetRequest label tag synchronization_set =>
      register_synchronization_point_with_set_call label tag synchronization_set
  | SynchronizationPointAchievedRequest label successfully =>
      synchronization_point_achieved label successfully
  | _ => dispatch_ddm variant
  end.

(** Ownership management. *)
Definition dispatch_ownership (variant : Req) : Handler Resp :=
  match variant with
  | IsAttributeOwnedByFederateRequest object_instance attribute =>
      is_attribute_owned_by_federate object_instance attribute
  | QueryAttributeOwnershipRequest object_instance attributes =>
      query_attribute_ownership object_instance attributes
  | UnconditionalAttributeOwnershipDivestitureRequest object_instance attributes tag =>
      unconditional_attribute_ownership_divestiture object_instance attributes tag
  | AttributeOwnershipAcquisitionRequest object_instance desired_attributes tag =>
      attribute_ownership_acquisition_if_available object_instance desired_attributes tag
  | NegotiatedAttributeOwnershipDivestitureRequest object_instance attributes tag =>
      unconditional_attribute_ownership_divestiture object_instance attributes tag
  | AttributeOwnershipReleaseDeniedRequest =>
      mret AttributeOwnershipReleaseDeniedResponse
  | AttributeOwnershipDivestitureIfWantedRequest object_instance attributes tag =>
      unconditional_attribute_ownership_divestiture object_instance attributes tag
  | CancelNegotiatedAttributeOwnershipDivestitureRequest =>
      mret CancelNegotiatedAttributeOwnershipDivestitureResponse
  | CancelAttributeOwnershipAcquisitionRequest =>
      mret CancelAttributeOwnershipAcquisitionResponse
  | ConfirmDivestitureRequest =>
      mret ConfirmDivestitureResponse
  | AttributeOwnershipAcquisitionIfAvailableRequest object_instance desired_attributes tag =>
      attribute_ownership_acquisition_if_available object_instance desired_attributes tag
  | _ => dispatch_save_restore_sync variant
  end.

(** Object management. *)
Definition dispatch_objects (variant : Req) : Handler Resp :=
  match variant with
  | RegisterObjectInstanceRequest object_class =>
      register_object_instance_call object_class
  | RegisterObjectInstanceWithNameRequest object_class object_instance_name =>
      register_object_instance_with_name_call object_class object_instance_name
  | UpdateAttributeValuesRequest object_instance attribute_values tag =>
      update_attribute_values object_instance attribute_values tag
  | SendInteractionRequest interaction_class parameter_values tag =>
      send_interaction interaction_class parameter_values tag
  | DeleteObjectInstanceRequest object_instance tag =>
      delete_object_instance object_instance tag
  | UpdateAttributeValuesWithTimeRequest object_instance attribute_values tag time =>
      update_attribute_values_with_time object_instance attribute_values tag time
  | SendInteractionWithTimeRequest interaction_class parameter_values tag time =>
      send_interaction_with_time interaction_class parameter_values tag time
  | DeleteObjectInstanceWithTimeRequest object_instance tag time =>
      delete_object_instance_with_time object_instance tag time
  | _ => dispatch_ownership variant
  end.

(** Handle lookup and declaration management. *)
Definition dispatch_declaration (variant : Req) : Handler Resp :=
  match variant with
  | GetObjectClassHandleRequest object_class_name =>
      get_object_class_handle object_class_name
  | GetObjectClassNameRequest object_class =>
      match object_class with Some h => get_object_class_name h | None => mret (exception_variant InvalidObjectClassHandle "missing handle") end
  | GetAttributeHandleRequest object_class attribute_name =>
      match object_class with Some h => get_attribute_handle h attribute_name | None => mret (exception_variant InvalidObjectClassHandle "missing handle") end
  | GetAttributeNameRequest object_class attribute =>
      match object_class, attribute with Some c, Some a => get_attribute_name c a | _, _ => mret (exception_variant InvalidObjectClassHandle "missing handle(s)") end
  | GetInteractionClassHandleRequest interaction_class_name =>
      get_interaction_class_handle interaction_class_name
  | GetInteractionClassNameRequest interaction_class =>
      match interaction_class with Some h => get_interaction_class_name h | None => mret (exception_variant InvalidInteractionClassHandle "missing handle") end
  | GetParameterHandleRequest interaction_class parameter_name =>
      match interaction_class with Some h => get_parameter_handle h parameter_name | None => mret (exception_variant InvalidInteractionClassHandle "missing handle") end
  | GetParameterNameRequest interaction_class parameter =>
      match interaction_class, parameter with Some c, Some a => get_parameter_name c a | _, _ => mret (exception_variant InvalidInteractionClassHandle "missing handle(s)") end
  | PublishObjectClassAttributesRequest object_class attributes =>
      publish_object_class_attributes object_class attributes
  | UnpublishObjectClassAttributesRequest object_class attributes =>
      unpublish_object_class_attributes object_class attributes
  | SubscribeObjectClassAttributesRequest object_class attributes =>
      subscribe_object_class_attributes_inner object_class attributes true
  | UnsubscribeObjectClassAttributesRequest object_class attributes =>
      unsubscribe_object_class_attributes_inner object_class attributes true
  | PublishInteractionClassRequest interaction_class =>
      publish_interaction_class interaction_class
  | UnpublishInteractionClassRequest interaction_class =>
      unpublish_interaction_class interaction_class
  | SubscribeInteractionClassRequest interaction_class =>
      subscribe_interaction_class_inner interaction_class true
  | UnsubscribeInteractionClassRequest interaction_class =>
      unsubscribe_interaction_class_inner interaction_class true
  | _ => dispatch_objects variant
  end.

(** Connect, instance and dimension lookup, introspection, reports, join and resign. *)
Definition dispatch_session_and_introspection (variant : Req) : Handler Resp :=
  match variant with
  | ConnectRequest =>
      mret (ConnectResponse None)
  | ConnectWithCredentialsRequest =>
      mret (ConnectWithCredentialsResponse None)
  | ConnectWithConfigurationRequest =>
      mret (ConnectWithConfigurationResponse None)
  | ConnectWithConfigurationAndCredentialsRequest =>
      mret (ConnectWithConfigurationAndCredentialsResponse None)
  | DisconnectRequest =>
      mret DisconnectResponse
  | GetObjectInstanceHandleRequest object_instance_name =>
      get_object_instance_handle object_instance_name
  | GetObjectInstanceNameRequest object_instance =>
      get_object_instance_name object_instance
  | GetKnownObjectClassHandleRequest object_instance =>
      get_known_object_class_handle object_instance
  | LocalDeleteObjectInstanceRequest object_instance =>
      local_delete_object_instance object_instance
  | GetDimensionHandleRequest dimension_name =>
      get_dimension_handle dimension_name
  | GetDimensionNameRequest dimension =>
      get_dimension_name dimension
  | GetDimensionUpperBoundRequest dimension =>
      get_dimension_upper_bound dimension
  | GetDimensionHandleSetRequest region =>
      get_dimension_handle_set region
  | GetAvailableDimensionsForObjectClassRequest object_class =>
      get_available_dimensions_for_object_class object_class
  | GetAvailableDimensionsForInteractionClassRequest interaction_class =>
      get_available_dimensions_for_interaction_class interaction_class
  | GetFederateHandleRequest federate_name =>
      get_federate_handle federate_name
  | GetFederateNameRequest federate =>
      match federate with Some h => get_federate_name h | None => mret (exception_variant InvalidFederateHandle "") end
  | GetOrderTypeRequest order_type_name =>
      get_order_type order_type_name
  | GetOrderNameRequest order_type =>
      get_order_name order_type
  | GetTransportationTypeHandleRequest transportation_type_name =>
      get_transportation_type_handle transportation_type_name
  | GetTransportationTypeNameRequest transportation_type =>
      match transportation_type with Some h => get_transportation_type_name h | None => mret (exception_variant InvalidTransportationTypeHandle "") end
  | ListFederationExecutionMembersRequest federation_name =>
      list_federation_execution_members federation_name
  | ListFederationExecutionsRequest =>
      list_federation_executions
  | JoinFederationExecutionRequest _ federation_name =>
      join_call None federation_name JoinFederationExecutionResponse
  | JoinFederationExecutionWithNameRequest federate_name _ federation_name =>
      join_call (Some federate_name) federation_name JoinFederationExecutionWithNameResponse
  | JoinFederationExecutionWithModulesRequest federation_name =>
      join_call None federation_name JoinFederationExecutionWithModulesResponse
  | JoinFederationExecutionWithNameAndModulesRequest federate_name federation_name =>
      join_call (Some federate_name) federation_name JoinFederationExecutionWithNameAndModulesResponse
  | ResignFederationExecutionRequest _ =>
      resign
  | _ => dispatch_declaration variant
  end.

(** Reporting switches. *)
Definition dispatch_reporting_switches (variant : Req) : Handler Resp :=
  match variant with
  | GetSendServiceReportsToFileSwitchRequest =>
      get_switch_bool send_service_reports_to_file GetSendServiceReportsToFileSwitchResponse
  | SetSendServiceReportsToFileSwitchRequest value =>
      set_switch_bool value set_send_service_reports_to_file SetSendServiceReportsToFileSwitchResponse
  | GetAutoProvideSwitchRequest =>
      get_switch_bool auto_provide GetAutoProvideSwitchResponse
  | GetDelaySubscriptionEvaluationSwitchRequest =>
      get_switch_bool delay_subscription_evaluation GetDelaySubscriptionEvaluationSwitchResponse
  | GetAdvisoriesUseKnownClassSwitchRequest =>
      get_switch_bool advisories_use_known_class GetAdvisoriesUseKnownClassSwitchResponse
  | GetAllowRelaxedDdmSwitchRequest =>
      get_switch_bool allow_relaxed_ddm GetAllowRelaxedDdmSwitchResponse
  | GetNonRegulatedGrantSwitchRequest =>
      get_switch_bool non_regulated_grant GetNonRegulatedGrantSwitchResponse
  | GetAutomaticResignDirectiveRequest =>
      get_automatic_resign_directive
  | SetAutomaticResignDirectiveRequest value =>
      set_automatic_resign_directive_call value
  | _ => dispatch_session_and_introspection variant
  end.

(** Advisory switches. *)
Definition dispatch_advisory_switches (variant : Req) : Handler Resp :=
  match variant with
  | GetObjectClassRelevanceAdvisorySwitchRequest =>
      get_switch_bool object_class_relevance_advisory GetObjectClassRelevanceAdvisorySwitchResponse
  | SetObjectClassRelevanceAdvisorySwitchRequest value =>
      set_switch_bool value set_object_class_relevance_advisory SetObjectClassRelevanceAdvisorySwitchResponse
  | GetAttributeRelevanceAdvisorySwitchRequest =>
      get_switch_bool attribute_relevance_advisory GetAttributeRelevanceAdvisorySwitchResponse
  | SetAttributeRelevanceAdvisorySwitchRequest value =>
      set_switch_bool value set_attribute_relevance_advisory SetAttributeRelevanceAdvisorySwitchResponse
  | GetAttributeScopeAdvisorySwitchRequest =>
      get_switch_bool attribute_scope_advisory GetAttributeScopeAdvisorySwitchResponse
  | SetAttributeScopeAdvisorySwitchRequest value =>
      set_switch_bool value set_attribute_scope_advisory SetAttributeScopeAdvisorySwitchResponse
  | GetInteractionRelevanceAdvisorySwitchRequest =>
      get_switch_bool interaction_relevance_advisory GetInteractionRelevanceAdvisorySwitchResponse
  | SetInteractionRelevanceAdvisorySwitchRequest value =>
      set_switch_bool value set_interaction_relevance_advisory SetInteractionRelevanceAdvisorySwitchResponse
  | GetConveyRegionDesignatorSetsSwitchRequest =>
      get_switch_bool convey_region_designator_sets GetConveyRegionDesignatorSetsSwitchResponse
  | SetConveyRegionDesignatorSetsSwitchRequest value =>
      set_switch_bool value set_convey_region_designator_sets SetConveyRegionDesignatorSetsSwitchResponse
  | GetServiceReportingSwitchRequest =>
      get_switch_bool service_reporting GetServiceReportingSwitchResponse
  | SetServiceReportingSwitchRequest value =>
      set_switch_bool value set_service_reporting SetServiceReportingSwitchResponse
  | GetExceptionReportingSwitchRequest =>
      get_switch_bool exception_reporting GetExceptionReportingSwitchResponse
  | SetExceptionReportingSwitchRequest value =>
      set_switch_bool value set_exception_reporting SetExceptionReportingSwitchResponse
  | _ => dispatch_reporting_switches variant
  end.

(** Federation management. *)
Definition dispatch_variant (variant : Req) : Handler Resp :=
  match variant with
  | CreateFederationExecutionRequest federation_name fom_module =>
      create_federation_call federation_name (option_list fom_module) CreateFederationExecutionResponse
  | CreateFederationExecutionWithTimeRequest federation_name fom_module =>
      create_federation_call federation_name (option_list fom_module) CreateFederationExecutionWithTimeResponse
  | CreateFederationExecutionWithModulesAndTimeRequest federation_name fom_modules =>
      create_federation_call federation_name (default [] fom_modules) CreateFederationExecutionWithModulesAndTimeResponse
  | CreateFederationExecutionWithMimRequest federation_name fom_modules mim_module =>
      create_federation_call federation_name (default [] fom_modules ++ option_list mim_module) CreateFederationExecutionWithMimResponse
  | CreateFederationExecutionWithMimAndTimeRequest federation_name fom_modules mim_module =>
      create_federation_call federation_name (default [] fom_modules ++ option_list mim_module) CreateFederationExecutionWithMimAndTimeResponse
  | CreateFederationExecutionWithModulesRequest federation_name fom_modules =>
      create_federation_call federation_name (default [] fom_modules) CreateFederationExecutionWithModulesResponse
  | DestroyFederationExecutionRequest federation_name =>
      destroy_federation_execution federation_name
  | _ => dispatch_advisory_switches variant
  end.

Definition dispatch_call (request : option Req) : Handler Resp :=
  match request with
  | None => mret (exception_variant RtiInternalError "CallRequest envelope had no oneof variant set")
  | Some v => dispatch_variant v
  end.
End dispatch.

(** Reduce the dispatch of a known request to its arm. *)
Ltac arm :=
  cbn [dispatch_variant dispatch_advisory_switches dispatch_reporting_switches dispatch_session_and_introspection dispatch_declaration dispatch_objects dispatch_ownership dispatch_save_restore_sync dispatch_ddm dispatch_time dispatch_variants dispatch_reservation dispatch_directed].
