(* ===== verification/Isolation.v ===== *)
(** * What a call can reach

    Two properties of [dispatch_call] as a whole: a session that has not
    joined changes nothing but by create, destroy and join, and a call changes
    no federation but the caller's and the one it joins. *)

From S2P Require Import Prelude Float64 CoreTypes Fom Merge Exception Proto State Subscription.
From S2P Require Import Handles Routing TimeCoord Handler Tso TimeMgmt Declaration Ddm ObjectMgmt.
From S2P Require Import DataFlow Ownership SyncPoints FederationMgmt Persistence SaveRestore.
From S2P Require Import Advisories Lookup Dispatch.

(** The requests that change which federations exist and who is in them. *)
Definition membership_request (v : Req) : bool :=
  match v with
  | CreateFederationExecutionRequest _ _ | CreateFederationExecutionWithTimeRequest _ _
  | CreateFederationExecutionWithModulesAndTimeRequest _ _ | CreateFederationExecutionWithMimRequest _ _ _
  | CreateFederationExecutionWithMimAndTimeRequest _ _ _ | CreateFederationExecutionWithModulesRequest _ _
  | DestroyFederationExecutionRequest _
  | JoinFederationExecutionRequest _ _ | JoinFederationExecutionWithNameRequest _ _ _
  | JoinFederationExecutionWithModulesRequest _ | JoinFederationExecutionWithNameAndModulesRequest _ _
  | ResignFederationExecutionRequest _ => true
  | _ => false
  end.

(** The federation a request asks to join. *)
Definition join_target (v : Req) : option string :=
  match v with
  | JoinFederationExecutionRequest _ n | JoinFederationExecutionWithNameRequest _ _ n
  | JoinFederationExecutionWithModulesRequest n | JoinFederationExecutionWithNameAndModulesRequest _ n => Some n
  | _ => None
  end.

(** [stays s0 s]: between [s0] and [s], the session of [s0] has changed its
    own federation at most. *)
Definition stays (s0 s : DispatchState) : Prop :=
  match membership (ds_ctx s0) with
  | Some m => touches_only (m_federation m) s0 s
  | None => ds_node s = ds_node s0 ∧ ds_ctx s = ds_ctx s0 ∧ ds_disk s = ds_disk s0 ∧
            ds_callbacks s0 `prefix_of` ds_callbacks s
  end.

#[export] Instance stays_refl : Reflexive stays.
Proof. intros s. unfold stays. destruct (membership _); [reflexivity|done]. Qed.

Lemma stays_ctx s0 s : stays s0 s → ds_ctx s = ds_ctx s0.
Proof. unfold stays. destruct (membership _); [apply to_ctx|naive_solver]. Qed.

Lemma stays_member s0 s s' m :
  membership (ds_ctx s0) = Some m → stays s0 s → touches_only (m_federation m) s s' → stays s0 s'.
Proof. unfold stays. intros ->. by etransitivity. Qed.

Lemma stays_callbacks s0 s out :
  stays s0 s → ds_callbacks s `prefix_of` out → stays s0 (set_ds_callbacks (λ _, out) s).
Proof.
  unfold stays. destruct (membership _) as [m|].
  - intros Hs Ho. etransitivity; [done|]. split; [by destruct s as [[]]|done..].
  - intros (? & ? & ? & ?) Ho. split_and!; [done..|]. by etransitivity.
Qed.

Section local.
Context {P : Prost} (s0 : DispatchState) (Qr : Resp → DispatchState → Prop).

Lemma wp_membership_local Q s :
  stays s0 s → (∀ r, Qr r s) → (∀ m, membership (ds_ctx s0) = Some m → Q m s) →
  wp get_membership Qr Q s.
Proof.
  intros Hs Hr HQ. unfold get_membership. wp_run; [auto|]. apply HQ. by rewrite <-(stays_ctx _ _ Hs).
Qed.

Lemma wp_ctx_local Q s :
  stays s0 s → Q (membership (ds_ctx s0)) s → wp (gets (λ s, membership (ds_ctx s))) Qr Q s.
Proof. intros Hs HQ. apply wp_gets. by rewrite (stays_ctx _ _ Hs). Qed.

Lemma wp_callbacks_local Q s (t : DispatchState → list ConnRef) (cb : DispatchState → CallbackRequest) :
  stays s0 s → (∀ s', stays s0 s' → Q tt s') →
  wp (modify (λ s, set_ds_callbacks (λ out, fan_out out (t s) (cb s)) s)) Qr Q s.
Proof.
  intros Hs HQ. apply wp_modify, HQ. apply (stays_callbacks s0 s (fan_out _ _ _) Hs).
  rewrite fan_out_app. by apply prefix_app_r.
Qed.

Lemma wp_step_local {A} (h : Handler A) Q s m :
  membership (ds_ctx s0) = Some m → stays s0 s → Respects (touches_only (m_federation m)) h →
  (∀ s', stays s0 s' → (∀ r, Qr r s') ∧ (∀ a, Q a s')) → wp h Qr Q s.
Proof.
  intros Hm Hs Hh HQ. specialize (Hh s). apply (stays_member s0 s _ m Hm Hs), HQ in Hh as [Hr Ha].
  unfold wp. destruct (h s) as [s' [r|a]]; simpl in *; auto.
Qed.
End local.

Section touches.
Context {P : Prost} {J : Serde} {O : Os}.

Lemma fan_out_folds_prefix {A} (l : list A) (t : A → list ConnRef) (cb : A → CallbackRequest) out :
  out `prefix_of` foldl (λ out x, fan_out out (t x) (cb x)) out l.
Proof.
  revert out. induction l as [|x l IH]; intros out; [done|]. simpl.
  etransitivity; [|apply IH]. rewrite fan_out_app. by apply prefix_app_r.
Qed.

#[export] Instance initiate_restores_adds label l : AddsCallbacks (initiate_restores label l).
Proof. intros node fed out. apply fan_out_folds_prefix. Qed.
#[export] Instance fold_adds {A} (l : list A) (t : RtiNode → Federation → list ConnRef) (cb : A → CallbackRequest) :
  AddsCallbacks (λ node fed out, (fed, foldl (λ out x, fan_out out (t node fed) (cb x)) out l)).
Proof. intros node fed out. by apply (fan_out_folds_prefix l (λ _, t node fed)). Qed.
#[export] Instance registration_adds i c n p : AddsCallbacks (notify_subscribers_of_registration i c n p).
Proof.
  intros node fed out. unfold notify_subscribers_of_registration.
  destruct (mark_discovered _ _ _). case_decide; simpl; [done|]. rewrite fan_out_app. by apply prefix_app_r.
Qed.
#[export] Instance registration_subset_adds i c p cs :
  AddsCallbacks (notify_subscribers_of_registration_subset i c p cs).
Proof.
  intros node fed out. unfold notify_subscribers_of_registration_subset. case_decide; [done|].
  destruct (object_instances fed !! i); [|done].
  destruct (mark_discovered _ _ _). case_decide; simpl; [done|]. rewrite fan_out_app. by apply prefix_app_r.
Qed.

#[export] Instance commit_regions_touches m rhs :
  Respects (touches_only (m_federation m)) (commit_regions m rhs).
Proof.
  induction rhs as [|rh rhs IH]; simpl; [apply _|]. apply bind_respects; [apply _|apply _|]. intros fed.
  apply bind_respects; [apply _| |auto]. destruct (regions fed !! rh); apply _.
Qed.
#[export] Instance persist_touches m :
  Respects (touches_only (m_federation m)) (persist_federation_snapshot_on_success m).
Proof.
  intros s. unfold persist_federation_snapshot_on_success, modify. simpl.
  destruct (last_save_label _); [|reflexivity]. destruct (write_snapshot _ _ _ _ _); [|reflexivity].
  split; [by destruct s as [[]]|done..].
Qed.
End touches.

(** Run through a handler, following [stays]. *)
Ltac local_effect :=
  eapply wp_step_local; [eassumption|eassumption|apply _|intros ? ?; split; [intros ?; assumption|intros _]].
Ltac local_step :=
  lazymatch goal with
  | |- stays _ _ => assumption
  | |- wp get_membership _ _ _ => eapply wp_membership_local; [eassumption|intros ?; assumption|intros ? ?]
  | |- wp (gets (λ s, membership (ds_ctx s))) _ _ _ => eapply wp_ctx_local; [eassumption|]
  | |- wp (modify_federation _ _) _ _ _ => local_effect
  | |- wp (modify (λ s, set_ds_callbacks _ s)) _ _ _ => eapply (wp_callbacks_local _ _ _ _ report_target); [eassumption|intros ? ?]
  | |- wp (modify_federate _ _) _ _ _ => local_effect
  | |- wp (notify _ _ _) _ _ _ => local_effect
  | |- wp (on_federation _ _) _ _ _ => local_effect
  | |- wp (commit_regions _ _) _ _ _ => local_effect
  | |- wp (persist_federation_snapshot_on_success _) _ _ _ => local_effect
  | |- _ => wp_step
  end; cbn beta.
Ltac local_run := repeat local_step.

(** [Local h]: the handler [h] changes at most the caller's federation. *)
Definition Local {A} (h : Handler A) : Prop :=
  ∀ s, wp h (λ _ s', stays s s') (λ _ s', stays s s') s.

Create HintDb services.
#[export] Hint Unfold
  get_switch_bool set_switch_bool get_automatic_resign_directive set_automatic_resign_directive_call
  directed_class publish_object_class_directed_interactions unpublish_object_class_directed_interactions
  subscribe_object_class_directed_interactions unsubscribe_object_class_directed_interactions
  send_directed_interaction update_attribute_values decode_time_or_return update_attribute_values_with_time
  sender_of send_interaction_with_time send_interaction remove_instance delete_object_instance_with_time
  delete_object_instance create_region commit_region_modifications delete_region get_range_bounds
  set_range_bounds subscribe_object_class_attributes_with_regions
  unsubscribe_object_class_attributes_with_regions publish_object_class_attributes
  unpublish_object_class_attributes subscribe_object_class_attributes_inner
  unsubscribe_object_class_attributes_inner publish_interaction_class unpublish_interaction_class
  subscribe_interaction_class_inner unsubscribe_interaction_class_inner unpublish_object_class
  unsubscribe_object_class query_galt decoded get_object_class_handle get_object_class_name
  get_attribute_handle get_attribute_name get_interaction_class_handle get_interaction_class_name
  get_parameter_handle get_parameter_name get_object_instance_handle known_instance
  get_object_instance_name get_known_object_class_handle local_delete_object_instance
  get_dimension_handle get_dimension_name get_dimension_upper_bound get_dimension_handle_set
  get_available_dimensions_for_object_class get_available_dimensions_for_interaction_class
  get_federate_handle get_federate_name get_order_type get_order_name get_transportation_type_handle
  get_transportation_type_name register_object_instance register_object_instance_call
  register_object_instance_with_name_call register_object_instance_with_regions
  register_object_instance_with_regions_call register_object_instance_with_name_and_regions_call
  is_attribute_owned_by_federate ownership_args query_attribute_ownership
  attribute_ownership_acquisition_if_available unconditional_attribute_ownership_divestiture
  request_federation_save federate_save_begun end_save federate_save_progressed abort_federation_save
  request_federation_restore federate_restore_progressed abort_federation_restore
  register_synchronization_point register_synchronization_point_call
  register_synchronization_point_with_set_call synchronization_point_achieved enable_time_regulation
  disable_time_regulation enable_time_constrained disable_time_constrained time_advance_request
  query_logical_time modify_lookahead query_lits query_lookahead list_federation_execution_members
  list_federation_executions : services.

Section arms.
Context {P : Prost} {X : QuickXml} {J : Serde} {O : Os}.

Lemma services_local v : membership_request v = false → Local (dispatch_variant v).
Proof.
  intros Hv s. pose proof (stays_refl s) as Hs.
  destruct v; try discriminate Hv; clear Hv; arm; autounfold with services; local_run.
Qed.

(** ** The membership services *)

(** What the rest of the node keeps. *)
Definition untouched (r : FedRef) (s0 s : DispatchState) : Prop :=
  fed_heap (ds_node s) !! r = fed_heap (ds_node s0) !! r ∧
  connections (ds_node s) = connections (ds_node s0) ∧
  ds_callbacks s0 `prefix_of` ds_callbacks s.

Lemma stays_untouched r s0 s :
  (∀ m, membership (ds_ctx s0) = Some m → m_federation m ≠ r) → stays s0 s → untouched r s0 s.
Proof.
  unfold stays, untouched. destruct (membership (ds_ctx s0)) as [m|].
  - intros Hm [Hn _ Ho _ Hp]. split_and!; [by apply Ho, not_eq_sym, Hm|by rewrite Hn|done].
  - intros _ (-> & _ & _ & Hp). done.
Qed.

Lemma create_untouched r n ms resp s :
  is_Some (fed_heap (ds_node s) !! r) →
  wp (create_federation_call n ms resp) (λ _, untouched r s) (λ _, untouched r s) s.
Proof.
  intros [fed Hr]. unfold create_federation_call, create_federation_inner. wp_run.
  all: try apply wp_modify; try wp_run. all: split_and!; try done.
  all: simpl; rewrite lookup_insert_ne; [done|]; intros Heq; apply (is_fresh (dom (fed_heap (ds_node s)))).
  all: rewrite Heq; by apply elem_of_dom_2 with fed.
Qed.

Lemma destroy_untouched r n s :
  wp (destroy_federation_execution n) (λ _, untouched r s) (λ _, untouched r s) s.
Proof.
  unfold destroy_federation_execution. wp_run; [done..|]. apply wp_modify. wp_run. done.
Qed.

Lemma join_untouched r rn n resp s :
  federations (ds_node s) !! n ≠ Some r →
  wp (join_call rn n resp) (λ _, untouched r s) (λ _, untouched r s) s.
Proof.
  intros Hn. unfold join_call, join. wp_run; try done.
  all: apply wp_modify; wp_run; repeat (apply wp_modify; wp_run).
  all: split_and!; try done; simpl; rewrite ?lookup_alter_ne; congruence.
Qed.

Lemma resign_untouched r s :
  (∀ m, membership (ds_ctx s) = Some m → m_federation m ≠ r) →
  wp resign (λ _, untouched r s) (λ _, untouched r s) s.
Proof.
  intros Hm. unfold resign. wp_run; try done. apply wp_modify. wp_run. apply wp_modify. wp_run.
  split_and!; try done. simpl. rewrite lookup_alter_ne; [done|]. by apply Hm.
Qed.

Lemma dispatch_variant_untouched v r s :
  is_Some (fed_heap (ds_node s) !! r) →
  (∀ m, membership (ds_ctx s) = Some m → m_federation m ≠ r) →
  (∀ n, join_target v = Some n → federations (ds_node s) !! n ≠ Some r) →
  wp (dispatch_variant v) (λ _, untouched r s) (λ _, untouched r s) s.
Proof.
  intros Hr Hm Hj. destruct (membership_request v) eqn:Hv.
  - destruct v; try discriminate Hv; arm;
      auto using create_untouched, destroy_untouched, join_untouched, resign_untouched.
  - eapply wp_mono; [by apply services_local|intros ? ?..]; by apply stays_untouched.
Qed.

(** C18: federations are isolated from each other.  Whatever the request, a
    federation the caller is not a member of and does not ask to join is
    the same object state after the call as before it, the table of
    connections is the same, and the callbacks queued before the call are
    still there, in order. *)
Theorem dispatch_isolation request r fed s :
  fed_heap (ds_node s) !! r = Some fed →
  (∀ m, membership (ds_ctx s) = Some m → m_federation m ≠ r) →
  (∀ v n, request = Some v → join_target v = Some n → federations (ds_node s) !! n ≠ Some r) →
  let s' := (run (dispatch_call request) s).1 in
  fed_heap (ds_node s') !! r = Some fed ∧
  connections (ds_node s') = connections (ds_node s) ∧
  ds_callbacks s `prefix_of` ds_callbacks s'.
Proof.
  intros Hr Hm Hj. rewrite <-Hr. destruct request as [v|]; [|done].
  eapply (run_wp _ (λ _, untouched r s)), dispatch_variant_untouched; [done|done|]. intros n. by apply Hj.
Qed.

(** A session that has not joined a federation cannot change anything
    through the services of a federation.  Every request other than create,
    destroy and join leaves the node (all federations included), the
    session and the files as they are; callbacks are only added. *)
Theorem dispatch_outsider request s :
  membership (ds_ctx s) = None →
  (∀ v, request = Some v → membership_request v = true → ∃ a, v = ResignFederationExecutionRequest a) →
  let s' := (run (dispatch_call request) s).1 in
  ds_node s' = ds_node s ∧ ds_ctx s' = ds_ctx s ∧ ds_disk s' = ds_disk s ∧
  ds_callbacks s `prefix_of` ds_callbacks s'.
Proof.
  intros Hm Hv. destruct request as [v|]; [|done]. destruct (membership_request v) eqn:Hr.
  - destruct (Hv v eq_refl Hr) as [a ->]. unfold dispatch_call. arm. unfold run, resign, mbind, M_bind. simpl.
    by rewrite Hm.
  - pose proof (run_wp _ (λ _ s', stays s s') s (services_local v Hr s)) as H.
    unfold stays in H. by rewrite Hm in H.
Qed.
End arms.

(** *** Witnesses *)

(** The node of [created_state] with a second federation "other"; the session
    is then a member of "demo". *)
Definition two_federations : DispatchState :=
  (run (create_federation_call (X := no_xml) "other" [] CreateFederationExecutionResponse) created_state).1.
Definition member_of_demo : DispatchState :=
  (run (join_call (Some "a"%string) "demo" JoinFederationExecutionResponse) two_federations).1.
Definition demo_dispatch : Req → Handler Resp :=
  λ v, dispatch_call (P := demo_prost) (X := no_xml) (J := digit_serde) (O := reliable_os) (Some v).

Lemma dispatch_isolation_witness :
  fed_heap (ds_node (run (demo_dispatch EnableTimeConstrainedRequest) member_of_demo).1) !! 2%positive
    = Some (Federation_new "other" demo_fom) ∧
  (fs_time <$> federates (fed_at (ds_node (run (demo_dispatch EnableTimeConstrainedRequest) member_of_demo).1)
     1%positive) !! FederateHandle_new 1) ≠
  (fs_time <$> federates (fed_at (ds_node member_of_demo) 1%positive) !! FederateHandle_new 1).
Proof.
  split.
  - pose proof (dispatch_isolation (P := demo_prost) (X := no_xml) (J := digit_serde) (O := reliable_os)
      (Some EnableTimeConstrainedRequest) 2%positive (Federation_new "other" demo_fom) member_of_demo) as H.
    apply H; [vm_compute; reflexivity|intros m Hm; vm_compute in Hm; by injection Hm as <-|by intros v n [= <-]].
  - vm_compute. discriminate.
Defined.

Lemma dispatch_outsider_witness :
  ds_node (run (demo_dispatch (RequestFederationSaveRequest "s")) two_federations).1 = ds_node two_federations.
Proof.
  refine (proj1 (dispatch_outsider (P := demo_prost) (X := no_xml) (J := digit_serde) (O := reliable_os)
    (Some (RequestFederationSaveRequest "s")) two_federations _ _)).
  - reflexivity.
  - by intros v [= <-].
Defined.
