(* ===== verification/Members.v ===== *)
(** * Who is in a federation

    Only join and resign change the members of a federation: every other
    service of [dispatch_call], whoever calls it, leaves the name, the FOM,
    the handles, names and sessions of the federates, and the next handle of
    every federation as they are. *)

From S2P Require Import Prelude Float64 CoreTypes Fom Merge Exception Proto State Subscription Handles Routing.
From S2P Require Import TimeCoord Handler Tso TimeMgmt Declaration Ddm ObjectMgmt DataFlow Ownership.
From S2P Require Import SyncPoints FederationMgmt Persistence SaveRestore Advisories Lookup Dispatch Isolation.

(** What identifies a member. *)
Definition ident (fs : FederateSession) : FederateHandle * string * Z :=
  (fs_handle fs, fs_name fs, fs_session_id fs).

Record same_members (fed fed' : Federation) : Prop := {
  sm_name : fed_name fed' = fed_name fed;
  sm_fom : fed_fom fed' = fed_fom fed;
  sm_next : next_federate_id fed' = next_federate_id fed;
  sm_idents fh : ident <$> federates fed' !! fh = ident <$> federates fed !! fh
}.

#[export] Instance same_members_equiv : Equivalence same_members.
Proof.
  split.
  - by intros fed.
  - intros fed fed' [? ? ? Hi]. split; [by symmetry..|]. intros fh. by rewrite Hi.
  - intros f1 f2 f3 [? ? ? H1] [? ? ? H2]. split; [by etransitivity..|]. intros fh. by rewrite H2.
Qed.

(** Operations that keep the members. *)
Class KeepsMembers (g : Federation → Federation) : Prop := keeps_members fed : same_members fed (g fed).
Class KeepsIdent (g : FederateSession → FederateSession) : Prop := keeps_ident fs : ident (g fs) = ident fs.
Class EffectKeeps (e : FedEffect) : Prop := effect_keeps node fed out : same_members fed (e node fed out).1.

Lemma update_federate_keeps fh g fed : (∀ fs, ident (g fs) = ident fs) → same_members fed (update_federate fh g fed).
Proof.
  intros Hg. split; [done..|]. intros k. simpl. destruct (decide (k = fh)) as [->|].
  - rewrite lookup_alter_eq. destruct (federates fed !! fh); simpl; [by rewrite Hg|done].
  - by rewrite lookup_alter_ne.
Qed.

#[export] Instance update_federate_keeps' fh g `{!KeepsIdent g} : KeepsMembers (update_federate fh g).
Proof. intros fed. by apply update_federate_keeps. Qed.

Lemma foldl_keeps {A B} (f : A → B → A) (proj : A → Federation) a l :
  (∀ a b, same_members (proj a) (proj (f a b))) → same_members (proj a) (proj (foldl f a l)).
Proof.
  intros Hf. revert a. induction l as [|b l IH]; intros a; [reflexivity|]. simpl.
  etransitivity; [apply Hf|apply IH].
Qed.

(** The setters of the other fields, by computation. *)
#[export] Hint Extern 5 (KeepsMembers _) => intros ?; split; reflexivity : typeclass_instances.
#[export] Hint Extern 5 (KeepsIdent _) => intros ?; reflexivity : typeclass_instances.

#[export] Instance apply_snapshot_keeps snap : KeepsMembers (apply_snapshot snap).
Proof. intros fed. unfold apply_snapshot. destruct (foldl _ _ _). by split. Qed.
#[export] Instance undiscover_keeps i self : KeepsMembers (undiscover i self).
Proof.
  intros fed. split; [done..|]. intros fh. simpl. rewrite map_lookup_imap.
  destruct (federates fed !! fh); simpl; [|done]. by case_decide.
Qed.
#[export] Instance grant_step_keeps t : KeepsIdent (λ fs, if pending_is t fs then grant t fs else fs).
Proof. intros fs. by destruct (pending_is t fs). Qed.

Section effects.
Context {P : Prost}.

#[export] Instance advise_keeps p cb : EffectKeeps (advise p cb).
Proof. intros node fed out. unfold advise. by case_decide. Qed.

#[export] Instance drain_keeps fh t : EffectKeeps (drain_tso_up_to fh t).
Proof.
  intros node fed out. rewrite drain_eq. destruct (federates fed !! fh); [|reflexivity].
  by apply update_federate_keeps.
Qed.

#[export] Instance route_keeps subs t cb : EffectKeeps (route_tso_or_immediate subs t cb).
Proof.
  intros node fed out. unfold route_tso_or_immediate. cbn [fst].
  apply (foldl_keeps _ id). intros fed' fh. by apply update_federate_keeps.
Qed.

Lemma apply_grants_keeps fed l : same_members fed (apply_grants fed l).1.
Proof.
  unfold apply_grants.
  assert (H : ∀ st fh, ident <$> (foldl apply_grant st l).1 !! fh = ident <$> st.1 !! fh).
  { induction l as [|g l IH]; intros st fh; [done|]. simpl. rewrite IH. unfold apply_grant.
    destruct (st.1 !! g.1) as [fs|] eqn:Hfs; [|done]. destruct (pending_is g.2 fs); [|done]. simpl.
    destruct (decide (fh = g.1)) as [->|]; [by rewrite lookup_insert_eq, Hfs|by rewrite lookup_insert_ne]. }
  specialize (H (federates fed, [])). destruct (foldl _ _ _) as [fs g]. by split.
Qed.

#[export] Instance try_grant_keeps : EffectKeeps try_grant_pending_advances.
Proof.
  intros node fed out. unfold try_grant_pending_advances.
  assert (H : ∀ fuel fed out r, try_grant fuel node fed out = Some r → same_members fed r.1).
  { intros fuel. induction fuel as [|fuel IH]; intros fed0 out0 r; [done|]. simpl.
    destruct (to_grant (lbts fed0) fed0) as [|x l]; [by intros [= <-]|].
    pose proof (apply_grants_keeps fed0 (x :: l)) as Hk. destruct (apply_grants fed0 (x :: l)) as [fed' granted].
    destruct (f64_gtb _ _); [|by intros [= <-]]. intros Hr. etransitivity; [exact Hk|by eapply IH]. }
  destruct (try_grant _ _ _ _) as [r|] eqn:Hr; [by eapply H|reflexivity].
Qed.

#[export] Instance with_tso_keeps : EffectKeeps try_grant_pending_advances_with_tso.
Proof.
  intros node fed out. unfold try_grant_pending_advances_with_tso. set (l := filter _ _).
  pose proof (foldl_keeps (λ '(fed, out) '(fh, t), drain_tso_up_to fh t node fed out) fst (fed, out) l) as Hk.
  destruct (foldl _ _ _) as [fed' out']. etransitivity; [apply Hk|apply effect_keeps].
  intros [f o] [fh t]. apply effect_keeps.
Qed.

Lemma mark_discovered_keeps i l fed : same_members fed (mark_discovered i l fed).1.
Proof.
  apply (foldl_keeps _ fst (fed, [])). intros st fh. unfold mark_step.
  destruct (federates st.1 !! fh); [|reflexivity]. case_decide; [reflexivity|]. by apply update_federate_keeps.
Qed.

#[export] Instance registration_keeps i c n p : EffectKeeps (notify_subscribers_of_registration i c n p).
Proof.
  intros node fed out. unfold notify_subscribers_of_registration.
  pose proof (mark_discovered_keeps i (elements (registration_candidates fed c p)) fed) as Hk.
  destruct (mark_discovered _ _ _). by case_decide.
Qed.
#[export] Instance registration_subset_keeps i c p cs : EffectKeeps (notify_subscribers_of_registration_subset i c p cs).
Proof.
  intros node fed out. unfold notify_subscribers_of_registration_subset. case_decide; [reflexivity|].
  destruct (object_instances fed !! i); [|reflexivity].
  pose proof (mark_discovered_keeps i (elements cs) fed) as Hk. destruct (mark_discovered _ _ _). by case_decide.
Qed.
#[export] Instance callbacks_only_keeps (f : RtiNode → Federation → list OutboundCallback → list OutboundCallback) :
  EffectKeeps (λ node fed out, (fed, f node fed out)).
Proof. by intros node fed out. Qed.
#[export] Instance initiate_restores_keeps label l : EffectKeeps (initiate_restores label l).
Proof. by intros node fed out. Qed.
End effects.

(** ** Every service but the membership services *)

Record keeps (s0 s : DispatchState) : Prop := {
  kp_node : ds_node s = set_fed_heap (λ _, fed_heap (ds_node s)) (ds_node s0);
  kp_ctx : ds_ctx s = ds_ctx s0;
  kp_feds r : option_Forall2 same_members (fed_heap (ds_node s0) !! r) (fed_heap (ds_node s) !! r)
}.

#[export] Instance keeps_preorder : PreOrder keeps.
Proof.
  split.
  - intros s. split; [by destruct s as [[]]|done|]. intros r. destruct (fed_heap (ds_node s) !! r); by constructor.
  - intros s1 s2 s3 [Hn1 Hc1 Hf1] [Hn2 Hc2 Hf2]. split.
    + etransitivity; [exact Hn2|]. unfold set_fed_heap at 1. by rewrite Hn1.
    + congruence.
    + intros r. specialize (Hf1 r). specialize (Hf2 r). destruct Hf1; inversion Hf2; constructor. by etransitivity.
Qed.

Lemma fed_update_keeps r g s :
  (∀ fed, fed_heap (ds_node s) !! r = Some fed → same_members fed (g fed)) →
  ∀ r', option_Forall2 same_members (fed_heap (ds_node s) !! r') (alter g r (fed_heap (ds_node s)) !! r').
Proof.
  intros Hg r'. destruct (decide (r' = r)) as [->|]; [rewrite lookup_alter_eq|rewrite lookup_alter_ne by done].
  - destruct (fed_heap (ds_node s) !! r) eqn:Hr; constructor; auto.
  - by destruct (fed_heap (ds_node s) !! r'); constructor.
Qed.

#[export] Instance modify_federation_keeps m g `{!KeepsMembers g} : Respects keeps (modify_federation m g).
Proof. intros s. split; [done..|]. intros r. by apply fed_update_keeps. Qed.
#[export] Instance modify_federate_keeps m g `{!KeepsIdent g} : Respects keeps (modify_federate m g).
Proof. intros s. split; [done..|]. intros r. apply fed_update_keeps. intros fed _. by apply update_federate_keeps. Qed.

Section services.
Context {P : Prost} {X : QuickXml} {J : Serde} {O : Os}.

#[export] Instance notify_keeps m ts cb : Respects keeps (notify m ts cb).
Proof. intros s. split; [by destruct s as [[]]|done|]. intros r. simpl. by destruct (_ !! r); constructor. Qed.
#[export] Instance on_federation_keeps m e `{!EffectKeeps e} : Respects keeps (on_federation m e).
Proof.
  intros s. unfold on_federation, modify. simpl.
  pose proof (effect_keeps (ds_node s) (federation_of m s) (ds_callbacks s)) as He.
  destruct (e _ _ _) as [fed' out']. split; [done..|]. intros r. simpl. apply fed_update_keeps.
  intros fed Hfed. by rewrite (federation_of_heap m s fed Hfed) in He.
Qed.
#[export] Instance report_keeps (f : DispatchState → list OutboundCallback → list OutboundCallback) :
  Respects keeps (modify (λ s, set_ds_callbacks (f s) s) : Handler unit).
Proof. intros s. split; [by destruct s as [[]]|done|]. intros r. simpl. by destruct (_ !! r); constructor. Qed.
#[export] Instance commit_regions_keeps m rhs : Respects keeps (commit_regions m rhs).
Proof.
  induction rhs as [|rh rhs IH]; simpl; [apply _|]. apply bind_respects; [apply _|apply _|]. intros fed.
  apply bind_respects; [apply _| |auto]. destruct (regions fed !! rh); apply _.
Qed.
#[export] Instance persist_keeps m : Respects keeps (persist_federation_snapshot_on_success m).
Proof.
  intros s. unfold persist_federation_snapshot_on_success, modify. simpl.
  destruct (last_save_label _); [|reflexivity]. destruct (write_snapshot _ _ _ _ _); [|reflexivity].
  split; [by destruct s as [[]]|done|]. intros r. simpl. by destruct (_ !! r); constructor.
Qed.
End services.

Lemma wp_respects {A} (h : Handler A) Qr Q s0 s :
  keeps s0 s → Respects keeps h → (∀ s', keeps s0 s' → (∀ r, Qr r s') ∧ (∀ a, Q a s')) → wp h Qr Q s.
Proof.
  intros Hs Hh HQ. specialize (Hh s). assert (H : keeps s0 (h s).1) by (by etransitivity). apply HQ in H as [Hr Ha].
  unfold wp. destruct (h s) as [s' [r|a]]; simpl in *; auto.
Qed.

(** Run through a handler: primitive steps by their instances, the rest by the
    structure. *)
Ltac keeps_step :=
  lazymatch goal with
  | |- keeps _ _ => assumption
  | |- wp (_ ≫= _) _ _ _ => wp_step
  | |- wp (match _ with _ => _ end) _ _ _ => wp_step
  | |- wp (if _ then _ else _) _ _ _ => wp_step
  | |- wp _ _ _ _ =>
      first [ eapply wp_respects; [eassumption|apply _|intros ? ?; split; [intros ?; assumption|intros ?]]
            | wp_step ]
  end; cbn beta.

Section services.
Context {P : Prost} {X : QuickXml} {J : Serde} {O : Os}.

Lemma services_keep v s : membership_request v = false → keeps s (run (dispatch_variant v) s).1.
Proof.
  intros Hv. apply (run_wp _ (λ _, keeps s)). assert (Hs : keeps s s) by reflexivity.
  destruct v; try discriminate Hv; clear Hv; arm; autounfold with services; repeat keeps_step.
Qed.
End services.

(** ** The membership services *)

(** The session behind a federate. *)
Definition member (node : RtiNode) (r : FedRef) (fh : FederateHandle) : option Z :=
  fed ← fed_heap node !! r; fs_session_id <$> federates fed !! fh.

(** Nothing but the registry and the federations differs. *)
Definition same_rest (node node' : RtiNode) : Prop :=
  node' = set_federations (λ _, federations node') (set_fed_heap (λ _, fed_heap node') node).

(** How a request changes who is a member: not at all, or the caller joins
    under a handle nobody has, or the caller resigns. *)
Inductive membership_change (s s' : DispatchState) : Prop :=
| mc_same :
    ds_ctx s' = ds_ctx s →
    (∀ r fh, member (ds_node s') r fh = member (ds_node s) r fh) → membership_change s s'
| mc_join m :
    membership (ds_ctx s) = None →
    ds_ctx s' = set_membership (λ _, Some m) (ds_ctx s) →
    member (ds_node s) (m_federation m) (m_federate_handle m) = None →
    (∀ r fh, member (ds_node s') r fh =
      if decide ((r, fh) = (m_federation m, m_federate_handle m)) then Some (ctx_session_id (ds_ctx s))
      else member (ds_node s) r fh) → membership_change s s'
| mc_resign m :
    membership (ds_ctx s) = Some m →
    ds_ctx s' = set_membership (λ _, None) (ds_ctx s) →
    (∀ r fh, member (ds_node s') r fh =
      if decide ((r, fh) = (m_federation m, m_federate_handle m)) then None
      else member (ds_node s) r fh) → membership_change s s'.

(** The modules of a create request. *)
Definition request_modules (v : Req) : list (option ProtoFomModule) :=
  match v with
  | CreateFederationExecutionRequest _ m | CreateFederationExecutionWithTimeRequest _ m => option_list m
  | CreateFederationExecutionWithModulesAndTimeRequest _ ms
  | CreateFederationExecutionWithModulesRequest _ ms => default [] ms
  | CreateFederationExecutionWithMimRequest _ ms m
  | CreateFederationExecutionWithMimAndTimeRequest _ ms m => default [] ms ++ option_list m
  | _ => []
  end.

(** The FOM modules of the request fit the handle space. *)
Definition small_request {X : QuickXml} (v : Req) : Prop :=
  ∀ ms, decode_fom_modules (request_modules v) [] = Ok ms → modules_small ms.

Lemma same_members_wf fed fed' : same_members fed fed' → fed_wf fed → fed_wf fed'.
Proof.
  intros [Hn Hf Hx Hi] [Hfom Hnext Hm]. split; [by rewrite Hf|by rewrite Hx|]. intros fh fs Hfs.
  specialize (Hi fh). rewrite Hfs in Hi. destruct (federates fed !! fh) as [fs0|] eqn:H0; [|done].
  injection Hi as Hh _ _. destruct (Hm _ _ H0). rewrite Hx, Hh. done.
Qed.

Lemma keeps_node_wf s s' : keeps s s' → node_wf (ds_node s) → node_wf (ds_node s').
Proof.
  intros [Hn _ Hf] [Hd Hr Hw]. rewrite Hn. split; simpl; [done| |].
  - intros name r H. destruct (Hr _ _ H) as (fed & Hfed & <-). specialize (Hf r). rewrite Hfed in Hf.
    inversion Hf as [? fed' Hs Heq|]; subst. exists fed'. split; [done|]. apply Hs.
  - intros r fed' Hfed'. specialize (Hf r). rewrite Hfed' in Hf. inversion Hf as [fed ? Hs Heq|]; subst.
    eapply same_members_wf; [done|]. by eapply Hw.
Qed.

Lemma keeps_member s s' r fh : keeps s s' → member (ds_node s') r fh = member (ds_node s) r fh.
Proof.
  intros [_ _ Hf]. unfold member. specialize (Hf r). destruct Hf as [fed fed' [_ _ _ Hi]|]; [|done]. simpl.
  specialize (Hi fh). destruct (federates fed !! fh), (federates fed' !! fh); simplify_eq/=; by f_equal.
Qed.

Definition dispatched (s s' : DispatchState) : Prop :=
  node_wf (ds_node s') ∧ same_rest (ds_node s) (ds_node s') ∧ membership_change s s'.

Lemma dispatched_refl s : node_wf (ds_node s) → dispatched s s.
Proof. intros Hwf. split_and!; [done|by destruct s as [[]]|by apply mc_same]. Qed.

Section membership.
Context {P : Prost} {X : QuickXml} {J : Serde} {O : Os}.

Lemma create_dispatched n mods resp s :
  node_wf (ds_node s) → (∀ ms, decode_fom_modules mods [] = Ok ms → modules_small ms) →
  wp (create_federation_call n mods resp) (λ _, dispatched s) (λ _, dispatched s) s.
Proof.
  intros Hwf Hsmall. unfold create_federation_call, create_federation_inner. wp_run; try by apply dispatched_refl.
  all: apply wp_modify; wp_run.
  all: assert (Hfr : fed_heap (ds_node s) !! fresh (dom (fed_heap (ds_node s))) = None)
    by apply not_elem_of_dom, is_fresh.
  all: split_and!; [|done|]; [simpl; apply node_wf_insert; [done|apply Federation_new_wf|done]|].
  1: apply Hwf.
  2: eapply merge_wf; [by apply Hsmall|done].
  all: apply mc_same; [done|]; intros r fh; unfold member; simpl.
  all: destruct (decide (r = fresh (dom (fed_heap (ds_node s))))) as [->|];
    [rewrite lookup_insert_eq, Hfr; simpl; by rewrite lookup_empty|by rewrite lookup_insert_ne].
Qed.

Lemma destroy_dispatched n s :
  node_wf (ds_node s) →
  wp (destroy_federation_execution n) (λ _, dispatched s) (λ _, dispatched s) s.
Proof.
  intros Hwf. unfold destroy_federation_execution. wp_run; try by apply dispatched_refl.
  apply wp_modify. wp_run. destruct Hwf as [Hd Hr Hf]. split_and!; [|done|by apply mc_same].
  split; simpl; [done| |done]. intros name r. rewrite lookup_delete_Some. intros [_ H']. by apply Hr.
Qed.

Lemma resign_dispatched s :
  node_wf (ds_node s) → wp resign (λ _, dispatched s) (λ _, dispatched s) s.
Proof.
  intros Hwf. unfold resign. wp_run; [by apply dispatched_refl|]. rename a into m.
  apply wp_modify. wp_run. apply wp_modify. wp_run. split_and!; [|done|].
  - apply (node_wf_update (ds_node s)); [done|]. intros fed _ [Hfom Hn Hm]. split; [|done]. split; [done..|].
    intros fh fs. simpl. rewrite lookup_delete_Some. intros [_ Hfs]. by apply Hm.
  - apply (mc_resign _ _ m); [done..|]. intros r fh. unfold member. simpl. case_decide as Heq.
    + injection Heq as -> ->. rewrite lookup_alter_eq. destruct (_ !! m_federation m); simpl; [|done].
      by rewrite lookup_delete_eq.
    + destruct (decide (r = m_federation m)) as [->|]; [|by rewrite lookup_alter_ne].
      rewrite lookup_alter_eq. destruct (_ !! m_federation m); simpl; [|done].
      rewrite lookup_delete_ne; [done|]. intros <-. by apply Heq.
Qed.

Lemma wp_and {S R A} (m : M S R A) Qr1 Qr2 Q1 Q2 s :
  wp m Qr1 Q1 s → wp m Qr2 Q2 s → wp m (λ r s', Qr1 r s' ∧ Qr2 r s') (λ a s', Q1 a s' ∧ Q2 a s') s.
Proof. unfold wp. destruct (m s) as [s' [r|a]]; auto. Qed.

Lemma join_rest req n s :
  wp (join req n) (λ _ s', same_rest (ds_node s) (ds_node s')) (λ _ s', same_rest (ds_node s) (ds_node s')) s.
Proof.
  unfold join. wp_run; try by destruct s as [[]].
  all: apply wp_modify; wp_run; repeat (apply wp_modify; wp_run); done.
Qed.

Lemma join_change req n jr s s' : join_post req n s jr s' → membership_change s s'.
Proof.
  intros (Hm & r & fed & nm & _ & Hfed & Hfree & _ & _ & Hctx & Hheap & _).
  eapply (mc_join _ _ (mkMembership r _ nm)); [done|exact Hctx|..]; simpl.
  - unfold member. by rewrite Hfed; simpl; rewrite Hfree.
  - intros r' fh. unfold member. rewrite Hheap. case_decide as Heq.
    + injection Heq as -> ->. by rewrite lookup_insert_eq; simpl; rewrite lookup_insert_eq.
    + destruct (decide (r' = r)) as [->|]; [|by rewrite lookup_insert_ne].
      rewrite lookup_insert_eq, Hfed. simpl. rewrite lookup_insert_ne; [done|]. intros <-. by apply Heq.
Qed.

Lemma join_dispatched req n resp s :
  node_wf (ds_node s) → handles_left (ds_node s) →
  wp (join_call req n resp) (λ _, dispatched s) (λ _, dispatched s) s.
Proof.
  intros Hwf Hleft. unfold join_call. wp_step.
  eapply wp_mono; [apply wp_and; [by apply join_wp|apply join_rest]|..].
  - intros r s' [(_ & Hctx & Hw & Hf) Hrest]. split_and!; [done..|]. apply mc_same; [done|]. intros ref fh.
    unfold member. specialize (Hf ref). destruct (fed_heap (ds_node s') !! ref), (fed_heap (ds_node s) !! ref); simplify_eq/=; congruence.
  - intros jr s' [[Hp Hw] Hrest]. wp_step. split_and!; [done..|]. by eapply join_change.
Qed.

Lemma dispatch_dispatched v s :
  node_wf (ds_node s) → handles_left (ds_node s) → small_request v →
  wp (dispatch_variant v) (λ _, dispatched s) (λ _, dispatched s) s.
Proof.
  intros Hwf Hleft Hsmall. destruct (membership_request v) eqn:Hv.
  - destruct v; try discriminate Hv; arm;
      auto using create_dispatched, destroy_dispatched, join_dispatched, resign_dispatched.
  - pose proof (services_keep v s Hv) as Hk. unfold wp. unfold run in Hk.
    destruct (dispatch_variant v s) as [s' [r|r]]; simpl in Hk; (split_and!;
      [by eapply keeps_node_wf|by rewrite (kp_node _ _ Hk); destruct (ds_node s)|];
      apply mc_same; [apply Hk|intros ref fh; by apply keeps_member]).
Qed.

(** C21: every request keeps the types of the node.  Whatever the request and
    whoever sends it, with handles left and FOM modules whose classes fit the
    handle space, the registry invariant holds again afterwards (every registered name has its federation, every FOM is well
    formed, every member is filed under its own handle, below the next one);
    the sessions, connections, limits and metrics are untouched; and the
    members of all federations are the same, or the caller has joined under
    a handle nobody had, or the caller has left and nobody else. *)
Theorem dispatch_keeps_types request s :
  node_wf (ds_node s) → handles_left (ds_node s) → (∀ v, request = Some v → small_request v) →
  let s' := (run (dispatch_call request) s).1 in
  node_wf (ds_node s') ∧ same_rest (ds_node s) (ds_node s') ∧ membership_change s s'.
Proof.
  intros Hwf Hleft Hsmall. destruct request as [v|]; [|by apply dispatched_refl].
  apply (run_wp _ (λ _, dispatched s)), dispatch_dispatched; auto.
Qed.
End membership.

(** *** Witness: a join *)
Lemma dispatch_keeps_types_witness :
  let s' := (run (demo_dispatch (JoinFederationExecutionRequest "F" "demo")) created_state).1 in
  node_wf (ds_node s') ∧ member (ds_node s') 1%positive (FederateHandle_new 1) = Some 7.
Proof.
  split; [|vm_compute; reflexivity].
  refine (proj1 (dispatch_keeps_types (P := demo_prost) (X := no_xml) (J := digit_serde) (O := reliable_os)
    (Some (JoinFederationExecutionRequest "F" "demo")) created_state created_node_wf created_handles_left _)).
  intros v [= <-] ms [= <-]. split; simpl; lia.
Defined.
