(* ===== verification/Confinement.v ===== *)
(** * Who a call can reach

    A message never leaves its federation: the callbacks that a request adds
    go to connections of members of the caller's federation, or, for the
    reports that anyone may ask for, to the caller's own connection. *)

From S2P Require Import Prelude Float64 CoreTypes Fom Merge Exception Proto State Subscription Handles Routing.
From S2P Require Import TimeCoord Handler Tso TimeMgmt Declaration Ddm ObjectMgmt DataFlow Ownership.
From S2P Require Import SyncPoints FederationMgmt Persistence SaveRestore Advisories Lookup Dispatch Isolation Members.

(** Connection [c] is that of a member of [fed]. *)
Definition reach (node : RtiNode) (fed : Federation) (c : ConnRef) : Prop :=
  ∃ fh fs, federates fed !! fh = Some fs ∧ connections node !! fs_session_id fs = Some c.

(** What [out'] has more than [out] goes to members of [fed]. *)
Definition confined (node : RtiNode) (fed : Federation) (out out' : list OutboundCallback) : Prop :=
  ∀ cb, cb ∈ out' → cb ∈ out ∨ reach node fed (target cb).

#[export] Instance confined_preorder node fed : PreOrder (confined node fed).
Proof.
  split; [intros out cb; by left|]. intros o1 o2 o3 H1 H2 cb [Hcb|Hr]%H2; [|by right]. by apply H1.
Qed.

Lemma reach_same node fed fed' c : same_members fed fed' → reach node fed' c → reach node fed c.
Proof.
  intros [_ _ _ Hi] (fh & fs & Hfs & Hc). specialize (Hi fh). rewrite Hfs in Hi.
  destruct (federates fed !! fh) as [fs0|] eqn:H0; [|done]. injection Hi as _ _ Hs. exists fh, fs0.
  split; [done|]. congruence.
Qed.
Lemma confined_same node fed fed' out out' :
  same_members fed fed' → confined node fed' out out' → confined node fed out out'.
Proof. intros Hs H cb [?|?]%H; [by left|right]. by eapply reach_same. Qed.

Class EffectConfined (e : FedEffect) : Prop :=
  effect_confined node fed out : confined node fed out (e node fed out).2.

Section effects.
Context {P : Prost}.

Lemma fan_out_confined node fed out cs cb :
  (∀ c, c ∈ cs → reach node fed c) → confined node fed out (fan_out out cs cb).
Proof.
  intros Hc x. rewrite fan_out_app, elem_of_app, list_elem_of_fmap. intros [?|(c & -> & Hin)]; [by left|right]. by apply Hc.
Qed.
Lemma live_reach node fed fhs c : c ∈ live_connections node fed fhs → reach node fed c.
Proof. rewrite elem_of_live_connections. unfold reach. naive_solver. Qed.
Lemma live_confined node fed out fhs cb : confined node fed out (fan_out out (live_connections node fed fhs) cb).
Proof. apply fan_out_confined. intros c. apply live_reach. Qed.

Lemma foldl_confined {A} (f : list OutboundCallback → A → list OutboundCallback) node fed out l :
  (∀ out x, confined node fed out (f out x)) → confined node fed out (foldl f out l).
Proof.
  intros Hf. revert out. induction l as [|x l IH]; intros out; [reflexivity|]. cbn [foldl].
  etransitivity; [apply Hf|apply IH].
Qed.

#[export] Instance advise_confined p cb : EffectConfined (advise p cb).
Proof. intros node fed out. unfold advise. case_decide; [reflexivity|apply live_confined]. Qed.

#[export] Instance drain_confined fh t : EffectConfined (drain_tso_up_to fh t).
Proof.
  intros node fed out. unfold drain_tso_up_to. destruct (federates fed !! fh); [|reflexivity].
  destruct (take _ _); [reflexivity|]. cbn [snd].
  apply (confined_same _ _ (update_federate fh (set_tso_queue (drop (partition_point (λ m, f64_leb (tso_time m) t) (tso_queue f)))) fed));
    [by apply update_federate_keeps|]. apply foldl_confined. intros. apply live_confined.
Qed.
#[export] Instance route_confined subs t cb : EffectConfined (route_tso_or_immediate subs t cb).
Proof. intros node fed out. unfold route_tso_or_immediate. cbn [snd]. case_decide; [reflexivity|apply live_confined]. Qed.

#[export] Instance try_grant_confined : EffectConfined try_grant_pending_advances.
Proof.
  intros node fed out. unfold try_grant_pending_advances.
  assert (H : ∀ fuel fed out r, try_grant fuel node fed out = Some r → confined node fed out r.2).
  { intros fuel. induction fuel as [|fuel IH]; intros fed0 out0 r; [done|]. simpl.
    destruct (to_grant (lbts fed0) fed0) as [|x l]; [by intros [= <-]|].
    pose proof (apply_grants_keeps fed0 (x :: l)) as Hk. destruct (apply_grants fed0 (x :: l)) as [fed' granted].
    assert (He : confined node fed0 out0 (emit_grants node fed' out0 granted)).
    { apply (confined_same _ _ _ _ _ Hk), foldl_confined. intros. apply live_confined. }
    destruct (f64_gtb _ _); [|by intros [= <-]]. intros Hr. etransitivity; [exact He|].
    apply (confined_same _ _ _ _ _ Hk). by eapply IH. }
  destruct (try_grant _ _ _ _) as [r|] eqn:Hr; [by eapply H|reflexivity].
Qed.

#[export] Instance with_tso_confined : EffectConfined try_grant_pending_advances_with_tso.
Proof.
  intros node fed out. unfold try_grant_pending_advances_with_tso. set (l := filter _ _).
  assert (H : ∀ st, same_members st.1 (foldl (λ '(fed, out) '(fh, t), drain_tso_up_to fh t node fed out) st l).1 ∧
    confined node st.1 st.2 (foldl (λ '(fed, out) '(fh, t), drain_tso_up_to fh t node fed out) st l).2).
  { clearbody l. clear fed out. induction l as [|[fh t] l IH]; intros [fed out]; [by split|]. cbn [foldl fst snd].
    destruct (IH (drain_tso_up_to fh t node fed out)) as [Hs Hc].
    pose proof (drain_keeps fh t node fed out) as Hk. pose proof (drain_confined fh t node fed out) as Hd.
    split; (etransitivity; [eassumption|]); [done|by eapply confined_same]. }
  specialize (H (fed, out)). destruct (foldl _ _ _) as [fed' out']. destruct H as [Hs Hc].
  etransitivity; [exact Hc|]. eapply confined_same; [exact Hs|apply effect_confined].
Qed.

#[export] Instance registration_confined i c n p : EffectConfined (notify_subscribers_of_registration i c n p).
Proof.
  intros node fed out. unfold notify_subscribers_of_registration.
  pose proof (mark_discovered_keeps i (elements (registration_candidates fed c p)) fed) as Hk.
  destruct (mark_discovered _ _ _) as [fed' l]. case_decide; [reflexivity|]. eapply confined_same, live_confined. exact Hk.
Qed.
#[export] Instance registration_subset_confined i c p cs :
  EffectConfined (notify_subscribers_of_registration_subset i c p cs).
Proof.
  intros node fed out. unfold notify_subscribers_of_registration_subset. case_decide; [reflexivity|].
  destruct (object_instances fed !! i); [|reflexivity].
  pose proof (mark_discovered_keeps i (elements cs) fed) as Hk. destruct (mark_discovered _ _ _).
  case_decide; [reflexivity|]. eapply confined_same, live_confined. exact Hk.
Qed.
#[export] Instance fold_confined {A} (l : list A) (ts : gset FederateHandle) (cb : A → CallbackRequest) :
  EffectConfined (λ node fed out, (fed, foldl (λ out x, fan_out out (live_connections node fed ts) (cb x)) out l)).
Proof. intros node fed out. apply foldl_confined. intros. apply live_confined. Qed.
#[export] Instance initiate_restores_confined label l : EffectConfined (initiate_restores label l).
Proof. intros node fed out. apply foldl_confined. intros. apply live_confined. Qed.
End effects.

(** ** Handlers *)

(** The connections the session of [s0] may reach. *)
Definition may_reach (s0 : DispatchState) (c : ConnRef) : Prop :=
  (∃ m, membership (ds_ctx s0) = Some m ∧ reach (ds_node s0) (federation_of m s0) c) ∨
  connections (ds_node s0) !! ctx_session_id (ds_ctx s0) = Some c.

Record within (s0 s : DispatchState) : Prop := {
  wi_keeps : keeps s0 s;
  wi_callbacks cb : cb ∈ ds_callbacks s → cb ∈ ds_callbacks s0 ∨ may_reach s0 (target cb)
}.

Lemma within_refl s : within s s.
Proof. split; [reflexivity|by left]. Qed.

(** The caller's federation has the same members throughout. *)
Lemma keeps_federation s0 s m : keeps s0 s → same_members (federation_of m s0) (federation_of m s).
Proof.
  intros [_ _ Hf]. unfold federation_of, fed_at, lookup_total, map_lookup_total.
  by destruct (Hf (m_federation m)).
Qed.
Lemma keeps_connections s0 s : keeps s0 s → connections (ds_node s) = connections (ds_node s0).
Proof. intros [-> _ _]. done. Qed.

Lemma within_step s0 s s' m :
  membership (ds_ctx s0) = Some m → within s0 s → keeps s s' →
  confined (ds_node s) (federation_of m s) (ds_callbacks s) (ds_callbacks s') → within s0 s'.
Proof.
  intros Hm [Hk Hc] Hk' Hc'. split; [by etransitivity|]. intros cb [Hcb|Hr]%Hc'; [by apply Hc|].
  right. left. exists m. split; [done|]. apply (reach_same _ _ _ _ (keeps_federation s0 s m Hk)).
  unfold reach in *. by rewrite (keeps_connections _ _ Hk) in Hr.
Qed.

Section handlers.
Context {P : Prost} (s0 : DispatchState) (Qr : Resp → DispatchState → Prop).

Lemma wp_membership_within Q s :
  within s0 s → (∀ r, Qr r s) → (∀ m, membership (ds_ctx s0) = Some m → Q m s) → wp get_membership Qr Q s.
Proof.
  intros [Hk _] Hr HQ. unfold get_membership. wp_run; [auto|]. apply HQ. by rewrite <-(kp_ctx _ _ Hk).
Qed.

Lemma wp_quiet {A} (h : Handler A) Q s :
  within s0 s → Respects keeps h → Respects (λ s s', ds_callbacks s' = ds_callbacks s) h →
  (∀ s', within s0 s' → (∀ r, Qr r s') ∧ (∀ a, Q a s')) → wp h Qr Q s.
Proof.
  intros [Hk Hc] Hh Hq HQ. specialize (Hh s). specialize (Hq s).
  assert (H : within s0 (h s).1) by (split; [by etransitivity|by rewrite Hq]).
  apply HQ in H as [Hr Ha]. unfold wp. destruct (h s) as [s' [r|a]]; simpl in *; auto.
Qed.

Lemma wp_notify_within m ts cb Q s :
  membership (ds_ctx s0) = Some m → within s0 s → (∀ s', within s0 s' → Q tt s') → wp (notify m ts cb) Qr Q s.
Proof.
  intros Hm Hs HQ. apply wp_modify, HQ. eapply within_step; [done|done| |apply live_confined].
  apply (notify_keeps m ts cb s).
Qed.

Lemma wp_effect_within m e Q s `{!EffectKeeps e, !EffectConfined e} :
  membership (ds_ctx s0) = Some m → within s0 s → (∀ s', within s0 s' → Q tt s') → wp (on_federation m e) Qr Q s.
Proof.
  intros Hm Hs HQ. apply wp_modify, HQ. eapply within_step; [done|done|apply (on_federation_keeps m e s)|].
  pose proof (effect_confined (ds_node s) (federation_of m s) (ds_callbacks s)) as He.
  by destruct (e (ds_node s) (federation_of m s) (ds_callbacks s)).
Qed.

Lemma wp_report_within Q s (cb : DispatchState → CallbackRequest) :
  within s0 s → (∀ s', within s0 s' → Q tt s') →
  wp (modify (λ s, set_ds_callbacks (λ out, fan_out out (report_target s) (cb s)) s)) Qr Q s.
Proof.
  intros [Hk Hc] HQ. apply wp_modify, HQ. split; [etransitivity; [exact Hk|apply (report_keeps (λ s out, fan_out out (report_target s) (cb s)) s)]|].
  intros x. simpl. rewrite fan_out_app, elem_of_app, list_elem_of_fmap. intros [?|(c & -> & Hin)]; [by apply Hc|right; right].
  unfold report_target in Hin. rewrite (keeps_connections _ _ Hk), (kp_ctx _ _ Hk) in Hin. simpl.
  destruct (connections _ !! _); set_solver.
Qed.
End handlers.

(** Steps that send nothing. *)
Definition quiet (s s' : DispatchState) : Prop := ds_callbacks s' = ds_callbacks s.
#[export] Instance quiet_preorder : PreOrder quiet.
Proof. split; [by intros s|]. unfold quiet. intros s1 s2 s3. congruence. Qed.
#[export] Instance modify_federation_quiet m g : Respects quiet (modify_federation m g).
Proof. by intros s. Qed.
#[export] Instance modify_federate_quiet m g : Respects quiet (modify_federate m g).
Proof. by intros s. Qed.
#[export] Instance commit_regions_quiet m rhs : Respects quiet (commit_regions m rhs).
Proof.
  induction rhs as [|rh rhs IH]; simpl; [apply _|]. apply bind_respects; [apply _|apply _|]. intros fed.
  apply bind_respects; [apply _| |auto]. destruct (regions fed !! rh); apply _.
Qed.
#[export] Instance persist_quiet {J : Serde} {O : Os} m : Respects quiet (persist_federation_snapshot_on_success m).
Proof.
  intros s. unfold persist_federation_snapshot_on_success, modify. simpl.
  destruct (last_save_label _); [|done]. by destruct (write_snapshot _ _ _ _ _).
Qed.

Ltac within_quiet := eapply wp_quiet; [eassumption|apply _|apply _|intros ? ?; split; [intros ?; assumption|intros ?]].
Ltac within_step :=
  lazymatch goal with
  | |- within _ _ => assumption
  | |- wp get_membership _ _ _ => eapply wp_membership_within; [eassumption|intros ?; assumption|intros ? ?]
  | |- wp (modify_federation _ _) _ _ _ => within_quiet
  | |- wp (modify_federate _ _) _ _ _ => within_quiet
  | |- wp (commit_regions _ _) _ _ _ => within_quiet
  | |- wp (persist_federation_snapshot_on_success _) _ _ _ => within_quiet
  | |- wp (notify _ _ _) _ _ _ => eapply wp_notify_within; [eassumption|eassumption|intros ? ?]
  | |- wp (on_federation _ _) _ _ _ => eapply wp_effect_within; [apply _|apply _|eassumption|eassumption|intros ? ?]
  | |- wp (modify (λ s, set_ds_callbacks _ s)) _ _ _ => eapply wp_report_within; [eassumption|intros ? ?]
  | |- _ => wp_step
  end; cbn beta.

Section confinement.
Context {P : Prost} {X : QuickXml} {J : Serde} {O : Os}.

Lemma services_within v s :
  membership_request v = false → within s (run (dispatch_variant v) s).1.
Proof.
  intros Hv. apply (run_wp _ (λ _, within s)). pose proof (within_refl s) as Hs.
  destruct v; try discriminate Hv; clear Hv; arm; autounfold with services; repeat within_step.
Qed.

Lemma membership_quiet v s : membership_request v = true → quiet s (run (dispatch_variant v) s).1.
Proof.
  intros Hv. apply (run_wp _ (λ _, quiet s)).
  destruct v; try discriminate Hv; clear Hv; arm;
    unfold create_federation_call, create_federation_inner, destroy_federation_execution, join_call, join, resign.
  all: repeat (wp_step || apply wp_modify); done.
Qed.

(** C17: messages stay in the federation.  Whatever the request, a callback
    that it adds goes to the connection of a member of the federation that
    the caller had joined, or to the caller's own connection; a session that
    has joined nothing can cause a message to nobody but itself. *)
Theorem dispatch_confined request s cb :
  cb ∈ ds_callbacks (run (dispatch_call request) s).1 →
  cb ∈ ds_callbacks s ∨
  (∃ m fh fs, membership (ds_ctx s) = Some m ∧ federates (federation_of m s) !! fh = Some fs ∧
     connections (ds_node s) !! fs_session_id fs = Some (target cb)) ∨
  connections (ds_node s) !! ctx_session_id (ds_ctx s) = Some (target cb).
Proof.
  destruct request as [v|]; [|by left]. cbn [dispatch_call]. destruct (membership_request v) eqn:Hv.
  - rewrite (membership_quiet v s Hv). by left.
  - intros [?|[(m & Hm & fh & fs & ?)|?]]%(wi_callbacks _ _ (services_within v s Hv)); [by left|right; left|by right; right].
    by exists m, fh, fs.
Qed.
End confinement.

(** *** Witness: the grant of a time advance goes to the federate's connection *)
Definition connected_member : DispatchState :=
  set_ds_node (set_connections (λ _, {[7 := 3%positive]})) member_of_demo.

Lemma dispatch_confined_witness :
  let s' := (run (demo_dispatch EnableTimeConstrainedRequest) connected_member).1 in
  ds_callbacks s' = [mkOutboundCallback 3%positive []] ∧
  ((∃ m fh fs, membership (ds_ctx connected_member) = Some m ∧
     federates (federation_of m connected_member) !! fh = Some fs ∧
     connections (ds_node connected_member) !! fs_session_id fs = Some 3%positive) ∨
   connections (ds_node connected_member) !! 7 = Some 3%positive).
Proof.
  assert (He : ds_callbacks (run (demo_dispatch EnableTimeConstrainedRequest) connected_member).1 =
    [mkOutboundCallback 3%positive []]) by (vm_compute; reflexivity).
  split; [exact He|].
  destruct (dispatch_confined (P := demo_prost) (X := no_xml) (J := digit_serde) (O := reliable_os)
    (Some EnableTimeConstrainedRequest) connected_member (mkOutboundCallback 3%positive [])) as [H|H].
  - unfold demo_dispatch in He. rewrite He. by apply list_elem_of_singleton.
  - vm_compute in H. by apply elem_of_nil in H.
  - exact H.
Defined.
