(* ===== verification/Server.v ===== *)
(** * The server

    The rest of [hla-rti/src/lib.rs]: the accept loops, the limits, the task
    of a connection from the first frame to its end, and the janitor.

    Tasks run concurrently and meet in the maps and atomics of the node, so a
    task is a [Phase]: the point it waits at, with what it holds.  One
    [Event] is what lets a task go on from such a point (a frame arrived, a
    write finished, the scheduler chose it) and takes it to the next one; it
    touches the shared state of the node in one place.  [step] runs an event
    and is [None] when the event is not possible, so that a list of events is
    one interleaving of the tasks.  Sockets are the events: what
    [recv_frame] returns, whether [send_frame] succeeds.  Instants are
    milliseconds; log messages are left out. *)

From S2P Require Import Prelude Float64 CoreTypes Framing Codec Fom Merge Exception Proto State Handles Routing.
From S2P Require Import Transport WireSession Handler FederationMgmt Persistence Dispatch.

(** [CallRequest::decode] with the text of its error, and
    [CallResponse::encode_to_vec]. *)
Class ProstCalls := {
  decode_request : list byte → result string (option Req);
  encode_response : Resp → list byte
}.

(** ** Methods of the node *)

Definition connection_count (node : RtiNode) : nat := size (connections node).
Definition has_connection (sid : Z) (node : RtiNode) : bool := bool_decide (is_Some (connections node !! sid)).
Definition suspended_session_count (node : RtiNode) : nat := size (suspended_sessions node).
Definition has_suspended_session (sid : Z) (node : RtiNode) : bool :=
  bool_decide (is_Some (suspended_sessions node !! sid)).
Definition federation_names (node : RtiNode) : list string := (map_to_list (federations node)).*1.

Definition shutdown (node : RtiNode) : RtiNode := set_shutdown_flag (λ _, true) node.
Definition RtiNode_set_save_dir (dir : string) (node : RtiNode) : RtiNode := set_save_dir (λ _, dir) node.
Definition set_connection_limits (l : ConnectionLimits) (node : RtiNode) : RtiNode := set_limits (λ _, l) node.
Definition RtiNode_set_default_fom (fom : MergedFom) (node : RtiNode) : RtiNode := set_default_fom (λ _, fom) node.
Definition set_heartbeat_config (cfg : HeartbeatConfig) (node : RtiNode) : RtiNode := set_heartbeat (λ _, cfg) node.

(** The snapshot has the fields of the metrics. *)
Definition metrics_snapshot (node : RtiNode) : RtiNode * ServerMetrics :=
  let node := set_metrics (set_federations_live (λ _, wrap_u 64 (Z.of_nat (size (federations node))))) node in
  (node, metrics node).

Definition check_limits (ip : Z) (node : RtiNode) : result string unit :=
  if match max_total (limits node) with
     | Some max => (max <=? size (connections node))%nat
     | None => false
     end
  then Err "max_total"%string
  else match max_per_ip (limits node) with
  | Some max => if (max <=? default 0 (connections_per_ip node !! ip))%nat then Err "max_per_ip"%string else Ok tt
  | None => Ok tt
  end.

(** ** Tasks *)

(** What [run_session_loop] owns. *)
Record SessionLoop := mkSessionLoop {
  sl_conn : ConnRef;
  sl_ctx : SessionContext;
  sl_hb : HeartbeatConfig;
  last_inbound : Z
}.

(** What the session loop does after [frame_tx.send(frame).await]. *)
Inductive AfterSend :=
| After_response (callbacks : list OutboundCallback)
| After_callback (callbacks : list OutboundCallback)
| After_terminate
| After_heartbeat.

Inductive Phase :=
(** the WebSocket or TLS handshake *)
| Upgrading
(** the first [source.recv_frame()] *)
| Opening
(** [sink.send_frame] of the status, and how the task goes on after it: with
    a session id and the membership restored, or not at all *)
| Replying (reply : Frame) (next : option (Z * option Membership))
(** before [connections.insert] *)
| Registering (sid : Z) (restored : option Membership)
(** at the [select!] of the session loop *)
| Serving (l : SessionLoop)
(** [frame_tx.send(frame).await] on a channel, in the session loop *)
| Sending (l : SessionLoop) (conn : ConnRef) (frame : Frame) (after : AfterSend)
(** the session loop has returned *)
| Ended (l : SessionLoop)
(** before [connections.remove] *)
| Unregistering (sid : Z) (conn : ConnRef)
(** [writer.await], [heartbeat_task.await] *)
| Draining (conn : ConnRef)
(** before [connections_per_ip] is decremented *)
| Releasing
(** between [drop(entry)] and [connections_per_ip.remove] *)
| RemovingIp.

(** [t_sent]: the frames put on the socket. *)
Record Task := mkTask { t_ip : Z; t_candidate : Z; t_phase : Phase; t_sent : list Frame }.

(** A heartbeat sender: the frame it waits to send, and whether it was aborted. *)
Record Heartbeat := mkHeartbeat { hb_pending : option Frame; hb_aborted : bool }.

(** [sv_closed]: the channels whose receiver is gone, because the writer has
    exited.  [sv_expired]: what the janitor has still to go through. *)
Record Server := mkServer {
  sv_node : RtiNode;
  sv_disk : gmap string string;
  sv_now : Z;
  sv_tasks : gmap positive Task;
  sv_closed : gset ConnRef;
  sv_heartbeats : gmap ConnRef Heartbeat;
  sv_expired : list Z
}.
Definition set_sv_node (g : RtiNode → RtiNode) (s : Server) : Server :=
  mkServer (g (sv_node s)) (sv_disk s) (sv_now s) (sv_tasks s) (sv_closed s) (sv_heartbeats s) (sv_expired s).
Definition set_sv_now (g : Z → Z) (s : Server) : Server :=
  mkServer (sv_node s) (sv_disk s) (g (sv_now s)) (sv_tasks s) (sv_closed s) (sv_heartbeats s) (sv_expired s).
Definition set_sv_tasks (g : gmap positive Task → gmap positive Task) (s : Server) : Server :=
  mkServer (sv_node s) (sv_disk s) (sv_now s) (g (sv_tasks s)) (sv_closed s) (sv_heartbeats s) (sv_expired s).
Definition set_sv_closed (g : gset ConnRef → gset ConnRef) (s : Server) : Server :=
  mkServer (sv_node s) (sv_disk s) (sv_now s) (sv_tasks s) (g (sv_closed s)) (sv_heartbeats s) (sv_expired s).
Definition set_sv_heartbeats (g : gmap ConnRef Heartbeat → gmap ConnRef Heartbeat) (s : Server) : Server :=
  mkServer (sv_node s) (sv_disk s) (sv_now s) (sv_tasks s) (sv_closed s) (g (sv_heartbeats s)) (sv_expired s).
Definition set_sv_expired (g : list Z → list Z) (s : Server) : Server :=
  mkServer (sv_node s) (sv_disk s) (sv_now s) (sv_tasks s) (sv_closed s) (sv_heartbeats s) (g (sv_expired s)).
Definition set_sv_disk (g : gmap string string → gmap string string) (s : Server) : Server :=
  mkServer (sv_node s) (g (sv_disk s)) (sv_now s) (sv_tasks s) (sv_closed s) (sv_heartbeats s) (sv_expired s).

Definition Server_new (node : RtiNode) (disk : gmap string string) : Server :=
  mkServer node disk 0 ∅ ∅ ∅ [].

Definition set_phase (ph : Phase) (task : Task) : Task := mkTask (t_ip task) (t_candidate task) ph (t_sent task).
Definition add_sent (f : Frame) (task : Task) : Task :=
  mkTask (t_ip task) (t_candidate task) (t_phase task) (t_sent task ++ [f]).
Definition goto (t : positive) (ph : Phase) : Server → Server := set_sv_tasks (alter (set_phase ph) t).
Definition finish (t : positive) : Server → Server := set_sv_tasks (delete t).

(** ** Accepting *)

Inductive Listener := L_tcp | L_ws | L_tls.

Definition count_accepted : RtiNode → RtiNode := set_metrics (set_connections_accepted (fetch_add64 1)).
Definition count_rejected : RtiNode → RtiNode := set_metrics (set_connections_rejected (fetch_add64 1)).

(** [next_session_id.fetch_add], the count for the address, [tokio::spawn]. *)
Definition spawn (ip : Z) (ph : Phase) (s : Server) : Server :=
  let sid := next_session_id (sv_node s) in
  set_sv_tasks (insert (fresh (dom (sv_tasks s))) (mkTask ip sid ph []))
    (set_sv_node (λ node, set_connections_per_ip (λ m, <[ip := S (default 0%nat (m !! ip))]> m)
      (set_next_session_id (fetch_add64 1) node)) s).

(** One iteration of the three accept loops, once [accept()] has returned a socket. *)
Definition accept_loop (ip : Z) (s : Server) : Server :=
  match check_limits ip (sv_node s) with
  | Err _ => set_sv_node count_rejected s
  | Ok _ => spawn ip Opening (set_sv_node count_accepted s)
  end.
Definition serve_ws (ip : Z) (s : Server) : Server :=
  match check_limits ip (sv_node s) with
  | Err _ => set_sv_node count_rejected s
  | Ok _ => spawn ip Upgrading (set_sv_node count_accepted s)
  end.
Definition serve_tls (ip : Z) (s : Server) : Server :=
  match check_limits ip (sv_node s) with
  | Err _ => s
  | Ok _ => spawn ip Upgrading s
  end.
Definition accept (l : Listener) : Z → Server → Server :=
  match l with L_tcp => accept_loop | L_ws => serve_ws | L_tls => serve_tls end.

(** [connections_per_ip.get_mut(&ip)] and [saturating_sub(1)]. *)
Definition decrement_ip (ip : Z) : RtiNode → RtiNode := set_connections_per_ip (alter pred ip).

(** A failed upgrade: the count goes down, the entry stays. *)
Definition upgrade_failed (t : positive) (ip : Z) (s : Server) : Server :=
  finish t (set_sv_node (decrement_ip ip) s).

(** The end of the spawned task, and its last statement. *)
Definition release_ip (t : positive) (ip : Z) (s : Server) : Server :=
  let s' := set_sv_node (decrement_ip ip) s in
  match connections_per_ip (sv_node s') !! ip with
  | Some 0%nat => goto t RemovingIp s'
  | _ => finish t s'
  end.
Definition remove_ip (t : positive) (ip : Z) (s : Server) : Server :=
  finish t (set_sv_node (set_connections_per_ip (delete ip)) s).

(** ** The first frame *)

(** The answer to [CTRL_NEW_SESSION]: the reply, and the error the task ends with. *)
Definition new_session_reply (candidate : Z) (first : Frame) : result SessionError (Frame * option SessionError) :=
  p ← map_err (λ e, CodecErr (FrameErr e)) (NewSessionPayload_decode (payload first));
  let reason := if protocol_version p =? FEDERATE_PROTOCOL_VERSION then Success else UnsupportedProtocolVersion in
  let hdr := with_payload_size (Z.of_nat NewSessionStatusPayload_SIZE) NO_SEQUENCE_NUMBER candidate
    (sequence_number (header first)) CtrlNewSessionStatus in
  Ok (Frame_new hdr (NewSessionStatusPayload_encode {| nss_reason := reason |}),
      if decide (reason ≠ Success) then Some (UnsupportedVersion (protocol_version p)) else None).

(** [suspended_sessions.remove], and what it found when the deadline is not over. *)
Definition restored_session (now requested : Z) (node : RtiNode) : option (option Membership) :=
  match suspended_sessions node !! requested with
  | Some ss => if now <? deadline ss then Some (ss_membership ss) else None
  | None => None
  end.

Definition resume_reply (requested : Z) (first : Frame) (reason : NewSessionStatusReason) : Frame :=
  let resume_session_id := if decide (reason = Success) then requested else NO_SESSION_ID in
  let hdr := with_payload_size (Z.of_nat ResumeStatusPayload_SIZE) NO_SEQUENCE_NUMBER resume_session_id
    (sequence_number (header first)) CtrlResumeStatus in
  Frame_new hdr (ResumeStatusPayload_encode {| rs_reason := reason |}).

Definition first_frame (t : positive) (candidate : Z) (first : Frame) (s : Server) : Server :=
  match message_type (header first) with
  | CtrlNewSession =>
      match new_session_reply candidate first with
      | Err _ => goto t Releasing s
      | Ok (reply, None) => goto t (Replying reply (Some (candidate, None))) s
      | Ok (reply, Some _) => goto t (Replying reply None) s
      end
  | CtrlResumeRequest =>
      let requested := session_id (header first) in
      let restored := restored_session (sv_now s) requested (sv_node s) in
      let s' := set_sv_node (set_suspended_sessions (delete requested)) s in
      match restored with
      | Some m => goto t (Replying (resume_reply requested first Success) (Some (requested, m))) s'
      | None => goto t (Replying (resume_reply requested first Framing.OtherError) None) s'
      end
  | _ => goto t Releasing s
  end.

(** [sink.send_frame(..).await?] has ended. *)
Definition reply_sent (t : positive) (reply : Frame) (next : option (Z * option Membership))
    (r : result CodecError unit) (s : Server) : Server :=
  match r with
  | Err _ => goto t Releasing s
  | Ok _ =>
      let s' := set_sv_tasks (alter (add_sent reply) t) s in
      match next with
      | Some (sid, m) => goto t (Registering sid m) s'
      | None => goto t Releasing s'
      end
  end.

(** ** The session loop *)

(** From the handshake to the first [select!]: the writer and the heartbeat
    task are started, the connection is registered. *)
Definition register (t : positive) (sid : Z) (restored : option Membership) (s : Server) : Server :=
  let c : ConnRef := fresh (dom (conn_heap (sv_node s))) in
  let l := mkSessionLoop c (mkSessionContext sid restored) (heartbeat (sv_node s)) (sv_now s) in
  goto t (Serving l)
    (set_sv_heartbeats (insert c (mkHeartbeat None false))
      (set_sv_node (λ node, set_connections (insert sid c)
        (set_conn_heap (insert c (mkConnectionHandle sid [] 0))
          (set_metrics (set_sessions_opened (fetch_add64 1)) node))) s)).

(** The capacity of [mpsc::channel::<Frame>(128)]. *)
Definition CHANNEL_CAPACITY : nat := 128.

(** [frame_tx.send(frame).await]: waits while the channel is full, fails when
    its receiver is gone. *)
Definition channel_send (c : ConnRef) (f : Frame) (s : Server) : option (Server * bool) :=
  if decide (c ∈ sv_closed s) then Some (s, false)
  else if (length (frame_tx (conn_at (sv_node s) c)) <? CHANNEL_CAPACITY)%nat
  then Some (set_sv_node (set_conn_heap (alter (set_frame_tx (λ q, q ++ [f])) c)) s, true)
  else None.

Section session_loop.
Context {P : Prost} {PC : ProstCalls} {X : QuickXml} {J : Serde} {O : Os}.

(** [for cb in outcome.callbacks]: the next [into_frame] and [send]. *)
Definition deliver (t : positive) (l : SessionLoop) (cbs : list OutboundCallback) (s : Server) : Server :=
  match cbs with
  | [] => goto t (Serving l) s
  | cb :: cbs =>
      let '(node, frame) := into_frame cb (sv_node s) in
      goto t (Sending l (target cb) frame (After_callback cbs)) (set_sv_node (λ _, node) s)
  end.

Definition is_exception (r : Resp) : bool := match r with ExceptionData _ _ => true | _ => false end.

(** [HLA_CALL_REQUEST]: decode, dispatch, count, and the response frame. *)
Definition call_outcome (ctx : SessionContext) (request : list byte) (s : Server) : DispatchState * Resp :=
  let node := set_metrics (set_calls_dispatched (fetch_add64 1)) (sv_node s) in
  let ds := mkDispatchState node ctx [] (sv_disk s) in
  match decode_request request with
  | Ok req => run (dispatch_call req) ds
  | Err e => (ds, exception_variant RtiInternalError (D_cat [D_str "malformed CallRequest: "; D_str e]))
  end.

Definition count_outcome (r : Resp) (callbacks : nat) (node : RtiNode) : RtiNode :=
  let node := if is_exception r then set_metrics (set_call_exceptions (fetch_add64 1)) node else node in
  set_metrics (set_callbacks_emitted (fetch_add64 (Z.of_nat callbacks))) node.

Definition response_frame (sid seq : Z) (r : Resp) : Frame :=
  let encoded := HlaCallResponsePayload_encode
    {| response_to_sequence_number := seq; Framing.body := encode_response r |} in
  Frame_new (with_payload_size (wrap_u 32 (Z.of_nat (length encoded))) NO_SEQUENCE_NUMBER sid seq HlaCallResponse)
    encoded.

Definition on_call (t : positive) (l : SessionLoop) (frame : Frame) (s : Server) : Server :=
  let '(ds, r) := call_outcome (sl_ctx l) (payload frame) s in
  let l' := mkSessionLoop (sl_conn l) (ds_ctx ds) (sl_hb l) (last_inbound l) in
  let f := response_frame (ctx_session_id (sl_ctx l)) (sequence_number (header frame)) r in
  goto t (Sending l' (sl_conn l) f (After_response (ds_callbacks ds)))
    (set_sv_disk (λ _, ds_disk ds)
      (set_sv_node (λ _, count_outcome r (length (ds_callbacks ds)) (ds_node ds)) s)).

(** A control frame the session loop answers with. *)
Definition control_frame (sid last_received : Z) (ty : MessageType) : Frame :=
  Frame_new (with_payload_size 0 NO_SEQUENCE_NUMBER sid last_received ty) [].

(** The body of the loop on a frame. *)
Definition on_frame (t : positive) (l : SessionLoop) (frame : Frame) (s : Server) : Server :=
  let l := mkSessionLoop (sl_conn l) (sl_ctx l) (sl_hb l) (sv_now s) in
  let sid := ctx_session_id (sl_ctx l) in
  let last_received_seq := sequence_number (header frame) in
  match message_type (header frame) with
  | HlaCallRequest => on_call t l frame s
  | CtrlTerminateSession =>
      goto t (Sending l (sl_conn l) (control_frame sid last_received_seq CtrlSessionTerminated) After_terminate) s
  | CtrlHeartbeat =>
      goto t (Sending l (sl_conn l) (control_frame sid last_received_seq CtrlHeartbeatResponse) After_heartbeat) s
  | _ => goto t (Serving l) s
  end.

(** [source.recv_frame()] has ended: a frame, the end of the stream or an error. *)
Definition frame_received (t : positive) (l : SessionLoop) (r : result CodecError Frame) (s : Server) : Server :=
  match r with
  | Ok frame => on_frame t l frame s
  | Err _ => goto t (Ended l) s
  end.

(** [liveness_interval.tick()] *)
Definition liveness_tick (t : positive) (l : SessionLoop) (s : Server) : Server :=
  if missing_timeout (sl_hb l) <? sv_now s - last_inbound l
  then goto t (Ended l) (set_sv_node (set_metrics (set_sessions_reaped (fetch_add64 1))) s)
  else s.

Definition after_send (t : positive) (l : SessionLoop) (after : AfterSend) (sent : bool) (s : Server) : Server :=
  match after with
  | After_response cbs => if sent then deliver t l cbs s else goto t (Ended l) s
  | After_callback cbs => deliver t l cbs s
  | After_terminate => goto t (Ended l) s
  | After_heartbeat => goto t (Serving l) s
  end.

(** ** The end of a connection *)

(** [m.federation.federates.write().remove(&m.federate_handle)] *)
Definition auto_resign (m : Membership) : RtiNode → RtiNode :=
  fed_update (m_federation m) (set_federates (delete (m_federate_handle m))).

Definition close_session (t : positive) (l : SessionLoop) (s : Server) : Server :=
  let sid := ctx_session_id (sl_ctx l) in
  let window := reconnect_window (sl_hb l) in
  let s' :=
    match membership (sl_ctx l) with
    | Some m =>
        if 0 <? window
        then set_sv_node (set_suspended_sessions (insert sid (mkSuspendedSession (Some m) (sv_now s + window)))) s
        else set_sv_node (auto_resign m) s
    | None => s
    end in
  goto t (Unregistering sid (sl_conn l)) s'.

(** [connections.remove(&session_id)], [heartbeat_task.abort()], [drop(frame_tx)]. *)
Definition unregister (t : positive) (sid : Z) (c : ConnRef) (s : Server) : Server :=
  goto t (Draining c)
    (set_sv_heartbeats (alter (λ h, mkHeartbeat (hb_pending h) true) c)
      (set_sv_node (set_connections (delete sid)) s)).

(** ** The writer and the heartbeat task *)

Definition conn_of (ph : Phase) : option ConnRef :=
  match ph with
  | Serving l | Sending l _ _ _ | Ended l => Some (sl_conn l)
  | Unregistering _ c | Draining c => Some c
  | _ => None
  end.

(** The channels a task will still send on. *)
Definition after_targets (after : AfterSend) : list ConnRef :=
  match after with
  | After_response cbs | After_callback cbs => target <$> cbs
  | After_terminate | After_heartbeat => []
  end.
Definition sender_of_phase (ph : Phase) (c : ConnRef) : bool :=
  match ph with
  | Serving l | Ended l => bool_decide (sl_conn l = c)
  | Sending l c' _ after => bool_decide (sl_conn l = c) || bool_decide (c' = c) || bool_decide (c ∈ after_targets after)
  | Unregistering _ c' => bool_decide (c' = c)
  | _ => false
  end.
(** Someone can still send on [c]. *)
Definition has_sender (c : ConnRef) (s : Server) : bool :=
  existsb (λ task, sender_of_phase (t_phase task) c) (map_to_list (sv_tasks s)).*2
  || bool_decide (is_Some (sv_heartbeats s !! c))
  || existsb (λ c', bool_decide (c' = c)) (map_to_list (connections (sv_node s))).*2.

(** [frame_rx.recv()] and [sink.send_frame(&frame)]: the next frame is on
    the socket, or the write failed and the writer leaves its loop; with no
    frame and no sender left the writer ends too.  Taking the frame and writing
    it are one step: the time a transport takes to accept a frame is the time
    until the event comes, and a frame being written counts as queued. *)
Definition write_next (t : positive) (c : ConnRef) (written : bool) (s : Server) : option Server :=
  if decide (c ∈ sv_closed s) then None
  else match frame_tx (conn_at (sv_node s) c) with
  | f :: q =>
      if written
      then Some (set_sv_tasks (alter (add_sent f) t)
             (set_sv_node (set_conn_heap (alter (set_frame_tx (λ _, q)) c)) s))
      else Some (set_sv_closed (union {[c]}) (set_sv_node (set_conn_heap (alter (set_frame_tx (λ _, [])) c)) s))
  | [] => if has_sender c s then None else Some (set_sv_closed (union {[c]}) s)
  end.

(** [interval.tick()]: the heartbeat claims a number; its [send] follows. *)
Definition heartbeat_tick (c : ConnRef) (s : Server) : Server :=
  let conn := conn_at (sv_node s) c in
  let '(seq, next) := claim_next_outbound_seq (next_outbound_seq conn) in
  let f := Frame_new (with_payload_size 0 seq (conn_session_id conn) NO_SEQUENCE_NUMBER CtrlHeartbeat) [] in
  set_sv_heartbeats (alter (λ h, mkHeartbeat (Some f) (hb_aborted h)) c)
    (set_sv_node (set_conn_heap (alter (set_next_outbound_seq (λ _, next)) c)) s).
Definition heartbeat_send (c : ConnRef) (f : Frame) (s : Server) : option Server :=
  match channel_send c f s with
  | Some (s', true) => Some (set_sv_heartbeats (alter (λ h, mkHeartbeat None (hb_aborted h)) c) s')
  | Some (s', false) => Some (set_sv_heartbeats (delete c) s')
  | None => None
  end.

(** ** The janitor *)

(** One tick: the expired sessions, then each in turn. *)
Definition janitor_scan (s : Server) : Server :=
  set_sv_expired (λ _, (map_to_list (filter (λ e, deadline e.2 ≤ sv_now s) (suspended_sessions (sv_node s)))).*1) s.
(** The removal of the session and that of the federate behind it are one step
    here; the source holds no lock between them. *)
Definition janitor_expire (sid : Z) (s : Server) : Server :=
  match suspended_sessions (sv_node s) !! sid with
  | Some ss =>
      set_sv_node (λ node,
        match ss_membership ss with Some m => auto_resign m | None => id end
          (set_suspended_sessions (delete sid) node)) s
  | None => s
  end.
Definition run_suspended_session_janitor (s : Server) : Server :=
  set_sv_expired (λ _, []) (foldl (λ s sid, janitor_expire sid s) s (sv_expired (janitor_scan s))).

(** ** Events *)

(** The methods of the node that a program may call at any time. *)
Inductive Admin :=
| Admin_shutdown
| Admin_set_save_dir (dir : string)
| Admin_set_connection_limits (l : ConnectionLimits)
| Admin_set_default_fom (fom : MergedFom)
| Admin_set_heartbeat_config (cfg : HeartbeatConfig)
| Admin_metrics_snapshot.

Definition admin (a : Admin) : RtiNode → RtiNode :=
  match a with
  | Admin_shutdown => shutdown
  | Admin_set_save_dir dir => RtiNode_set_save_dir dir
  | Admin_set_connection_limits l => set_connection_limits l
  | Admin_set_default_fom fom => RtiNode_set_default_fom fom
  | Admin_set_heartbeat_config cfg => set_heartbeat_config cfg
  | Admin_metrics_snapshot => λ node, (metrics_snapshot node).1
  end.

Inductive Event :=
| Ev_accept (l : Listener) (ip : Z)
| Ev_task (t : positive) (e : TaskEvent)
| Ev_heartbeat_tick (c : ConnRef)
| Ev_heartbeat_send (c : ConnRef)
| Ev_heartbeat_stop (c : ConnRef)
| Ev_janitor_scan
| Ev_janitor_expire
| Ev_time (d : Z)
| Ev_admin (a : Admin)
with TaskEvent :=
(** the upgrade has ended *)
| T_upgraded (ok : bool)
(** [recv_frame] has returned *)
| T_frame (r : result CodecError Frame)
(** [send_frame] of the status has returned *)
| T_reply (r : result CodecError unit)
| T_liveness
| T_cancelled
(** the writer task goes on *)
| T_writer (written : bool)
(** the task goes on *)
| T_go.

Definition task_step (t : positive) (task : Task) (e : TaskEvent) (s : Server) : option Server :=
  let down := shutdown_flag (sv_node s) in
  match t_phase task, e with
  | Upgrading, T_upgraded true => Some (goto t Opening s)
  | Upgrading, T_upgraded false => Some (upgrade_failed t (t_ip task) s)
  | Opening, T_frame (Ok f) => Some (first_frame t (t_candidate task) f s)
  | Opening, T_frame (Err _) => Some (goto t Releasing s)
  | Replying reply next, T_reply r => Some (reply_sent t reply next r s)
  | Registering sid m, T_go => Some (register t sid m s)
  | Serving l, T_frame r => if down then None else Some (frame_received t l r s)
  | Serving l, T_liveness => if down then None else Some (liveness_tick t l s)
  | Serving l, T_cancelled => if down then Some (goto t (Ended l) s) else None
  | Sending l c f after, T_go =>
      '(s', sent) ← channel_send c f s;
      Some (after_send t l after sent s')
  | Ended l, T_go => Some (close_session t l s)
  | Unregistering sid c, T_go => Some (unregister t sid c s)
  | Draining c, T_go =>
      if bool_decide (c ∈ sv_closed s) && bool_decide (sv_heartbeats s !! c = None)
      then Some (goto t Releasing s) else None
  | Releasing, T_go => Some (release_ip t (t_ip task) s)
  | RemovingIp, T_go => Some (remove_ip t (t_ip task) s)
  | ph, T_writer written => c ← conn_of ph; write_next t c written s
  | _, _ => None
  end.

Definition step (e : Event) (s : Server) : option Server :=
  match e with
  | Ev_accept l ip => if shutdown_flag (sv_node s) then None else Some (accept l ip s)
  | Ev_task t e => task ← sv_tasks s !! t; task_step t task e s
  | Ev_heartbeat_tick c =>
      h ← sv_heartbeats s !! c;
      match hb_pending h with None => Some (heartbeat_tick c s) | Some _ => None end
  | Ev_heartbeat_send c =>
      h ← sv_heartbeats s !! c; f ← hb_pending h; heartbeat_send c f s
  | Ev_heartbeat_stop c =>
      h ← sv_heartbeats s !! c;
      if hb_aborted h then Some (set_sv_heartbeats (delete c) s) else None
  | Ev_janitor_scan =>
      match sv_expired s with
      | [] => if shutdown_flag (sv_node s) then None else Some (janitor_scan s)
      | _ => None
      end
  | Ev_janitor_expire =>
      match sv_expired s with
      | sid :: rest => Some (set_sv_expired (λ _, rest) (janitor_expire sid s))
      | [] => None
      end
  | Ev_time d => if 0 <=? d then Some (set_sv_now (Z.add d) s) else None
  | Ev_admin a => Some (set_sv_node (admin a) s)
  end.

(** A run: an interleaving that is possible. *)
Fixpoint steps (es : list Event) (s : Server) : option Server :=
  match es with
  | [] => Some s
  | e :: es => s' ← step e s; steps es s'
  end.
End session_loop.
