(* ===== verification/Atomicity.v ===== *)
(** * Failed calls

    What the dispatcher leaves behind when it answers with an exception.  The
    handlers of [dispatch/*.rs] check before they change anything, with three
    exceptions: join and register claim an identifier before they know the
    name is free, and [commit_region_modifications] commits region by
    region. *)

From S2P Require Import Prelude Float64 CoreTypes Fom Merge Exception Proto State Subscription Handles Routing.
From S2P Require Import TimeCoord Handler Tso TimeMgmt Declaration Ddm ObjectMgmt DataFlow Ownership SyncPoints.
From S2P Require Import FederationMgmt Persistence SaveRestore Advisories Lookup Dispatch Isolation Server.

(** [s] is [s0], or [s0] with one identifier of a federation used up. *)
Inductive unharmed (s0 : DispatchState) : DispatchState → Prop :=
| un_same : unharmed s0 s0
| un_federate_id r : unharmed s0 (set_ds_node (fed_update r (set_next_federate_id (fetch_add32 1))) s0)
| un_object_id r : unharmed s0 (set_ds_node (fed_update r (set_next_object_id (fetch_add64 1))) s0).

Definition clean (s0 : DispatchState) (r : Resp) (s : DispatchState) : Prop := is_exception r = true → unharmed s0 s.

Ltac head_of t := lazymatch t with ?f _ => head_of f | _ => t end.

(** Walk through a handler: every step is resolved to its outcomes, handlers
    are unfolded as they come up. *)
Ltac wp_walk :=
  repeat first
    [ progress cbv zeta
    | lazymatch goal with
      | |- wp (modify _) _ _ _ => apply wp_modify
      | |- wp _ _ _ _ => wp_step
      end
    | lazymatch goal with |- wp ?m _ _ _ => let h := head_of m in unfold h end ].

Definition commits_regions (v : Req) : Prop :=
  match v with CommitRegionModificationsRequest _ => True | _ => False end.

Section atomicity.
Context {P : Prost} {X : QuickXml} {J : Serde} {O : Os}.

Lemma dispatch_clean v s : ¬ commits_regions v → wp (dispatch_variant v) (clean s) (clean s) s.
Proof.
  intros Hv. destruct v; arm; try (exfalso; exact (Hv I)); clear Hv;
    wp_walk; solve [discriminate | intros _; constructor].
Qed.

(** C9: a call that fails changes nothing.  Whatever the request (but
    [commitRegionModifications]) and the state, when the dispatcher answers
    with an exception, every federation, the session, the queued callbacks and
    the files are exactly as before; at most one federate or object
    identifier of a federation has been used up.  On the request without a
    variant the same holds. *)
Theorem failed_calls_change_nothing request s :
  (∀ v, request = Some v → ¬ commits_regions v) →
  let '(s', r) := run (dispatch_call request) s in
  is_exception r = true → unharmed s s'.
Proof.
  intros Hv. apply (run_wp_let _ (clean s)). destruct request as [v|].
  - apply dispatch_clean. by apply Hv.
  - intros _. constructor.
Qed.
End atomicity.

(** *** Witnesses *)

(** Federate 2 updates an attribute that federate 1 owns. *)
Definition foreign_update : Req := UpdateAttributeValuesRequest (Some upd_instance_arg) upd_values_arg [].

Lemma failed_calls_witness :
  let '(s', r) := run (demo_dispatch foreign_update) (demo_state 2 upd_federation) in
  r = exception_variant AttributeNotOwned "" ∧ unharmed (demo_state 2 upd_federation) s'.
Proof.
  pose proof (failed_calls_change_nothing (P := demo_prost) (X := no_xml) (J := digit_serde) (O := reliable_os)
    (Some foreign_update) (demo_state 2 upd_federation)) as H.
  assert (Hr : (run (demo_dispatch foreign_update) (demo_state 2 upd_federation)).2 =
    exception_variant AttributeNotOwned "") by (vm_compute; reflexivity).
  unfold demo_dispatch in *. destruct (run _ _) as [s' r]. split; [exact Hr|]. apply H.
  - intros v [= <-] [].
  - simpl in Hr. rewrite Hr. reflexivity.
Defined.
