(* ===== verification/Sessions.v ===== *)
(** * Who speaks for which federate

    The session table is the abstract view of the server of [Server]: the
    sessions that a connection task owns, the suspended ones, and the session
    behind each federate of each federation.  Every step of the server, in
    whatever order the tasks run, is a step of the table (a simulation); the
    invariants of the table then hold of every run of the server. *)

From S2P Require Import Prelude Float64 CoreTypes Framing Codec Fom Merge Exception Proto State Handles Routing.
From S2P Require Import Declaration Transport WireSession Handler FederationMgmt Persistence SaveRestore Dispatch Isolation Members Server.

(** ** The table *)

Definition Members : Type := FedRef → FederateHandle → option Z.

Record Table := mkTable {
  tb_live : gmap positive (Z * option Membership);
  tb_waiting : gmap Z (option Membership);
  tb_next : Z;
  tb_member : Members
}.

(** [mem'] is [mem] with [v] at the federate of [m]. *)
Definition put (m : Membership) (v : option Z) (mem mem' : Members) : Prop :=
  ∀ r fh, mem' r fh = if decide ((r, fh) = (m_federation m, m_federate_handle m)) then v else mem r fh.
Definition put_opt (om : option Membership) (v : option Z) (mem mem' : Members) : Prop :=
  match om with Some m => put m v mem mem' | None => ∀ r fh, mem' r fh = mem r fh end.

(** The steps; the flag says that a membership is dropped with nobody left to
    resign it. *)
Inductive table_step : bool → Table → Table → Prop :=
| ts_stutter live wait next mem mem' :
    (∀ r fh, mem' r fh = mem r fh) →
    table_step false (mkTable live wait next mem) (mkTable live wait next mem')
(** a connection is accepted under the next session id *)
| ts_open t live wait next mem :
    live !! t = None →
    table_step false (mkTable live wait next mem) (mkTable (<[t := (next, None)]> live) wait (next + 1) mem)
(** a session that is no member ends *)
| ts_drop t sid live wait next mem :
    live !! t = Some (sid, None) →
    table_step false (mkTable live wait next mem) (mkTable (delete t live) wait next mem)
(** a connection takes over a suspended session *)
| ts_resume t c sid om live wait next mem :
    live !! t = Some (c, None) → wait !! sid = Some om →
    table_step false (mkTable live wait next mem) (mkTable (<[t := (sid, om)]> live) (delete sid wait) next mem)
(** the session joins, or resigns *)
| ts_join t sid m live wait next mem mem' :
    live !! t = Some (sid, None) → mem (m_federation m) (m_federate_handle m) = None → put m (Some sid) mem mem' →
    table_step false (mkTable live wait next mem) (mkTable (<[t := (sid, Some m)]> live) wait next mem')
| ts_resign t sid m live wait next mem mem' :
    live !! t = Some (sid, Some m) → put m None mem mem' →
    table_step false (mkTable live wait next mem) (mkTable (<[t := (sid, None)]> live) wait next mem')
(** the connection of a member ends: suspended, or resigned *)
| ts_suspend t sid m live wait next mem :
    live !! t = Some (sid, Some m) →
    table_step false (mkTable live wait next mem) (mkTable (delete t live) (<[sid := Some m]> wait) next mem)
| ts_leave t sid m live wait next mem mem' :
    live !! t = Some (sid, Some m) → put m None mem mem' →
    table_step false (mkTable live wait next mem) (mkTable (delete t live) wait next mem')
(** the janitor reclaims a suspended session *)
| ts_expire sid om live wait next mem mem' :
    wait !! sid = Some om → put_opt om None mem mem' →
    table_step false (mkTable live wait next mem) (mkTable live (delete sid wait) next mem')
(** a suspended session is dropped by a resume that came too late *)
| ts_lose_waiting t c sid om live wait next mem :
    live !! t = Some (c, None) → wait !! sid = Some om →
    table_step true (mkTable live wait next mem) (mkTable (delete t live) (delete sid wait) next mem)
(** a resumed session is dropped because its status could not be written *)
| ts_lose_live t sid m live wait next mem :
    live !! t = Some (sid, Some m) →
    table_step true (mkTable live wait next mem) (mkTable (delete t live) wait next mem).

Record table_wf (tb : Table) : Prop := {
  tw_next : 0 < tb_next tb;
  tw_live t sid om : tb_live tb !! t = Some (sid, om) →
    0 < sid < tb_next tb ∧ tb_waiting tb !! sid = None ∧
    ∀ m, om = Some m → tb_member tb (m_federation m) (m_federate_handle m) = Some sid;
  tw_distinct t1 t2 sid om1 om2 :
    tb_live tb !! t1 = Some (sid, om1) → tb_live tb !! t2 = Some (sid, om2) → t1 = t2;
  tw_waiting sid om : tb_waiting tb !! sid = Some om →
    0 < sid < tb_next tb ∧ ∀ m, om = Some m → tb_member tb (m_federation m) (m_federate_handle m) = Some sid
}.

(** Session [sid] holds the membership [m]. *)
Definition holder (tb : Table) (sid : Z) (m : Membership) : Prop :=
  (∃ t, tb_live tb !! t = Some (sid, Some m)) ∨ tb_waiting tb !! sid = Some (Some m).

(** Every federate has a session that answers for it. *)
Definition no_orphans (tb : Table) : Prop :=
  ∀ r fh sid, tb_member tb r fh = Some sid →
  ∃ m, holder tb sid m ∧ (m_federation m, m_federate_handle m) = (r, fh).

Lemma put_other m v mem mem' m' :
  put m v mem mem' → (m_federation m', m_federate_handle m') ≠ (m_federation m, m_federate_handle m) →
  mem' (m_federation m') (m_federate_handle m') = mem (m_federation m') (m_federate_handle m').
Proof. intros H Hne. rewrite H. by case_decide. Qed.
Lemma put_this m v mem mem' : put m v mem mem' → mem' (m_federation m) (m_federate_handle m) = v.
Proof. intros H. rewrite H. by case_decide. Qed.

(** Removing what a session holds does not touch what another holds. *)
Lemma put_some_other m v mem mem' m' sid' :
  put m v mem mem' → mem (m_federation m) (m_federate_handle m) = None →
  mem (m_federation m') (m_federate_handle m') = Some sid' →
  mem' (m_federation m') (m_federate_handle m') = Some sid'.
Proof. intros Hp H H'. rewrite (put_other m v mem mem' m' Hp); [done|]. intros [= H1 H2]. congruence. Qed.
Lemma put_none_other m sid mem mem' m' sid' :
  put m None mem mem' → mem (m_federation m) (m_federate_handle m) = Some sid →
  mem (m_federation m') (m_federate_handle m') = Some sid' → sid' ≠ sid →
  mem' (m_federation m') (m_federate_handle m') = Some sid'.
Proof. intros Hp H H' Hne. rewrite (put_other m None mem mem' m' Hp); [done|]. intros [= H1 H2]. congruence. Qed.

(** Lookups in an updated table, and what the invariant says of the entries
    that were there. *)
Ltac table_lookups :=
  repeat match goal with
  | H : <[_ := _]> _ !! _ = Some _ |- _ => apply lookup_insert_Some in H as [[? ?]|[? ?]]; simplify_eq
  | H : delete _ _ !! _ = Some _ |- _ => apply lookup_delete_Some in H as [? ?]
  end.
Ltac table_entries Hl Hw :=
  repeat match goal with
  | H : ?live !! ?t = Some (?sid, ?om) |- _ =>
      lazymatch goal with _ : live !! t = Some (sid, om) ∧ _ |- _ => fail | _ => idtac end;
      pose proof (conj H (Hl _ _ _ H))
  end;
  repeat match goal with
  | H : ?wait !! ?sid = Some ?om |- _ =>
      lazymatch type of om with option _ => idtac end;
      lazymatch goal with _ : wait !! sid = Some om ∧ _ |- _ => fail | _ => idtac end;
      pose proof (conj H (Hw _ _ H))
  end; destruct_and?.

Lemma table_step_wf lossy tb tb' : table_wf tb → table_step lossy tb tb' → table_wf tb'.
Proof.
  intros [Hn Hl Hd Hw] Hstep. destruct Hstep; simpl in *.
  all: split; simpl; [lia|intros t' sid' om' Ht'|intros t1 t2 sid' om1 om2 Ht1 Ht2|intros sid' om' Hs'];
    table_lookups; table_entries Hl Hw; simplify_eq.
  all: try done. all: try (by eapply Hd). all: try (exfalso; lia).
  all: split_and?; try lia; try done; try (intros; by eauto).
  all: try (rewrite ?lookup_delete_None, ?lookup_insert_None; tauto).
  - intros m ->. rewrite H. auto.
  - intros m ->. rewrite H. auto.
  - apply eq_None_not_Some. intros [om Hom]. apply Hw in Hom as [? _]. lia.
  - intros m' [= <-]. by eapply put_this.
  - intros m' ->. eapply put_some_other; eauto.
  - intros m' ->. eapply put_some_other; eauto.
  - intros m' ->. eapply put_none_other; [done|eauto|eauto|]. intros ->. by eapply H1, Hd.
  - intros m' ->. eapply put_none_other; [done|eauto|eauto|]. intros ->. congruence.
  - rewrite lookup_insert_ne; [done|]. intros ->. by eapply H0, Hd.
  - intros m' ->. eapply put_none_other; [done|eauto|eauto|]. intros ->. by eapply H1, Hd.
  - intros m' ->. eapply put_none_other; [done|eauto|eauto|]. intros ->. congruence.
  - destruct om as [m|]; simpl in *; [|intros m' ->; rewrite H0; auto].
    intros m' ->. eapply put_none_other; [done|eauto|eauto|]. intros ->. congruence.
  - destruct om as [m|]; simpl in *; [|intros m' ->; rewrite H0; auto].
    intros m' ->. eapply put_none_other; [done|eauto|eauto|]. congruence.
Qed.

(** A holder in the new table, from what it was in the old one. *)
Lemma holder_live tb t sid m : tb_live tb !! t = Some (sid, Some m) → holder tb sid m.
Proof. left. eauto. Qed.
Lemma holder_waiting tb sid m : tb_waiting tb !! sid = Some (Some m) → holder tb sid m.
Proof. by right. Qed.

Lemma table_step_orphans tb tb' : table_wf tb → no_orphans tb → table_step false tb tb' → no_orphans tb'.
Proof.
  intros [Hn Hl Hd Hw] Ho Hstep. unfold no_orphans in *. inversion Hstep; subst; clear Hstep; intros r fh sid'; simpl in *.
  all: match goal with
       | H : put ?m _ _ ?mem' |- ?mem' _ _ = _ → _ => rewrite H; case_decide as Hp; [intros [= <-]|intros Hmem]
       | H : put_opt ?om _ _ ?mem' |- ?mem' _ _ = _ → _ => intros Hmem
       | H : ∀ r fh, ?mem' r fh = _ |- ?mem' _ _ = _ → _ => rewrite H; intros Hmem
       | _ => intros Hmem
       end.
  all: try (destruct om as [m|]; simpl in *; match goal with
       | H : put ?m _ _ ?mem', Hmem : ?mem' _ _ = _ |- _ => rewrite H in Hmem; case_decide as Hp; [done|]
       | H : ∀ r fh, ?mem' r fh = _, Hmem : ?mem' _ _ = _ |- _ => rewrite H in Hmem
       | _ => idtac
       end).
  all: try (apply Ho in Hmem as (m' & [[t' Ht']|Hs'] & Hm'); simpl in *; exists m'; (split; [|done])).
  all: try by (eapply holder_waiting).
  all: try by (eapply (holder_live _ t'); simpl; rewrite ?lookup_insert_ne, ?lookup_delete_ne by congruence).
  - destruct (decide (sid' = sid)) as [->|].
    + apply (holder_live _ t). simpl. rewrite lookup_insert_eq. congruence.
    + apply holder_waiting. simpl. by rewrite lookup_delete_ne.
  - apply holder_waiting. simpl. rewrite lookup_delete_ne; [done|]. congruence.
  - exists m. split; [|done]. apply (holder_live _ t). apply lookup_insert_eq.
  - destruct (decide (t' = t)) as [->|].
    + apply holder_waiting. simpl. simplify_eq. apply lookup_insert_eq.
    + apply (holder_live _ t'). simpl. by rewrite lookup_delete_ne.
  - apply holder_waiting. simpl. rewrite lookup_insert_ne; [done|]. intros <-.
    by apply Hl in H as (_ & Hnone & _); rewrite Hs' in Hnone.
  - apply holder_waiting. simpl. rewrite lookup_delete_ne; [done|]. congruence.
  - apply holder_waiting. simpl. rewrite lookup_delete_ne; [done|]. congruence.
Qed.

(** ** The table of a server *)

Definition task_session (task : Task) : option (Z * option Membership) :=
  match t_phase task with
  | Upgrading | Opening => Some (t_candidate task, None)
  | Replying _ next => next
  | Registering sid om => Some (sid, om)
  | Serving l | Sending l _ _ _ | Ended l => Some (ctx_session_id (sl_ctx l), membership (sl_ctx l))
  | _ => None
  end.

Definition table_of (s : Server) : Table :=
  mkTable (omap task_session (sv_tasks s)) (ss_membership <$> suspended_sessions (sv_node s))
    (next_session_id (sv_node s)) (member (sv_node s)).

(** What the registry invariant and the table look at. *)
Definition registry (node : RtiNode) := (federations node, default_fom node, fed_heap node).
Definition core (node : RtiNode) := (registry node, suspended_sessions node, next_session_id node).

Lemma registry_wf node node' : registry node' = registry node → node_wf node → node_wf node'.
Proof. intros [= H1 H2 H3] [Hd Hr Hf]. split; rewrite ?H1, ?H2, ?H3; done. Qed.
Lemma registry_member node node' : registry node' = registry node → member node' = member node.
Proof. unfold registry, member. by intros [= _ _ ->]. Qed.
Lemma core_registry node node' : core node' = core node → registry node' = registry node.
Proof. intros H. exact (f_equal (λ c, c.1.1) H). Qed.
Lemma core_waiting node node' : core node' = core node → suspended_sessions node' = suspended_sessions node.
Proof. intros H. exact (f_equal (λ c, c.1.2) H). Qed.
Lemma core_next node node' : core node' = core node → next_session_id node' = next_session_id node.
Proof. intros H. exact (f_equal snd H). Qed.
Local Hint Resolve registry_wf registry_member core_registry : core.

Lemma core_table s s' :
  core (sv_node s') = core (sv_node s) →
  table_of s' = mkTable (omap task_session (sv_tasks s')) (tb_waiting (table_of s)) (tb_next (table_of s))
    (tb_member (table_of s)).
Proof.
  intros Hc. unfold table_of. simpl. rewrite (registry_member _ _ (core_registry _ _ Hc)).
  by rewrite (core_waiting _ _ Hc), (core_next _ _ Hc).
Qed.

(** A step of the server, as the simulation sees it. *)
Definition simulated (lossy : bool) (s s' : Server) : Prop :=
  node_wf (sv_node s') ∧ table_step lossy (table_of s) (table_of s').

Lemma stutter s s' :
  node_wf (sv_node s) → core (sv_node s') = core (sv_node s) →
  omap task_session (sv_tasks s') = omap task_session (sv_tasks s) → simulated false s s'.
Proof.
  intros Hwf Hc Ht. split; [eauto|]. rewrite (core_table s s' Hc), Ht. by apply ts_stutter.
Qed.

Lemma omap_alter_set (f : Task → Task) t task (tasks : gmap positive Task) :
  tasks !! t = Some task →
  omap task_session (alter f t tasks) =
    match task_session (f task) with
    | Some v => <[t := v]> (omap task_session tasks)
    | None => delete t (omap task_session tasks)
    end.
Proof.
  intros Ht. apply map_eq. intros k. rewrite lookup_omap. destruct (decide (k = t)) as [->|].
  - rewrite lookup_alter_eq, Ht. simpl. destruct (task_session (f task)); [by rewrite lookup_insert_eq|by rewrite lookup_delete_eq].
  - rewrite lookup_alter_ne by done.
    destruct (task_session (f task)); [rewrite lookup_insert_ne by done|rewrite lookup_delete_ne by done]; by rewrite lookup_omap.
Qed.

Lemma omap_alter_same (f : Task → Task) t (tasks : gmap positive Task) :
  (∀ task, tasks !! t = Some task → task_session (f task) = task_session task) →
  omap task_session (alter f t tasks) = omap task_session tasks.
Proof.
  intros Hf. apply map_eq. intros k. rewrite !lookup_omap. destruct (decide (k = t)) as [->|].
  - rewrite lookup_alter_eq. destruct (tasks !! t) as [task|] eqn:Ht; simpl; [by apply Hf|done].
  - by rewrite lookup_alter_ne.
Qed.

Lemma live_of s t task v :
  sv_tasks s !! t = Some task → task_session task = v → omap task_session (sv_tasks s) !! t = v.
Proof. intros Ht Hv. by rewrite lookup_omap, Ht. Qed.

(** The events on which a membership is dropped. *)
Definition loses (e : Event) (s : Server) : bool :=
  match e with
  | Ev_task t (T_frame (Ok f)) =>
      match t_phase <$> sv_tasks s !! t, message_type (header f) with
      | Some Opening, CtrlResumeRequest =>
          match suspended_sessions (sv_node s) !! session_id (header f) with
          | Some ss => deadline ss <=? sv_now s
          | None => false
          end
      | _, _ => false
      end
  | Ev_task t (T_reply (Err _)) =>
      match t_phase <$> sv_tasks s !! t with
      | Some (Replying _ (Some (_, Some _))) => true
      | _ => false
      end
  | _ => false
  end.

(** ** The simulation *)

Section simulation.
Context {P : Prost} {PC : ProstCalls} {X : QuickXml} {J : Serde} {O : Os}.

(** No counter is about to wrap, and what comes in fits the handle space. *)
Definition bounded (e : Event) (s : Server) : Prop :=
  handles_left (sv_node s) ∧ next_session_id (sv_node s) + 1 < 2 ^ 64 ∧
  match e with
  | Ev_task _ (T_frame (Ok f)) => ∀ v, decode_request (payload f) = Ok (Some v) → small_request v
  | Ev_admin (Admin_set_default_fom fom) => FomWf fom
  | _ => True
  end.

(** A task moves to a phase with the same session. *)
Lemma goto_stutter t task ph s s' :
  node_wf (sv_node s) → sv_tasks s !! t = Some task →
  task_session (set_phase ph task) = task_session task →
  core (sv_node s') = core (sv_node s) → sv_tasks s' = sv_tasks s → simulated false s (goto t ph s').
Proof.
  intros Hwf Ht Hs Hc He. apply stutter; [done|done|]. simpl. rewrite He. apply omap_alter_same. congruence.
Qed.

(** A task without membership gives its session up. *)
Lemma drop_session t task sid s s' :
  node_wf (sv_node s) → sv_tasks s !! t = Some task → task_session task = Some (sid, None) →
  core (sv_node s') = core (sv_node s) →
  omap task_session (sv_tasks s') = delete t (omap task_session (sv_tasks s)) → simulated false s s'.
Proof.
  intros Hwf Ht Hs Hc He. split; [eauto|]. rewrite (core_table s s' Hc), He.
  apply (ts_drop t sid). by eapply live_of.
Qed.

Lemma omap_delete_task t (tasks : gmap positive Task) :
  omap task_session (delete t tasks) = delete t (omap task_session tasks).
Proof. apply omap_delete. Qed.

Lemma finish_stutter t task s s' :
  node_wf (sv_node s) → sv_tasks s !! t = Some task → task_session task = None →
  core (sv_node s') = core (sv_node s) → sv_tasks s' = sv_tasks s → simulated false s (finish t s').
Proof.
  intros Hwf Ht Hs Hc He. apply stutter; [done|done|]. simpl. rewrite He, omap_delete_task.
  apply delete_id. by eapply live_of.
Qed.

Lemma goto_drop t task sid ph s s' :
  node_wf (sv_node s) → sv_tasks s !! t = Some task → task_session task = Some (sid, None) →
  task_session (set_phase ph task) = None →
  core (sv_node s') = core (sv_node s) → sv_tasks s' = sv_tasks s → simulated false s (goto t ph s').
Proof.
  intros Hwf Ht Hs Hp Hc He. eapply drop_session; [done..|]. simpl. by rewrite He, (omap_alter_set _ t task), Hp.
Qed.

Lemma fetch_add64_small v : 0 < v → v + 1 < 2 ^ 64 → fetch_add64 1 v = v + 1.
Proof. intros. unfold fetch_add64, wrap_u. apply Z.mod_small. lia. Qed.

Lemma spawn_simulated ip ph s s' :
  node_wf (sv_node s) → 0 < next_session_id (sv_node s) → next_session_id (sv_node s) + 1 < 2 ^ 64 →
  ph = Upgrading ∨ ph = Opening →
  core (sv_node s') = core (sv_node s) → sv_tasks s' = sv_tasks s → simulated false s (spawn ip ph s').
Proof.
  intros Hwf H0 Hn Hph Hc He. unfold spawn. set (t := fresh _).
  assert (Ht : sv_tasks s !! t = None) by (rewrite <-He; apply not_elem_of_dom, is_fresh).
  pose proof (core_next _ _ Hc) as Hid. pose proof (core_waiting _ _ Hc) as Hsusp.
  assert (Hr : registry (sv_node s') = registry (sv_node s)) by auto.
  split; [by eapply registry_wf, Hwf|].
  unfold table_of. simpl. rewrite Hsusp, Hid, fetch_add64_small, He by lia.
  rewrite (omap_insert_Some _ _ _ _ (next_session_id (sv_node s), None)) by (by destruct Hph as [-> | ->]).
  change (member (set_connections_per_ip _ _)) with (member (sv_node s')). rewrite (registry_member _ _ Hr).
  apply ts_open. by rewrite lookup_omap, Ht.
Qed.

Lemma accept_simulated l ip s :
  node_wf (sv_node s) → 0 < next_session_id (sv_node s) → next_session_id (sv_node s) + 1 < 2 ^ 64 →
  simulated false s (accept l ip s).
Proof.
  intros Hwf H0 Hn. destruct l; simpl; unfold accept_loop, serve_ws, serve_tls; destruct (check_limits _ _).
  all: first [apply spawn_simulated; auto | by apply stutter].
Qed.

(** The table after a task has changed its session. *)
Lemma goto_live t task ph s' :
  sv_tasks s' !! t = Some task →
  omap task_session (sv_tasks (goto t ph s')) =
    match task_session (set_phase ph task) with
    | Some v => <[t := v]> (omap task_session (sv_tasks s'))
    | None => delete t (omap task_session (sv_tasks s'))
    end.
Proof. intros Ht. simpl. by apply omap_alter_set. Qed.

Lemma first_frame_simulated t task f s :
  node_wf (sv_node s) → sv_tasks s !! t = Some task → t_phase task = Opening →
  simulated (loses (Ev_task t (T_frame (Ok f))) s) s (first_frame t (t_candidate task) f s).
Proof.
  intros Hwf Ht Hp. unfold loses, first_frame. rewrite Ht. simpl. rewrite Hp.
  assert (Hs : task_session task = Some (t_candidate task, None)) by (unfold task_session; by rewrite Hp).
  pose proof (live_of s t task _ Ht Hs) as Hlive.
  destruct (message_type (header f)); try by (eapply goto_drop).
  - destruct (new_session_reply _ _) as [[reply [e|]]|e]; [by eapply goto_drop| |by eapply goto_drop].
    eapply goto_stutter; [done|done| |done|done]. by rewrite Hs.
  - unfold restored_session. set (sid := session_id (header f)).
    assert (Hwf' : ∀ ph, node_wf (sv_node (goto t ph (set_sv_node (set_suspended_sessions (delete sid)) s))))
      by (intros ph; by eapply registry_wf, Hwf).
    destruct (suspended_sessions (sv_node s) !! sid) as [ss|] eqn:Hss.
    2:{ split; [done|]. unfold table_of. rewrite (goto_live t task) by done. simpl.
        rewrite (delete_id (suspended_sessions (sv_node s))) by done. by eapply ts_drop. }
    destruct (Z.ltb_spec (sv_now s) (deadline ss)); (split; [done|]); unfold table_of;
      rewrite (goto_live t task) by done; simpl; rewrite fmap_delete.
    + replace (deadline ss <=? sv_now s) with false by (symmetry; apply Z.leb_gt; lia).
      eapply ts_resume; [done|]. by rewrite lookup_fmap, Hss.
    + replace (deadline ss <=? sv_now s) with true by (symmetry; apply Z.leb_le; lia).
      eapply ts_lose_waiting; [done|]. by rewrite lookup_fmap, Hss.
Qed.

Lemma reply_sent_simulated t task reply next r s :
  node_wf (sv_node s) → sv_tasks s !! t = Some task → t_phase task = Replying reply next →
  simulated (loses (Ev_task t (T_reply r)) s) s (reply_sent t reply next r s).
Proof.
  intros Hwf Ht Hp. unfold loses, reply_sent. rewrite Ht. simpl. rewrite Hp.
  assert (Hs : task_session task = next) by (unfold task_session; by rewrite Hp).
  pose proof (live_of s t task _ Ht Hs) as Hlive.
  assert (Hadd : sv_tasks (set_sv_tasks (alter (add_sent reply) t) s) !! t = Some (add_sent reply task))
    by (simpl; by rewrite lookup_alter_eq, Ht).
  assert (Hsame : omap task_session (alter (add_sent reply) t (sv_tasks s)) = omap task_session (sv_tasks s)).
  { by apply omap_alter_same. }
  destruct r as [[]|e].
  - destruct next as [[sid om]|].
    + apply stutter; [done..|]. rewrite (goto_live t _ _ _ Hadd). simpl. rewrite Hsame. by apply insert_id.
    + apply stutter; [done..|]. rewrite (goto_live t _ _ _ Hadd). simpl. rewrite Hsame. by apply delete_id.
  - destruct next as [[sid [m|]]|]; [|by eapply goto_drop|].
    + split; [done|]. unfold table_of. rewrite (goto_live t _ _ _ Ht). simpl. by eapply ts_lose_live.
    + apply stutter; [done..|]. rewrite (goto_live t _ _ _ Ht). simpl. by apply delete_id.
Qed.

Lemma call_outcome_dispatched ctx request s :
  node_wf (sv_node s) → handles_left (sv_node s) →
  (∀ v, decode_request request = Ok (Some v) → small_request v) →
  let ds0 := mkDispatchState (set_metrics (set_calls_dispatched (fetch_add64 1)) (sv_node s)) ctx [] (sv_disk s) in
  dispatched ds0 (call_outcome ctx request s).1.
Proof.
  intros Hwf Hleft Hsmall ds0. assert (Hwf0 : node_wf (ds_node ds0)) by (by eapply registry_wf, Hwf).
  unfold call_outcome. destruct (decode_request request) as [[v|]|e]; [|by apply dispatched_refl..].
  apply (run_wp _ (λ _, dispatched ds0)), dispatch_dispatched; [done|exact Hleft|auto].
Qed.

Lemma count_outcome_core r n node : core (count_outcome r n node) = core node.
Proof. unfold count_outcome. by destruct (is_exception r). Qed.

Lemma on_call_simulated t task l f s :
  node_wf (sv_node s) → handles_left (sv_node s) →
  (∀ v, decode_request (payload f) = Ok (Some v) → small_request v) →
  sv_tasks s !! t = Some task → task_session task = Some (ctx_session_id (sl_ctx l), membership (sl_ctx l)) →
  simulated false s (on_call t l f s).
Proof.
  intros Hwf Hleft Hsmall Ht Hs. pose proof (live_of s t task _ Ht Hs) as Hlive.
  pose proof (call_outcome_dispatched (sl_ctx l) (payload f) s Hwf Hleft Hsmall) as Hd. unfold on_call.
  destruct (call_outcome _ _ _) as [ds r]. simpl in Hd. destruct Hd as (Hwf' & Hrest & Hch).
  pose proof (count_outcome_core r (length (ds_callbacks ds)) (ds_node ds)) as Hc.
  split; [simpl; by eapply registry_wf, Hwf'; apply core_registry|].
  unfold table_of. rewrite (goto_live t task) by done. cbn [sv_node set_sv_node set_sv_disk goto set_sv_tasks sv_tasks].
  rewrite (core_waiting _ _ Hc), (core_next _ _ Hc), (registry_member _ _ (core_registry _ _ Hc)).
  rewrite Hrest. simpl. destruct Hch as [Hctx Hm|m Hnone Hctx Hfree Hm|m Hsome Hctx Hm]; simpl in *; rewrite Hctx; simpl.
  - rewrite insert_id by done. by apply ts_stutter.
  - rewrite Hnone in Hlive. by eapply ts_join.
  - rewrite Hsome in Hlive. by eapply ts_resign.
Qed.

Lemma into_frame_core cb node : core (into_frame cb node).1 = core node.
Proof. unfold into_frame. by destruct (claim_next_outbound_seq _). Qed.

Lemma deliver_simulated t task l cbs s s' :
  node_wf (sv_node s) → sv_tasks s !! t = Some task →
  task_session task = Some (ctx_session_id (sl_ctx l), membership (sl_ctx l)) →
  core (sv_node s') = core (sv_node s) → sv_tasks s' = sv_tasks s → simulated false s (deliver t l cbs s').
Proof.
  intros Hwf Ht Hs Hc He. unfold deliver. destruct cbs as [|cb cbs]; [by eapply goto_stutter|].
  pose proof (into_frame_core cb (sv_node s')) as Hi. destruct (into_frame cb (sv_node s')).
  eapply goto_stutter; [done|done|done|etransitivity; [exact Hi|exact Hc]|done].
Qed.

Lemma channel_send_core c f s s' b :
  channel_send c f s = Some (s', b) → core (sv_node s') = core (sv_node s) ∧ sv_tasks s' = sv_tasks s.
Proof. unfold channel_send. case_decide; [by intros [= <- _]|]. destruct (_ <? _)%nat; [|done]. by intros [= <- _]. Qed.

Lemma after_send_simulated t task l after sent s s' :
  node_wf (sv_node s) → sv_tasks s !! t = Some task →
  task_session task = Some (ctx_session_id (sl_ctx l), membership (sl_ctx l)) →
  core (sv_node s') = core (sv_node s) → sv_tasks s' = sv_tasks s → simulated false s (after_send t l after sent s').
Proof.
  intros Hwf Ht Hs Hc He. destruct after; simpl; [destruct sent|..].
  all: first [by eapply deliver_simulated | by eapply goto_stutter].
Qed.

Lemma resigned_put m node : put m None (member node) (member (auto_resign m node)).
Proof.
  intros r fh. unfold member, auto_resign. simpl. case_decide as Hp.
  - injection Hp as -> ->. rewrite lookup_alter_eq. destruct (_ !! m_federation m); simpl; [|done].
    by rewrite lookup_delete_eq.
  - destruct (decide (r = m_federation m)) as [->|]; [|by rewrite lookup_alter_ne].
    rewrite lookup_alter_eq. destruct (_ !! m_federation m); simpl; [|done].
    rewrite lookup_delete_ne; [done|]. intros <-. by apply Hp.
Qed.

Lemma resigned_wf m node : node_wf node → node_wf (auto_resign m node).
Proof.
  intros Hwf. apply node_wf_update; [done|]. intros fed _ [Hfom Hn Hm]. split; [|done]. split; [done..|].
  intros fh fs. simpl. rewrite lookup_delete_Some. intros [_ Hfs]. by apply Hm.
Qed.

Lemma close_simulated t task l s :
  node_wf (sv_node s) → sv_tasks s !! t = Some task →
  task_session task = Some (ctx_session_id (sl_ctx l), membership (sl_ctx l)) →
  simulated false s (close_session t l s).
Proof.
  intros Hwf Ht Hs. pose proof (live_of s t task _ Ht Hs) as Hlive. unfold close_session.
  destruct (membership (sl_ctx l)) as [m|]; [destruct (0 <? _)|by eapply goto_drop].
  - split; [by eapply registry_wf, Hwf|]. unfold table_of. rewrite (goto_live t task) by done. simpl.
    rewrite fmap_insert. by apply ts_suspend.
  - split; [by apply resigned_wf|]. unfold table_of. rewrite (goto_live t task) by done. simpl.
    eapply ts_leave; [done|]. apply resigned_put.
Qed.

Lemma expire_simulated sid s s' :
  node_wf (sv_node s) → sv_node s' = sv_node (janitor_expire sid s) → sv_tasks s' = sv_tasks s →
  simulated false s s'.
Proof.
  intros Hwf Hn Ht. unfold janitor_expire in Hn. destruct (suspended_sessions (sv_node s) !! sid) as [ss|] eqn:Hss.
  2:{ apply stutter; [done|by rewrite Hn|by rewrite Ht]. }
  simpl in Hn. assert (Hwf' : node_wf (set_suspended_sessions (delete sid) (sv_node s))) by (by eapply registry_wf, Hwf).
  split; [rewrite Hn; destruct (ss_membership ss); [by apply resigned_wf|done]|].
  unfold table_of. rewrite Ht, Hn.
  assert (Hw : (ss_membership <$> suspended_sessions (sv_node s)) !! sid = Some (ss_membership ss))
    by (by rewrite lookup_fmap, Hss).
  destruct (ss_membership ss) as [m|]; simpl; rewrite fmap_delete; eapply ts_expire; try done.
  exact (resigned_put m (set_suspended_sessions (delete sid) (sv_node s))).
Qed.

Lemma write_simulated t c w s s' : node_wf (sv_node s) → write_next t c w s = Some s' → simulated false s s'.
Proof.
  intros Hwf. unfold write_next. case_decide; [done|]. destruct (frame_tx _) as [|f q].
  - destruct (has_sender c s); [done|]. intros [= <-]. by apply stutter.
  - destruct w; intros [= <-]; [|by apply stutter]. apply stutter; [done..|]. by apply omap_alter_same.
Qed.

Lemma frame_simulated t task l r s :
  node_wf (sv_node s) → bounded (Ev_task t (T_frame r)) s → sv_tasks s !! t = Some task → t_phase task = Serving l →
  simulated false s (frame_received t l r s).
Proof.
  intros Hwf (Hleft & _ & Hsmall) Ht Hp.
  assert (Hs : task_session task = Some (ctx_session_id (sl_ctx l), membership (sl_ctx l)))
    by (unfold task_session; by rewrite Hp).
  destruct r as [f|e]; simpl; [|by eapply goto_stutter]. unfold on_frame.
  destruct (message_type (header f)); [by eapply goto_stutter..| |by eapply goto_stutter|by eapply goto_stutter|by eapply goto_stutter].
  by eapply on_call_simulated.
Qed.

Lemma task_simulated t task e s s' :
  node_wf (sv_node s) → bounded (Ev_task t e) s → sv_tasks s !! t = Some task → task_step t task e s = Some s' →
  simulated (loses (Ev_task t e) s) s s'.
Proof.
  intros Hwf Hb Ht. unfold task_step. assert (Hs := eq_refl (task_session task)). unfold task_session in Hs at 2.
  destruct (t_phase task) as [| |reply next|sid om|l|l c f after|l|sid c|c| |] eqn:Hp;
    destruct e as [ok|r|r| | |w|]; try done; simpl conn_of; simpl mbind.
  all: try (by intros ?%write_simulated). all: try (destruct (shutdown_flag _); [done|]).
  - destruct ok; intros [= <-]; [by eapply goto_stutter|]. eapply drop_session; [done..|]. apply omap_delete_task.
  - destruct r as [f|e]; intros [= <-]; [by apply first_frame_simulated|by eapply goto_drop].
  - intros [= <-]. by eapply reply_sent_simulated.
  - intros [= <-]. by eapply goto_stutter.
  - intros [= <-]. replace (loses _ s) with false by (destruct r; simpl; rewrite ?Ht; simpl; by rewrite ?Hp).
    by eapply frame_simulated.
  - intros [= <-]. unfold liveness_tick. destruct (_ <? _); [by eapply goto_stutter|by apply stutter].
  - destruct (shutdown_flag _); [|done]. intros [= <-]. by eapply goto_stutter.
  - destruct (channel_send c f s) as [[s1 b]|] eqn:Hc; simpl; [|done]. intros [= <-].
    apply channel_send_core in Hc as [? ?]. by eapply after_send_simulated.
  - intros [= <-]. by eapply close_simulated.
  - intros [= <-]. by eapply goto_stutter.
  - destruct (_ && _); [|done]. intros [= <-]. by eapply goto_stutter.
  - intros [= <-]. unfold release_ip. destruct (_ !! t_ip task) as [[|n]|]; by first [eapply goto_stutter | eapply finish_stutter].
  - intros [= <-]. by eapply finish_stutter.
Qed.

Lemma admin_core a node :
  match a with Admin_set_default_fom _ => True | _ => core (admin a node) = core node end.
Proof. by destruct a. Qed.

Lemma step_simulated e s s' :
  node_wf (sv_node s) → 0 < next_session_id (sv_node s) → bounded e s → step e s = Some s' →
  simulated (loses e s) s s'.
Proof.
  intros Hwf H0 Hb. destruct e as [l ip|t e|c|c|c| | |d|a]; cbn [step].
  - destruct (shutdown_flag _); [done|]. intros [= <-]. by apply accept_simulated, Hb.
  - destruct (sv_tasks s !! t) as [task|] eqn:Ht; simpl; [|done]. by apply task_simulated.
  - destruct (sv_heartbeats s !! c) as [h|]; simpl; [|done]. destruct (hb_pending h); [done|]. intros [= <-].
    unfold heartbeat_tick. destruct (claim_next_outbound_seq _). by apply stutter.
  - destruct (sv_heartbeats s !! c) as [h|]; simpl; [|done]. destruct (hb_pending h) as [f|]; simpl; [|done].
    unfold heartbeat_send. destruct (channel_send c f s) as [[s1 []]|] eqn:Hc; [| |done]; intros [= <-];
      apply channel_send_core in Hc as [? Ht]; apply stutter; simpl; by rewrite ?Ht.
  - destruct (sv_heartbeats s !! c) as [h|]; simpl; [|done]. destruct (hb_aborted h); [|done]. intros [= <-]. by apply stutter.
  - destruct (sv_expired s); [|done]. destruct (shutdown_flag _); [done|]. intros [= <-]. by apply stutter.
  - destruct (sv_expired s) as [|sid rest]; [done|]. intros [= <-]. eapply (expire_simulated sid); [done..|].
    simpl. unfold janitor_expire. by destruct (_ !! sid).
  - destruct (0 <=? d); [|done]. intros [= <-]. by apply stutter.
  - intros [= <-]. pose proof (admin_core a (sv_node s)) as Ha. destruct a as [| | |fom| |]; try by apply stutter.
    destruct Hb as (_ & _ & Hfom). split; [|by apply ts_stutter]. destruct Hwf as [_ Hr Hf]. by split.
Qed.

(** ** Runs *)

(** The states of a server started on [node], with the flag telling whether
    a membership was dropped on the way. *)
Inductive reachable (s0 : Server) : bool → Server → Prop :=
| reach_start : reachable s0 false s0
| reach_step e s s' lossy :
    reachable s0 lossy s → bounded e s → step e s = Some s' → reachable s0 (lossy || loses e s) s'.

(** A server before it accepts anyone: a well-formed node without sessions. *)
Record starts (s0 : Server) : Prop := {
  st_wf : node_wf (sv_node s0);
  st_next : 0 < next_session_id (sv_node s0);
  st_tasks : sv_tasks s0 = ∅;
  st_waiting : suspended_sessions (sv_node s0) = ∅;
  st_members r fh : member (sv_node s0) r fh = None
}.

Lemma starts_table s0 : starts s0 → table_wf (table_of s0) ∧ no_orphans (table_of s0).
Proof.
  intros [_ Hn Ht Hw Hm]. unfold table_of. rewrite Ht, Hw, omap_empty, fmap_empty. split.
  - split; simpl; [done|..]; intros *; by rewrite ?lookup_empty.
  - intros r fh sid. simpl. by rewrite Hm.
Qed.

Lemma reachable_inv s0 lossy s :
  starts s0 → reachable s0 lossy s →
  node_wf (sv_node s) ∧ table_wf (table_of s) ∧ (lossy = false → no_orphans (table_of s)).
Proof.
  intros Hs Hr. induction Hr as [|e s s' lossy Hr (Hwf & Htw & Ho) Hb Hstep].
  - destruct (starts_table s0 Hs). split_and!; [apply Hs|done|done].
  - destruct (step_simulated e s s' Hwf (tw_next _ Htw) Hb Hstep) as [Hwf' Ht]. split_and!; [done|by eapply table_step_wf|].
    intros [-> Hl]%orb_false_iff. rewrite Hl in Ht. eapply table_step_orphans; [done|by apply Ho|done].
Qed.
End simulation.

(** ** Properties *)

Section properties.
Context {P : Prost} {PC : ProstCalls} {X : QuickXml} {J : Serde} {O : Os}.

(** Session [sid], connected or suspended, holds the membership [m]. *)
Definition speaks_for (s : Server) (sid : Z) (m : Membership) : Prop :=
  (∃ t task, sv_tasks s !! t = Some task ∧ task_session task = Some (sid, Some m)) ∨
  (∃ ss, suspended_sessions (sv_node s) !! sid = Some ss ∧ ss_membership ss = Some m).

Lemma speaks_for_holder s sid m : speaks_for s sid m ↔ holder (table_of s) sid m.
Proof.
  unfold speaks_for, holder, table_of. simpl. setoid_rewrite lookup_omap_Some. rewrite lookup_fmap_Some. naive_solver.
Qed.

(** The federate [fh] of federation [r] belongs to session [sid]. *)
Definition belongs_to (s : Server) (r : FedRef) (fh : FederateHandle) (sid : Z) : Prop :=
  ∃ fed fs, fed_heap (sv_node s) !! r = Some fed ∧ federates fed !! fh = Some fs ∧ fs_session_id fs = sid.

Lemma belongs_to_member s r fh sid : belongs_to s r fh sid ↔ member (sv_node s) r fh = Some sid.
Proof.
  unfold belongs_to, member. rewrite bind_Some. setoid_rewrite fmap_Some. naive_solver.
Qed.

(** C5: the server refines the session table.  In whatever order the tasks
    run, a step of a server that was started without sessions is a step of
    the table: sessions are opened under fresh ids, handed from the task of
    a lost connection to the table of suspended sessions and from there to
    at most one new connection, and a federate appears and disappears only
    with the join, resign, close or expiry of the session it belongs to. *)
Theorem server_refines_table s0 lossy s e s' :
  starts s0 → reachable s0 lossy s → bounded e s → step e s = Some s' →
  table_step (loses e s) (table_of s) (table_of s').
Proof.
  intros Hs Hr Hb Hstep. destruct (reachable_inv s0 lossy s Hs Hr) as (Hwf & Htw & _).
  apply (step_simulated e s s' Hwf (tw_next _ Htw) Hb Hstep).
Qed.

(** C19: sessions and federates match, in every reachable state of the
    server.  A session that holds a membership, on a connection or suspended,
    speaks for a federate that exists and that carries its session id; no
    other session speaks for that federate; and no session id is in the hands
    of two connections, or of a connection and the suspended sessions. *)
Theorem membership_integrity s0 lossy s :
  starts s0 → reachable s0 lossy s →
  (∀ sid m, speaks_for s sid m → belongs_to s (m_federation m) (m_federate_handle m) sid) ∧
  (∀ sid sid' m m', speaks_for s sid m → speaks_for s sid' m' →
     m_federation m = m_federation m' → m_federate_handle m = m_federate_handle m' → sid = sid') ∧
  (∀ t t' task task' sid om om', sv_tasks s !! t = Some task → sv_tasks s !! t' = Some task' →
     task_session task = Some (sid, om) → task_session task' = Some (sid, om') →
     t = t' ∧ suspended_sessions (sv_node s) !! sid = None).
Proof.
  intros Hs Hr. destruct (reachable_inv s0 lossy s Hs Hr) as (_ & [_ Hl Hd Hw] & _).
  assert (Hb : ∀ sid m, speaks_for s sid m → member (sv_node s) (m_federation m) (m_federate_handle m) = Some sid).
  { intros sid m [[t Ht]|Hsusp]%speaks_for_holder; [apply Hl in Ht|apply Hw in Hsusp]; naive_solver. }
  split_and!.
  - intros sid m H. by apply belongs_to_member, Hb.
  - intros sid sid' m m' H%Hb H'%Hb Hf Hh. rewrite Hf, Hh in H. congruence.
  - intros t t' task task' sid om om' Ht Ht' Hts Hts'.
    pose proof (live_of s t task _ Ht Hts) as H. pose proof (live_of s t' task' _ Ht' Hts') as H'.
    split; [by eapply Hd|]. apply Hl in H as (_ & Hn & _). simpl in Hn. rewrite lookup_fmap in Hn.
    by destruct (_ !! sid).
Qed.

(** C14: no federate is left behind.  As long as no late resume and no failed
    resume reply has dropped a membership, every federate of every federation
    has a session that speaks for it. *)
Theorem no_federate_left_behind s0 s r fh sid :
  starts s0 → reachable s0 false s → belongs_to s r fh sid →
  ∃ m, speaks_for s sid m ∧ m_federation m = r ∧ m_federate_handle m = fh.
Proof.
  intros Hs Hr Hb%belongs_to_member. destruct (reachable_inv s0 false s Hs Hr) as (_ & _ & Ho).
  apply Ho in Hb as (m & Hm%speaks_for_holder & [= <- <-]); [|done]. eauto.
Qed.

(** ** The janitor *)

Lemma expire_waiting l s sid :
  suspended_sessions (sv_node (foldl (λ s sid, janitor_expire sid s) s l)) !! sid =
  if decide (sid ∈ l) then None else suspended_sessions (sv_node s) !! sid.
Proof.
  revert s. induction l as [|x l IH]; intros s; cbn [foldl]; [case_decide; [set_solver|done]|].
  rewrite IH. assert (Hx : suspended_sessions (sv_node (janitor_expire x s)) = delete x (suspended_sessions (sv_node s))).
  { unfold janitor_expire. destruct (_ !! x) as [ss|] eqn:Hss; [|by rewrite delete_id].
    simpl. by destruct (ss_membership ss). }
  rewrite Hx. destruct (decide (sid = x)) as [->|].
  - rewrite lookup_delete_eq. repeat case_decide; set_solver.
  - rewrite lookup_delete_ne by done. repeat case_decide; set_solver.
Qed.

Lemma expire_inv l s :
  node_wf (sv_node s) → table_wf (table_of s) → no_orphans (table_of s) →
  let s' := foldl (λ s sid, janitor_expire sid s) s l in
  (node_wf (sv_node s') ∧ table_wf (table_of s') ∧ no_orphans (table_of s')) ∧ sv_tasks s' = sv_tasks s ∧
  federations (sv_node s') = federations (sv_node s) ∧ shutdown_flag (sv_node s') = shutdown_flag (sv_node s) ∧
  sv_now s' = sv_now s.
Proof.
  revert s. induction l as [|x l IH]; intros s Hwf Htw Ho; [done|]. cbn [foldl].
  assert (Ht : sv_tasks (janitor_expire x s) = sv_tasks s ∧ sv_now (janitor_expire x s) = sv_now s)
    by (unfold janitor_expire; by destruct (_ !! x)).
  assert (Hf : federations (sv_node (janitor_expire x s)) = federations (sv_node s) ∧
    shutdown_flag (sv_node (janitor_expire x s)) = shutdown_flag (sv_node s)).
  { unfold janitor_expire. destruct (_ !! x) as [ss|]; [|done]. simpl. by destruct (ss_membership ss). }
  destruct Ht as [Ht Hn], Hf as [Hf Hd]. destruct (expire_simulated x s (janitor_expire x s) Hwf eq_refl Ht) as [Hwf' Hstep].
  destruct (IH (janitor_expire x s)) as (? & ? & ? & ? & ?);
    [done|by eapply table_step_wf|by eapply table_step_orphans|]. split; [done|]. split_and!; congruence.
Qed.

(** The list of the janitor plays no part in what it does to the node. *)
Lemma expire_list l g s :
  foldl (λ s sid, janitor_expire sid s) (set_sv_expired g s) l =
  set_sv_expired g (foldl (λ s sid, janitor_expire sid s) s l).
Proof.
  revert s. induction l as [|x l IH]; intros s; [done|]. cbn [foldl]. rewrite <-IH. f_equal.
  unfold janitor_expire. simpl. by destruct (_ !! x).
Qed.

Lemma expire_steps l x :
  sv_expired x = l →
  steps (replicate (length l) Ev_janitor_expire) x =
    Some (set_sv_expired (λ _, []) (foldl (λ s sid, janitor_expire sid s) x l)).
Proof.
  revert x. induction l as [|sid l IH]; intros x Hx; [simpl; by destruct x; simpl in *; subst|].
  cbn [length replicate steps step]. rewrite Hx. cbn [mbind option_bind foldl]. rewrite IH by done. by rewrite expire_list.
Qed.

Lemma steps_app es es' s : steps (es ++ es') s = s' ← steps es s; steps es' s'.
Proof. revert s. induction es as [|e es IH]; intros s; [done|]. simpl. destruct (step e s); [apply IH|done]. Qed.

(** The loop body of the janitor is a run of its events. *)
Lemma janitor_steps s :
  sv_expired s = [] → shutdown_flag (sv_node s) = false →
  steps (Ev_janitor_scan :: replicate (length (sv_expired (janitor_scan s))) Ev_janitor_expire) s
    = Some (run_suspended_session_janitor s).
Proof.
  intros He Hd. cbn [steps step]. rewrite He, Hd. cbn [mbind option_bind].
  rewrite (expire_steps (sv_expired (janitor_scan s))) by done. unfold run_suspended_session_janitor. f_equal.
  unfold janitor_scan. by rewrite expire_list.
Qed.

Lemma janitor_waiting s sid :
  suspended_sessions (sv_node (run_suspended_session_janitor s)) !! sid =
  match suspended_sessions (sv_node s) !! sid with
  | Some ss => if decide (deadline ss ≤ sv_now s) then None else Some ss
  | None => None
  end.
Proof.
  unfold run_suspended_session_janitor. simpl. rewrite expire_waiting.
  assert (Hin : sid ∈ (map_to_list (filter (λ e, deadline e.2 ≤ sv_now s) (suspended_sessions (sv_node s)))).*1 ↔
    ∃ ss, suspended_sessions (sv_node s) !! sid = Some ss ∧ deadline ss ≤ sv_now s).
  { rewrite list_elem_of_fmap. split.
    - intros ([k ss] & -> & H%elem_of_map_to_list%map_lookup_filter_Some). naive_solver.
    - intros (ss & H & Hd). exists (sid, ss). split; [done|]. apply elem_of_map_to_list, map_lookup_filter_Some. done. }
  simpl in Hin. destruct (suspended_sessions (sv_node s) !! sid) as [ss|] eqn:Hs; repeat case_decide; naive_solver.
Qed.

(** One round when every window has run out and no connection is left. *)
Lemma janitor_round s :
  node_wf (sv_node s) → table_wf (table_of s) → no_orphans (table_of s) → sv_tasks s = ∅ →
  (∀ sid ss, suspended_sessions (sv_node s) !! sid = Some ss → deadline ss ≤ sv_now s) →
  let s' := run_suspended_session_janitor s in
  suspended_sessions (sv_node s') = ∅ ∧ node_wf (sv_node s') ∧ federations (sv_node s') = federations (sv_node s) ∧
  ∀ r fed, fed_heap (sv_node s') !! r = Some fed → federates fed = ∅.
Proof.
  intros Hwf Htw Ho Ht Hdl s'.
  destruct (expire_inv (sv_expired (janitor_scan s)) s Hwf Htw Ho) as ((Hwf' & _ & Ho') & Ht' & Hf' & _).
  assert (Hw : suspended_sessions (sv_node s') = ∅).
  { apply map_eq. intros sid. rewrite lookup_empty. unfold s'. rewrite janitor_waiting.
    destruct (_ !! sid) as [ss|] eqn:Hss; [|done]. by rewrite decide_True by (by eapply Hdl). }
  split_and!; [done|done|done|]. intros r fed Hfed. apply map_eq. intros fh. rewrite lookup_empty.
  apply eq_None_not_Some. intros [fs Hfs]. destruct (Ho' r fh (fs_session_id fs)) as (m & Hm & _).
  { simpl. unfold member. change (fed_heap (sv_node s') !! r = Some fed) in Hfed.
    simpl in Hfed. rewrite Hfed. simpl. by rewrite Hfs. }
  apply speaks_for_holder in Hm as [(t & task & Htask & _)|(ss & Hss & _)].
  - rewrite Ht', Ht, lookup_empty in Htask. done.
  - change (suspended_sessions (sv_node s') !! fs_session_id fs = Some ss) in Hss. by rewrite Hw, lookup_empty in Hss.
Qed.

(** A registered federation without federates is destroyed on request. *)
Lemma destroy_empty node name ctx out disk :
  node_wf node → (∀ r fed, fed_heap node !! r = Some fed → federates fed = ∅) → is_Some (federations node !! name) →
  (run (destroy_federation_execution name) (mkDispatchState node ctx out disk)).2 = DestroyFederationExecutionResponse.
Proof.
  intros Hwf Hempty [r Hname]. destruct (nw_registered node Hwf _ _ Hname) as (fed & Hfed & _).
  pose proof (Hempty r fed Hfed) as Hnone.
  unfold destroy_federation_execution, run, mbind, M_bind, gets, some_or_return, return_if. simpl.
  rewrite Hname. simpl. unfold fed_at, lookup_total, map_lookup_total. rewrite Hfed. simpl. by rewrite Hnone.
Qed.

(** C15: what connections leave behind is reclaimed, where a janitor runs.  As
    long as no late resume and no failed resume reply has dropped a
    membership and no shutdown was requested: when every connection has ended
    and every reconnect window has run out, the janitor can finish the round
    it may be in and run another one, and this leaves no federate in any
    federation, so that every registered federation can be destroyed.  (The
    janitor is a task that the program around the node has to start.) *)
Theorem abandoned_federates_reclaimed s0 s :
  starts s0 → reachable s0 false s →
  sv_tasks s = ∅ → shutdown_flag (sv_node s) = false →
  (∀ sid ss, suspended_sessions (sv_node s) !! sid = Some ss → deadline ss ≤ sv_now s) →
  ∃ n s', steps (replicate (length (sv_expired s)) Ev_janitor_expire ++
                 Ev_janitor_scan :: replicate n Ev_janitor_expire) s = Some s' ∧
    suspended_sessions (sv_node s') = ∅ ∧
    (∀ r fed, fed_heap (sv_node s') !! r = Some fed → federates fed = ∅) ∧
    ∀ name ctx out disk, is_Some (federations (sv_node s) !! name) →
      (run (destroy_federation_execution name) (mkDispatchState (sv_node s') ctx out disk)).2
        = DestroyFederationExecutionResponse.
Proof.
  intros Hs Hr Ht Hd Hdl. destruct (reachable_inv s0 false s Hs Hr) as (Hwf & Htw & Ho).
  destruct (expire_inv (sv_expired s) s Hwf Htw (Ho eq_refl)) as ((Hwf1 & Htw1 & Ho1) & Ht1 & Hf1 & Hd1 & Hn1).
  set (s1 := set_sv_expired (λ _, []) (foldl (λ s sid, janitor_expire sid s) s (sv_expired s))).
  destruct (janitor_round s1) as (Hw & Hwf' & Hf' & Hempty); [done|done|done|by rewrite <-Ht| |].
  { intros sid ss Hss. change (sv_now s1) with (sv_now (foldl (λ s sid, janitor_expire sid s) s (sv_expired s))).
    rewrite Hn1. apply (Hdl sid). unfold s1 in Hss. simpl in Hss. rewrite expire_waiting in Hss. by case_decide. }
  eexists _, (run_suspended_session_janitor s1). split_and!; [|done|done|].
  - rewrite steps_app, expire_steps by done. simpl. apply (janitor_steps s1); [done|]. by rewrite <-Hd.
  - intros name ctx out disk Hname. apply destroy_empty; [done..|]. rewrite Hf'. by rewrite <-Hf1 in Hname.
Qed.
End properties.

(** ** Runs of a server with one federation *)

(** The requests of the runs: create, join, resign and a report. *)
Definition demo_calls : ProstCalls := {|
  decode_request l :=
    match l with
    | [x01] => Ok (Some (CreateFederationExecutionRequest "demo" None))
    | [x02] => Ok (Some (JoinFederationExecutionRequest "F" "demo"))
    | [x03] => Ok (Some (ResignFederationExecutionRequest 0))
    | [x04] => Ok (Some ListFederationExecutionsRequest)
    | _ => Err "?"%string
    end;
  encode_response r := [if is_exception r then x00 else x01]
|}.

(** A server on the node of [created_state] that keeps lost sessions for
    [window] milliseconds. *)
Definition demo_server (window : Z) : Server :=
  Server_new (set_heartbeat (λ _, mkHeartbeatConfig 60000 180000 window) (ds_node created_state)) ∅.

Definition demo_step : Event → Server → option Server :=
  step (P := demo_prost) (PC := demo_calls) (X := no_xml) (J := digit_serde) (O := reliable_os).
Definition demo_reachable : Server → bool → Server → Prop :=
  reachable (P := demo_prost) (PC := demo_calls) (X := no_xml) (J := digit_serde) (O := reliable_os).

(** [bounded], decided for these requests. *)
Definition demo_bounded (e : Event) (s : Server) : bool :=
  forallb (λ fed, next_federate_id fed + 1 <? 2 ^ 32) (map_to_list (fed_heap (sv_node s))).*2 &&
  (next_session_id (sv_node s) + 1 <? 2 ^ 64) &&
  match e with Ev_admin (Admin_set_default_fom _) => false | _ => true end.

(** A run, with whether it dropped a membership. *)
Fixpoint trace (es : list Event) (lossy : bool) (s : Server) : option (bool * Server) :=
  match es with
  | [] => Some (lossy, s)
  | e :: es => if demo_bounded e s then s' ← demo_step e s; trace es (lossy || loses e s) s' else None
  end.

Lemma demo_small l v : decode_request (ProstCalls := demo_calls) l = Ok (Some v) → small_request (X := no_xml) v.
Proof.
  intros H. assert (Hm : request_modules v = []).
  { simpl in H. repeat case_match; by simplify_eq. }
  intros ms. rewrite Hm. intros [= <-]. split; simpl; lia.
Defined.

Lemma demo_bounded_ok e s :
  demo_bounded e s = true → bounded (PC := demo_calls) (X := no_xml) e s.
Proof.
  unfold demo_bounded. intros [[Hh Hn%Z.ltb_lt]%andb_true_iff He]%andb_true_iff. split_and!; [|done|].
  - intros r fed Hr. rewrite forallb_forall in Hh. apply Z.ltb_lt, Hh, list_elem_of_In, list_elem_of_fmap.
    exists (r, fed). split; [done|]. by apply elem_of_map_to_list.
  - destruct e as [| t [|[f|]| | | | |] | | | | | | |[]]; try done. apply demo_small.
Defined.

Lemma trace_reachable es s0 lossy s lossy' s' :
  demo_reachable s0 lossy s → trace es lossy s = Some (lossy', s') → demo_reachable s0 lossy' s'.
Proof.
  revert lossy s. induction es as [|e es IH]; intros lossy s Hr; simpl; [by intros [= <- <-]|].
  destruct (demo_bounded e s) eqn:Hb; [|done]. destruct (demo_step e s) as [s1|] eqn:Hs; simpl; [|done].
  apply IH. apply (reach_step s0 e s s1 lossy Hr (demo_bounded_ok e s Hb) Hs).
Defined.

Lemma demo_starts window : starts (demo_server window).
Proof.
  split; [by eapply registry_wf, created_node_wf|done|done|done|]. intros r fh. unfold member.
  destruct (fed_heap (sv_node (demo_server window)) !! r) as [fed|] eqn:Hr; [|done]. simpl.
  apply elem_of_map_to_list in Hr.
  assert (Hl : map_to_list (fed_heap (sv_node (demo_server window))) = [(1%positive, Federation_new "demo" demo_fom)])
    by (vm_compute; reflexivity).
  apply (eq_ind _ (λ l, (r, fed) ∈ l) Hr) in Hl. apply list_elem_of_singleton in Hl. by injection Hl as _ ->.
Defined.

(** A connection from address 9 opens a session as task [t] and joins. *)
Definition opens (t : positive) : list Event :=
  [Ev_accept L_tcp 9; Ev_task t (T_frame (Ok new_session_frame)); Ev_task t (T_reply (Ok tt)); Ev_task t T_go].
Definition calls (t : positive) (body : list byte) : list Event :=
  [Ev_task t (T_frame (Ok (hla_call_request_frame 1 1 0 body))); Ev_task t T_go].
(** The peer is gone; the session is closed, suspended if there is a window. *)
Definition drops (t : positive) : list Event := [Ev_task t (T_frame (Err Io_UnexpectedEof)); Ev_task t T_go].
(** The rest of the task. *)
Definition ends (t : positive) (c : ConnRef) : list Event :=
  [Ev_task t (T_writer true); Ev_task t T_go; Ev_heartbeat_stop c; Ev_task t (T_writer true); Ev_task t T_go;
   Ev_task t T_go; Ev_task t T_go].
Definition resumes (t : positive) (sid : Z) (written : result CodecError unit) : list Event :=
  [Ev_accept L_tcp 9; Ev_task t (T_frame (Ok (resume_request_frame sid 0 0))); Ev_task t (T_reply written)].
Definition outcome (window : Z) (es : list Event) : option (bool * Server) := trace es false (demo_server window).

(** A member whose connection is lost, and the task's end. *)
Definition joined : list Event := opens 1 ++ calls 1 [x02].
Definition lost : list Event := joined ++ drops 1 ++ ends 1 1%positive.

(** The session of the federate of the runs, if it is still a member. *)
Definition demo_federate (s : Server) : option Z := member (sv_node s) 1%positive (FederateHandle_new 1).

(** *** Witnesses *)

(** The server after a run. *)
Definition after (es : list Event) : Server := default (demo_server 100) (snd <$> outcome 100 es).
Definition joined_server : Server := after joined.
Definition lost_server : Server := after lost.
Definition expired_server : Server := after (lost ++ [Ev_time 100]).

Lemma after_reachable es s :
  outcome 100 es = Some (false, s) → demo_reachable (demo_server 100) false s.
Proof. intros H. eapply trace_reachable; [apply reach_start|exact H]. Defined.
Lemma joined_reachable : demo_reachable (demo_server 100) false joined_server.
Proof. apply (after_reachable joined). vm_compute. reflexivity. Defined.
Lemma lost_reachable : demo_reachable (demo_server 100) false lost_server.
Proof. apply (after_reachable lost). vm_compute. reflexivity. Defined.
Lemma expired_reachable : demo_reachable (demo_server 100) false expired_server.
Proof. apply (after_reachable (lost ++ [Ev_time 100])). vm_compute. reflexivity. Defined.

Lemma server_refines_witness :
  let e := Ev_task 1 (T_frame (Err Io_UnexpectedEof)) in
  ∃ s', demo_step e joined_server = Some s' ∧ table_step false (table_of joined_server) (table_of s').
Proof.
  intros e. assert (Hb : demo_bounded e joined_server = true) by (vm_compute; reflexivity).
  destruct (demo_step e joined_server) as [s'|] eqn:Hs.
  - exists s'. split; [reflexivity|].
    exact (server_refines_table (P := demo_prost) (PC := demo_calls) (X := no_xml) (J := digit_serde) (O := reliable_os)
      (demo_server 100) false joined_server e s' (demo_starts 100) joined_reachable (demo_bounded_ok e joined_server Hb) Hs).
  - assert (Hn : is_Some (demo_step e joined_server)) by (eexists; vm_compute; reflexivity). rewrite Hs in Hn. by destruct Hn.
Defined.

(** The suspended session still speaks for the federate. *)
Definition lost_membership : Membership := mkMembership 1%positive (FederateHandle_new 1) "federate-00000001".
Lemma lost_speaks : speaks_for lost_server 1 lost_membership.
Proof. right. eexists. split; vm_compute; reflexivity. Defined.

Lemma membership_integrity_witness : belongs_to lost_server 1%positive (FederateHandle_new 1) 1.
Proof.
  destruct (membership_integrity (P := demo_prost) (PC := demo_calls) (X := no_xml) (J := digit_serde) (O := reliable_os)
    (demo_server 100) false lost_server (demo_starts 100) lost_reachable) as (H & _).
  exact (H 1 lost_membership lost_speaks).
Defined.

Lemma no_federate_left_behind_witness : ∃ m, speaks_for lost_server 1 m.
Proof.
  destruct (no_federate_left_behind (P := demo_prost) (PC := demo_calls) (X := no_xml) (J := digit_serde) (O := reliable_os)
    (demo_server 100) lost_server 1%positive (FederateHandle_new 1) 1 (demo_starts 100) lost_reachable) as (m & Hm & _).
  - apply belongs_to_member. vm_compute. reflexivity.
  - exists m. exact Hm.
Defined.

Lemma abandoned_federates_witness :
  demo_federate expired_server = Some 1 ∧
  ∃ n s', steps (P := demo_prost) (PC := demo_calls) (X := no_xml) (J := digit_serde) (O := reliable_os)
      (replicate (length (sv_expired expired_server)) Ev_janitor_expire ++ Ev_janitor_scan :: replicate n Ev_janitor_expire)
      expired_server = Some s' ∧
    ∀ r fed, fed_heap (sv_node s') !! r = Some fed → federates fed = ∅.
Proof.
  split; [vm_compute; reflexivity|].
  destruct (abandoned_federates_reclaimed (P := demo_prost) (PC := demo_calls) (X := no_xml) (J := digit_serde) (O := reliable_os)
    (demo_server 100) expired_server (demo_starts 100) expired_reachable) as (n & s' & Hsteps & _ & Hnone & _).
  - vm_compute. reflexivity.
  - vm_compute. reflexivity.
  - intros sid ss Hss. apply elem_of_map_to_list in Hss.
    assert (Hl : map_to_list (suspended_sessions (sv_node expired_server)) = [(1, mkSuspendedSession (Some lost_membership) 100)])
      by (vm_compute; reflexivity).
    rewrite Hl in Hss. apply list_elem_of_singleton in Hss. injection Hss as _ ->. vm_compute. discriminate.
  - exists n, s'. split; [exact Hsteps|exact Hnone].
Defined.

(** *** What goes wrong *)

(** A resume that comes after the deadline, and before the janitor, removes the
    suspended session and drops the membership with it: the federate stays in
    the federation, no session speaks for it, no janitor will find it, and
    the federation can never be destroyed. *)
Theorem late_resume_leaves_federate :
  match outcome 100 (lost ++ [Ev_time 100] ++ resumes 1 1 (Ok tt) ++ [Ev_janitor_scan]) with
  | Some (lossy, s) =>
      lossy = true ∧ demo_federate s = Some 1 ∧ suspended_sessions (sv_node s) = ∅ ∧ sv_expired s = [] ∧
      omap task_session (sv_tasks s) = ∅
  | None => False
  end.
Proof. vm_compute. split_and!; reflexivity. Qed.

(** The same when the status of a successful resume cannot be written. *)
Theorem failed_resume_reply_leaves_federate :
  match outcome 100 (lost ++ resumes 1 1 (Err Io_Other)) with
  | Some (lossy, s) =>
      lossy = true ∧ demo_federate s = Some 1 ∧ suspended_sessions (sv_node s) = ∅ ∧ omap task_session (sv_tasks s) = ∅
  | None => False
  end.
Proof. vm_compute. split_and!; reflexivity. Qed.

(** A session is suspended before its old connection is removed from the
    table.  When it is resumed in between, the old task removes the entry of
    the new connection: the federate is connected, and gets no callbacks. *)
Theorem resumed_connection_unregistered :
  match outcome 100 (joined ++ drops 1 ++ resumes 2 1 (Ok tt) ++ [Ev_task 2 T_go; Ev_task 1 T_go]) with
  | Some (_, s) =>
      (task_session <$> sv_tasks s !! 2%positive) =
        Some (Some (1, Some (mkMembership 1%positive (FederateHandle_new 1) "federate-00000001"))) ∧
      has_connection 1 (sv_node s) = false
  | None => False
  end.
Proof. vm_compute. split; reflexivity. Qed.

(** A client that terminates its session stays a member for the reconnect window,
    as one whose connection was lost does. *)
Theorem terminate_suspends :
  match outcome 100 (joined ++
      [Ev_task 1 (T_frame (Ok (control_frame 1 0 CtrlTerminateSession))); Ev_task 1 T_go; Ev_task 1 T_go]) with
  | Some (_, s) => demo_federate s = Some 1 ∧ has_suspended_session 1 (sv_node s) = true
  | None => False
  end.
Proof. vm_compute. split; reflexivity. Qed.
