(* ===== verification/Connections.v ===== *)
(** * The connections of the server

    Properties of [Server] apart from membership: the count of connections
    per address, the table of connections, the channels and what is written
    on them in which order, and the answers to the first frame. *)

From S2P Require Import Prelude Float64 CoreTypes Framing Codec Fom Merge Exception Proto State Handles Routing.
From S2P Require Import Declaration Transport WireSession Handler FederationMgmt Persistence SaveRestore Dispatch Isolation.
From S2P Require Import Members Confinement Server Sessions.

(** ** Connections per address *)

(** The task is counted: it has not yet given back its place. *)
Definition counted (ph : Phase) : bool := match ph with RemovingIp => false | _ => true end.
Definition from_ip (ip : Z) (p : positive * Task) : Prop := t_ip p.2 = ip ∧ counted (t_phase p.2) = true.
#[export] Instance from_ip_dec ip p : Decision (from_ip ip p).
Proof. unfold from_ip. apply _. Defined.

Definition live_from (ip : Z) (tasks : gmap positive Task) : nat := size (filter (from_ip ip) tasks).
Definition one (ip : Z) (task : Task) : nat := if decide (from_ip ip (1%positive, task)) then 1 else 0.

Lemma live_from_insert ip t task tasks :
  tasks !! t = None → live_from ip (<[t := task]> tasks) = (one ip task + live_from ip tasks)%nat.
Proof.
  intros Ht. unfold live_from, one. destruct (decide (from_ip ip (1%positive, task))) as [H|H].
  - rewrite map_filter_insert_True by exact H. rewrite map_size_insert_None; [done|].
    rewrite map_lookup_filter_None. by left.
  - rewrite map_filter_insert_False by exact H. by rewrite delete_id.
Qed.

Lemma live_from_delete ip t task tasks :
  tasks !! t = Some task → live_from ip tasks = (one ip task + live_from ip (delete t tasks))%nat.
Proof.
  intros Ht. rewrite <-(insert_delete_id tasks t task Ht) at 1. apply live_from_insert. apply lookup_delete_eq.
Qed.

Lemma live_from_alter ip f t task tasks :
  tasks !! t = Some task →
  (live_from ip (alter f t tasks) + one ip task = live_from ip tasks + one ip (f task))%nat.
Proof.
  intros Ht. rewrite (live_from_delete ip t task tasks Ht).
  rewrite (live_from_delete ip t (f task) (alter f t tasks)) by (by rewrite lookup_alter_eq, Ht).
  rewrite delete_alter_eq. lia.
Qed.

(** No address is counted for more connections than it has. *)
Definition count_ok (s : Server) : Prop :=
  ∀ ip, (default 0 (connections_per_ip (sv_node s) !! ip) ≤ live_from ip (sv_tasks s))%nat.

Lemma count_goto t task ph s s' :
  count_ok s → sv_tasks s !! t = Some task → counted ph = counted (t_phase task) →
  connections_per_ip (sv_node s') = connections_per_ip (sv_node s) → sv_tasks s' = sv_tasks s →
  count_ok (goto t ph s').
Proof.
  intros Hc Ht Hp Hn He ip. simpl. rewrite Hn, He. specialize (Hc ip).
  pose proof (live_from_alter ip (set_phase ph) t task _ Ht) as H.
  assert (Ho : one ip (set_phase ph task) = one ip task) by (apply decide_ext; unfold from_ip; simpl; by rewrite Hp). lia.
Qed.

Lemma count_same s s' :
  count_ok s → connections_per_ip (sv_node s') = connections_per_ip (sv_node s) → sv_tasks s' = sv_tasks s → count_ok s'.
Proof. intros Hc Hn He ip. rewrite Hn, He. apply Hc. Qed.

Lemma lookup_pred ip ip' (m : gmap Z nat) :
  default 0%nat (alter pred ip m !! ip') = if decide (ip' = ip) then pred (default 0%nat (m !! ip)) else default 0%nat (m !! ip').
Proof.
  case_decide as Hd; [subst; rewrite lookup_alter_eq; by destruct (m !! ip)|by rewrite lookup_alter_ne].
Qed.

(** A counted task gives its place back. *)
Lemma count_release t task s tasks' :
  count_ok s → sv_tasks s !! t = Some task → counted (t_phase task) = true →
  (∀ ip, (live_from ip tasks' + one ip task = live_from ip (sv_tasks s))%nat) →
  ∀ ip, (default 0 (connections_per_ip (decrement_ip (t_ip task) (sv_node s)) !! ip) ≤ live_from ip tasks')%nat.
Proof.
  intros Hc Ht Hp Hl ip. specialize (Hc ip). specialize (Hl ip). simpl. rewrite lookup_pred.
  unfold one, from_ip in Hl. simpl in Hl. repeat case_decide; subst; lia.
Qed.

Section server.
Context {P : Prost} {PC : ProstCalls} {X : QuickXml} {J : Serde} {O : Os}.

Lemma count_spawn ip ph s s' :
  count_ok s → counted ph = true →
  connections_per_ip (sv_node s') = connections_per_ip (sv_node s) → sv_tasks s' = sv_tasks s →
  count_ok (spawn ip ph s').
Proof.
  intros Hc Hp Hn He ip'. unfold spawn. simpl. rewrite Hn, He. rewrite live_from_insert.
  2:{ apply not_elem_of_dom, is_fresh. }
  specialize (Hc ip'). unfold one, from_ip. simpl. destruct (decide (ip' = ip)) as [->|].
  - rewrite lookup_insert_eq, decide_True by done. simpl. lia.
  - rewrite lookup_insert_ne by done. lia.
Qed.

Lemma into_frame_count cb node : connections_per_ip (into_frame cb node).1 = connections_per_ip node.
Proof. unfold into_frame. by destruct (claim_next_outbound_seq _). Qed.

(** What a call changes of the node: the registry, the federations and three counters. *)
Lemma call_outcome_rest ctx request s :
  node_wf (sv_node s) → handles_left (sv_node s) →
  (∀ v, decode_request request = Ok (Some v) → small_request v) →
  ∀ r n, let node' := count_outcome r n (ds_node (call_outcome ctx request s).1) in
  connections_per_ip node' = connections_per_ip (sv_node s) ∧ connections node' = connections (sv_node s) ∧
  conn_heap node' = conn_heap (sv_node s) ∧ shutdown_flag node' = shutdown_flag (sv_node s) ∧
  heartbeat node' = heartbeat (sv_node s) ∧ suspended_sessions node' = suspended_sessions (sv_node s).
Proof.
  intros Hwf Hleft Hsmall r n. destruct (call_outcome_dispatched ctx request s Hwf Hleft Hsmall) as (_ & Hrest & _).
  simpl in *. unfold same_rest in Hrest. simpl in Hrest. rewrite Hrest. unfold count_outcome. by destruct (is_exception r).
Qed.

Lemma count_frame t task l r s :
  node_wf (sv_node s) → bounded (Ev_task t (T_frame r)) s → count_ok s →
  sv_tasks s !! t = Some task → counted (t_phase task) = true → count_ok (frame_received t l r s).
Proof.
  intros Hwf (Hleft & _ & Hsmall) Hc Ht Hp. destruct r as [f|e]; simpl; [|by eapply count_goto].
  unfold on_frame. destruct (message_type (header f)); try by eapply count_goto.
  unfold on_call. set (l' := mkSessionLoop _ _ _ _).
  pose proof (call_outcome_rest (sl_ctx l') (payload f) s Hwf Hleft Hsmall) as Hr.
  destruct (call_outcome (sl_ctx l') (payload f) s) as [ds r]. simpl in Hr.
  eapply count_goto; [done|done|by rewrite Hp|exact (proj1 (Hr r 0%nat))|done].
Qed.

Lemma count_deliver t task l cbs s s' :
  count_ok s → sv_tasks s !! t = Some task → counted (t_phase task) = true →
  connections_per_ip (sv_node s') = connections_per_ip (sv_node s) → sv_tasks s' = sv_tasks s →
  count_ok (deliver t l cbs s').
Proof.
  intros Hc Ht Hp Hn He. unfold deliver. destruct cbs as [|cb cbs]; [by eapply count_goto|].
  pose proof (into_frame_count cb (sv_node s')) as Hi. destruct (into_frame cb (sv_node s')).
  eapply count_goto; [done|done|done|etransitivity; [exact Hi|exact Hn]|done].
Qed.

Lemma channel_send_count c f s s' b :
  channel_send c f s = Some (s', b) → connections_per_ip (sv_node s') = connections_per_ip (sv_node s).
Proof. unfold channel_send. case_decide; [by intros [= <- _]|]. destruct (_ <? _)%nat; [|done]. by intros [= <- _]. Qed.

Lemma count_first t task f s :
  count_ok s → sv_tasks s !! t = Some task → counted (t_phase task) = true →
  count_ok (first_frame t (t_candidate task) f s).
Proof.
  intros Hc Ht Hp. unfold first_frame. destruct (message_type (header f)); try by eapply count_goto.
  - destruct (new_session_reply _ _) as [[reply [e|]]|e]; by eapply count_goto.
  - destruct (restored_session _ _ _); by eapply count_goto.
Qed.

Lemma count_add f t s : count_ok s → count_ok (set_sv_tasks (alter (add_sent f) t) s).
Proof.
  intros Hc ip. specialize (Hc ip). simpl. destruct (sv_tasks s !! t) as [task|] eqn:Ht.
  - pose proof (live_from_alter ip (add_sent f) t task _ Ht) as H.
    assert (Ho : one ip (add_sent f task) = one ip task) by done. lia.
  - by rewrite alter_id by (by rewrite Ht).
Qed.

Lemma count_reply t task reply next r s :
  count_ok s → sv_tasks s !! t = Some task → counted (t_phase task) = true → count_ok (reply_sent t reply next r s).
Proof.
  intros Hc Ht Hp. unfold reply_sent. destruct r as [[]|e]; [|by eapply count_goto].
  apply (count_add reply t) in Hc. assert (Ha : sv_tasks (set_sv_tasks (alter (add_sent reply) t) s) !! t = Some (add_sent reply task))
    by (simpl; by rewrite lookup_alter_eq, Ht).
  destruct next as [[sid om]|]; by eapply count_goto.
Qed.

Lemma count_write t c w s s' : count_ok s → write_next t c w s = Some s' → count_ok s'.
Proof.
  intros Hc. unfold write_next. case_decide; [done|]. destruct (frame_tx _) as [|f q].
  - destruct (has_sender c s); [done|]. intros [= <-]. by eapply count_same.
  - destruct w; intros [= <-]; [|by eapply count_same]. apply count_add. by eapply count_same.
Qed.

Lemma count_end t task s :
  count_ok s → sv_tasks s !! t = Some task → counted (t_phase task) = true →
  count_ok (finish t (set_sv_node (decrement_ip (t_ip task)) s)) ∧
  count_ok (goto t RemovingIp (set_sv_node (decrement_ip (t_ip task)) s)).
Proof.
  intros Hc Ht Hp. split; intros ip; eapply (count_release t task s); try done; intros ip'.
  - rewrite (live_from_delete ip' t task (sv_tasks s) Ht). simpl. lia.
  - simpl. pose proof (live_from_alter ip' (set_phase RemovingIp) t task _ Ht) as H.
    assert (Ho : one ip' (set_phase RemovingIp task) = 0%nat)
      by (unfold one; rewrite decide_False; [done|]; unfold from_ip; simpl; naive_solver). lia.
Qed.

Lemma count_remove t task s :
  count_ok s → sv_tasks s !! t = Some task → counted (t_phase task) = false → count_ok (remove_ip t (t_ip task) s).
Proof.
  intros Hc Ht Hp ip. unfold remove_ip. simpl. specialize (Hc ip).
  assert (Hl : live_from ip (delete t (sv_tasks s)) = live_from ip (sv_tasks s)).
  { rewrite (live_from_delete ip t task _ Ht). unfold one. rewrite decide_False; [done|].
    unfold from_ip. simpl. rewrite Hp. naive_solver. }
  rewrite Hl. destruct (decide (ip = t_ip task)) as [->|];
    [rewrite lookup_delete_eq; simpl; lia|by rewrite lookup_delete_ne].
Qed.

Lemma count_after_send t task l after sent s s' :
  count_ok s → sv_tasks s !! t = Some task → counted (t_phase task) = true →
  connections_per_ip (sv_node s') = connections_per_ip (sv_node s) → sv_tasks s' = sv_tasks s →
  count_ok (after_send t l after sent s').
Proof.
  intros Hc Ht Hp Hn He. destruct after; simpl; [destruct sent|..].
  all: first [by eapply count_deliver | by eapply count_goto].
Qed.

Lemma count_task t task e s s' :
  node_wf (sv_node s) → bounded (Ev_task t e) s → count_ok s →
  sv_tasks s !! t = Some task → task_step t task e s = Some s' → count_ok s'.
Proof.
  intros Hwf Hb Hc Ht. unfold task_step. assert (Hp := eq_refl (counted (t_phase task))). unfold counted in Hp at 2.
  destruct (t_phase task) as [| |reply next|sid om|l|l c f after|l|sid c|c| |] eqn:Hph;
    destruct e as [ok|r|r| | |w|]; try done; simpl conn_of; simpl mbind.
  all: rewrite <-?Hph in Hp. all: try (by apply count_write). all: try (destruct (shutdown_flag _); [done|]).
  - destruct ok; intros [= <-]; [by eapply count_goto|]. by apply count_end.
  - destruct r as [f|e]; intros [= <-]; [by apply count_first|by eapply count_goto].
  - intros [= <-]. by eapply count_reply.
  - intros [= <-]. by eapply count_goto.
  - intros [= <-]. by eapply count_frame.
  - intros [= <-]. unfold liveness_tick. destruct (_ <? _); [by eapply count_goto|done].
  - destruct (shutdown_flag _); [|done]. intros [= <-]. by eapply count_goto.
  - destruct (channel_send c f s) as [[s1 b]|] eqn:Hs; simpl; [|done]. intros [= <-].
    pose proof (channel_send_core _ _ _ _ _ Hs) as [_ ?]. apply channel_send_count in Hs. by eapply count_after_send.
  - intros [= <-]. unfold close_session. destruct (membership (sl_ctx l)); [destruct (0 <? _)|]; by eapply count_goto.
  - intros [= <-]. by eapply count_goto.
  - destruct (_ && _); [|done]. intros [= <-]. by eapply count_goto.
  - intros [= <-]. unfold release_ip. destruct (count_end t task s Hc Ht Hp). by destruct (_ !! t_ip task) as [[|n]|].
  - intros [= <-]. by apply count_remove.
Qed.

Lemma count_step e s s' :
  node_wf (sv_node s) → bounded e s → count_ok s → step e s = Some s' → count_ok s'.
Proof.
  intros Hwf Hb Hc. destruct e as [l ip|t e|c|c|c| | |d|a]; cbn [step].
  - destruct (shutdown_flag _); [done|]. intros [= <-]. destruct l; simpl; unfold accept_loop, serve_ws, serve_tls;
      destruct (check_limits _ _); first [by eapply count_spawn | by eapply count_same].
  - destruct (sv_tasks s !! t) as [task|] eqn:Ht; simpl; [|done]. by apply count_task.
  - destruct (sv_heartbeats s !! c) as [h|]; simpl; [|done]. destruct (hb_pending h); [done|]. intros [= <-].
    unfold heartbeat_tick. destruct (claim_next_outbound_seq _). by eapply count_same.
  - destruct (sv_heartbeats s !! c) as [h|]; simpl; [|done]. destruct (hb_pending h) as [f|]; simpl; [|done].
    unfold heartbeat_send. destruct (channel_send c f s) as [[s1 []]|] eqn:Hs; [| |done]; intros [= <-];
      pose proof (channel_send_core _ _ _ _ _ Hs) as [_ ?]; apply channel_send_count in Hs; by eapply count_same.
  - destruct (sv_heartbeats s !! c) as [h|]; simpl; [|done]. destruct (hb_aborted h); [|done]. intros [= <-]. by eapply count_same.
  - destruct (sv_expired s); [|done]. destruct (shutdown_flag _); [done|]. intros [= <-]. by eapply count_same.
  - destruct (sv_expired s) as [|sid rest]; [done|]. intros [= <-]. unfold janitor_expire.
    destruct (_ !! sid) as [ss|]; [|by eapply count_same]. destruct (ss_membership ss); by eapply count_same.
  - destruct (0 <=? d); [|done]. intros [= <-]. by eapply count_same.
  - intros [= <-]. by destruct a; eapply count_same.
Qed.

Lemma reachable_count s0 lossy s :
  starts s0 → connections_per_ip (sv_node s0) = ∅ → reachable s0 lossy s → count_ok s.
Proof.
  intros Hs H0 Hr. induction Hr as [|e s s' lossy Hr IH Hb Hstep].
  - intros ip. rewrite H0, lookup_empty. simpl. lia.
  - destruct (reachable_inv s0 lossy s Hs Hr) as (Hwf & _). by eapply count_step.
Qed.

(** C36: the limit per address never turns away an address that is within
    it.  In every reachable state of the server, if the connection from [ip]
    is refused because of [max_per_ip], then at least that many connections
    from [ip] are live; an address whose connections have all ended is never
    refused for them. *)
Theorem ip_limit_fair s0 lossy s ip max :
  starts s0 → connections_per_ip (sv_node s0) = ∅ → reachable s0 lossy s →
  max_per_ip (limits (sv_node s)) = Some max → check_limits ip (sv_node s) = Err "max_per_ip"%string →
  (max ≤ size (filter (λ p, t_ip p.2 = ip) (sv_tasks s)))%nat.
Proof.
  intros Hs H0 Hr Hmax. pose proof (reachable_count s0 lossy s Hs H0 Hr ip) as Hc.
  assert (Hl : (live_from ip (sv_tasks s) ≤ size (filter (λ p, t_ip p.2 = ip) (sv_tasks s)))%nat).
  { apply map_subseteq_size, map_filter_strong_subseteq_ext. intros t task. unfold from_ip. naive_solver. }
  unfold check_limits. rewrite Hmax. destruct (match max_total _ with Some _ => _ | None => _ end); [done|].
  destruct (Nat.leb_spec max (default 0%nat (connections_per_ip (sv_node s) !! ip))); [lia|done].
Qed.
End server.

(** ** The table of connections and the channels *)

(** What a task has registered: its session id and connection. *)
Definition registered (ph : Phase) : option (Z * ConnRef) :=
  match ph with
  | Serving l | Sending l _ _ _ | Ended l => Some (ctx_session_id (sl_ctx l), sl_conn l)
  | Unregistering sid c => Some (sid, c)
  | _ => None
  end.
(** The channels a task has still to send on. *)
Definition pending_targets (ph : Phase) : list ConnRef :=
  match ph with Sending _ c _ after => c :: after_targets after | _ => [] end.

Record conn_ok (s : Server) : Prop := {
  (** an entry of the table is the connection of a task that runs *)
  co_table sid c : connections (sv_node s) !! sid = Some c →
    ∃ t task, sv_tasks s !! t = Some task ∧ registered (t_phase task) = Some (sid, c);
  (** a channel whose receiver is there has a task that waits for its writer *)
  co_owned c : is_Some (conn_heap (sv_node s) !! c) →
    c ∈ sv_closed s ∨ ∃ t task, sv_tasks s !! t = Some task ∧ conn_of (t_phase task) = Some c;
  (** connections that tasks refer to exist *)
  co_conn t task c : sv_tasks s !! t = Some task → conn_of (t_phase task) = Some c ∨ c ∈ pending_targets (t_phase task) →
    is_Some (conn_heap (sv_node s) !! c);
  (** no channel holds more than its capacity *)
  co_room c conn : conn_heap (sv_node s) !! c = Some conn → (length (frame_tx conn) ≤ CHANNEL_CAPACITY)%nat
}.

(** A change of the channels that keeps them. *)
Definition same_channels (h h' : gmap ConnRef ConnectionHandle) : Prop :=
  (∀ c, is_Some (h' !! c) ↔ is_Some (h !! c)) ∧
  ((∀ c conn, h !! c = Some conn → (length (frame_tx conn) ≤ CHANNEL_CAPACITY)%nat) →
   ∀ c conn, h' !! c = Some conn → (length (frame_tx conn) ≤ CHANNEL_CAPACITY)%nat).

#[export] Instance same_channels_preorder : PreOrder same_channels.
Proof.
  split; [intros h; split; [intros c; reflexivity|by auto]|]. intros h1 h2 h3 [Hd1 Hr1] [Hd2 Hr2]. split; [intros c; by rewrite Hd2, Hd1|].
  intros H. by apply Hr2, Hr1.
Qed.

Lemma same_channels_alter g c h :
  (∀ conn, h !! c = Some conn → (length (frame_tx conn) ≤ CHANNEL_CAPACITY)%nat →
    (length (frame_tx (g conn)) ≤ CHANNEL_CAPACITY)%nat) →
  same_channels h (alter g c h).
Proof.
  intros Hg. split.
  - intros c'. destruct (decide (c' = c)) as [->|]; [rewrite lookup_alter_eq; apply fmap_is_Some|by rewrite lookup_alter_ne].
  - intros Hr c' conn'. rewrite lookup_alter_Some. intros [(<- & conn & Hconn & ->)|[_ Hc]]; eauto.
Qed.

(** A task moves to another phase of the same connection. *)
Lemma conn_goto t task ph s s' :
  conn_ok s → sv_tasks s !! t = Some task → sv_tasks s' = sv_tasks s → sv_closed s ⊆ sv_closed s' →
  connections (sv_node s') ⊆ connections (sv_node s) → same_channels (conn_heap (sv_node s)) (conn_heap (sv_node s')) →
  (∀ sid c, registered (t_phase task) = Some (sid, c) → registered ph = Some (sid, c) ∨ connections (sv_node s') !! sid = None) →
  (∀ c, conn_of (t_phase task) = Some c → conn_of ph = Some c ∨ c ∈ sv_closed s') →
  (∀ c, conn_of ph = Some c ∨ c ∈ pending_targets ph →
     conn_of (t_phase task) = Some c ∨ c ∈ pending_targets (t_phase task) ∨ is_Some (conn_heap (sv_node s') !! c)) →
  conn_ok (goto t ph s').
Proof.
  intros [Ht Ho Hc Hr] Htask He Hcl Hsub [Hdom Hroom] Hreg Hconn Href. split; simpl; rewrite ?He.
  - intros sid c Hsid. pose proof (lookup_weaken _ _ _ _ Hsid Hsub) as (t' & task' & Ht' & Hp')%Ht.
    destruct (decide (t' = t)) as [->|Hne].
    + rewrite Htask in Ht'. injection Ht' as <-. exists t, (set_phase ph task). rewrite lookup_alter_eq, Htask.
      split; [done|]. destruct (Hreg _ _ Hp') as [?|?]; [done|congruence].
    + exists t', task'. by rewrite lookup_alter_ne.
  - intros c [?|(t' & task' & Ht' & Hp')]%Hdom%Ho; [left; set_solver|]. destruct (decide (t' = t)) as [->|Hne].
    + rewrite Htask in Ht'. injection Ht' as <-. destruct (Hconn _ Hp') as [?|?]; [right|by left].
      exists t, (set_phase ph task). by rewrite lookup_alter_eq, Htask.
    + right. exists t', task'. by rewrite lookup_alter_ne.
  - intros t' task' c. rewrite lookup_alter_Some. intros [(-> & task0 & Ht0 & ->)|[_ Ht']] Hin.
    + rewrite Htask in Ht0. injection Ht0 as <-. apply Href in Hin as [?|[?|?]]; [..|done]; apply Hdom; eauto.
    + apply Hdom. eauto.
  - by apply Hroom.
Qed.

(** The other ways the parts of the invariant change. *)
Lemma conn_same s s' :
  conn_ok s → sv_tasks s' = sv_tasks s → sv_closed s ⊆ sv_closed s' →
  connections (sv_node s') = connections (sv_node s) → same_channels (conn_heap (sv_node s)) (conn_heap (sv_node s')) →
  conn_ok s'.
Proof.
  intros [Ht Ho Hc Hr] He Hcl Hn [Hdom Hroom]. split; rewrite ?He, ?Hn; [done|..|by apply Hroom].
  - intros c [?|?]%Hdom%Ho; [left; set_solver|by right].
  - intros t task c Htask Hin. apply Hdom. eauto.
Qed.

Lemma conn_rest s s' :
  conn_ok s → sv_tasks s' = sv_tasks s → sv_closed s' = sv_closed s →
  connections (sv_node s') = connections (sv_node s) → conn_heap (sv_node s') = conn_heap (sv_node s) → conn_ok s'.
Proof. intros Hok H1 H2 H3 H4. eapply conn_same; [done|done|by rewrite H2|done|]. by rewrite H4. Qed.

Lemma conn_finish t task s s' :
  conn_ok s → sv_tasks s !! t = Some task → registered (t_phase task) = None → conn_of (t_phase task) = None →
  sv_tasks s' = sv_tasks s → sv_closed s' = sv_closed s → connections (sv_node s') = connections (sv_node s) →
  conn_heap (sv_node s') = conn_heap (sv_node s) → conn_ok (finish t s').
Proof.
  intros [Ht Ho Hc Hr] Htask Hreg Hconn He Hcl Hn Hh.
  assert (Hother : ∀ t' task', sv_tasks s !! t' = Some task' → t' ≠ t → delete t (sv_tasks s) !! t' = Some task')
    by (intros; by rewrite lookup_delete_ne).
  split; simpl; rewrite ?He, ?Hcl, ?Hn, ?Hh; [..|done].
  - intros sid c (t' & task' & Ht' & Hp')%Ht. exists t', task'. split; [|done]. apply Hother; [done|]. intros ->. congruence.
  - intros c [?|(t' & task' & Ht' & Hp')]%Ho; [by left|right]. exists t', task'. split; [|done].
    apply Hother; [done|]. intros ->. congruence.
  - intros t' task' c. rewrite lookup_delete_Some. intros [_ Ht']. exact (Hc _ _ c Ht').
Qed.

Lemma conn_insert t task s s' :
  conn_ok s → sv_tasks s !! t = None → conn_of (t_phase task) = None → pending_targets (t_phase task) = [] →
  sv_tasks s' = <[t := task]> (sv_tasks s) → sv_closed s' = sv_closed s →
  connections (sv_node s') = connections (sv_node s) → conn_heap (sv_node s') = conn_heap (sv_node s) → conn_ok s'.
Proof.
  intros [Ht Ho Hc Hr] Hfresh Hconn Hpend He Hcl Hn Hh.
  assert (Hother : ∀ t' task', sv_tasks s !! t' = Some task' → <[t := task]> (sv_tasks s) !! t' = Some task')
    by (intros t' task' H; rewrite lookup_insert_ne; [done|congruence]).
  split; rewrite ?He, ?Hcl, ?Hn, ?Hh; [naive_solver|naive_solver| |done].
  intros t' task' c. rewrite lookup_insert_Some. intros [[<- <-]|[_ Ht']]; [|exact (Hc _ _ c Ht')].
  rewrite Hconn, Hpend. intros [?|?]; [done|set_solver].
Qed.

Lemma conn_spawn ip ph s :
  conn_ok s → conn_of ph = None → pending_targets ph = [] → conn_ok (spawn ip ph s).
Proof.
  intros Hok Hconn Hp. apply (conn_insert (fresh (dom (sv_tasks s))) (mkTask ip (next_session_id (sv_node s)) ph []) s); try done.
  apply not_elem_of_dom, is_fresh.
Qed.

Lemma conn_add t f s : conn_ok s → conn_ok (set_sv_tasks (alter (add_sent f) t) s).
Proof.
  intros [Ht Ho Hc Hr].
  assert (H : ∀ t' task', sv_tasks s !! t' = Some task' →
    ∃ task'', alter (add_sent f) t (sv_tasks s) !! t' = Some task'' ∧ t_phase task'' = t_phase task').
  { intros t' task' H. destruct (decide (t' = t)) as [->|];
      [rewrite lookup_alter_eq, H|rewrite lookup_alter_ne by done]; simpl; eauto. }
  split; simpl; [..|done].
  - intros sid c (t' & task' & (task'' & H' & Hp)%H & ?)%Ht. exists t', task''. by rewrite Hp.
  - intros c [?|(t' & task' & (task'' & H' & Hp)%H & ?)]%Ho; [by left|right]. exists t', task''. by rewrite Hp.
  - intros t' task' c. rewrite lookup_alter_Some. intros [(_ & task0 & Ht0 & ->)|[_ Ht']]; [exact (Hc _ _ c Ht0)|exact (Hc _ _ c Ht')].
Qed.

(** A move to a phase with the same connection and no new channel. *)
Lemma conn_move t task ph s s' :
  conn_ok s → sv_tasks s !! t = Some task → sv_tasks s' = sv_tasks s → sv_closed s' = sv_closed s →
  connections (sv_node s') = connections (sv_node s) → same_channels (conn_heap (sv_node s)) (conn_heap (sv_node s')) →
  registered ph = registered (t_phase task) → conn_of ph = conn_of (t_phase task) →
  (∀ c, c ∈ pending_targets ph →
     conn_of (t_phase task) = Some c ∨ c ∈ pending_targets (t_phase task) ∨ is_Some (conn_heap (sv_node s) !! c)) →
  conn_ok (goto t ph s').
Proof.
  intros Hok Htask He Hcl Hn Hh Hreg Hconn Hp. eapply conn_goto; [done..|by rewrite Hcl|by rewrite Hn|done| | |].
  - intros sid c. rewrite Hreg. by left.
  - intros c. rewrite Hconn. by left.
  - intros c [H|H]; [rewrite <-Hconn; by left|]. destruct (Hp _ H) as [?|[?|?]]; [by left|by right; left|].
    right. right. by apply Hh.
Qed.

Section channels.
Context {P : Prost} {PC : ProstCalls} {X : QuickXml} {J : Serde} {O : Os}.

(** The callbacks of a call are for registered connections. *)
Lemma call_targets ctx request s cb :
  cb ∈ ds_callbacks (call_outcome ctx request s).1 → ∃ sid, connections (sv_node s) !! sid = Some (target cb).
Proof.
  unfold call_outcome. destruct (decode_request request) as [[v|]|e]; [|set_solver..]. cbn [dispatch_call].
  destruct (membership_request v) eqn:Hv.
  - rewrite (membership_quiet v _ Hv). set_solver.
  - intros [?|[(m & _ & fh & fs & _ & Hc)|Hc]]%(wi_callbacks _ _ (services_within v _ Hv)); [set_solver|eauto..].
Qed.

Lemma registered_conn ph sid c : registered ph = Some (sid, c) → conn_of ph = Some c.
Proof. destruct ph; simpl; naive_solver. Qed.

Lemma table_conn s sid c : conn_ok s → connections (sv_node s) !! sid = Some c → is_Some (conn_heap (sv_node s) !! c).
Proof.
  intros [Ht _ Hc _] (t & task & Htask & Hr%registered_conn)%Ht. by eapply Hc; [|left].
Qed.

Lemma channel_send_channels c f s s' b :
  channel_send c f s = Some (s', b) →
  sv_tasks s' = sv_tasks s ∧ sv_closed s' = sv_closed s ∧ connections (sv_node s') = connections (sv_node s) ∧
  same_channels (conn_heap (sv_node s)) (conn_heap (sv_node s')).
Proof.
  unfold channel_send. case_decide; [intros [= <- _]; split_and!; reflexivity|].
  destruct (Nat.ltb_spec (length (frame_tx (conn_at (sv_node s) c))) CHANNEL_CAPACITY) as [Hl|]; [|done].
  intros [= <- _]. split_and!; [done..|]. apply same_channels_alter. intros conn Hconn _.
  unfold conn_at, lookup_total, map_lookup_total in Hl. rewrite Hconn in Hl. simpl in *. rewrite length_app. simpl. lia.
Qed.

Lemma into_frame_channels cb node :
  connections (into_frame cb node).1 = connections node ∧ same_channels (conn_heap node) (conn_heap (into_frame cb node).1).
Proof.
  unfold into_frame. destruct (claim_next_outbound_seq _). simpl. split; [done|]. by apply same_channels_alter.
Qed.

Lemma conn_deliver t task l cbs s s' :
  conn_ok s → sv_tasks s !! t = Some task → sv_tasks s' = sv_tasks s → sv_closed s' = sv_closed s →
  connections (sv_node s') = connections (sv_node s) → same_channels (conn_heap (sv_node s)) (conn_heap (sv_node s')) →
  registered (t_phase task) = Some (ctx_session_id (sl_ctx l), sl_conn l) → conn_of (t_phase task) = Some (sl_conn l) →
  (∀ c, c ∈ target <$> cbs → c ∈ pending_targets (t_phase task)) → conn_ok (deliver t l cbs s').
Proof.
  intros Hok Htask He Hcl Hn Hh Hreg Hconn Hp. unfold deliver. destruct cbs as [|cb cbs].
  - eapply conn_move; [done..|by rewrite Hreg|by rewrite Hconn|set_solver].
  - destruct (into_frame_channels cb (sv_node s')) as [Hn' Hh']. destruct (into_frame cb (sv_node s')) as [node f].
    eapply conn_move; [done..|etransitivity; [exact Hn'|done]|etransitivity; [done|exact Hh']|by rewrite Hreg|by rewrite Hconn|].
    intros c Hin. right. left. apply Hp. by rewrite fmap_cons.
Qed.

Lemma conn_frame t task l r s :
  node_wf (sv_node s) → bounded (Ev_task t (T_frame r)) s → conn_ok s →
  sv_tasks s !! t = Some task → t_phase task = Serving l → conn_ok (frame_received t l r s).
Proof.
  intros Hwf (Hleft & _ & Hsmall) Hok Ht Hp.
  assert (Hmove : ∀ ph, registered ph = registered (Serving l) → conn_of ph = Some (sl_conn l) →
    (∀ c, c ∈ pending_targets ph → c = sl_conn l) → conn_ok (goto t ph s)).
  { intros ph H1 H2 H3. eapply conn_move; rewrite ?Hp; [done..|reflexivity|done|done|].
    intros c Hc%H3. left. by subst. }
  destruct r as [f|e]; simpl; [|apply Hmove; simpl; [done|done|set_solver]].
  unfold on_frame. destruct (message_type (header f)); try (apply Hmove; simpl; [done|done|set_solver]).
  unfold on_call. simpl. pose proof (call_outcome_rest (sl_ctx l) (payload f) s Hwf Hleft Hsmall) as Hr.
  destruct (call_outcome_dispatched (sl_ctx l) (payload f) s Hwf Hleft Hsmall) as (_ & _ & Hch).
  assert (Hcbs : ∀ cb, cb ∈ ds_callbacks (call_outcome (sl_ctx l) (payload f) s).1 → is_Some (conn_heap (sv_node s) !! target cb)).
  { intros cb (sid & Hsid)%call_targets. by eapply table_conn. }
  assert (Hctx : ctx_session_id (ds_ctx (call_outcome (sl_ctx l) (payload f) s).1) = ctx_session_id (sl_ctx l)).
  { destruct Hch as [Hctx _|m _ Hctx _ _|m _ Hctx _]; by rewrite Hctx. }
  destruct (call_outcome (sl_ctx l) (payload f) s) as [ds r]. cbn [fst] in *.
  destruct (Hr r (length (ds_callbacks ds))) as (_ & Hn & Hh & _). clear Hr.
  eapply conn_move; rewrite ?Hp; [done|done|done|done|exact Hn| | | |].
  - simpl in *. by rewrite Hh.
  - simpl. by rewrite Hctx.
  - done.
  - intros c. simpl. rewrite elem_of_cons, list_elem_of_fmap. intros [->|(cb & -> & Hcb)]; [by left|right; right; by apply Hcbs].
Qed.

Lemma conn_register t task sid om s :
  conn_ok s → sv_tasks s !! t = Some task → t_phase task = Registering sid om → conn_ok (register t sid om s).
Proof.
  intros [Ht Ho Hc Hr] Htask Hp. unfold register. set (c := fresh (dom (conn_heap (sv_node s)))). set (l := mkSessionLoop _ _ _ _).
  assert (Hfresh : conn_heap (sv_node s) !! c = None) by apply not_elem_of_dom, is_fresh.
  assert (Hnew : alter (set_phase (Serving l)) t (sv_tasks s) !! t = Some (set_phase (Serving l) task))
    by (by rewrite lookup_alter_eq, Htask).
  assert (Hother : ∀ t' task', sv_tasks s !! t' = Some task' → conn_of (t_phase task') ≠ None →
    alter (set_phase (Serving l)) t (sv_tasks s) !! t' = Some task').
  { intros t' task' H Hn. rewrite lookup_alter_ne; [done|]. intros ->. rewrite Htask in H. injection H as <-.
    apply Hn. by rewrite Hp. }
  split; simpl.
  - intros sid' c'. rewrite lookup_insert_Some. intros [[<- <-]|[_ (t' & task' & Ht' & Hreg)%Ht]].
    + by exists t, (set_phase (Serving l) task).
    + exists t', task'. split; [|done]. apply Hother; [done|]. by rewrite (registered_conn _ _ _ Hreg).
  - intros c' Hc'. destruct (decide (c' = c)) as [->|]; [right; by exists t, (set_phase (Serving l) task)|].
    rewrite lookup_insert_ne in Hc' by done. apply Ho in Hc' as [?|(t' & task' & Ht' & Hconn)]; [by left|right].
    exists t', task'. split; [|done]. apply Hother; [done|congruence].
  - intros t' task' c'. rewrite lookup_alter_Some. intros [(-> & task0 & _ & ->)|[_ Ht']] Hin.
    + simpl in Hin. destruct Hin as [[= <-]|?]; [by rewrite lookup_insert_eq|set_solver].
    + destruct (Hc _ _ c' Ht' Hin) as [conn Hconn]. rewrite lookup_insert_ne; [done|]. intros <-. congruence.
  - intros c' conn. rewrite lookup_insert_Some. intros [[_ <-]|[_ H]]; [simpl; lia|by eapply Hr].
Qed.

Lemma conn_write t c w s s' : conn_ok s → write_next t c w s = Some s' → conn_ok s'.
Proof.
  intros Hok. unfold write_next. case_decide; [done|]. destruct (frame_tx (conn_at (sv_node s) c)) as [|f q] eqn:Hq.
  - destruct (has_sender c s); [done|]. intros [= <-]. eapply conn_same; [done|done|simpl; set_solver|done|reflexivity].
  - assert (Hpop : ∀ q', (length q' ≤ length q)%nat →
      same_channels (conn_heap (sv_node s)) (alter (set_frame_tx (λ _, q')) c (conn_heap (sv_node s)))).
    { intros q' Hl. apply same_channels_alter. intros conn Hconn Hr. simpl.
      unfold conn_at, lookup_total, map_lookup_total in Hq. rewrite Hconn in Hq. simpl in Hq. rewrite Hq in Hr. simpl in Hr. lia. }
    destruct w; intros [= <-].
    + apply conn_add. eapply conn_same; [done|done|done|done|by apply Hpop].
    + eapply conn_same; [done|done|simpl; set_solver|done|]. apply Hpop. simpl. lia.
Qed.

Lemma conn_first t task f s :
  conn_ok s → sv_tasks s !! t = Some task → t_phase task = Opening → conn_ok (first_frame t (t_candidate task) f s).
Proof.
  intros Hok Ht Hp.
  assert (Hmove : ∀ ph s', registered ph = None → conn_of ph = None → pending_targets ph = [] → sv_tasks s' = sv_tasks s →
    sv_closed s' = sv_closed s → connections (sv_node s') = connections (sv_node s) →
    conn_heap (sv_node s') = conn_heap (sv_node s) → conn_ok (goto t ph s')).
  { intros ph s' H1 H2 H3 H4 H5 H6 H7. apply (conn_move t task ph s s'); rewrite ?Hp, ?H3, ?H7; [done|done|done|done|done|reflexivity|done|done|set_solver]. }
  unfold first_frame. destruct (message_type (header f)); try by apply Hmove.
  - destruct (new_session_reply _ _) as [[reply [e|]]|e]; by apply Hmove.
  - destruct (restored_session _ _ _); by apply Hmove.
Qed.

(** A move between phases without a connection. *)
Lemma conn_move_off t task ph s s' :
  conn_ok s → sv_tasks s !! t = Some task → registered (t_phase task) = None → conn_of (t_phase task) = None →
  registered ph = None → conn_of ph = None → pending_targets ph = [] →
  sv_tasks s' = sv_tasks s → sv_closed s' = sv_closed s → connections (sv_node s') = connections (sv_node s) →
  conn_heap (sv_node s') = conn_heap (sv_node s) → conn_ok (goto t ph s').
Proof.
  intros Hok Ht H1 H2 H3 H4 H5 H6 H7 H8 H9.
  apply (conn_move t task ph s s'); rewrite ?H9, ?H5; [done|done|done|done|done|reflexivity|congruence|congruence|set_solver].
Qed.

(** A move of the session loop that leaves the channels alone. *)
Lemma conn_move_loop t task ph s s' :
  conn_ok s → sv_tasks s !! t = Some task → registered ph = registered (t_phase task) → conn_of ph = conn_of (t_phase task) →
  pending_targets ph = [] →
  sv_tasks s' = sv_tasks s → sv_closed s' = sv_closed s → connections (sv_node s') = connections (sv_node s) →
  same_channels (conn_heap (sv_node s)) (conn_heap (sv_node s')) → conn_ok (goto t ph s').
Proof.
  intros Hok Ht H1 H2 H3 H4 H5 H6 H7. apply (conn_move t task ph s s'); try done. rewrite H3. set_solver.
Qed.

Lemma conn_reply t task reply next r s :
  conn_ok s → sv_tasks s !! t = Some task → t_phase task = Replying reply next → conn_ok (reply_sent t reply next r s).
Proof.
  intros Hok Ht Hp. unfold reply_sent.
  destruct r as [[]|e]; [|by eapply conn_move_off; rewrite ?Hp].
  assert (Ha : sv_tasks (set_sv_tasks (alter (add_sent reply) t) s) !! t = Some (add_sent reply task))
    by (simpl; by rewrite lookup_alter_eq, Ht).
  apply (conn_add t reply) in Hok. destruct next as [[sid om]|];
    apply (conn_move_off t (add_sent reply task) _ (set_sv_tasks (alter (add_sent reply) t) s)); simpl; by rewrite ?Hp.
Qed.

Lemma conn_after_send t task l c f after sent s s' :
  conn_ok s → sv_tasks s !! t = Some task → t_phase task = Sending l c f after →
  channel_send c f s = Some (s', sent) → conn_ok (after_send t l after sent s').
Proof.
  intros Hok Ht Hp (H1 & H2 & H3 & H4)%channel_send_channels. destruct after as [cbs|cbs| |]; simpl; [destruct sent|..].
  all: try (eapply conn_move_loop; rewrite ?Hp; done).
  all: eapply conn_deliver; rewrite ?Hp; try done; simpl; set_solver.
Qed.

Lemma conn_unregister t task sid c s :
  conn_ok s → sv_tasks s !! t = Some task → t_phase task = Unregistering sid c → conn_ok (unregister t sid c s).
Proof.
  intros Hok Ht Hp. unfold unregister. eapply conn_goto; rewrite ?Hp; [done|done|done|done|apply delete_subseteq|reflexivity|..]; simpl.
  - intros sid' c' [= <- <-]. right. apply lookup_delete_eq.
  - intros c' ?. by left.
  - intros c' [?|?]; [by left|set_solver].
Qed.

Lemma conn_drained t task c s :
  conn_ok s → sv_tasks s !! t = Some task → t_phase task = Draining c → c ∈ sv_closed s → conn_ok (goto t Releasing s).
Proof.
  intros Hok Ht Hp Hc. eapply conn_goto; rewrite ?Hp; [done|done|done|done|done|reflexivity|..]; simpl.
  - done.
  - intros c' [= <-]. by right.
  - intros c' [?|?]; [done|set_solver].
Qed.

Lemma conn_task t task e s s' :
  node_wf (sv_node s) → bounded (Ev_task t e) s → conn_ok s →
  sv_tasks s !! t = Some task → task_step t task e s = Some s' → conn_ok s'.
Proof.
  intros Hwf Hb Hok Ht. unfold task_step.
  destruct (t_phase task) as [| |reply next|sid om|l|l c f after|l|sid c|c| |] eqn:Hp;
    destruct e as [ok|r|r| | |w|]; try done; simpl conn_of; simpl mbind.
  all: try (by apply conn_write). all: try (destruct (shutdown_flag _); [done|]).
  - destruct ok; intros [= <-]; [by eapply conn_move_off; rewrite ?Hp|by eapply conn_finish; rewrite ?Hp].
  - destruct r as [f|e]; intros [= <-]; [by apply conn_first|by eapply conn_move_off; rewrite ?Hp].
  - intros [= <-]. by eapply conn_reply.
  - intros [= <-]. by eapply conn_register.
  - intros [= <-]. by eapply conn_frame.
  - intros [= <-]. unfold liveness_tick. destruct (_ <? _); [by eapply conn_move_loop; rewrite ?Hp|done].
  - destruct (shutdown_flag _); [|done]. intros [= <-]. by eapply conn_move_loop; rewrite ?Hp.
  - destruct (channel_send c f s) as [[s1 b]|] eqn:Hs; simpl; [|done]. intros [= <-]. by eapply conn_after_send.
  - intros [= <-]. unfold close_session.
    destruct (membership (sl_ctx l)); [destruct (0 <? _)|]; by eapply conn_move_loop; rewrite ?Hp.
  - intros [= <-]. by eapply conn_unregister.
  - destruct (bool_decide (c ∈ sv_closed s)) eqn:Hc; [|done]. apply bool_decide_eq_true in Hc.
    destruct (bool_decide _); [|done]. intros [= <-]. by eapply conn_drained.
  - intros [= <-]. unfold release_ip.
    destruct (_ !! t_ip task) as [[|n]|]; first [by eapply conn_move_off; rewrite ?Hp | by eapply conn_finish; rewrite ?Hp].
  - intros [= <-]. by eapply conn_finish; rewrite ?Hp.
Qed.

Lemma conn_step e s s' :
  node_wf (sv_node s) → bounded e s → conn_ok s → step e s = Some s' → conn_ok s'.
Proof.
  intros Hwf Hb Hok. destruct e as [l ip|t e|c|c|c| | |d|a]; cbn [step].
  - destruct (shutdown_flag _); [done|]. intros [= <-].
    destruct l; simpl; unfold accept_loop, serve_ws, serve_tls; destruct (check_limits _ _);
      try (apply conn_spawn; [|done|done]); by eapply conn_rest.
  - destruct (sv_tasks s !! t) as [task|] eqn:Ht; simpl; [|done]. by apply conn_task.
  - destruct (sv_heartbeats s !! c) as [h|]; simpl; [|done]. destruct (hb_pending h); [done|]. intros [= <-].
    unfold heartbeat_tick. destruct (claim_next_outbound_seq _). eapply conn_same; [done..|]. by apply same_channels_alter.
  - destruct (sv_heartbeats s !! c) as [h|]; simpl; [|done]. destruct (hb_pending h) as [f|]; simpl; [|done].
    unfold heartbeat_send. destruct (channel_send c f s) as [[s1 b]|] eqn:Hs; [|done].
    apply channel_send_channels in Hs as (? & Hcl & ? & ?). destruct b; intros [= <-];
      (apply (conn_same s); [done|done|simpl; by rewrite Hcl|done|done]).
  - destruct (sv_heartbeats s !! c) as [h|]; simpl; [|done]. destruct (hb_aborted h); [|done]. intros [= <-]. by eapply conn_rest.
  - destruct (sv_expired s); [|done]. destruct (shutdown_flag _); [done|]. intros [= <-]. by eapply conn_rest.
  - destruct (sv_expired s) as [|sid rest]; [done|]. intros [= <-]. unfold janitor_expire.
    destruct (_ !! sid) as [ss|]; [|by eapply conn_rest]. destruct (ss_membership ss); by eapply conn_rest.
  - destruct (0 <=? d); [|done]. intros [= <-]. by eapply conn_rest.
  - intros [= <-]. by destruct a; eapply conn_rest.
Qed.

(** A server that has no connection yet. *)
Definition unconnected (s0 : Server) : Prop :=
  connections (sv_node s0) = ∅ ∧ conn_heap (sv_node s0) = ∅.

Lemma reachable_conn s0 lossy s : starts s0 → unconnected s0 → reachable s0 lossy s → conn_ok s.
Proof.
  intros Hs [Hn Hh] Hr. induction Hr as [|e s s' lossy Hr IH Hb Hstep].
  - split; rewrite ?Hn, ?Hh, ?(st_tasks _ Hs); intros *; rewrite ?lookup_empty; done || by intros [].
  - destruct (reachable_inv s0 lossy s Hs Hr) as (Hwf & _). by eapply conn_step.
Qed.

Lemma writer_ready s t task c w :
  sv_tasks s !! t = Some task → conn_of (t_phase task) = Some c → c ∉ sv_closed s →
  frame_tx (conn_at (sv_node s) c) ≠ [] → is_Some (step (Ev_task t (T_writer w)) s).
Proof.
  intros Ht Hconn Hcl Hq. cbn [step]. rewrite Ht. simpl.
  assert (Hw : is_Some (write_next t c w s)).
  { unfold write_next. rewrite decide_False by done. destruct (frame_tx (conn_at (sv_node s) c)); [done|destruct w; by eexists]. }
  unfold task_step. destruct (t_phase task); try discriminate Hconn; injection Hconn as <-; exact Hw.
Qed.

(** One step of the writer of a channel, whether it writes a frame or fails,
    and a send that waited for room goes on. *)
Lemma write_unblocks s t t' task task' l c f after w :
  conn_ok s → sv_tasks s !! t = Some task → t_phase task = Sending l c f after →
  sv_tasks s !! t' = Some task' → conn_of (t_phase task') = Some c → c ∉ sv_closed s →
  frame_tx (conn_at (sv_node s) c) ≠ [] →
  ∃ s', step (Ev_task t' (T_writer w)) s = Some s' ∧ is_Some (step (Ev_task t T_go) s').
Proof.
  intros Hok Ht Hp Ht' Hconn Hcl Hq.
  assert (Hstep : step (Ev_task t' (T_writer w)) s = write_next t' c w s).
  { cbn [step]. rewrite Ht'. simpl. unfold task_step. by destruct (t_phase task'); try discriminate Hconn; injection Hconn as <-. }
  assert (Hex : is_Some (conn_heap (sv_node s) !! c)) by (eapply (co_conn _ Hok); [exact Ht'|by left]).
  destruct Hex as [conn Hex]. pose proof (co_room _ Hok c conn Hex) as Hroom.
  unfold conn_at, lookup_total, map_lookup_total in Hq. rewrite Hex in Hq. simpl in Hq.
  rewrite Hstep. unfold write_next. rewrite decide_False by done. unfold conn_at at 1, lookup_total, map_lookup_total. rewrite Hex.
  simpl. destruct (frame_tx conn) as [|f0 q] eqn:Htx; [done|]. simpl in Hroom.
  assert (Hgo : ∀ s' task1, sv_tasks s' !! t = Some task1 → t_phase task1 = Sending l c f after →
    c ∈ sv_closed s' ∨ (length (frame_tx (conn_at (sv_node s') c)) < CHANNEL_CAPACITY)%nat → is_Some (step (Ev_task t T_go) s')).
  { intros s' task1 E1 E2 Hroom'. cbn [step]. rewrite E1. simpl. unfold task_step, channel_send. rewrite E2.
    case_decide as Hc'; [by eexists|]. destruct Hroom' as [?|Hl]; [done|]. rewrite (proj2 (Nat.ltb_lt _ _) Hl). by eexists. }
  destruct w; eexists; (split; [done|]).
  - eapply (Hgo _ (if decide (t' = t) then add_sent f0 task else task)).
    + simpl. case_decide as E; [subst t'; by rewrite lookup_alter_eq, Ht|by rewrite lookup_alter_ne].
    + by case_decide.
    + right. unfold conn_at, lookup_total, map_lookup_total. simpl. rewrite lookup_alter_eq, Hex. simpl. lia.
  - eapply (Hgo _ task); [done|done|]. left. simpl. set_solver.
Qed.

(** A send can go on, or the writer of the channel can, and then the send. *)
Lemma send_unblocked s t task l c f after :
  conn_ok s → sv_tasks s !! t = Some task → t_phase task = Sending l c f after →
  is_Some (step (Ev_task t T_go) s) ∨
  ∃ t' task', sv_tasks s !! t' = Some task' ∧ conn_of (t_phase task') = Some c ∧
    ∀ written, ∃ s', step (Ev_task t' (T_writer written)) s = Some s' ∧ is_Some (step (Ev_task t T_go) s').
Proof.
  intros Hok Htask Hp.
  assert (Hex : is_Some (conn_heap (sv_node s) !! c)) by (eapply (co_conn _ Hok); [done|rewrite Hp; right; simpl; set_solver]).
  destruct (decide (c ∈ sv_closed s)) as [Hcl|Hcl];
    [|destruct (length (frame_tx (conn_at (sv_node s) c)) <? CHANNEL_CAPACITY)%nat eqn:Hl].
  1, 2: left; cbn [step]; rewrite Htask; simpl; unfold task_step, channel_send; rewrite Hp.
  - rewrite decide_True by done. by eexists.
  - rewrite decide_False, Hl by done. by eexists.
  - right. destruct (co_owned _ Hok c Hex) as [?|(t' & task' & Ht' & Hconn)]; [done|]. exists t', task'.
    split_and!; [done|done|]. intros w. apply (write_unblocks s t t' task task' l c f after); try done.
    intros E. by rewrite E in Hl.
Qed.

(** C37: the table of connections and the channels, in every reachable state.
    Every entry of the table is the connection of a task that has opened a
    session under that id and has not ended, so nothing stays in the table
    once its task is gone; every channel whose writer has not exited is that
    of a task that runs; and the tasks of the server do not wait for each
    other: when a task waits for room on a channel, then its send can go on,
    or the writer of that channel has a frame to write, and as soon as the
    transport takes that frame or fails the send can go on.  (A transport that
    does neither keeps the writer, and with it the sender, waiting.) *)
Theorem connections_sound s0 lossy s :
  starts s0 → unconnected s0 → reachable s0 lossy s →
  (∀ sid c, connections (sv_node s) !! sid = Some c →
     ∃ t task, sv_tasks s !! t = Some task ∧ registered (t_phase task) = Some (sid, c)) ∧
  (∀ c, is_Some (conn_heap (sv_node s) !! c) → c ∉ sv_closed s →
     ∃ t task, sv_tasks s !! t = Some task ∧ conn_of (t_phase task) = Some c) ∧
  (∀ t task l c f after, sv_tasks s !! t = Some task → t_phase task = Sending l c f after →
     is_Some (step (Ev_task t T_go) s) ∨
     ∃ t' task', sv_tasks s !! t' = Some task' ∧ conn_of (t_phase task') = Some c ∧
       ∀ written, ∃ s', step (Ev_task t' (T_writer written)) s = Some s' ∧ is_Some (step (Ev_task t T_go) s')).
Proof.
  intros Hs Hu Hr. pose proof (reachable_conn s0 lossy s Hs Hu Hr) as Hok.
  split_and!; [apply (co_table _ Hok)| |].
  - intros c Hex Hcl. by destruct (co_owned _ Hok c Hex).
  - intros t task l c f after Htask Hp. by apply (send_unblocked s t task l c f after).
Qed.
End channels.

(** *** Witnesses *)

(** One connection per address: the second is refused while the first lives. *)
Definition limited_server : Server := set_sv_node (set_connection_limits (mkConnectionLimits None (Some 1%nat))) (demo_server 100).
Definition limited_run : Server := default limited_server (snd <$> trace joined false limited_server).

Lemma limited_starts : starts limited_server.
Proof. destruct (demo_starts 100) as [[Hd Hr Hf] ? ? ? ?]. by split; [split|..]. Defined.
Lemma limited_reachable : demo_reachable limited_server false limited_run.
Proof.
  apply (trace_reachable joined limited_server false limited_server); [apply reach_start|]. vm_compute. reflexivity.
Defined.

Lemma ip_limit_fair_witness : (1 ≤ size (filter (λ p, t_ip p.2 = 9%Z) (sv_tasks limited_run)))%nat.
Proof.
  apply (ip_limit_fair (P := demo_prost) (PC := demo_calls) (X := no_xml) (J := digit_serde) (O := reliable_os)
    limited_server false limited_run 9 1 limited_starts eq_refl limited_reachable); vm_compute; reflexivity.
Defined.

Lemma connections_sound_witness :
  ∃ t task, sv_tasks joined_server !! t = Some task ∧ registered (t_phase task) = Some (1, 1%positive).
Proof.
  destruct (connections_sound (P := demo_prost) (PC := demo_calls) (X := no_xml) (J := digit_serde) (O := reliable_os)
    (demo_server 100) false joined_server (demo_starts 100) (conj eq_refl eq_refl) joined_reachable) as (H & _).
  apply H. vm_compute. reflexivity.
Defined.

(** *** What goes wrong *)

(** The last connection of an address removes the entry of the address after
    it has let go of it.  A connection accepted in between is no longer
    counted: with a limit of one per address, one is live and another
    would be accepted. *)
Theorem ip_entry_lost :
  match trace (joined ++ calls 1 [x03] ++ drops 1 ++
      [Ev_task 1 (T_writer true); Ev_task 1 (T_writer true); Ev_task 1 T_go; Ev_heartbeat_stop 1%positive;
       Ev_task 1 (T_writer true); Ev_task 1 T_go; Ev_task 1 T_go; Ev_accept L_tcp 9; Ev_task 1 T_go]) false limited_server with
  | Some (_, s) => size (sv_tasks s) = 1%nat ∧ connections_per_ip (sv_node s) !! 9 = None ∧ check_limits 9 (sv_node s) = Ok tt
  | None => False
  end.
Proof. vm_compute. split_and!; reflexivity. Qed.

(** [max_total] looks at the registered connections only: connections that are
    still in their handshake are not counted, and the limit is exceeded. *)
Theorem max_total_exceeded :
  match trace [Ev_accept L_tcp 9; Ev_accept L_tcp 8] false
      (set_sv_node (set_connection_limits (mkConnectionLimits (Some 1%nat) None)) (demo_server 100)) with
  | Some (_, s) => size (sv_tasks s) = 2%nat
  | None => False
  end.
Proof. vm_compute. reflexivity. Qed.

(** [serve_tls] counts neither accepted nor rejected connections. *)
Theorem tls_not_counted ip s :
  metrics (sv_node (serve_tls ip s)) = metrics (sv_node s).
Proof. unfold serve_tls. by destruct (check_limits ip (sv_node s)). Qed.

(** The heartbeat and the callbacks of a connection claim their numbers before
    they wait for the channel, so frames can leave out of order. *)
Theorem sequence_out_of_order :
  match trace (joined ++ [Ev_heartbeat_tick 1%positive] ++ calls 1 [x04] ++ [Ev_task 1 T_go; Ev_heartbeat_send 1%positive]) false
      (demo_server 100) with
  | Some (_, s) =>
      (λ f, (message_type (header f), sequence_number (header f))) <$>
        drop 2 (default [] (frame_tx <$> conn_heap (sv_node s) !! 1%positive)) =
      [(HlaCallbackRequest, 1); (CtrlHeartbeat, 0)]
  | None => False
  end.
Proof. vm_compute. reflexivity. Qed.
