(* ===== verification/Answers.v ===== *)
(** * The answers of a session

    What the server puts on the transport of one session, as a function of
    the calls it executed for it: one response per call, in the order of the
    calls, whatever the other tasks, the heartbeat and the callbacks of the
    connection do in between, and until the writer fails. *)

From S2P Require Import Prelude Float64 CoreTypes Framing Codec Fom Merge Exception Proto State Handles Routing.
From S2P Require Import Declaration Transport WireSession Handler FederationMgmt Persistence SaveRestore Dispatch Isolation.
From S2P Require Import Members Confinement Server Sessions Connections.

Definition is_response (f : Frame) : Prop := message_type (header f) = HlaCallResponse.
#[export] Instance is_response_dec f : Decision (is_response f).
Proof. unfold is_response. apply _. Defined.
Definition responses : list Frame → list Frame := filter is_response.

Lemma responses_app fs fs' : responses (fs ++ fs') = responses fs ++ responses fs'.
Proof. apply filter_app. Qed.
Lemma responses_other f : ¬ is_response f → responses [f] = [].
Proof. intros Hf. unfold responses. by rewrite filter_cons_False. Qed.
Lemma responses_prefix fs fs' : fs `prefix_of` fs' → responses fs `prefix_of` responses fs'.
Proof. intros [k ->]. rewrite responses_app. by exists (responses k). Qed.

(** The frames that wait in a channel. *)
Definition queue (s : Server) (c : ConnRef) : list Frame := frame_tx (conn_at (sv_node s) c).

(** The response a task is about to send. *)
Definition own_send (ph : Phase) : list Frame :=
  match ph with Sending _ _ f (After_response _) => [f] | _ => [] end.
Definition before_session (ph : Phase) : bool :=
  match ph with Upgrading | Opening | Replying _ _ | Registering _ _ => true | _ => false end.

(** How far a task is with the handshake. *)
Definition rank (ph : Phase) : nat :=
  match ph with Upgrading => 0 | Opening => 1 | Replying _ _ => 2 | Registering _ _ => 3 | _ => 4 end.
Definition advances (ph ph' : Phase) : Prop := before_session ph' = true → (rank ph < rank ph')%nat.

Lemma advances_before ph ph' : advances ph ph' → before_session ph' = true → before_session ph = true.
Proof. unfold advances. intros H Hb. apply H in Hb as Hr. destruct ph, ph'; simpl in *; (done || lia). Qed.
#[local] Hint Extern 1 (advances _ _) => (unfold advances; simpl; (done || lia)) : core.

(** A response goes to the connection of the call; nothing else that a task
    sends is a response. *)
Definition phase_ok (ph : Phase) : Prop :=
  match ph with
  | Replying reply _ => ¬ is_response reply
  | Sending l c f (After_response _) => c = sl_conn l
  | Sending _ _ f _ => ¬ is_response f
  | _ => True
  end.
Definition hearts_ok (hbs : gmap ConnRef Heartbeat) : Prop :=
  ∀ c h f, hbs !! c = Some h → hb_pending h = Some f → ¬ is_response f.

Record sends_ok (s : Server) : Prop := {
  so_phase t task : sv_tasks s !! t = Some task → phase_ok (t_phase task);
  so_heart : hearts_ok (sv_heartbeats s);
  (** a connection has one task *)
  so_distinct t t' task task' c :
    sv_tasks s !! t = Some task → sv_tasks s !! t' = Some task' →
    conn_of (t_phase task) = Some c → conn_of (t_phase task') = Some c → t = t';
  so_closed c : c ∈ sv_closed s → is_Some (conn_heap (sv_node s) !! c)
}.

(** ** Queues *)

Lemma queue_same c s s' : conn_heap (sv_node s') = conn_heap (sv_node s) → queue s' c = queue s c.
Proof. unfold queue, conn_at. by intros ->. Qed.

Lemma queue_alter_ne g c c' s :
  c ≠ c' → queue (set_sv_node (set_conn_heap (alter g c)) s) c' = queue s c'.
Proof. intros Hc. unfold queue, conn_at, lookup_total, map_lookup_total. simpl. by rewrite lookup_alter_ne. Qed.

Lemma queue_alter g c s :
  is_Some (conn_heap (sv_node s) !! c) →
  queue (set_sv_node (set_conn_heap (alter g c)) s) c = frame_tx (g (conn_at (sv_node s) c)).
Proof.
  intros [conn Hc]. unfold queue, conn_at, lookup_total, map_lookup_total. simpl. by rewrite lookup_alter_eq, Hc.
Qed.

(** An alteration that leaves the frames alone. *)
Lemma queue_alter_seq g c c' node s :
  sv_node s = set_conn_heap (alter (set_next_outbound_seq g) c) node →
  queue s c' = frame_tx (conn_at node c').
Proof.
  intros Hn. unfold queue. rewrite Hn. unfold conn_at, lookup_total, map_lookup_total. simpl.
  destruct (decide (c = c')) as [->|]; [rewrite lookup_alter_eq|by rewrite lookup_alter_ne].
  by destruct (conn_heap node !! c').
Qed.

(** The frames a step puts on the channels: [app c] on channel [c]. *)
Definition nothing (c : ConnRef) : list Frame := [].
Definition one_frame (c : ConnRef) (f : Frame) (s : Server) (c' : ConnRef) : list Frame :=
  if decide (c' ∈ sv_closed s) then [] else if decide (c' = c) then [f] else [].

(** The queues of all connections but [o] grow by [app] at their end, and by
    no response. *)
Definition quiet (o : option ConnRef) (app : ConnRef → list Frame) (s s' : Server) : Prop :=
  sv_closed s ⊆ sv_closed s' ∧
  ∀ c, is_Some (conn_heap (sv_node s) !! c) → o ≠ Some c → c ∉ sv_closed s' →
    queue s' c = queue s c ++ app c ∧ responses (app c) = [].

Lemma quiet_same o s s' :
  (∀ c, queue s' c = queue s c) → sv_closed s' = sv_closed s → quiet o nothing s s'.
Proof. intros Hq Hc. split; [by rewrite Hc|]. intros c _ _ _. by rewrite Hq, app_nil_r. Qed.

(** A send appends to the queue. *)
Lemma send_appends c f s s' b c' :
  channel_send c f s = Some (s', b) → is_Some (conn_heap (sv_node s) !! c') →
  queue s' c' = queue s c' ++ one_frame c f s c'.
Proof.
  unfold channel_send, one_frame. case_decide as Hcl.
  - intros [= <- _] _. case_decide; [by rewrite app_nil_r|]. case_decide; [congruence|by rewrite app_nil_r].
  - destruct (_ <? _)%nat; [|done]. intros [= <- _] Hex. destruct (decide (c' = c)) as [->|].
    + rewrite decide_False by done. by rewrite queue_alter.
    + rewrite queue_alter_ne by done. case_decide; by rewrite app_nil_r.
Qed.

Lemma quiet_send o c f s s' b :
  o = Some c ∨ ¬ is_response f → channel_send c f s = Some (s', b) → quiet o (one_frame c f s) s s'.
Proof.
  intros Hf Hs. split.
  - unfold channel_send in Hs. by repeat case_match; simplify_eq.
  - intros c' Hex Ho _. split; [by eapply send_appends|]. unfold one_frame. case_decide; [done|]. case_decide; [|done]. subst.
    destruct Hf as [?|Hf]; [done|by apply responses_other].
Qed.

(** ** What a step leaves alone *)

(** The tasks that did not take the step are as they were. *)
Definition tasks_same (o : option positive) (s s' : Server) : Prop :=
  ∀ t, o ≠ Some t → sv_tasks s' !! t = sv_tasks s !! t.

Lemma tasks_goto t ph s s' : sv_tasks s' = sv_tasks s → tasks_same (Some t) s (goto t ph s').
Proof. intros He t' Ht. simpl. rewrite He. apply lookup_alter_ne. congruence. Qed.

Section server.
Context {P : Prost} {PC : ProstCalls} {X : QuickXml} {J : Serde} {O : Os}.

Lemma into_frame_queue cb s s' c :
  sv_node s' = (into_frame cb (sv_node s)).1 → queue s' c = queue s c.
Proof.
  unfold into_frame. destruct (claim_next_outbound_seq _) as [seq next]. intros Hn. by eapply queue_alter_seq.
Qed.

Lemma into_frame_callback cb node : ¬ is_response (into_frame cb node).2.
Proof. unfold into_frame, is_response. by destruct (claim_next_outbound_seq _). Qed.

(** [deliver] sends callbacks only, and keeps the connection. *)
Lemma deliver_goto t l cbs s :
  ∃ ph s', deliver t l cbs s = goto t ph s' ∧ sv_tasks s' = sv_tasks s ∧ sv_closed s' = sv_closed s ∧
    sv_heartbeats s' = sv_heartbeats s ∧ (∀ c, queue s' c = queue s c) ∧
    (∀ c, is_Some (conn_heap (sv_node s) !! c) → is_Some (conn_heap (sv_node s') !! c)) ∧
    phase_ok ph ∧ conn_of ph = Some (sl_conn l) ∧ own_send ph = [].
Proof.
  unfold deliver. destruct cbs as [|cb cbs]; [by eexists _, s|].
  pose proof (into_frame_callback cb (sv_node s)) as Hf. pose proof (into_frame_channels cb (sv_node s)) as [_ Hh].
  destruct (into_frame cb (sv_node s)) as [node f] eqn:He.
  eexists _, (set_sv_node (λ _, node) s). split_and!; try done.
  - intros c. apply (into_frame_queue cb). by rewrite He.
  - intros c. apply Hh.
Qed.

(** What [frame_received] does to the rest of the server. *)
Lemma frame_goto t l r s :
  node_wf (sv_node s) → bounded (Ev_task t (T_frame r)) s →
  ∃ ph s', frame_received t l r s = goto t ph s' ∧ sv_tasks s' = sv_tasks s ∧ sv_closed s' = sv_closed s ∧
    sv_heartbeats s' = sv_heartbeats s ∧ conn_heap (sv_node s') = conn_heap (sv_node s) ∧
    phase_ok ph ∧ conn_of ph = Some (sl_conn l) ∧
    own_send ph = match r with
                  | Ok f => if decide (message_type (header f) = HlaCallRequest)
                            then [response_frame (ctx_session_id (sl_ctx l)) (sequence_number (header f))
                                    (call_outcome (sl_ctx l) (payload f) s).2]
                            else []
                  | Err _ => []
                  end.
Proof.
  intros Hwf (Hleft & _ & Hsmall). destruct r as [f|e]; simpl; [|by eexists _, s].
  unfold on_frame. destruct (message_type (header f)) eqn:Hty; try (by eexists _, s).
  unfold on_call. cbn [sl_ctx]. pose proof (call_outcome_rest (sl_ctx l) (payload f) s Hwf Hleft Hsmall) as Hr.
  destruct (call_outcome (sl_ctx l) (payload f) s) as [ds r]. destruct (Hr r (length (ds_callbacks ds))) as (_ & _ & Hh & _).
  by eexists _, (set_sv_disk _ (set_sv_node _ s)).
Qed.

(** The moves of a task that has no channel to write on. *)
Lemma first_goto t cand f s :
  ∃ ph s', first_frame t cand f s = goto t ph s' ∧ sv_tasks s' = sv_tasks s ∧ sv_closed s' = sv_closed s ∧
    sv_heartbeats s' = sv_heartbeats s ∧ conn_heap (sv_node s') = conn_heap (sv_node s) ∧
    phase_ok ph ∧ conn_of ph = None ∧ own_send ph = [] ∧ advances Opening ph ∧ rank ph ≠ 3%nat.
Proof.
  unfold first_frame. destruct (message_type (header f)); try (eexists _, s; split_and!; (done || auto); fail).
  - unfold new_session_reply. destruct (NewSessionPayload_decode _) as [p|e]; simpl; [case_decide|];
      (eexists _, s; split_and!; done || auto).
  - destruct (restored_session _ _ _); (eexists _, (set_sv_node (set_suspended_sessions _) s); split_and!; done || auto).
Qed.

(** ** The calls of a session *)

(** A call the server executed: the request, and the session and server it
    met. *)
Record Exec := mkExec { x_ctx : SessionContext; x_frame : Frame; x_server : Server }.
Definition exec_response (x : Exec) : Resp := (call_outcome (x_ctx x) (payload (x_frame x)) (x_server x)).2.
Definition exec_frame (x : Exec) : Frame :=
  response_frame (ctx_session_id (x_ctx x)) (sequence_number (header (x_frame x))) (exec_response x).

(** The call that task [t] executes on the frame it reads. *)
Definition executes (t : positive) (r : result CodecError Frame) (s : Server) : list Exec :=
  match r, t_phase <$> sv_tasks s !! t with
  | Ok f, Some (Serving l) =>
      if decide (message_type (header f) = HlaCallRequest) then [mkExec (sl_ctx l) f s] else []
  | _, _ => []
  end.
Definition executed (t : positive) (e : TaskEvent) (s : Server) : list Exec :=
  match e with T_frame r => executes t r s | _ => [] end.

Lemma responses_exec xs : responses (exec_frame <$> xs) = exec_frame <$> xs.
Proof. induction xs as [|x xs IH]; [done|]. unfold responses. rewrite fmap_cons, filter_cons_True by done. f_equal. exact IH. Qed.

(** The responses on their way are those of the calls executed so far. *)
Record task_ok (log : list Exec) (s : Server) (task : Task) : Prop := {
  to_before : before_session (t_phase task) = true → log = [] ∧ responses (t_sent task) = [];
  to_open c : conn_of (t_phase task) = Some c → c ∉ sv_closed s →
    responses (t_sent task) ++ responses (queue s c) ++ responses (own_send (t_phase task)) = exec_frame <$> log;
  to_sent : responses (t_sent task) `prefix_of` exec_frame <$> log
}.

Lemma task_ok_quiet log o app s s' task :
  quiet o app s s' → (∀ c, conn_of (t_phase task) = Some c → is_Some (conn_heap (sv_node s) !! c) ∧ o ≠ Some c) →
  task_ok log s task → task_ok log s' task.
Proof.
  intros [Hc Hq] Ho [H1 H2 H3]. split; [done| |done]. intros c Hconn Hcl.
  destruct (Ho c Hconn) as [Hex Hne]. destruct (Hq c Hex Hne Hcl) as [-> Hr]. rewrite responses_app, Hr, app_nil_r.
  apply H2; [done|]. set_solver.
Qed.

Lemma task_ok_goto log new ph s s' task :
  task_ok log s task → advances (t_phase task) ph → (before_session ph = true → new = []) →
  (∀ c, conn_of ph = Some c → c ∉ sv_closed s' →
     (conn_of (t_phase task) = Some c ∧ c ∉ sv_closed s ∧
      responses (queue s' c) ++ responses (own_send ph) =
        responses (queue s c) ++ responses (own_send (t_phase task)) ++ (exec_frame <$> new)) ∨
     (before_session (t_phase task) = true ∧ new = [] ∧ queue s' c = [] ∧ own_send ph = [])) →
  task_ok (log ++ new) s' (set_phase ph task).
Proof.
  intros [H1 H2 H3] Hb Hn Hc. split; simpl.
  - intros Hb'. rewrite (Hn Hb'), app_nil_r. by apply H1, (advances_before _ _ Hb).
  - intros c Hconn Hcl. rewrite fmap_app. destruct (Hc _ Hconn Hcl) as [(Hconn' & Hcl' & E)|(Hb' & -> & -> & ->)].
    + by rewrite <-(H2 _ Hconn' Hcl'), E, <-!app_assoc.
    + destruct (H1 Hb') as [-> ->]. done.
  - rewrite fmap_app. by apply prefix_app_r.
Qed.

(** What a step of task [t] does, as long as it has not finished. *)
Record task_effect (t : positive) (task : Task) (new : list Exec) (app : ConnRef → list Frame) (s s' : Server)
    (task' : Task) : Prop := {
  te_task : sv_tasks s' !! t = Some task';
  te_tasks : tasks_same (Some t) s s';
  te_phase : phase_ok (t_phase task');
  te_ok log : task_ok log s task → task_ok (log ++ new) s' task';
  te_quiet : quiet (conn_of (t_phase task)) app s s';
  (** what was queued on the connection leaves in that order *)
  te_carried c : conn_of (t_phase task) = Some c → c ∉ sv_closed s' →
    t_sent task' ++ queue s' c = t_sent task ++ queue s c ++ app c;
  te_shut c : conn_of (t_phase task) = Some c → c ∈ sv_closed s' → t_sent task' = t_sent task;
  te_conn c : conn_of (t_phase task') = Some c →
    conn_of (t_phase task) = Some c ∨ conn_heap (sv_node s) !! c = None;
  te_heart : hearts_ok (sv_heartbeats s) → hearts_ok (sv_heartbeats s');
  te_heap c : is_Some (conn_heap (sv_node s) !! c) → is_Some (conn_heap (sv_node s') !! c);
  te_closed c : c ∈ sv_closed s' → c ∈ sv_closed s ∨ is_Some (conn_heap (sv_node s) !! c);
  te_rank : advances (t_phase task) (t_phase task');
  te_prefix : t_sent task `prefix_of` t_sent task'
}.

(** A step that moves the task and leaves the queues alone. *)
Lemma effect_goto t task new ph s s1 :
  sv_tasks s !! t = Some task → sv_tasks s1 = sv_tasks s → sv_closed s1 = sv_closed s →
  (hearts_ok (sv_heartbeats s) → hearts_ok (sv_heartbeats s1)) →
  (∀ c, queue s1 c = queue s c) → (∀ c, is_Some (conn_heap (sv_node s) !! c) → is_Some (conn_heap (sv_node s1) !! c)) →
  phase_ok ph → advances (t_phase task) ph → (before_session ph = true → new = []) →
  (conn_of ph = None ∨
   conn_of ph = conn_of (t_phase task) ∧
   responses (own_send ph) = responses (own_send (t_phase task)) ++ (exec_frame <$> new)) →
  task_effect t task new nothing s (goto t ph s1) (set_phase ph task).
Proof.
  intros Ht He Hcl Hh Hq Hheap Hph Hb Hn Hc. split; simpl; rewrite ?Hcl; try done.
  - by rewrite He, lookup_alter_eq, Ht.
  - by apply tasks_goto.
  - intros log Hok. apply (task_ok_goto log new ph s (goto t ph s1) task Hok Hb Hn). intros c Hconn Hc'. left.
    destruct Hc as [?|[E Hs]]; [congruence|]. rewrite <-E. simpl in Hc'. rewrite Hcl in Hc'. split_and!; [done|done|].
    unfold queue in *. simpl. by rewrite Hq, Hs.
  - by apply quiet_same.
  - intros c _ _. change (queue (goto t ph s1) c) with (queue s1 c). by rewrite Hq, app_nil_r.
  - intros c Hconn. destruct Hc as [?|[E _]]; [congruence|]. left. by rewrite <-E.
  - by left.
Qed.

Lemma effect_write t task c w s s' :
  conn_ok s → sends_ok s → sv_tasks s !! t = Some task → conn_of (t_phase task) = Some c → write_next t c w s = Some s' →
  ∃ task', task_effect t task [] nothing s s' task'.
Proof.
  intros Hok Hs Ht Hc. pose proof (so_phase _ Hs _ _ Ht) as Hph.
  assert (Hex : is_Some (conn_heap (sv_node s) !! c)) by (eapply (co_conn _ Hok); [done|by left]).
  assert (Hadv : advances (t_phase task) (t_phase task)) by (intros Hb; by destruct (t_phase task)).
  assert (Hclose : ∀ s1, sv_tasks s1 = sv_tasks s → sv_heartbeats s1 = sv_heartbeats s →
    (∀ c', is_Some (conn_heap (sv_node s) !! c') → is_Some (conn_heap (sv_node s1) !! c')) →
    sv_closed s1 = {[c]} ∪ sv_closed s → (∀ c', c' ≠ c → queue s1 c' = queue s c') → task_effect t task [] nothing s s1 task).
  { intros s1 H1 H2 H3 H4 H5. split; rewrite ?H1, ?H2; try done.
    - intros t' _. by rewrite H1.
    - intros log [Ho1 Ho2 Ho3]. rewrite app_nil_r. split; [done| |done].
      intros c' Hc'. assert (c' = c) as -> by congruence. rewrite H4. set_solver.
    - split; [set_solver|]. intros c' _ Ho Hc'. rewrite H5; [by rewrite app_nil_r|]. congruence.
    - intros c' Hc'. assert (c' = c) as -> by congruence. rewrite H4. set_solver.
    - intros c' Hc'. by left.
    - intros c'. rewrite H4, elem_of_union, elem_of_singleton. intros [->|?]; [by right|by left]. }
  unfold write_next. case_decide as Hcl; [done|]. destruct (frame_tx (conn_at (sv_node s) c)) as [|f q] eqn:Hq.
  - destruct (has_sender c s); [done|]. intros [= <-]. exists task. by apply Hclose.
  - destruct w; intros [= <-].
    2:{ exists task. apply Hclose; try done; simpl.
        - intros c' H. destruct (decide (c' = c)) as [->|]; [rewrite lookup_alter_eq; by apply fmap_is_Some|by rewrite lookup_alter_ne].
        - intros c' Hne. by rewrite <-(queue_alter_ne (set_frame_tx (λ _, [])) c c' s). }
    exists (add_sent f task). set (g := set_frame_tx _). split; simpl.
    + by rewrite lookup_alter_eq, Ht.
    + intros t' Ht'. simpl. apply lookup_alter_ne. congruence.
    + done.
    + intros log [Ho1 Ho2 Ho3]. rewrite app_nil_r.
      assert (Hrun : responses (t_sent task ++ [f]) ++ responses q ++ responses (own_send (t_phase task)) = exec_frame <$> log).
      { rewrite <-(Ho2 c Hc Hcl). unfold queue. rewrite Hq, (responses_app _ [f]), <-app_assoc. f_equal.
        by rewrite app_assoc, <-responses_app. }
      split; simpl; [intros Hb; by destruct (t_phase task)| |].
      * intros c' Hc' _. assert (c' = c) as -> by congruence.
        assert (Hq' : queue (set_sv_node (set_conn_heap (alter g c)) s) c = q) by (by rewrite queue_alter).
        unfold queue in Hq' |- *. simpl in *. by rewrite Hq'.
      * rewrite <-Hrun. by eexists.
    + split; [done|]. intros c' _ Ho _. assert (c ≠ c') by congruence.
      pose proof (queue_alter_ne g c c' s) as E. unfold queue in E |- *. simpl in *. by rewrite E, app_nil_r.
    + intros c' Hc' _. assert (c' = c) as -> by congruence.
      assert (Hq' : queue (set_sv_node (set_conn_heap (alter g c)) s) c = q) by (by rewrite queue_alter).
      unfold queue in Hq' |- *. simpl in *. by rewrite Hq', Hq, <-app_assoc, app_nil_r.
    + intros c' Hc' Hcl'. assert (c' = c) as -> by congruence. done.
    + intros c' Hc'. by left.
    + done.
    + intros c' H. destruct (decide (c' = c)) as [->|]; [rewrite lookup_alter_eq; by apply fmap_is_Some|by rewrite lookup_alter_ne].
    + by left.
    + done.
    + by eexists.
Qed.

Lemma effect_register t task sid om s :
  sv_tasks s !! t = Some task → t_phase task = Registering sid om → sends_ok s →
  ∃ task', task_effect t task [] nothing s (register t sid om s) task'.
Proof.
  intros Ht Hp Hs. unfold register. set (c := fresh (dom (conn_heap (sv_node s)))). set (l := mkSessionLoop _ _ _ _).
  assert (Hfresh : conn_heap (sv_node s) !! c = None) by apply not_elem_of_dom, is_fresh.
  set (s1 := set_sv_heartbeats _ _). assert (Hq : ∀ c', queue s1 c' = queue s c').
  { intros c'. unfold s1, queue, conn_at, lookup_total, map_lookup_total. simpl.
    destruct (decide (c = c')) as [<-|]; [by rewrite lookup_insert_eq, Hfresh|by rewrite lookup_insert_ne]. }
  exists (set_phase (Serving l) task). split; simpl; rewrite ?Hp; try done.
  - by rewrite lookup_alter_eq, Ht.
  - by apply tasks_goto.
  - intros log Hok. apply (task_ok_goto log [] (Serving l) s (goto t (Serving l) s1) task Hok); [done|done|].
    intros c' [= <-] _. right. rewrite Hp. split_and!; [done|done| |done]. change (queue s1 c = []). rewrite Hq.
    unfold queue, conn_at, lookup_total, map_lookup_total. by rewrite Hfresh.
  - by apply quiet_same.
  - intros c' [= <-]. by right.
  - intros Hh c' h f. rewrite lookup_insert_Some. intros [[<- <-]|[_ H]]; [done|by eapply Hh].
  - intros c' H. destruct (decide (c = c')) as [<-|]; [by rewrite lookup_insert_eq|by rewrite lookup_insert_ne].
  - by left.
Qed.

Lemma channel_send_queue c f s s' b :
  channel_send c f s = Some (s', b) → is_Some (conn_heap (sv_node s) !! c) → c ∉ sv_closed s →
  b = true ∧ queue s' c = queue s c ++ [f].
Proof.
  intros Hc Hex Hcl. unfold channel_send in Hc. rewrite decide_False in Hc by done.
  destruct (_ <? _)%nat; [|done]. injection Hc as <- <-. split; [done|]. by rewrite queue_alter.
Qed.

Lemma channel_send_hearts c f s s' b : channel_send c f s = Some (s', b) → sv_heartbeats s' = sv_heartbeats s.
Proof. unfold channel_send. intros. by repeat case_match; simplify_eq. Qed.

(** Where the session loop goes after a send. *)
Lemma after_send_goto t l after sent s :
  ∃ ph s', after_send t l after sent s = goto t ph s' ∧ sv_tasks s' = sv_tasks s ∧ sv_closed s' = sv_closed s ∧
    sv_heartbeats s' = sv_heartbeats s ∧ (∀ c, queue s' c = queue s c) ∧
    (∀ c, is_Some (conn_heap (sv_node s) !! c) → is_Some (conn_heap (sv_node s') !! c)) ∧
    phase_ok ph ∧ conn_of ph = Some (sl_conn l) ∧ own_send ph = [].
Proof. destruct after as [cbs|cbs| |]; [destruct sent|..]; simpl; first [apply deliver_goto | by eexists _, s]. Qed.

Lemma effect_after_send t task l c f after sent s s1 :
  conn_ok s → sends_ok s → sv_tasks s !! t = Some task → t_phase task = Sending l c f after →
  channel_send c f s = Some (s1, sent) → ∃ task', task_effect t task [] (one_frame c f s) s (after_send t l after sent s1) task'.
Proof.
  intros Hok Hs Ht Hp Hc. pose proof (so_phase _ Hs _ _ Ht) as Hph. rewrite Hp in Hph.
  destruct (channel_send_channels _ _ _ _ _ Hc) as (He & Hcl & _ & Hdom & _).
  pose proof (channel_send_hearts _ _ _ _ _ Hc) as Hh.
  destruct (after_send_goto t l after sent s1) as (ph & s2 & -> & He2 & Hcl2 & Hh2 & Hq2 & Hd2 & Hph2 & Hconn & Hown).
  assert (Hquiet : quiet (Some (sl_conn l)) (one_frame c f s) s s1).
  { eapply quiet_send; [|done]. destruct after; simpl in Hph; [left; by rewrite Hph|by right..]. }
  assert (Hex : is_Some (conn_heap (sv_node s) !! sl_conn l)) by (eapply (co_conn _ Hok); [done|rewrite Hp; by left]).
  exists (set_phase ph task). split; simpl; rewrite ?Hp, ?Hcl2, ?Hcl, ?Hh2, ?Hh; try done.
  - by rewrite He2, He, lookup_alter_eq, Ht.
  - apply tasks_goto. congruence.
  - intros log Htok. apply (task_ok_goto log [] ph s (goto t ph s2) task Htok); [by intros Hb; destruct ph|done|].
    intros c' Hc' Hncl. left. simpl in Hncl. rewrite Hconn in Hc'. injection Hc' as <-. rewrite Hcl2, Hcl in Hncl.
    rewrite Hp, Hown. split_and!; [done|done|]. change (queue (goto t ph s2)) with (queue s2). rewrite Hq2, !app_nil_r.
    destruct after as [cbs|cbs| |]; simpl in Hph |- *.
    { subst c. destruct (channel_send_queue _ _ _ _ _ Hc Hex Hncl) as [_ ->]. by rewrite responses_app. }
    all: destruct (quiet_send None _ _ _ _ _ (or_intror Hph) Hc) as [_ E];
      destruct (E (sl_conn l) Hex) as [-> Hr]; [done|by rewrite Hcl|]; by rewrite responses_app, Hr, !app_nil_r.
  - split; simpl; rewrite Hcl2; [apply Hquiet|]. intros c'. change (queue (goto t ph s2) c') with (queue s2 c'). rewrite Hq2. apply Hquiet.
  - intros c' [= <-] _. change (queue (goto t ph s2) (sl_conn l)) with (queue s2 (sl_conn l)). rewrite Hq2. f_equal. by eapply send_appends.
  - intros c' Hc'. left. by rewrite Hconn in Hc'.
  - intros c' [conn Hc']. apply Hd2, Hdom. by eexists.
  - by left.
  - by intros Hb; destruct ph.
Qed.

Lemma effect_refl t task s :
  sv_tasks s !! t = Some task → phase_ok (t_phase task) → before_session (t_phase task) = false →
  task_effect t task [] nothing s s task.
Proof.
  intros Ht Hp Hb. split; auto.
  - by intros t'.
  - intros log. by rewrite app_nil_r.
  - by apply quiet_same.
  - intros c _ _. by rewrite app_nil_r.
  - unfold advances. by rewrite Hb.
Qed.

Lemma effect_reply t task reply next r s :
  sv_tasks s !! t = Some task → t_phase task = Replying reply next → sends_ok s →
  ∃ task', task_effect t task [] nothing s (reply_sent t reply next r s) task'.
Proof.
  intros Ht Hp Hs. pose proof (so_phase _ Hs _ _ Ht) as Hph. rewrite Hp in Hph. unfold reply_sent.
  destruct r as [[]|]; [|exists (set_phase Releasing task); apply effect_goto; rewrite ?Hp; simpl; try done; auto].
  assert (Hmove : ∀ ph, phase_ok ph → advances (Replying reply next) ph → conn_of ph = None → own_send ph = [] →
    task_effect t task [] nothing s (goto t ph (set_sv_tasks (alter (add_sent reply) t) s)) (set_phase ph (add_sent reply task))).
  { intros ph H1 H2 H3 H4. split; simpl; rewrite ?H3; try done.
    - by rewrite !lookup_alter_eq, Ht.
    - intros t' Ht'. simpl. by rewrite !lookup_alter_ne by congruence.
    - intros log [Ho1 Ho2 Ho3]. rewrite app_nil_r. destruct Ho1 as [-> Hr]; [by rewrite Hp|].
      split; simpl; rewrite ?H3, ?responses_app, ?Hr, ?(responses_other _ Hph); done.
    - by apply quiet_same.
    - by rewrite Hp.
    - by rewrite Hp.
    - by left.
    - by rewrite Hp.
    - by eexists. }
  destruct next as [[sid om]|]; eexists; apply Hmove; simpl; auto.
Qed.

(** The frames that an event puts on channel [c]. *)
Definition appended (e : Event) (s : Server) (c : ConnRef) : list Frame :=
  match e with
  | Ev_task t T_go =>
      match t_phase <$> sv_tasks s !! t with Some (Sending _ c' f _) => one_frame c' f s c | _ => nothing c end
  | Ev_heartbeat_send c' =>
      match sv_heartbeats s !! c' ≫= hb_pending with Some f => one_frame c' f s c | None => nothing c end
  | _ => nothing c
  end.

(** A step of a task: what it does while the task runs, or the task's end. *)
Lemma task_step_effect t task e s s' :
  node_wf (sv_node s) → bounded (Ev_task t e) s → conn_ok s → sends_ok s →
  sv_tasks s !! t = Some task → task_step t task e s = Some s' →
  (∃ task', task_effect t task (executed t e s) (appended (Ev_task t e) s) s s' task') ∨
  (sv_tasks s' = delete t (sv_tasks s) ∧ sv_closed s' = sv_closed s ∧ sv_heartbeats s' = sv_heartbeats s ∧
   conn_heap (sv_node s') = conn_heap (sv_node s) ∧ ∀ c, appended (Ev_task t e) s c = []).
Proof.
  intros Hwf Hb Hok Hs Ht. unfold task_step.
  assert (Hmove : ∀ ph s1, sv_tasks s1 = sv_tasks s → sv_closed s1 = sv_closed s →
    (hearts_ok (sv_heartbeats s) → hearts_ok (sv_heartbeats s1)) →
    conn_heap (sv_node s1) = conn_heap (sv_node s) → phase_ok ph → advances (t_phase task) ph →
    own_send (t_phase task) = [] → own_send ph = [] → conn_of ph = None ∨ conn_of ph = conn_of (t_phase task) →
    ∃ task', task_effect t task [] nothing s (goto t ph s1) task').
  { intros ph s1 H1 H2 H3 H4 H5 H6 H7 H8 H9. exists (set_phase ph task). apply effect_goto; rewrite ?H4, ?H7, ?H8; try done.
    - intros c. by apply queue_same.
    - destruct H9; [by left|right; auto]. }
  destruct (t_phase task) as [| |reply next|sid om|l|l c f after|l|sid c|c| |] eqn:Hp;
    destruct e as [ok|r|r| | |w|]; try done; cbn [conn_of mbind option_bind executed].
  all: unfold appended; rewrite ?Ht; cbn [fmap option_fmap option_map]; rewrite ?Hp.
  all: try (intros Hw; left; eapply effect_write; rewrite ?Hp; done).
  all: try (destruct (shutdown_flag _); [done|]).
  - destruct ok; intros [= <-]; [left; apply Hmove; try done; auto|by right].
  - unfold executes. rewrite Ht. simpl. rewrite Hp. destruct r as [f|e]; intros [= <-]; left.
    + destruct (first_goto t (t_candidate task) f s) as (ph & s1 & -> & ? & ? & Hh & ? & ? & ? & ? & ? & _).
      apply Hmove; rewrite ?Hh; try done; auto.
    + apply Hmove; try done; auto.
  - intros [= <-]. left. by eapply effect_reply.
  - intros [= <-]. left. by eapply effect_register.
  - intros [= <-]. left. destruct (frame_goto t l r s Hwf Hb) as (ph & s1 & -> & H1 & H2 & H3 & H4 & H5 & H6 & H7).
    exists (set_phase ph task). apply effect_goto; rewrite ?H3, ?H4, ?Hp; try done.
    + intros c. by apply queue_same.
    + intros Hbs. by destruct ph.
    + intros Hbs. by destruct ph.
    + right. split; [done|]. rewrite H7. unfold executes. rewrite Ht. simpl. rewrite Hp. destruct r as [f|]; [|done]. by case_decide.
  - intros [= <-]. left. unfold liveness_tick. destruct (_ <? _); [apply Hmove; try done; auto|].
    exists task. apply effect_refl; by rewrite ?Hp.
  - destruct (shutdown_flag _); [|done]. intros [= <-]. left. apply Hmove; try done; auto.
  - destruct (channel_send c f s) as [[s1 b]|] eqn:Hc; simpl; [|done]. intros [= <-]. left. by eapply effect_after_send.
  - intros [= <-]. left. unfold close_session. destruct (membership (sl_ctx l)); [destruct (0 <? _)|]; apply Hmove; try done; auto.
  - intros [= <-]. left. apply Hmove; try done; auto. simpl. intros Hh c' h f.
    rewrite lookup_alter_Some. intros [(<- & h0 & H0 & ->)|[_ H]]; [exact (Hh _ _ f H0)|by eapply Hh].
  - destruct (_ && _); [|done]. intros [= <-]. left. apply Hmove; try done; auto.
  - intros [= <-]. unfold release_ip. destruct (_ !! t_ip task) as [[|n]|]; first [by right|left; apply Hmove; try done; auto].
  - intros [= <-]. by right.
Qed.

(** ** Every step *)

(** What an event that is no task's does: a task may be added. *)
Definition same_but_new (s s' : Server) : Prop :=
  ∀ t, sv_tasks s' !! t = sv_tasks s !! t ∨
    (sv_tasks s !! t = None ∧ ∃ task, sv_tasks s' !! t = Some task ∧ rank (t_phase task) ≤ 1 ∧ t_sent task = [])%nat.
Record other_effect (app : ConnRef → list Frame) (s s' : Server) : Prop := {
  oe_tasks : same_but_new s s';
  oe_quiet : quiet None app s s';
  oe_closed : sv_closed s' = sv_closed s;
  oe_heart : hearts_ok (sv_heartbeats s) → hearts_ok (sv_heartbeats s');
  oe_heap c : is_Some (conn_heap (sv_node s) !! c) → is_Some (conn_heap (sv_node s') !! c)
}.

Lemma other_same s s' :
  sv_tasks s' = sv_tasks s → sv_closed s' = sv_closed s → conn_heap (sv_node s') = conn_heap (sv_node s) →
  (hearts_ok (sv_heartbeats s) → hearts_ok (sv_heartbeats s')) → other_effect nothing s s'.
Proof.
  intros H1 H2 H3 H4. split; rewrite ?H3; try done.
  - intros t. left. by rewrite H1.
  - apply quiet_same; [|done]. intros c. by apply queue_same.
Qed.

Lemma other_spawn ip ph s s1 :
  sv_tasks s1 = sv_tasks s → sv_closed s1 = sv_closed s → conn_heap (sv_node s1) = conn_heap (sv_node s) →
  sv_heartbeats s1 = sv_heartbeats s → (rank ph ≤ 1)%nat → other_effect nothing s (spawn ip ph s1).
Proof.
  intros H1 H2 H3 H4 H5. unfold spawn. split; simpl; rewrite ?H1, ?H2, ?H3, ?H4; try done.
  - intros t. simpl. rewrite H1. set (t0 := fresh (dom (sv_tasks s))). destruct (decide (t0 = t)) as [<-|].
    + right. split; [apply not_elem_of_dom, is_fresh|]. rewrite lookup_insert_eq. by eexists.
    + left. by rewrite lookup_insert_ne.
  - apply quiet_same; [|done]. intros c. by apply queue_same.
Qed.

Lemma hearts_alter g c hbs :
  (∀ h f, hb_pending (g h) = Some f → hb_pending h = Some f ∨ ¬ is_response f) → hearts_ok hbs → hearts_ok (alter g c hbs).
Proof.
  intros Hg Hh c' h f. rewrite lookup_alter_Some. intros [(<- & h0 & H0 & ->)|[_ H]]; [|by eapply Hh].
  intros [?|?]%Hg; [by eapply Hh|done].
Qed.
Lemma hearts_delete c hbs : hearts_ok hbs → hearts_ok (delete c hbs).
Proof. intros Hh c' h f. rewrite lookup_delete_Some. intros [_ H]. by eapply Hh. Qed.

Lemma other_step e s s' :
  sends_ok s → (∀ t te, e ≠ Ev_task t te) → step e s = Some s' → other_effect (appended e s) s s'.
Proof.
  intros Hs Hne. destruct e as [l ip|t e|c|c|c| | |d|a]; cbn [step]; unfold appended.
  - destruct (shutdown_flag _); [done|]. intros [= <-].
    destruct l; simpl; unfold accept_loop, serve_ws, serve_tls; destruct (check_limits _ _);
      first [apply other_spawn; simpl; (done || lia) | by apply other_same].
  - by destruct (Hne t e).
  - destruct (sv_heartbeats s !! c) as [h|]; simpl; [|done]. destruct (hb_pending h); [done|]. intros [= <-].
    unfold heartbeat_tick. destruct (claim_next_outbound_seq _) as [seq next]. split; simpl; try done.
    + intros t. by left.
    + apply quiet_same; [|done]. intros c'. by eapply queue_alter_seq.
    + apply hearts_alter. intros h' f [= <-]. by right.
    + intros c' Hc'. destruct (decide (c = c')) as [<-|]; [rewrite lookup_alter_eq; by apply fmap_is_Some|by rewrite lookup_alter_ne].
  - destruct (sv_heartbeats s !! c) as [h|] eqn:Hh; simpl; [|done]. destruct (hb_pending h) as [f|] eqn:Hf; simpl; [|done].
    unfold heartbeat_send. destruct (channel_send c f s) as [[s1 b]|] eqn:Hc; [|done].
    pose proof (so_heart _ Hs _ _ _ Hh Hf) as Hnr. pose proof (quiet_send None _ _ _ _ _ (or_intror Hnr) Hc) as Hq.
    pose proof (channel_send_hearts _ _ _ _ _ Hc) as Hhb. apply channel_send_channels in Hc as (Ht & Hcl & _ & Hd & _).
    destruct b; intros [= <-]; (split; simpl; rewrite ?Hhb; try done; [intros t; left; simpl; by rewrite Ht| |intros c'; apply Hd]).
    + apply hearts_alter. by intros h' f'.
    + apply hearts_delete.
  - destruct (sv_heartbeats s !! c) as [h|]; simpl; [|done]. destruct (hb_aborted h); [|done]. intros [= <-].
    apply other_same; try done. apply hearts_delete.
  - destruct (sv_expired s); [|done]. destruct (shutdown_flag _); [done|]. intros [= <-]. by apply other_same.
  - destruct (sv_expired s) as [|sid rest]; [done|]. intros [= <-]. unfold janitor_expire.
    destruct (_ !! sid) as [ss|]; [|by apply other_same]. destruct (ss_membership ss); by apply other_same.
  - destruct (0 <=? d); [|done]. intros [= <-]. by apply other_same.
  - intros [= <-]. by destruct a; apply other_same.
Qed.

Lemma sends_other app s s' : sends_ok s → other_effect app s s' → sends_ok s'.
Proof.
  intros [H1 H2 H3 H4] [Ht Hq Hc Hh Hd].
  assert (Hold : ∀ t task, sv_tasks s' !! t = Some task →
    sv_tasks s !! t = Some task ∨ (phase_ok (t_phase task) ∧ conn_of (t_phase task) = None)).
  { intros t task Htask. destruct (Ht t) as [E|(_ & task1 & E & Hr & _)]; [left; congruence|right].
    assert (task1 = task) as -> by congruence. destruct (t_phase task); simpl in *; (done || lia). }
  split; [|auto| |].
  - intros t task [?|[? _]]%Hold; eauto.
  - intros t t' task task' c [?|[_ E]]%Hold [?|[_ E']]%Hold Hc1 Hc2; [eauto|congruence..].
  - rewrite Hc. auto.
Qed.

Lemma sends_effect t task new app s s' task' :
  conn_ok s → sends_ok s → sv_tasks s !! t = Some task → task_effect t task new app s s' task' → sends_ok s'.
Proof.
  intros Hok [H1 H2 H3 H4] Ht [E1 E2 E3 _ _ _ _ E4 E5 E6 E7 _ _].
  assert (Hold : ∀ t' task1, t' ≠ t → sv_tasks s' !! t' = Some task1 → sv_tasks s !! t' = Some task1)
    by (intros t' task1 Hne; rewrite E2; congruence).
  assert (Hclash : ∀ t' task1 c, t' ≠ t → sv_tasks s' !! t' = Some task1 → conn_of (t_phase task1) = Some c →
    conn_of (t_phase task') = Some c → False).
  { intros t' task1 c Hne Ht' Hc Hc'. apply Hold in Ht'; [|done]. apply E4 in Hc' as [Hc'|Hc']; [by eauto|].
    destruct (co_conn _ Hok _ _ c Ht') as [? ?]; [by left|congruence]. }
  split; [|auto| |].
  - intros t' task1 Ht'. destruct (decide (t' = t)) as [->|]; [congruence|eauto].
  - intros ta tb task1 task2 c Ha Hb Hca Hcb.
    destruct (decide (ta = t)) as [->|Hna], (decide (tb = t)) as [->|Hnb]; [done|exfalso|exfalso|eauto];
      rewrite E1 in *; simplify_eq; eauto.
  - intros c [?|?]%E7; auto.
Qed.

Lemma sends_step e s s' :
  node_wf (sv_node s) → bounded e s → conn_ok s → sends_ok s → step e s = Some s' → sends_ok s'.
Proof.
  intros Hwf Hb Hok Hs Hstep. destruct e as [|t e| | | | | | |].
  2:{ cbn [step] in Hstep. apply bind_Some in Hstep as (task & Ht & Hstep).
      destruct (task_step_effect t task e s s' Hwf Hb Hok Hs Ht Hstep) as [[task' Heff]|(E1 & E2 & E3 & E4 & _)]; [by eapply sends_effect|].
      destruct Hs as [H1 H2 H3 H4]. split; rewrite ?E1, ?E2, ?E3, ?E4; auto.
      - intros t' task'. rewrite lookup_delete_Some. intros [_ ?]. eauto.
      - intros ta tb task1 task2 c. rewrite !lookup_delete_Some. intros [_ ?] [_ ?]. eauto. }
  all: eapply sends_other; [done|eapply other_step; [done| |exact Hstep]; done].
Qed.

Lemma reachable_sends s0 lossy s :
  starts s0 → unconnected s0 → sv_closed s0 = ∅ → sv_heartbeats s0 = ∅ → reachable s0 lossy s → sends_ok s.
Proof.
  intros Hs Hu Hcl Hh Hr. induction Hr as [|e s s' lossy Hr IH Hb Hstep].
  - split; unfold hearts_ok; rewrite ?(st_tasks _ Hs), ?Hcl, ?Hh; intros *; rewrite ?lookup_empty; done || set_solver.
  - destruct (reachable_inv s0 lossy s Hs Hr) as (Hwf & _). pose proof (reachable_conn _ _ _ Hs Hu Hr). by eapply sends_step.
Qed.

(** The calls that a step executes for task [t]. *)
Definition executed_by (e : Event) (t : positive) (s : Server) : list Exec :=
  match e with Ev_task t' te => if decide (t' = t) then executed t te s else [] | _ => [] end.
Definition takes_step (e : Event) (t : positive) : bool :=
  match e with Ev_task t' _ => bool_decide (t' = t) | _ => false end.

(** A step for a task that goes on: its own, or one that leaves it alone. *)
Lemma step_task e s s' t task task' :
  node_wf (sv_node s) → bounded e s → conn_ok s → sends_ok s → step e s = Some s' →
  sv_tasks s !! t = Some task → sv_tasks s' !! t = Some task' →
  (takes_step e t = true ∧ task_effect t task (executed_by e t s) (appended e s) s s' task') ∨
  (takes_step e t = false ∧ executed_by e t s = [] ∧ task' = task ∧
   ∃ o, quiet o (appended e s) s s' ∧ ∀ c, conn_of (t_phase task) = Some c → o ≠ Some c).
Proof.
  intros Hwf Hb Hok Hs Hstep Ht Ht'. unfold executed_by, takes_step. destruct e as [|t1 e| | | | | | |].
  2:{ cbn [step] in Hstep. apply bind_Some in Hstep as (task1 & Ht1 & Hstep).
      destruct (task_step_effect t1 task1 e s s' Hwf Hb Hok Hs Ht1 Hstep) as [[task2 Heff]|(E1 & E2 & _ & E4 & E5)].
      - destruct (decide (t1 = t)) as [->|Hne]; [left|right].
        + rewrite bool_decide_eq_true_2 by done. split; [done|]. pose proof (te_task _ _ _ _ _ _ _ Heff) as Ht2.
          assert (task1 = task) as -> by congruence. assert (task2 = task') as -> by congruence. done.
        + rewrite bool_decide_eq_false_2 by done. rewrite (te_tasks _ _ _ _ _ _ _ Heff) in Ht' by congruence.
          split_and!; [done|done|congruence|]. exists (conn_of (t_phase task1)). split; [apply (te_quiet _ _ _ _ _ _ _ Heff)|].
          intros c Hc Hc'. apply Hne. exact (so_distinct _ Hs t1 t task1 task c Ht1 Ht Hc' Hc).
      - right. rewrite E1, lookup_delete_Some in Ht'. destruct Ht' as [Hne Ht'].
        rewrite decide_False, bool_decide_eq_false_2 by done. split_and!; [done|done|congruence|]. exists None. split; [|done].
        split; [by rewrite E2|]. intros c _ _ _. by rewrite E5, app_nil_r, (queue_same c s s' E4). }
  all: right; assert (Hother : other_effect (appended _ s) s s') by (eapply other_step; [done| |exact Hstep]; done);
    destruct Hother as [Htasks Hq _ _ _]; (split_and!; [done|done| |by exists None]);
    destruct (Htasks t) as [E|(E & _)]; congruence.
Qed.

(** The responses of a session after a step, whoever takes it. *)
Lemma step_answers e s s' t task task' log :
  node_wf (sv_node s) → bounded e s → conn_ok s → sends_ok s → step e s = Some s' →
  sv_tasks s !! t = Some task → sv_tasks s' !! t = Some task' → task_ok log s task →
  task_ok (log ++ executed_by e t s) s' task' ∧ t_sent task `prefix_of` t_sent task' ∧
  if takes_step e t then advances (t_phase task) (t_phase task') else task' = task.
Proof.
  intros Hwf Hb Hok Hs Hstep Ht Ht' Htok.
  destruct (step_task e s s' t task task' Hwf Hb Hok Hs Hstep Ht Ht') as [[-> [_ _ _ E1 _ _ _ _ _ _ _ E2 E3]]|(-> & -> & -> & o & Hq & Ho)].
  - auto.
  - rewrite app_nil_r. split_and!; [|done|done].
    eapply task_ok_quiet; [done| |done]. intros c Hc. split; [|by apply Ho]. eapply (co_conn _ Hok); [done|by left].
Qed.

(** What is queued on the connection of a session, or has left it, stays in
    its order, whoever takes a step. *)
Lemma step_carried e s s' t task task' c :
  node_wf (sv_node s) → bounded e s → conn_ok s → sends_ok s → step e s = Some s' →
  sv_tasks s !! t = Some task → sv_tasks s' !! t = Some task' → conn_of (t_phase task) = Some c → c ∉ sv_closed s' →
  t_sent task' ++ queue s' c = t_sent task ++ queue s c ++ appended e s c.
Proof.
  intros Hwf Hb Hok Hs Hstep Ht Ht' Hc Hcl.
  destruct (step_task e s s' t task task' Hwf Hb Hok Hs Hstep Ht Ht') as [[_ Heff]|(_ & _ & -> & o & [_ Hq] & Ho)].
  - by apply (te_carried _ _ _ _ _ _ _ Heff).
  - assert (Hex : is_Some (conn_heap (sv_node s) !! c)) by (eapply (co_conn _ Hok); [done|by left]).
    f_equal. by apply Hq; [|apply Ho|].
Qed.
End server.
