(* ===== verification/Ledger.v ===== *)
(** * The ledger of a run

    What every session owes for the frames it read, what it sent of it, and
    what reached each connection, over a whole run of the server.  A letter is
    owed for a call (the response, then the callbacks of the call) or for a
    control frame; the ledger shows that sessions offer what they owe and
    nothing else, in order, and that a channel carries what it took, whatever
    the interleaving.  A channel takes what is offered until its writer exits;
    after that a send fails and the frame is dropped. *)

From S2P Require Import Prelude Float64 CoreTypes Framing Codec Fom Merge Exception Proto State Handles Routing.
From S2P Require Import Declaration Transport WireSession Handler FederationMgmt Persistence SaveRestore Dispatch Isolation.
From S2P Require Import Members Confinement Server Sessions Connections Answers.

(** A [send] of a frame on a channel, by the session of connection [p_from] or
    by the heartbeat of the connection, and whether the channel took it. *)
Record Post := mkPost { p_from : option ConnRef; p_to : ConnRef; p_frame : Frame; p_taken : bool }.

(** What a frame says, without the numbers of the connection it goes to. *)
Definition Letter : Type := ConnRef * MessageType * list byte.
Definition letter (p : Post) : Letter := (p_to p, message_type (header (p_frame p)), payload (p_frame p)).
Definition callback_letter (cb : OutboundCallback) : Letter := (target cb, HlaCallbackRequest, Routing.body cb).

(** The session that a task runs. *)
Definition session_of (ph : Phase) : option ConnRef :=
  match ph with Serving l | Sending l _ _ _ => Some (sl_conn l) | _ => None end.

(** What the session loop has still to send before it reads the next frame. *)
Definition after_letters (after : AfterSend) : list Letter :=
  match after with After_response cbs | After_callback cbs => callback_letter <$> cbs | _ => [] end.
Definition todo (ph : Phase) : list Letter :=
  match ph with
  | Sending _ c f after => (c, message_type (header f), payload f) :: after_letters after
  | _ => []
  end.

(** What [send] answers. *)
Definition taken (c : ConnRef) (f : Frame) (s : Server) : bool :=
  match channel_send c f s with Some (_, ok) => ok | None => false end.

(** The sends of an event. *)
Definition posts (e : Event) (s : Server) : list Post :=
  match e with
  | Ev_task t T_go =>
      match t_phase <$> sv_tasks s !! t with Some (Sending l c f _) => [mkPost (Some (sl_conn l)) c f (taken c f s)] | _ => [] end
  | Ev_heartbeat_send c =>
      match sv_heartbeats s !! c ≫= hb_pending with Some f => [mkPost None c f (taken c f s)] | None => [] end
  | _ => []
  end.

(** A run: each event, with the server it met. *)
Notation History := (list (Server * Event)).
Definition posted (h : History) : list Post := h ≫= λ '(s, e), posts e s.
Definition offered_by (a : ConnRef) (h : History) : list Letter := letter <$> filter (λ p, p_from p = Some a) (posted h).
(** What the channel of a connection took. *)
Definition arrivals (c : ConnRef) (h : History) : list Frame :=
  p_frame <$> filter (λ p, p_to p = c ∧ p_taken p = true) (posted h).

Section ledger.
Context {P : Prost} {PC : ProstCalls} {X : QuickXml} {J : Serde} {O : Os}.

Definition exec_callbacks (x : Exec) : list OutboundCallback :=
  ds_callbacks (call_outcome (x_ctx x) (payload (x_frame x)) (x_server x)).1.

(** What a session owes for a frame. *)
Definition answer (l : SessionLoop) (f : Frame) (s : Server) : list Letter :=
  match message_type (header f) with
  | HlaCallRequest =>
      let x := mkExec (sl_ctx l) f s in
      (sl_conn l, HlaCallResponse, payload (exec_frame x)) :: (callback_letter <$> exec_callbacks x)
  | CtrlTerminateSession => [(sl_conn l, CtrlSessionTerminated, [])]
  | CtrlHeartbeat => [(sl_conn l, CtrlHeartbeatResponse, [])]
  | _ => []
  end.
Definition duties (a : ConnRef) (e : Event) (s : Server) : list Letter :=
  match e with
  | Ev_task t (T_frame (Ok f)) =>
      match t_phase <$> sv_tasks s !! t with
      | Some (Serving l) => if decide (sl_conn l = a) then answer l f s else []
      | _ => []
      end
  | _ => []
  end.
Definition due (a : ConnRef) (h : History) : list Letter := h ≫= λ '(s, e), duties a e s.

Inductive runs (s0 : Server) : History → Server → Prop :=
| runs_start : runs s0 [] s0
| runs_step h e s s' : runs s0 h s → bounded e s → step e s = Some s' → runs s0 (h ++ [(s, e)]) s'.

Lemma runs_reachable s0 h s : runs s0 h s → ∃ lossy, reachable s0 lossy s.
Proof.
  intros Hr. induction Hr as [|h e s s' Hr [lossy IH] Hb Hs]; [by eexists; constructor|]. eexists. by econstructor.
Qed.

Lemma runs_possible s0 h s h1 s1 e h2 : runs s0 h s → h = h1 ++ (s1, e) :: h2 → is_Some (step e s1).
Proof.
  intros Hr. revert h2. induction Hr as [|h e' s s' Hr IH Hb Hs]; intros h2 E; [by destruct h1|].
  destruct h2 as [|x h2 _] using rev_ind.
  - apply app_inj_tail in E as [_ [= <- <-]]. by eexists.
  - rewrite app_comm_cons, app_assoc in E. apply app_inj_tail in E as [E _]. by eapply IH.
Qed.

(** ** Adding an event *)

Lemma posted_snoc h s e : posted (h ++ [(s, e)]) = posted h ++ posts e s.
Proof. unfold posted. rewrite bind_app. simpl. by rewrite app_nil_r. Qed.
Lemma offered_snoc a h s e : offered_by a (h ++ [(s, e)]) = offered_by a h ++ offered_by a [(s, e)].
Proof. unfold offered_by. rewrite posted_snoc, filter_app, fmap_app. unfold posted. simpl. by rewrite app_nil_r. Qed.
Lemma arrivals_snoc c h s e : arrivals c (h ++ [(s, e)]) = arrivals c h ++ arrivals c [(s, e)].
Proof. unfold arrivals. rewrite posted_snoc, filter_app, fmap_app. unfold posted. simpl. by rewrite app_nil_r. Qed.
Lemma due_snoc a h s e : due a (h ++ [(s, e)]) = due a h ++ duties a e s.
Proof. unfold due. rewrite bind_app. simpl. by rewrite app_nil_r. Qed.

(** A channel takes what is offered as long as its writer is there. *)
Lemma send_taken c f s : is_Some (channel_send c f s) → taken c f s = bool_decide (c ∉ sv_closed s).
Proof.
  unfold taken, channel_send. case_decide as Hc; [by rewrite bool_decide_eq_false_2 by auto|].
  rewrite bool_decide_eq_true_2 by done. destruct (_ <? _)%nat; [done|by intros []].
Qed.
Lemma posts_taken e s p : is_Some (step e s) → p ∈ posts e s → p_taken p = true ↔ p_to p ∉ sv_closed s.
Proof.
  intros [s' Hs] Hp. assert (Hb : p_taken p = bool_decide (p_to p ∉ sv_closed s)); [|rewrite Hb; apply bool_decide_eq_true].
  unfold posts in Hp. destruct e as [|t []|c'|c'| | | | |]; try (by apply elem_of_nil in Hp); cbn [step] in Hs.
  - apply bind_Some in Hs as (task & Ht & Hs). rewrite Ht in Hp. simpl in Hp.
    destruct (t_phase task) as [| | | | |l c f after| | | | |] eqn:Hph; try (by apply elem_of_nil in Hp).
    apply list_elem_of_singleton in Hp as ->. apply send_taken. cbn [p_to]. unfold task_step in Hs. rewrite Hph in Hs.
    destruct (channel_send c f s); [by eexists|done].
  - apply bind_Some in Hs as (hb & Hhb & (f & Hf & Hs)%bind_Some). rewrite Hhb in Hp. simpl in Hp. rewrite Hf in Hp.
    apply list_elem_of_singleton in Hp as ->. apply send_taken. cbn [p_to]. unfold heartbeat_send in Hs.
    destruct (channel_send c' f s); [by eexists|done].
Qed.

(** What a channel takes in a step. *)
Lemma appended_arrivals e s c : is_Some (step e s) → appended e s c = arrivals c [(s, e)].
Proof.
  intros Hs. pose proof (posts_taken e s) as Htk. unfold arrivals, posted. cbn [mbind list_bind]. rewrite app_nil_r.
  assert (Hone : ∀ o c' f, posts e s = [mkPost o c' f (taken c' f s)] → one_frame c' f s c =
    p_frame <$> filter (λ p, p_to p = c ∧ p_taken p = true) (posts e s)).
  { intros o c' f E. destruct (Htk (mkPost o c' f (taken c' f s)) Hs) as [H1 H2]; [rewrite E; by left|]. simpl in *.
    rewrite E. unfold one_frame. case_decide as Hcl; [|case_decide as Ec].
    - rewrite filter_cons_False; [done|]. simpl. intros [-> Ht%H1]. done.
    - subst c'. rewrite filter_cons_True; [done|]. simpl. auto.
    - rewrite filter_cons_False; [done|]. simpl. intros [-> _]. done. }
  unfold appended. unfold posts in *. destruct e as [|t []|c'|c'| | | | |]; try done.
  - destruct (t_phase <$> _) as [[]|]; done || by eapply Hone.
  - destruct (_ ≫= hb_pending); done || by eapply Hone.
Qed.

(** A session offers and owes nothing in a step that is not its own. *)
Lemma not_mine a t e s task :
  sv_tasks s !! t = Some task → session_of (t_phase task) ≠ Some a →
  offered_by a [(s, Ev_task t e)] = [] ∧ duties a (Ev_task t e) s = [].
Proof.
  intros Ht Ha. unfold offered_by, posted, posts, duties. cbn [mbind list_bind]. rewrite app_nil_r, Ht. simpl. split.
  - destruct e; try done. destruct (t_phase task); try done. rewrite filter_cons_False; [done|]. simpl in *. congruence.
  - destruct e as [|[f|]| | | | |]; try done. destruct (t_phase task); try done. rewrite decide_False; [done|]. simpl in Ha. congruence.
Qed.
Lemma is_task e : (∃ t te, e = Ev_task t te) ∨ (∀ t te, e ≠ Ev_task t te).
Proof. destruct e; eauto; by right. Qed.
Lemma not_a_task a e s : (∀ t te, e ≠ Ev_task t te) → offered_by a [(s, e)] = [] ∧ duties a e s = [].
Proof.
  intros Hne. unfold offered_by, posted, posts, duties. cbn [mbind list_bind]. rewrite app_nil_r.
  destruct e; try done; [by destruct (Hne t e)|]. by destruct (_ ≫= hb_pending).
Qed.

(** ** The step of a session *)

Lemma goto_here t task ph s s1 :
  sv_tasks s !! t = Some task → sv_tasks s1 = sv_tasks s → sv_tasks (goto t ph s1) !! t = Some (set_phase ph task).
Proof. intros Ht He. simpl. by rewrite He, lookup_alter_eq, Ht. Qed.

Lemma deliver_todo t l cbs s :
  ∃ ph s', deliver t l cbs s = goto t ph s' ∧ sv_tasks s' = sv_tasks s ∧ session_of ph = Some (sl_conn l) ∧
    todo ph = callback_letter <$> cbs.
Proof.
  unfold deliver. destruct cbs as [|cb cbs]; [by eexists _, s|]. unfold into_frame.
  destruct (claim_next_outbound_seq _) as [seq next]. by eexists _, (set_sv_node _ s).
Qed.

Lemma offered_now t task l c f after s :
  sv_tasks s !! t = Some task → t_phase task = Sending l c f after →
  offered_by (sl_conn l) [(s, Ev_task t T_go)] = [(c, message_type (header f), payload f)].
Proof.
  intros Ht Hp. unfold offered_by, posted, posts. cbn [mbind list_bind]. rewrite Ht. simpl. rewrite Hp. simpl.
  by rewrite filter_cons_True.
Qed.

(** The session goes on with what it owes, or it ends. *)
Definition continues (a : ConnRef) (e : Event) (s : Server) (ph ph' : Phase) : Prop :=
  session_of ph' = Some a ∧ offered_by a [(s, e)] ++ todo ph' = todo ph ++ duties a e s.
Definition session_ends (a : ConnRef) (e : Event) (s : Server) (ph ph' : Phase) : Prop :=
  session_of ph' = None ∧ conn_of ph' = Some a ∧ offered_by a [(s, e)] `prefix_of` todo ph ++ duties a e s.

Lemma frame_duties t task l r s :
  sv_tasks s !! t = Some task → t_phase task = Serving l →
  ∃ ph s1, frame_received t l r s = goto t ph s1 ∧ sv_tasks s1 = sv_tasks s ∧
    (continues (sl_conn l) (Ev_task t (T_frame r)) s (Serving l) ph ∨ session_ends (sl_conn l) (Ev_task t (T_frame r)) s (Serving l) ph).
Proof.
  intros Ht Hp. unfold frame_received, continues, session_ends, duties. rewrite Ht. simpl. rewrite Hp.
  destruct r as [f|e]; [|by exists (Ended l), s; split_and!; [done|done|]; right].
  rewrite decide_True by done. unfold on_frame, answer.
  destruct (message_type (header f)) eqn:Hty; try (by eexists _, s; eauto).
  unfold on_call, exec_frame, exec_response, exec_callbacks. cbn [sl_ctx x_ctx x_frame x_server].
  destruct (call_outcome (sl_ctx l) (payload f) s) as [ds r]. cbn [fst snd].
  eexists _, _. split_and!; [done|done|]. by left.
Qed.

Lemma send_duties t task l c f after s s1 sent :
  sv_tasks s !! t = Some task → t_phase task = Sending l c f after → sv_tasks s1 = sv_tasks s →
  ∃ ph s2, after_send t l after sent s1 = goto t ph s2 ∧ sv_tasks s2 = sv_tasks s ∧
    (continues (sl_conn l) (Ev_task t T_go) s (t_phase task) ph ∨ session_ends (sl_conn l) (Ev_task t T_go) s (t_phase task) ph).
Proof.
  intros Ht Hp He. unfold continues, session_ends. rewrite (offered_now _ _ _ _ _ _ _ Ht Hp), Hp. cbn [todo].
  assert (Hd : ∀ cbs, after_letters after = (callback_letter <$> cbs) →
    ∃ ph s2, deliver t l cbs s1 = goto t ph s2 ∧ sv_tasks s2 = sv_tasks s ∧ session_of ph = Some (sl_conn l) ∧
      todo ph = after_letters after).
  { intros cbs ->. destruct (deliver_todo t l cbs s1) as (ph & s2 & ? & ? & ? & ?). exists ph, s2. split_and!; congruence. }
  destruct after as [cbs|cbs| |]; cbn [after_send after_letters] in *.
  - destruct sent.
    + destruct (Hd cbs eq_refl) as (ph & s2 & ? & ? & ? & E). exists ph, s2. split_and!; [done|done|].
      left. split; [done|]. simpl. by rewrite E, app_nil_r.
    + eexists _, s1. split_and!; [done|done|]. right. split_and!; [done|done|]. by eexists.
  - destruct (Hd cbs eq_refl) as (ph & s2 & ? & ? & ? & E). exists ph, s2. split_and!; [done|done|].
    left. split; [done|]. simpl. by rewrite E, app_nil_r.
  - eexists _, s1. split_and!; [done|done|]. by right.
  - eexists _, s1. split_and!; [done|done|]. by left.
Qed.

Lemma writer_here t task c w s s' :
  sv_tasks s !! t = Some task → write_next t c w s = Some s' →
  ∃ task', sv_tasks s' !! t = Some task' ∧ t_phase task' = t_phase task.
Proof.
  intros Ht. unfold write_next. case_decide; [done|]. destruct (frame_tx _) as [|f q].
  - destruct (has_sender c s); [done|]. intros [= <-]. by exists task.
  - destruct w; intros [= <-]; [|by exists task]. exists (add_sent f task). simpl. by rewrite lookup_alter_eq, Ht.
Qed.

Lemma session_step t task e s s' a :
  sv_tasks s !! t = Some task → task_step t task e s = Some s' → session_of (t_phase task) = Some a →
  ∃ task', sv_tasks s' !! t = Some task' ∧
    (continues a (Ev_task t e) s (t_phase task) (t_phase task') ∨ session_ends a (Ev_task t e) s (t_phase task) (t_phase task')).
Proof.
  intros Ht Hs Ha. revert Hs. unfold task_step.
  assert (Hgo : ∀ ph s1, sv_tasks s1 = sv_tasks s →
    continues a (Ev_task t e) s (t_phase task) ph ∨ session_ends a (Ev_task t e) s (t_phase task) ph →
    ∃ task', sv_tasks (goto t ph s1) !! t = Some task' ∧
      (continues a (Ev_task t e) s (t_phase task) (t_phase task') ∨ session_ends a (Ev_task t e) s (t_phase task) (t_phase task'))).
  { intros ph s1 He Hc. exists (set_phase ph task). split; [by eapply goto_here|done]. }
  assert (Hstay : ∀ task', t_phase task' = t_phase task → offered_by a [(s, Ev_task t e)] = [] → duties a (Ev_task t e) s = [] →
    continues a (Ev_task t e) s (t_phase task) (t_phase task')).
  { intros task' Hp Hsent Hd. unfold continues. rewrite Hp, Hsent, Hd, app_nil_r. by split. }
  destruct (t_phase task) as [| |reply next|sid om|l|l c f after|l|sid c|c| |] eqn:Hp; try done; injection Ha as <-;
    destruct e as [ok|r|r| | |w|]; try done; cbn [conn_of mbind option_bind].
  - destruct (shutdown_flag _); [done|]. intros [= <-].
    destruct (frame_duties t task l r s Ht Hp) as (ph & s1 & -> & He & Hc). by apply Hgo.
  - destruct (shutdown_flag _); [done|]. intros [= <-]. unfold liveness_tick. destruct (_ <? _).
    + apply Hgo; [done|]. right. split_and!; [done|done|]. by apply prefix_nil.
    + exists task. split; [done|]. left. by apply Hstay.
  - destruct (shutdown_flag _); [|done]. intros [= <-]. apply Hgo; [done|]. right. split_and!; [done|done|]. by apply prefix_nil.
  - intros (task' & ? & E)%(writer_here _ task); [|done]. exists task'. split; [done|]. left. apply Hstay; [congruence|done..].
  - intros (task' & ? & E)%(writer_here _ task); [|done]. exists task'. split; [done|]. left. apply Hstay; [congruence|done..].
  - destruct (channel_send c f s) as [[s1 b]|] eqn:Hc; simpl; [|done]. intros [= <-].
    apply channel_send_channels in Hc as (He & _).
    destruct (send_duties t task l c f after s s1 b Ht Hp He) as (ph & s2 & -> & He2 & Hd). rewrite Hp in Hd. by apply Hgo.
Qed.

(** A session begins on a connection of its own, after the reply of the
    handshake. *)
Record session_opens (c : ConnRef) (task task' : Task) (s s' : Server) : Prop := {
  op_before : before_session (t_phase task) = true ∧ rank (t_phase task) = 3%nat;
  op_fresh : conn_heap (sv_node s) !! c = None;
  op_queue : queue s' c = [];
  op_sent : t_sent task' = t_sent task;
  op_todo : todo (t_phase task') = []
}.

Lemma register_opens t task sid om s :
  sv_tasks s !! t = Some task → t_phase task = Registering sid om →
  ∃ c task', sv_tasks (register t sid om s) !! t = Some task' ∧ session_of (t_phase task') = Some c ∧
    conn_of (t_phase task') = Some c ∧ session_opens c task task' s (register t sid om s).
Proof.
  intros Ht Hp. unfold register. set (c := fresh (dom (conn_heap (sv_node s)))).
  exists c. eexists. split; [by eapply goto_here|]. split; [done|]. split; [done|]. split; try done.
  - by rewrite Hp.
  - apply not_elem_of_dom, is_fresh.
  - unfold queue, conn_at, lookup_total, map_lookup_total. simpl. by rewrite lookup_insert_eq.
Qed.

Lemma replied_conn t task reply next r s task' :
  sv_tasks s !! t = Some task → sv_tasks (reply_sent t reply next r s) !! t = Some task' →
  conn_of (t_phase task') = None ∧
  (before_session (t_phase task') = true → rank (t_phase task') = 3%nat ∧ t_sent task' = t_sent task ++ [reply]).
Proof.
  intros Ht. unfold reply_sent. destruct r as [[]|]; simpl; [destruct next as [[sid om]|]; simpl|];
    rewrite ?lookup_alter_eq, Ht; simpl; by intros [= <-].
Qed.

(** The connection of a task is the one it had, or a new one. *)
Lemma conn_step_task t task e s s' task' c :
  sv_tasks s !! t = Some task → task_step t task e s = Some s' → sv_tasks s' !! t = Some task' →
  conn_of (t_phase task') = Some c →
  (conn_of (t_phase task) = Some c ∧ (session_of (t_phase task') = None ∨ session_of (t_phase task) = Some c)) ∨
  session_opens c task task' s s'.
Proof.
  intros Ht Hs Ht'. destruct (session_of (t_phase task)) as [a|] eqn:Ha.
  { destruct (session_step t task e s s' a Ht Hs Ha) as (task1 & E & Hc). assert (task1 = task') as -> by congruence.
    assert (conn_of (t_phase task) = Some a) as -> by (by destruct (t_phase task)).
    assert (conn_of (t_phase task') = Some a) as -> by (destruct Hc as [[H _]|(_ & H & _)]; by destruct (t_phase task')).
    intros [= <-]. left. auto. }
  revert Hs Ht'. unfold task_step.
  assert (Hgo : ∀ ph s1, sv_tasks s1 = sv_tasks s → conn_of ph = None ∨ conn_of ph = conn_of (t_phase task) ∧ session_of ph = None →
    sv_tasks (goto t ph s1) !! t = Some task' → conn_of (t_phase task') = Some c →
    (conn_of (t_phase task) = Some c ∧ (session_of (t_phase task') = None ∨ None = Some c)) ∨
    session_opens c task task' s (goto t ph s1)).
  { intros ph s1 He Hc. rewrite (goto_here t task ph s s1 Ht He). intros [= <-]. simpl. left. destruct Hc as [|[]]; [congruence|].
    split; [congruence|by left]. }
  assert (Hfin : ∀ s1, sv_tasks s1 = sv_tasks s → sv_tasks (finish t s1) !! t = Some task' → False).
  { intros s1 He. simpl. by rewrite He, lookup_delete_eq. }
  destruct (t_phase task) as [| |reply next|sid om|l|l c' f after|l|sid c'|c'| |] eqn:Hp; try done;
    destruct e as [ok|r|r| | |w|]; try done; cbn [conn_of mbind option_bind].
  all: try (intros (task1 & E1 & E2)%(writer_here _ task); [|done]; intros E3; assert (task1 = task') as -> by congruence;
    rewrite E2, Hp; by auto).
  - destruct ok; intros [= <-]; [apply Hgo; auto|]. by intros ?%Hfin.
  - destruct r as [f|err]; intros [= <-]; [|apply Hgo; auto].
    destruct (first_goto t (t_candidate task) f s) as (ph & s1 & -> & ? & _ & _ & _ & _ & ? & _). apply Hgo; auto.
  - intros [= <-] H1 H2. destruct (replied_conn _ _ _ _ _ _ _ Ht H1) as [E _]. congruence.
  - intros [= <-] H1 H2. destruct (register_opens t task sid om s Ht Hp) as (c1 & task1 & E1 & E2 & E3 & E4).
    assert (task1 = task') as -> by congruence. assert (c1 = c) as -> by congruence. by right.
  - intros [= <-]. unfold close_session. destruct (membership _); [destruct (0 <? _)|]; apply Hgo; auto.
  - intros [= <-]. apply Hgo; auto.
  - destruct (_ && _); [|done]. intros [= <-]. apply Hgo; auto.
  - intros [= <-]. unfold release_ip. destruct (_ !! t_ip task) as [[|n]|]; first [apply Hgo; by auto|by intros ?%Hfin].
  - intros [= <-]. by intros ?%Hfin.
Qed.

(** What the handshake has put on the transport. *)
Definition replied (ph : Phase) : nat := match ph with Registering _ _ => 1 | _ => 0 end.
Definition handshake_ok (task : Task) : Prop :=
  before_session (t_phase task) = true → length (t_sent task) = replied (t_phase task).

Lemma handshake_step t task e s s' task' :
  sv_tasks s !! t = Some task → task_step t task e s = Some s' → sv_tasks s' !! t = Some task' →
  advances (t_phase task) (t_phase task') → handshake_ok task → handshake_ok task'.
Proof.
  intros Ht Hs Ht' Hadv Hok Hb. pose proof (Hadv Hb) as Hrank. specialize (Hok (advances_before _ _ Hadv Hb)).
  revert Hs Ht'. unfold task_step.
  assert (Hgo : ∀ ph s1, sv_tasks s1 = sv_tasks s → replied ph = replied (t_phase task) →
    sv_tasks (goto t ph s1) !! t = Some task' → length (t_sent task') = replied (t_phase task')).
  { intros ph s1 He Hc. rewrite (goto_here t task ph s s1 Ht He). intros [= <-]. simpl. congruence. }
  destruct (t_phase task) as [| |reply next|sid om|l|l c' f after|l|sid c'|c'| |] eqn:Hp;
    destruct e as [ok|r|r| | |w|]; try done; try (destruct (t_phase task'); simpl in *; (done || lia)).
  - destruct ok; intros [= <-]; [by apply Hgo|]. simpl. by rewrite lookup_delete_eq.
  - destruct r as [f|err]; intros [= <-]; [|by apply Hgo].
    destruct (first_goto t (t_candidate task) f s) as (ph & s1 & -> & ? & _ & _ & _ & _ & ? & _ & _ & Hr).
    apply Hgo; [done|]. by destruct ph.
  - intros [= <-] H1. destruct (replied_conn _ _ _ _ _ _ _ Ht H1) as [_ (E1 & ->)%(λ H, H Hb)].
    rewrite length_app, Hok. by destruct (t_phase task').
Qed.

(** A heartbeat has a connection. *)
Definition hearts_known (c : ConnRef) (s s' : Server) : Prop :=
  is_Some (sv_heartbeats s' !! c) → is_Some (sv_heartbeats s !! c) ∨ is_Some (conn_heap (sv_node s') !! c).

Lemma known_same c s s' : sv_heartbeats s' = sv_heartbeats s → hearts_known c s s'.
Proof. intros E. unfold hearts_known. rewrite E. by left. Qed.
Lemma known_alter g c' c s s' : sv_heartbeats s' = alter g c' (sv_heartbeats s) → hearts_known c s s'.
Proof.
  intros E. unfold hearts_known. rewrite E. left.
  destruct (decide (c' = c)) as [->|]; [|by rewrite lookup_alter_ne in *]. rewrite lookup_alter_eq in *. by eapply fmap_is_Some.
Qed.
Lemma known_delete c' c s s' : sv_heartbeats s' = delete c' (sv_heartbeats s) → hearts_known c s s'.
Proof. intros E. unfold hearts_known. rewrite E. intros [h [_ Hh]%lookup_delete_Some]. by left. Qed.
#[local] Hint Resolve known_same : core.

Lemma task_hearts t task e s s' c :
  node_wf (sv_node s) → bounded (Ev_task t e) s → task_step t task e s = Some s' → hearts_known c s s'.
Proof.
  intros Hwf Hb. unfold task_step.
  destruct (t_phase task) as [| |reply next|sid om|l|l c' f after|l|sid c'|c'| |] eqn:Hp;
    destruct e as [ok|r|r| | |w|]; try done; cbn [conn_of mbind option_bind].
  all: try (unfold write_next; case_decide; [done|]; destruct (frame_tx _); [destruct (has_sender _ _); [done|]|destruct w];
    intros [= <-]; by apply known_same).
  all: try (destruct (shutdown_flag _); [done|]).
  - destruct ok; intros [= <-]; auto.
  - destruct r as [f|err]; intros [= <-]; [|auto].
    destruct (first_goto t (t_candidate task) f s) as (ph & s1 & -> & _ & _ & E & _). auto.
  - intros [= <-]. unfold reply_sent. destruct r; [destruct next as [[]|]|]; auto.
  - intros [= <-] Hh. unfold register in *. simpl in *. set (c1 := fresh _) in *.
    destruct (decide (c1 = c)) as [->|]; [right; by rewrite lookup_insert_eq|left; by rewrite lookup_insert_ne in Hh].
  - intros [= <-]. destruct (frame_goto t l r s Hwf Hb) as (ph & s1 & -> & _ & _ & E & _). auto.
  - intros [= <-]. unfold liveness_tick. destruct (_ <? _); auto.
  - destruct (shutdown_flag _); [|done]. intros [= <-]. auto.
  - destruct (channel_send c' f s) as [[s1 b]|] eqn:Hc; simpl; [|done]. intros [= <-].
    destruct (after_send_goto t l after b s1) as (ph & s2 & -> & _ & _ & E & _). apply known_same. simpl.
    by rewrite E, (channel_send_hearts _ _ _ _ _ Hc).
  - intros [= <-]. unfold close_session. destruct (membership _); [destruct (0 <? _)|]; auto.
  - intros [= <-]. by eapply known_alter.
  - destruct (_ && _); [|done]. intros [= <-]. auto.
  - intros [= <-]. unfold release_ip. destruct (_ !! t_ip task) as [[|n]|]; auto.
  - intros [= <-]. auto.
Qed.

Lemma step_hearts e s s' c : node_wf (sv_node s) → bounded e s → step e s = Some s' → hearts_known c s s'.
Proof.
  intros Hwf Hb Hs. destruct e as [l ip|t e|c'|c'|c'| | |d|a]; cbn [step] in Hs.
  - destruct (shutdown_flag _); [done|]. injection Hs as <-. apply known_same.
    destruct l; simpl; unfold accept_loop, serve_ws, serve_tls; by destruct (check_limits _ _).
  - apply bind_Some in Hs as (task & _ & Hs). by eapply task_hearts.
  - apply bind_Some in Hs as (h & Hh & Hs). destruct (hb_pending h); [done|]. injection Hs as <-.
    unfold heartbeat_tick. destruct (claim_next_outbound_seq _). by eapply known_alter.
  - apply bind_Some in Hs as (h & Hh & (f & Hf & Hs)%bind_Some). unfold heartbeat_send in Hs.
    destruct (channel_send c' f s) as [[s1 b]|] eqn:Hc; [|done]. pose proof (channel_send_hearts _ _ _ _ _ Hc) as E.
    destruct b; injection Hs as <-; [eapply known_alter|eapply known_delete]; simpl; by rewrite E.
  - apply bind_Some in Hs as (h & Hh & Hs). destruct (hb_aborted h); [|done]. injection Hs as <-. by eapply known_delete.
  - destruct (sv_expired s); [|done]. destruct (shutdown_flag _); [done|]. injection Hs as <-. auto.
  - destruct (sv_expired s) as [|sid rest]; [done|]. injection Hs as <-. apply known_same. unfold janitor_expire. simpl.
    destruct (_ !! sid) as [ss|]; [|done]. by destruct (ss_membership ss).
  - destruct (0 <=? d); [|done]. injection Hs as <-. auto.
  - injection Hs as <-. apply known_same. by destruct a.
Qed.

(** ** The ledger *)

Record ledger_ok (h : History) (s : Server) : Prop := {
  lg_hearts c : is_Some (sv_heartbeats s !! c) → is_Some (conn_heap (sv_node s) !! c);
  lg_fresh c : conn_heap (sv_node s) !! c = None → offered_by c h = [] ∧ due c h = [] ∧ arrivals c h = [];
  lg_taken p : p ∈ posted h → p_to p ∉ sv_closed s → p_taken p = true;
  (** a session offers what it owes, in order *)
  lg_prefix a : offered_by a h `prefix_of` due a h;
  (** and has still to offer the rest *)
  lg_session t task a :
    sv_tasks s !! t = Some task → session_of (t_phase task) = Some a → offered_by a h ++ todo (t_phase task) = due a h;
  lg_handshake t task : sv_tasks s !! t = Some task → handshake_ok task;
  (** a transport carries the reply of the handshake and then what the channel took *)
  lg_conn t task c :
    sv_tasks s !! t = Some task → conn_of (t_phase task) = Some c →
    ∃ reply, t_sent task `prefix_of` reply :: arrivals c h ∧
      (c ∉ sv_closed s → t_sent task ++ queue s c = reply :: arrivals c h)
}.

Lemma session_conn ph a : session_of ph = Some a → conn_of ph = Some a.
Proof. by destruct ph. Qed.

Section one_step.
Context (e : Event) (h : History) (s s' : Server).
Hypothesis (Hwf : node_wf (sv_node s)) (Hb : bounded e s) (Hok : conn_ok s) (Hsd : sends_ok s).
Hypothesis (Hstep : step e s = Some s') (Hlg : ledger_ok h s).

Lemma step_known c : is_Some (conn_heap (sv_node s) !! c) → is_Some (conn_heap (sv_node s') !! c).
Proof.
  destruct (is_task e) as [(t & te & ->)|Hne].
  - cbn [step] in Hstep. apply bind_Some in Hstep as (task & Ht & Hs).
    destruct (task_step_effect t task te s s' Hwf Hb Hok Hsd Ht Hs) as [[task' Heff]|(_ & _ & _ & -> & _)]; [|done].
    apply (te_heap _ _ _ _ _ _ _ Heff).
  - apply (oe_heap _ _ _ (other_step e s s' Hsd Hne Hstep)).
Qed.

Lemma step_closed : sv_closed s ⊆ sv_closed s'.
Proof.
  destruct (is_task e) as [(t & te & ->)|Hne].
  - cbn [step] in Hstep. apply bind_Some in Hstep as (task & Ht & Hs).
    destruct (task_step_effect t task te s s' Hwf Hb Hok Hsd Ht Hs) as [[task' Heff]|(_ & -> & _)]; [|done].
    apply (te_quiet _ _ _ _ _ _ _ Heff).
  - by rewrite (oe_closed _ _ _ (other_step e s s' Hsd Hne Hstep)).
Qed.

(** A task of the next state was there, or it is a new connection. *)
Lemma step_old t task' :
  sv_tasks s' !! t = Some task' → is_Some (sv_tasks s !! t) ∨ (rank (t_phase task') ≤ 1)%nat ∧ t_sent task' = [].
Proof.
  intros Ht'. destruct (is_task e) as [(t1 & te & ->)|Hne].
  - left. cbn [step] in Hstep. apply bind_Some in Hstep as (task & Ht & Hs). destruct (decide (t1 = t)) as [->|Hne]; [by eexists|].
    destruct (task_step_effect t1 task te s s' Hwf Hb Hok Hsd Ht Hs) as [[task1 Heff]|(E & _)].
    + rewrite (te_tasks _ _ _ _ _ _ _ Heff) in Ht' by congruence. by eexists.
    + rewrite E, lookup_delete_ne in Ht' by done. by eexists.
  - destruct (oe_tasks _ _ _ (other_step e s s' Hsd Hne Hstep) t) as [E|(_ & task1 & E & Hr & Hse)].
    + rewrite E in Ht'. left. by eexists.
    + right. assert (task1 = task') as -> by congruence. done.
Qed.

(** Who sends and who is written to is connected. *)
Lemma step_fresh c :
  conn_heap (sv_node s) !! c = None → offered_by c [(s, e)] = [] ∧ duties c e s = [] ∧ arrivals c [(s, e)] = [].
Proof.
  intros Hc. assert (Hno : ∀ t task, sv_tasks s !! t = Some task →
    conn_of (t_phase task) ≠ Some c ∧ c ∉ pending_targets (t_phase task)).
  { intros t task Ht. split; intros Hin; destruct (co_conn _ Hok t task c Ht) as [? ?]; auto; congruence. }
  destruct (is_task e) as [(t & te & ->)|Hne].
  - cbn [step] in Hstep. apply bind_Some in Hstep as (task & Ht & _). destruct (Hno t task Ht) as [H1 H2].
    destruct (not_mine c t te s task Ht) as [-> ->]; [by intros ?%session_conn|]. split_and!; [done|done|].
    unfold arrivals, posted, posts. cbn [mbind list_bind]. rewrite app_nil_r, Ht. destruct te; try done. simpl.
    destruct (t_phase task); try done. rewrite filter_cons_False; [done|]. simpl in *. intros [? _]. set_solver.
  - destruct (not_a_task c e s Hne) as [-> ->]. split_and!; [done|done|].
    unfold arrivals, posted, posts. cbn [mbind list_bind]. rewrite app_nil_r.
    destruct e as [|t te|c'|c'| | | | |]; try done; [by destruct (Hne t te)|].
    destruct (sv_heartbeats s !! c') as [hb|] eqn:Hh; [|done]. simpl. destruct (hb_pending hb) as [f|]; [|done].
    rewrite filter_cons_False; [done|]. simpl. intros [-> _]. destruct (lg_hearts _ _ Hlg c) as [? ?]; [by eexists|congruence].
Qed.

Lemma step_prefix a : offered_by a (h ++ [(s, e)]) `prefix_of` due a (h ++ [(s, e)]).
Proof.
  rewrite offered_snoc, due_snoc.
  assert (Hnil : offered_by a [(s, e)] = [] ∧ duties a e s = [] → offered_by a h ++ offered_by a [(s, e)] `prefix_of` due a h ++ duties a e s).
  { intros [-> ->]. rewrite !app_nil_r. apply (lg_prefix _ _ Hlg). }
  destruct (is_task e) as [(t & te & ->)|Hne]; [|by apply Hnil, not_a_task].
  cbn [step] in Hstep. apply bind_Some in Hstep as (task & Ht & Hs).
  destruct (decide (session_of (t_phase task) = Some a)) as [Ha|Ha]; [|by eapply Hnil, not_mine].
  rewrite <-(lg_session _ _ Hlg t task a Ht Ha), <-app_assoc. apply prefix_app.
  destruct (session_step t task te s s' a Ht Hs Ha) as (task' & _ & [[_ E]|(_ & _ & E)]); [|done].
  rewrite <-E. by apply prefix_app_r.
Qed.

Lemma step_session t task' a :
  sv_tasks s' !! t = Some task' → session_of (t_phase task') = Some a →
  offered_by a (h ++ [(s, e)]) ++ todo (t_phase task') = due a (h ++ [(s, e)]).
Proof.
  intros Ht' Ha'. rewrite offered_snoc, due_snoc. pose proof step_fresh as Hfr.
  destruct (step_old t task' Ht') as [[task Ht]|[Hr _]]; [|destruct (t_phase task'); simpl in *; (done || lia)].
  assert (Hsame : task' = task → (∀ t1 te, e = Ev_task t1 te → t1 ≠ t) →
    (offered_by a h ++ offered_by a [(s, e)]) ++ todo (t_phase task') = due a h ++ duties a e s).
  { intros -> Hother. assert (offered_by a [(s, e)] = [] ∧ duties a e s = []) as [-> ->].
    { destruct (is_task e) as [(t1 & te & ->)|Hne]; [|by apply not_a_task].
      cbn [step] in Hstep. apply bind_Some in Hstep as (task1 & Ht1 & _). apply (not_mine a t1 te s task1 Ht1).
      intros Ha1. apply (Hother t1 te eq_refl). eapply (so_distinct _ Hsd); [exact Ht1|exact Ht|by apply session_conn..]. }
    rewrite !app_nil_r. by apply (lg_session _ _ Hlg t). }
  destruct (step_task e s s' t task task' Hwf Hb Hok Hsd Hstep Ht Ht') as [[Htk _]|(Htk & _ & -> & _)].
  2:{ apply Hsame; [done|]. intros t1 te -> ->. simpl in Htk. by rewrite bool_decide_eq_true_2 in Htk. }
  destruct e as [|t1 te| | | | | | |]; try done. simpl in Htk. apply bool_decide_eq_true in Htk as ->.
  cbn [step] in Hstep. rewrite Ht in Hstep. simpl in Hstep. destruct (session_of (t_phase task)) as [a0|] eqn:Ha.
  - destruct (session_step t task te s s' a0 Ht Hstep Ha) as (task1 & E & Hc). assert (task1 = task') as -> by congruence.
    destruct Hc as [[E1 E2]|(E1 & _)]; [|congruence]. assert (a0 = a) as -> by congruence.
    by rewrite <-app_assoc, E2, app_assoc, (lg_session _ _ Hlg t task a Ht Ha).
  - destruct (conn_step_task t task te s s' task' a Ht Hstep Ht' (session_conn _ _ Ha')) as [(_ & [?|?])|[_ Hf _ _ ->]]; [congruence..|].
    destruct (lg_fresh _ _ Hlg a Hf) as (-> & -> & _). by destruct (Hfr a Hf) as (-> & -> & _).
Qed.

Lemma step_conn t task' c :
  sv_tasks s' !! t = Some task' → conn_of (t_phase task') = Some c →
  ∃ reply, t_sent task' `prefix_of` reply :: arrivals c (h ++ [(s, e)]) ∧
    (c ∉ sv_closed s' → t_sent task' ++ queue s' c = reply :: arrivals c (h ++ [(s, e)])).
Proof.
  intros Ht' Hc'. rewrite arrivals_snoc.
  destruct (step_old t task' Ht') as [[task Ht]|[Hr _]]; [|destruct (t_phase task'); simpl in *; (done || lia)].
  assert (Hcase : conn_of (t_phase task) = Some c ∨ session_opens c task task' s s').
  { destruct (step_task e s s' t task task' Hwf Hb Hok Hsd Hstep Ht Ht') as [[Htk _]|(_ & _ & -> & _)]; [|by left].
    destruct e as [|t1 te| | | | | | |]; try done. simpl in Htk. apply bool_decide_eq_true in Htk as ->.
    cbn [step] in Hstep. rewrite Ht in Hstep. simpl in Hstep.
    destruct (conn_step_task t task te s s' task' c Ht Hstep Ht' Hc') as [[? _]|?]; auto. }
  destruct Hcase as [Hc|[[Hbs Hr] Hf Hq Hse _]].
  - destruct (lg_conn _ _ Hlg t task c Ht Hc) as (reply & Hpre & Hopen). exists reply.
    destruct (decide (c ∈ sv_closed s')) as [Hcl|Hcl].
    + split; [|done]. assert (t_sent task' = t_sent task) as ->; [|rewrite app_comm_cons; by apply prefix_app_r].
      destruct (step_task e s s' t task task' Hwf Hb Hok Hsd Hstep Ht Ht') as [[_ Heff]|(_ & _ & -> & _)]; [|done].
      by apply (te_shut _ _ _ _ _ _ _ Heff c).
    + assert (Hcl0 : c ∉ sv_closed s) by (pose proof step_closed; set_solver).
      pose proof (step_carried e s s' t task task' c Hwf Hb Hok Hsd Hstep Ht Ht' Hc Hcl) as E.
      rewrite appended_arrivals, app_assoc, (Hopen Hcl0) in E by (by eexists). split; [|done]. simpl in E. rewrite <-E. by eexists.
  - pose proof (lg_handshake _ _ Hlg t task Ht Hbs) as Hl.
    assert (length (t_sent task) = 1%nat) as Hl1 by (rewrite Hl; by destruct (t_phase task)).
    destruct (t_sent task) as [|reply [|]] eqn:Hts; try done. exists reply. rewrite Hse, Hq.
    destruct (lg_fresh _ _ Hlg c Hf) as (_ & _ & ->). by destruct (step_fresh c Hf) as (_ & _ & ->).
Qed.

Lemma step_handshake t task' : sv_tasks s' !! t = Some task' → handshake_ok task'.
Proof.
  intros Ht'. destruct (step_old t task' Ht') as [[task Ht]|[Hr Hse]].
  2:{ intros _. rewrite Hse. destruct (t_phase task'); simpl in *; (done || lia). }
  pose proof (lg_handshake _ _ Hlg t task Ht) as Hh.
  destruct (step_task e s s' t task task' Hwf Hb Hok Hsd Hstep Ht Ht') as [[Htk Heff]|(_ & _ & -> & _)]; [|done].
  destruct e as [|t1 te| | | | | | |]; try done. simpl in Htk. apply bool_decide_eq_true in Htk as ->.
  cbn [step] in Hstep. rewrite Ht in Hstep. simpl in Hstep.
  eapply handshake_step; [done|done|done|apply (te_rank _ _ _ _ _ _ _ Heff)|done].
Qed.

Lemma ledger_step : ledger_ok (h ++ [(s, e)]) s'.
Proof.
  split.
  - intros c Hh. destruct (step_hearts e s s' c Hwf Hb Hstep Hh) as [H|H]; [|done]. by apply step_known, (lg_hearts _ _ Hlg).
  - intros c Hc. assert (Hf : conn_heap (sv_node s) !! c = None).
    { destruct (conn_heap (sv_node s) !! c) eqn:E; [|done]. destruct (step_known c) as [? ?]; [by eexists|congruence]. }
    rewrite offered_snoc, due_snoc, arrivals_snoc. destruct (lg_fresh _ _ Hlg c Hf) as (-> & -> & ->).
    by destruct (step_fresh c Hf) as (-> & -> & ->).
  - intros p. rewrite posted_snoc, elem_of_app. pose proof step_closed as Hmono. intros [Hp|Hp] Hcl.
    + apply (lg_taken _ _ Hlg); [done|set_solver].
    + apply (posts_taken e s); [by eexists|done|set_solver].
  - apply step_prefix.
  - apply step_session.
  - apply step_handshake.
  - apply step_conn.
Qed.
End one_step.

Lemma ledger_runs s0 h s :
  starts s0 → unconnected s0 → sv_closed s0 = ∅ → sv_heartbeats s0 = ∅ → runs s0 h s → ledger_ok h s.
Proof.
  intros Hs Hu Hcl Hh Hr. induction Hr as [|h e s s' Hr IH Hb Hstep].
  - split; rewrite ?(st_tasks _ Hs), ?Hh; intros *; rewrite ?lookup_empty; first [done|by intros []|by intros ?%elem_of_nil].
  - destruct (runs_reachable _ _ _ Hr) as [lossy Hre]. destruct (reachable_inv s0 lossy s Hs Hre) as (Hwf & _).
    eapply ledger_step; try done; [by eapply reachable_conn|by eapply reachable_sends].
Qed.

(** C4: every frame is accounted for.  On every run of the server, what the
    session of a connection has offered to the channels is, in order, what it
    owes for the frames it read: for a call its response and then the call's
    callbacks, each to its target, for a control frame its answer.  While the
    session runs the rest of it is what the session loop is about to offer;
    once it has ended the rest is lost.  A channel takes every frame offered
    to it as long as its writer has not exited, and nothing after that.  While
    the writer runs, the transport carries, behind the reply of the handshake,
    exactly the frames the channel took from all sessions and its heartbeat,
    in order, the last of them still in the channel; when the writer has
    failed, the transport carries the first of these frames and the others
    are lost. *)
Theorem frames_accounted_for s0 h s :
  starts s0 → unconnected s0 → sv_closed s0 = ∅ → sv_heartbeats s0 = ∅ → runs s0 h s →
  (∀ a, offered_by a h `prefix_of` due a h) ∧
  (∀ t task a, sv_tasks s !! t = Some task → session_of (t_phase task) = Some a →
     offered_by a h ++ todo (t_phase task) = due a h) ∧
  (∀ h1 s1 e h2 p, h = h1 ++ (s1, e) :: h2 → p ∈ posts e s1 → p_taken p = true ↔ p_to p ∉ sv_closed s1) ∧
  (∀ p, p ∈ posted h → p_to p ∉ sv_closed s → p_taken p = true) ∧
  (∀ t task c, sv_tasks s !! t = Some task → conn_of (t_phase task) = Some c →
     ∃ reply, t_sent task `prefix_of` reply :: arrivals c h ∧
       (c ∉ sv_closed s → t_sent task ++ queue s c = reply :: arrivals c h)).
Proof.
  intros Hs Hu Hcl Hh Hr. destruct (ledger_runs s0 h s Hs Hu Hcl Hh Hr) as [_ _ Ht Hp Hse _ Hc].
  split_and!; [done|done| |done|done]. intros h1 s1 e h2 p ->. apply posts_taken. by eapply runs_possible.
Qed.
End ledger.

(** *** Witness: the run in which a member joins and asks for the federations *)
Definition demo_runs : Server → History → Server → Prop :=
  runs (P := demo_prost) (PC := demo_calls) (X := no_xml) (J := digit_serde) (O := reliable_os).
Fixpoint demo_history (es : list Event) (h : History) (s : Server) : option (History * Server) :=
  match es with
  | [] => Some (h, s)
  | e :: es => if demo_bounded e s then s' ← demo_step e s; demo_history es (h ++ [(s, e)]) s' else None
  end.
Lemma history_runs es s0 h s h' s' : demo_runs s0 h s → demo_history es h s = Some (h', s') → demo_runs s0 h' s'.
Proof.
  revert h s. induction es as [|e es IH]; intros h s Hr; simpl; [by intros [= <- <-]|].
  destruct (demo_bounded e s) eqn:Hb; [|done]. destruct (demo_step e s) as [s1|] eqn:Hs; simpl; [|done].
  apply IH. apply (runs_step s0 h e s s1 Hr (demo_bounded_ok e s Hb) Hs).
Defined.

(** The response has been sent, the callback not yet. *)
Definition half_answered : list Event := joined ++ calls 1 [x04].
Definition half_run : History * Server := default ([], demo_server 100) (demo_history half_answered [] (demo_server 100)).
Lemma half_runs : demo_runs (demo_server 100) half_run.1 half_run.2.
Proof. apply (history_runs half_answered _ [] (demo_server 100)); [apply runs_start|vm_compute; reflexivity]. Defined.

Lemma frames_accounted_for_witness :
  let own : ConnRef := 1%positive in
  let response : Letter := (own, HlaCallResponse, [x00; x00; x00; x01; x01]) in
  offered_by own half_run.1 ++ [(own, HlaCallbackRequest, [])] =
    due (P := demo_prost) (PC := demo_calls) (X := no_xml) (J := digit_serde) (O := reliable_os) own half_run.1 ∧
  offered_by own half_run.1 = [response; response].
Proof.
  intros own response.
  destruct (frames_accounted_for (P := demo_prost) (PC := demo_calls) (X := no_xml) (J := digit_serde) (O := reliable_os)
    (demo_server 100) half_run.1 half_run.2 (demo_starts 100) (conj eq_refl eq_refl) eq_refl eq_refl half_runs) as (_ & H & _).
  destruct (sv_tasks half_run.2 !! 1%positive) as [task|] eqn:Ht; [|vm_compute in Ht; discriminate].
  assert (Hse : session_of (t_phase task) = Some own) by (vm_compute in Ht; injection Ht as <-; vm_compute; reflexivity).
  assert (Htd : todo (t_phase task) = [(own, HlaCallbackRequest, [])]) by (vm_compute in Ht; injection Ht as <-; vm_compute; reflexivity).
  split; [rewrite <-Htd; exact (H _ _ _ Ht Hse)|vm_compute; reflexivity].
Defined.

(** *** What goes wrong *)

(** The callbacks of a call are sent after its response, and not at all when
    the response cannot be sent.  Two members: the second has achieved the
    synchronization point "P", the first achieves it last and its writer fails
    before the response is sent.  The point is gone from the federation, so
    it has been achieved by all, and the session of the first has ended with
    the callbacks still owed; the second is a member with an open connection
    that will never hear that the federation is synchronized. *)
Definition sync_calls : ProstCalls := {|
  decode_request l :=
    match l with
    | [x01] => Ok (Some (JoinFederationExecutionRequest "F" "demo"))
    | [x02] => Ok (Some (RegisterFederationSynchronizationPointRequest "P" []))
    | [x03] => Ok (Some (SynchronizationPointAchievedRequest "P" true))
    | _ => Err "?"%string
    end;
  encode_response r := [if is_exception r then x00 else x01]
|}.
Definition tagged_prost : Prost := {|
  encode_callback cb :=
    match cb with
    | AnnounceSynchronizationPoint _ _ => [x01]
    | FederationSynchronized _ _ => [x02]
    | _ => []
    end
|}.
Definition sync_step : Event → Server → option Server :=
  step (P := tagged_prost) (PC := sync_calls) (X := no_xml) (J := digit_serde) (O := reliable_os).
Fixpoint sync_history (es : list Event) (h : History) (s : Server) : History * Server :=
  match es with
  | [] => (h, s)
  | e :: es => match sync_step e s with Some s' => sync_history es (h ++ [(s, e)]) s' | None => (h, s) end
  end.

Definition barrier_run : list Event :=
  opens 1 ++ calls 1 [x01] ++ opens 2 ++ calls 2 [x01] ++
  calls 1 [x02] ++ replicate 3 (Ev_task 1 T_go) ++ calls 2 [x03] ++
  [Ev_task 1 (T_frame (Ok (hla_call_request_frame 1 1 0 [x03]))); Ev_task 1 (T_writer false); Ev_task 1 T_go].
Definition barrier_end : History * Server := sync_history barrier_run [] (demo_server 0).

Example lost_writer_loses_barrier :
  length barrier_end.1 = length barrier_run ∧
  sync_points <$> fed_heap (sv_node barrier_end.2) !! 1%positive = Some ∅ ∧
  session_of ∘ t_phase <$> sv_tasks barrier_end.2 !! 1%positive = Some None ∧
  drop (length (offered_by 1%positive barrier_end.1))
    (due (P := tagged_prost) (PC := sync_calls) (X := no_xml) (J := digit_serde) (O := reliable_os) 1%positive barrier_end.1) =
    [(2%positive, HlaCallbackRequest, [x02]); (1%positive, HlaCallbackRequest, [x02])] ∧
  session_of ∘ t_phase <$> sv_tasks barrier_end.2 !! 2%positive = Some (Some 2%positive) ∧
  sv_closed barrier_end.2 = {[1%positive]} ∧
  payload <$> filter (λ f, message_type (header f) = HlaCallbackRequest) (arrivals 2%positive barrier_end.1) = [[x01]].
Proof. split_and!; vm_compute; reflexivity. Qed.
