(* ===== verification/Delivery.v ===== *)
(** * From the request to the answer

    What a request frame causes on the connections of the server, and how the
    server of [Server] and the client side of [WireSession] fit together: the
    handshake and the single call, from the bytes the client writes to the
    bytes it reads. *)

From S2P Require Import Prelude Float64 CoreTypes Framing Codec Fom Merge Exception Proto State Handles Routing.
From S2P Require Import Declaration Transport WireSession Handler FederationMgmt Persistence SaveRestore Dispatch Isolation.
From S2P Require Import Members Confinement Server Sessions Connections.

(** ** What a connection receives *)

Definition callback_frame (sid seq : Z) (b : list byte) : Frame :=
  Frame_new (with_payload_size (wrap_u 32 (Z.of_nat (length b))) seq sid NO_SEQUENCE_NUMBER HlaCallbackRequest) b.

Definition push (f : Frame) (conn : ConnectionHandle) : ConnectionHandle := set_frame_tx (λ q, q ++ [f]) conn.
(** The next callback of a connection, under the next number of the connection. *)
Definition push_callback (b : list byte) (conn : ConnectionHandle) : ConnectionHandle :=
  let '(seq, next) := claim_next_outbound_seq (next_outbound_seq conn) in
  mkConnectionHandle (conn_session_id conn) (frame_tx conn ++ [callback_frame (conn_session_id conn) seq b]) next.

(** The callbacks for connection [c], in order. *)
Definition push_all (c : ConnRef) (cbs : list OutboundCallback) (conn : ConnectionHandle) : ConnectionHandle :=
  foldl (λ conn cb, push_callback (Routing.body cb) conn) conn (filter (λ cb, target cb = c) cbs).

(** The response to the caller, then the callbacks. *)
Definition answered (own : ConnRef) (response : Frame) (cbs : list OutboundCallback) (c : ConnRef)
    (conn : ConnectionHandle) : ConnectionHandle :=
  push_all c cbs (if decide (c = own) then push response conn else conn).

(** [c] has room for [n] more frames, and a writer. *)
Definition has_room (s : Server) (n : nat) (c : ConnRef) : Prop :=
  ∃ conn, conn_heap (sv_node s) !! c = Some conn ∧ c ∉ sv_closed s ∧
    (length (frame_tx conn) + n ≤ CHANNEL_CAPACITY)%nat.

Lemma channel_send_room c f s n :
  has_room s (S n) c →
  channel_send c f s = Some (set_sv_node (set_conn_heap (alter (push f) c)) s, true).
Proof.
  intros (conn & Hc & Hcl & Hl). unfold channel_send. rewrite decide_False by done.
  unfold conn_at, lookup_total, map_lookup_total. rewrite Hc. simpl.
  by rewrite (proj2 (Nat.ltb_lt _ _)) by lia.
Qed.

Lemma into_frame_eq cb node conn :
  conn_heap node !! target cb = Some conn →
  let '(seq, next) := claim_next_outbound_seq (next_outbound_seq conn) in
  into_frame cb node = (set_conn_heap (alter (set_next_outbound_seq (λ _, next)) (target cb)) node,
    callback_frame (conn_session_id conn) seq (Routing.body cb)).
Proof.
  intros Hc. unfold into_frame, conn_at, lookup_total, map_lookup_total. rewrite Hc.
  cbn [from_option id]. by destruct (claim_next_outbound_seq (next_outbound_seq conn)).
Qed.

Lemma goto_goto t ph ph' s : goto t ph' (goto t ph s) = goto t ph' s.
Proof. unfold goto, set_sv_tasks. simpl. by rewrite alter_alter_eq. Qed.

Section delivery.
Context {P : Prost} {PC : ProstCalls} {X : QuickXml} {J : Serde} {O : Os}.

(** The loop over the callbacks, when no other task runs in between. *)
Lemma deliver_all t l cbs s :
  is_Some (sv_tasks s !! t) → (∀ c, c ∈ target <$> cbs → has_room s (length cbs) c) →
  ∃ s', steps (replicate (length cbs) (Ev_task t T_go)) (deliver t l cbs s) = Some s' ∧
    t_phase <$> sv_tasks s' !! t = Some (Serving l) ∧
    ∀ c, conn_heap (sv_node s') !! c = push_all c cbs <$> conn_heap (sv_node s) !! c.
Proof.
  revert s. induction cbs as [|cb cbs IH]; intros s [task Ht] Hroom.
  { eexists. split; [done|]. simpl. rewrite lookup_alter_eq, Ht. split; [done|]. intros c. by destruct (_ !! c). }
  destruct (Hroom (target cb)) as (conn & Hconn & Hcl & Hl); [set_solver|].
  pose proof (into_frame_eq cb (sv_node s) conn Hconn) as Hi. unfold deliver.
  destruct (claim_next_outbound_seq (next_outbound_seq conn)) as [seq next] eqn:Hseq. rewrite Hi.
  set (f := callback_frame _ _ _). set (s1 := set_sv_node _ s).
  set (s2 := set_sv_node (set_conn_heap (alter (push f) (target cb))) (goto t (Sending l (target cb) f (After_callback cbs)) s1)).
  assert (Hstep : step (Ev_task t T_go) (goto t (Sending l (target cb) f (After_callback cbs)) s1) = Some (deliver t l cbs s2)).
  { cbn [step]. simpl sv_tasks. rewrite lookup_alter_eq, Ht. simpl. unfold task_step. simpl t_phase. cbv match.
    rewrite (channel_send_room _ _ _ (length cbs)); [done|]. exists (set_next_outbound_seq (λ _, next) conn).
    simpl. rewrite lookup_alter_eq, Hconn. split_and!; [done..|]. simpl in *. lia. }
  assert (Hheap : ∀ c, conn_heap (sv_node s2) !! c =
    (if decide (c = target cb) then push_callback (Routing.body cb) else id) <$> conn_heap (sv_node s) !! c).
  { intros c. simpl. destruct (decide (c = target cb)) as [->|].
    - rewrite lookup_alter_eq, lookup_alter_eq, Hconn. simpl. f_equal. unfold push_callback. rewrite Hseq. done.
    - rewrite !lookup_alter_ne by done. by destruct (_ !! c). }
  destruct (IH s2) as (s' & Hs & Hp & Hh).
  { simpl. rewrite lookup_alter_eq, Ht. by eexists. }
  { intros c Hc. destruct (Hroom c) as (conn' & Hconn' & Hcl' & Hl'); [rewrite fmap_cons; set_solver|].
    unfold has_room. rewrite Hheap, Hconn'. eexists. split_and!; [done|done|]. simpl in Hl'.
    case_decide; simpl; [|lia]. unfold push_callback. destruct (claim_next_outbound_seq (next_outbound_seq conn')). simpl.
    rewrite length_app. simpl. lia. }
  exists s'. split_and!; [|done|].
  - cbn [length replicate steps]. rewrite Hstep. exact Hs.
  - intros c. rewrite Hh, Hheap. unfold push_all. rewrite filter_cons. destruct (conn_heap (sv_node s) !! c); simpl; [|done].
    destruct (decide (c = target cb)) as [->|]; [by rewrite decide_True|by rewrite decide_False].
Qed.

(** What a call does.  A request that reaches a serving session of a
    server is decoded, dispatched and answered: when the connections it
    concerns have room and their writers, the task runs through, and every
    connection receives exactly, behind what was queued, the response to this
    request if it is the caller's, then its callbacks in the order in which
    the service queued them, under consecutive sequence numbers of that
    connection.  No other connection receives anything. *)
Theorem call_delivered s0 lossy s t task l f :
  starts s0 → unconnected s0 → reachable s0 lossy s → bounded (Ev_task t (T_frame (Ok f))) s →
  sv_tasks s !! t = Some task → t_phase task = Serving l → shutdown_flag (sv_node s) = false →
  message_type (header f) = HlaCallRequest →
  let '(ds, r) := call_outcome (sl_ctx l) (payload f) s in
  let cbs := ds_callbacks ds in
  (∀ c, c ∈ sl_conn l :: (target <$> cbs) → has_room s (S (length cbs)) c) →
  ∃ s', steps (Ev_task t (T_frame (Ok f)) :: replicate (S (length cbs)) (Ev_task t T_go)) s = Some s' ∧
    t_phase <$> sv_tasks s' !! t =
      Some (Serving (mkSessionLoop (sl_conn l) (ds_ctx ds) (sl_hb l) (sv_now s))) ∧
    ∀ c, conn_heap (sv_node s') !! c =
      answered (sl_conn l) (response_frame (ctx_session_id (sl_ctx l)) (sequence_number (header f)) r) cbs c <$>
        conn_heap (sv_node s) !! c.
Proof.
  intros Hs Hu Hr (Hleft & _ & Hsmall) Ht Hp Hdown Hty.
  destruct (reachable_inv s0 lossy s Hs Hr) as (Hwf & _).
  pose proof (call_outcome_rest (sl_ctx l) (payload f) s Hwf Hleft Hsmall) as Hrest.
  destruct (call_outcome (sl_ctx l) (payload f) s) as [ds r] eqn:Hout. intros cbs Hroom.
  destruct (Hrest r (length cbs)) as (_ & _ & Hheap & _). cbn [fst] in Hheap. clear Hrest.
  set (l' := mkSessionLoop (sl_conn l) (ds_ctx ds) (sl_hb l) (sv_now s)).
  set (resp := response_frame _ _ _).
  set (s1 := goto t (Sending l' (sl_conn l) resp (After_response cbs)) (set_sv_disk (λ _, ds_disk ds)
      (set_sv_node (λ _, count_outcome r (length cbs) (ds_node ds)) s))).
  assert (H1 : step (Ev_task t (T_frame (Ok f))) s = Some s1).
  { cbn [step]. rewrite Ht. simpl. unfold task_step. rewrite Hp, Hdown. simpl. unfold on_frame. rewrite Hty.
    unfold on_call. cbn [sl_ctx]. by rewrite Hout. }
  assert (Hh1 : conn_heap (sv_node s1) = conn_heap (sv_node s)) by exact Hheap.
  assert (Ht1 : sv_tasks s1 !! t = Some (set_phase (Sending l' (sl_conn l) resp (After_response cbs)) task))
    by (simpl; by rewrite lookup_alter_eq, Ht).
  set (s2 := set_sv_node (set_conn_heap (alter (push resp) (sl_conn l))) s1).
  assert (H2 : step (Ev_task t T_go) s1 = Some (deliver t l' cbs s2)).
  { cbn [step]. rewrite Ht1. simpl. unfold task_step. cbn [t_phase set_phase].
    rewrite (channel_send_room _ _ _ (length cbs)); [done|]. unfold has_room. rewrite Hh1.
    destruct (Hroom (sl_conn l)) as (conn & ? & ? & ?); [set_solver|]. by exists conn. }
  assert (Hh2 : ∀ c, conn_heap (sv_node s2) !! c =
    (if decide (c = sl_conn l) then push resp else id) <$> conn_heap (sv_node s) !! c).
  { intros c. change (alter (push resp) (sl_conn l) (conn_heap (sv_node s1)) !! c =
      (if decide (c = sl_conn l) then push resp else id) <$> conn_heap (sv_node s) !! c). rewrite Hh1.
    case_decide as Hc; [subst; by rewrite lookup_alter_eq|rewrite lookup_alter_ne by done; by destruct (_ !! c)]. }
  destruct (deliver_all t l' cbs s2) as (s' & Hs' & Hp' & Hh').
  - eexists. exact Ht1.
  - intros c Hc. destruct (Hroom c) as (conn & Hconn & Hcl & Hl); [set_solver|]. unfold has_room. rewrite Hh2, Hconn.
    eexists. split_and!; [done|done|]. case_decide; simpl; rewrite ?length_app; simpl; lia.
  - exists s'. split_and!; [|done|].
    + cbn [steps replicate]. rewrite H1. cbn [mbind option_bind]. rewrite H2. exact Hs'.
    + intros c. rewrite Hh', Hh2. unfold answered. destruct (conn_heap (sv_node s) !! c); [|done]. simpl. by case_decide.
Qed.
End delivery.

(** *** Witness: a member asks for the list of federations, which it gets as a callback *)
Definition joined_loop : SessionLoop :=
  mkSessionLoop 1%positive (mkSessionContext 1 (Some (mkMembership 1%positive (FederateHandle_new 1) "federate-00000001")))
    (mkHeartbeatConfig 60000 180000 100) 0.
Definition list_request : Frame := hla_call_request_frame 2 1 0 [x04].

Lemma call_delivered_witness :
  ∃ s', steps (P := demo_prost) (PC := demo_calls) (X := no_xml) (J := digit_serde) (O := reliable_os)
      (Ev_task 1 (T_frame (Ok list_request)) :: replicate 2 (Ev_task 1 T_go)) joined_server = Some s' ∧
    frame_tx <$> conn_heap (sv_node s') !! 1%positive =
      Some [response_frame (PC := demo_calls) 1 1 ListFederationExecutionsResponse;
            response_frame (PC := demo_calls) 1 2 ListFederationExecutionsResponse; callback_frame 1 0 []].
Proof.
  destruct (sv_tasks joined_server !! 1%positive) as [task|] eqn:Ht; [|vm_compute in Ht; discriminate].
  assert (Hp : t_phase task = Serving joined_loop) by (vm_compute in Ht; injection Ht as <-; vm_compute; reflexivity).
  assert (Hb : demo_bounded (Ev_task 1 (T_frame (Ok list_request))) joined_server = true) by (vm_compute; reflexivity).
  assert (Hd : shutdown_flag (sv_node joined_server) = false) by (vm_compute; reflexivity).
  assert (Hcl : sv_closed joined_server = ∅) by (vm_compute; reflexivity).
  pose proof (call_delivered (P := demo_prost) (PC := demo_calls) (X := no_xml) (J := digit_serde) (O := reliable_os)
    (demo_server 100) false joined_server 1%positive task joined_loop list_request (demo_starts 100) (conj eq_refl eq_refl)
    joined_reachable (demo_bounded_ok _ joined_server Hb) Ht Hp Hd eq_refl) as H.
  destruct (call_outcome (P := demo_prost) (PC := demo_calls) (X := no_xml) (J := digit_serde) (O := reliable_os)
    (sl_ctx joined_loop) (payload list_request) joined_server) as [ds r] eqn:Hc.
  assert (Hcbs : ds_callbacks ds = [mkOutboundCallback 1%positive []]).
  { change ds with (ds, r).1. rewrite <-Hc. vm_compute. reflexivity. }
  assert (Hr : r = ListFederationExecutionsResponse).
  { change r with (ds, r).2. rewrite <-Hc. vm_compute. reflexivity. }
  clear Hc. cbv zeta in H. rewrite Hcbs, Hr in H. destruct H as (s' & Hs & _ & Hh).
  - intros c Hin. assert (Hc : c = 1%positive).
    { apply elem_of_cons in Hin as [->|Hin]; [reflexivity|]. by apply list_elem_of_singleton in Hin. }
    rewrite Hc.
    eexists. split_and!; [vm_compute; reflexivity|rewrite Hcl; apply not_elem_of_empty|vm_compute; lia].
  - exists s'. split; [exact Hs|]. rewrite Hh. vm_compute. reflexivity.
Defined.

(** ** Client and server *)

Lemma read_frame_encoded f rest : frame_wf f → read_frame (frame_encode f ++ rest) = Ok (f, rest).
Proof. intros Hf. rewrite read_frame_codec. by rewrite codec_decode_frame. Qed.

(** A frame built with its payload size. *)
Lemma built_frame_wf seq sid last ty b :
  s_in 32 seq → u_in 64 sid → s_in 32 last → Z.of_nat (length b) ≤ MAX_PACKET_SIZE - 24 →
  frame_wf (Frame_new (with_payload_size (wrap_u 32 (Z.of_nat (length b))) seq sid last ty) b).
Proof.
  intros Hseq Hsid Hlast Hl.
  assert (Hw : wrap_u 32 (Z.of_nat (length b)) = Z.of_nat (length b)).
  { unfold wrap_u. apply Z.mod_small. unfold MAX_PACKET_SIZE in Hl. lia. }
  assert (Hp : wrap_u 32 (Z.of_nat HEADER_SIZE + Z.of_nat (length b)) = Z.of_nat HEADER_SIZE + Z.of_nat (length b)).
  { unfold wrap_u, HEADER_SIZE. apply Z.mod_small. unfold MAX_PACKET_SIZE in Hl. lia. }
  unfold frame_wf, header_wf, with_payload_size. cbn [header payload packet_size sequence_number session_id last_received_sequence_number].
  rewrite Hw, Hp. unfold MAX_PACKET_SIZE, HEADER_SIZE, u_in in *. split_and!; try done; lia.
Qed.

Section client_server.
Context {P : Prost} {PC : ProstCalls} {X : QuickXml} {J : Serde} {O : Os}.

(** C31: a call, from the client's bytes to the client's result.  The client
    of [call.rs] writes a request; the server reads back exactly that frame,
    and answers with a frame on the caller's connection; the client that
    reads the bytes of that frame returns the encoded response of the
    dispatcher to its request, whatever follows it on the stream.  Request and
    response are to fit packets of 32 MiB. *)
Theorem client_server_call c b rest t task l s :
  let st := ca_state c in
  s_in 32 (next_outbound st) → u_in 64 (cs_session_id st) → s_in 32 (last_received st) →
  Z.of_nat (length b) ≤ MAX_PACKET_SIZE - 24 → u_in 64 (ctx_session_id (sl_ctx l)) →
  st_writable (ca_stream c) = true → st_out (ca_stream c) = [] →
  sv_tasks s !! t = Some task →
  let request := hla_call_request_frame (next_outbound st) (cs_session_id st) (last_received st) b in
  let '(ds, r) := call_outcome (sl_ctx l) b s in
  let response := response_frame (ctx_session_id (sl_ctx l)) (next_outbound st) r in
  Z.of_nat (length (payload response)) ≤ MAX_PACKET_SIZE - 24 →
  st_in (ca_stream c) = frame_encode response ++ rest →
  let '(c', res) := send_hla_call b c in
  read_frame (st_out (ca_stream c')) = Ok (request, []) ∧
  t_phase <$> sv_tasks (on_frame t l request s) !! t =
    Some (Sending (mkSessionLoop (sl_conn l) (ds_ctx ds) (sl_hb l) (sv_now s)) (sl_conn l) response
      (After_response (ds_callbacks ds))) ∧
  res = inr (encode_response r) ∧ st_in (ca_stream c') = rest.
Proof.
  intros st Hseq Hsid Hlast Hb Hctx Hw Hout Htask request.
  destruct (call_outcome (sl_ctx l) b s) as [ds r] eqn:Hc. intros response Hlen Hin.
  assert (Hresp : frame_wf response).
  { apply built_frame_wf; [vm_compute; split; congruence|done|done|exact Hlen]. }
  pose proof (send_hla_call_exact b c response rest) as Hcall. cbv zeta in Hcall. fold st in Hcall.
  destruct (send_hla_call b c) as [c' res].
  destruct Hcall as (Hstream & _ & Hres); [done|done|rewrite Hin; by apply read_frame_encoded|].
  split_and!.
  - rewrite Hstream, Hout. simpl. rewrite <-(app_nil_r (frame_encode _)).
    apply read_frame_encoded. by apply built_frame_wf.
  - unfold on_frame, on_call. cbn [message_type header request hla_call_request_frame with_payload_size payload sl_ctx].
    rewrite Hc. simpl. by rewrite lookup_alter_eq, Htask.
  - by apply Hres.
  - by rewrite Hstream.
Qed.

(** C32: the node's handshake is the handshake of the wire library.  On a first
    frame that is not a resume, the connection task does what
    [server_accept_session_frames] does with it, over any transport: it
    answers with the same frame and opens the session under the assigned id
    when that function succeeds; answers with the same refusal when the
    version is not supported; and ends without an answer on any other error. *)
Theorem node_handshake_agrees {R W} `{SourceLaws R holds} `{SinkLaws W sent} t task sid f fs (r : R) (k : W) s :
  sv_tasks s !! t = Some task → holds (f :: fs) r → sent [] k → message_type (header f) ≠ CtrlResumeRequest →
  let '((_, k'), res) := server_accept_session_frames sid (r, k) in
  ∃ out, sent out k' ∧
  match t_phase <$> sv_tasks (first_frame t sid f s) !! t with
  | Some (Replying reply (Some (sid', None))) => res = inr tt ∧ out = [reply] ∧ sid' = sid
  | Some (Replying reply None) => (∃ v, res = inl (UnsupportedVersion v)) ∧ out = [reply]
  | Some Releasing => (∃ e, res = inl e ∧ ∀ v, e ≠ UnsupportedVersion v) ∧ out = []
  | _ => False
  end.
Proof.
  intros Ht Hr Hk Hty. destruct (server_accept_verdict sid f fs r k Hr Hk) as (r' & k' & -> & Hsent & _).
  exists (server_verdict sid f).1. split; [done|]. unfold server_verdict, first_frame, new_session_reply, accept_version.
  assert (Hgoto : ∀ ph, t_phase <$> sv_tasks (goto t ph s) !! t = Some ph)
    by (intros ph; simpl; by rewrite lookup_alter_eq, Ht).
  destruct (message_type (header f)) eqn:Hf; try (rewrite decide_False by done; rewrite Hgoto; eauto 6); [|done].
  rewrite decide_True by done. destruct (NewSessionPayload_decode (payload f)) as [p|e];
    [|simpl; rewrite lookup_alter_eq, Ht; simpl; eauto 6].
  simpl. destruct (Z.eqb_spec (protocol_version p) FEDERATE_PROTOCOL_VERSION); simpl; rewrite lookup_alter_eq, Ht; simpl; eauto.
Qed.
End client_server.

(** *** Witnesses *)

Definition list_response : Frame := response_frame (PC := demo_calls) 1 1 ListFederationExecutionsResponse.
Definition list_caller : Caller :=
  mkCaller (mkStream (frame_encode list_response) [] true) (ClientSeqState_new 1).

Lemma client_server_call_witness : (send_hla_call [x04] list_caller).2 = inr [x01].
Proof.
  destruct (sv_tasks joined_server !! 1%positive) as [task|] eqn:Ht; [|vm_compute in Ht; discriminate].
  pose proof (client_server_call (P := demo_prost) (PC := demo_calls) (X := no_xml) (J := digit_serde) (O := reliable_os)
    list_caller [x04] [] 1%positive task joined_loop joined_server) as H. cbv zeta in H.
  destruct (call_outcome (P := demo_prost) (PC := demo_calls) (X := no_xml) (J := digit_serde) (O := reliable_os)
    (sl_ctx joined_loop) [x04] joined_server) as [ds r] eqn:Hc.
  assert (Hr : r = ListFederationExecutionsResponse).
  { change r with (ds, r).2. rewrite <-Hc. vm_compute. reflexivity. }
  rewrite Hr in H. destruct (send_hla_call [x04] list_caller) as [c' res]. apply H.
  all: first [exact Ht | (vm_compute; split; congruence) | (vm_compute; congruence) | (vm_compute; reflexivity)].
Defined.

Lemma node_handshake_witness :
  ∃ task, sv_tasks (first_frame 1 7 new_session_frame
      (default (demo_server 0) (snd <$> trace [Ev_accept L_tcp 9] false (demo_server 0)))) !! 1%positive = Some task ∧
    ∃ reply, t_phase task = Replying reply (Some (7, None)).
Proof.
  set (s := default (demo_server 0) (snd <$> trace [Ev_accept L_tcp 9] false (demo_server 0))).
  destruct (sv_tasks s !! 1%positive) as [task|] eqn:Ht; [|vm_compute in Ht; discriminate].
  pose proof (node_handshake_agrees (holds := stream_holds) (sent := stream_sent) 1%positive task 7 new_session_frame []
    (AsyncReadSource_new [frame_encode new_session_frame]) (mkAsyncWriteSink [] true) s Ht) as H.
  destruct (sv_tasks (first_frame 1 7 new_session_frame s) !! 1%positive) as [task'|] eqn:Ht'; [|vm_compute in Ht'; discriminate].
  exists task'. split; [reflexivity|].
  destruct (server_accept_session_frames 7 _) as [[r' k'] res] eqn:Hs.
  assert (Hres : res = inr tt) by (change res with (r', k', res).2; rewrite <-Hs; vm_compute; reflexivity).
  destruct H as (out & _ & H).
  - split_and!; [|done|vm_compute; reflexivity]. repeat constructor; vm_compute; split_and?; congruence.
  - split; reflexivity.
  - discriminate.
  - simpl in H. destruct (t_phase task') as [| |reply [[sid [m|]]|]| | | | | | | |]; try (exfalso; exact H).
    + destruct H as (_ & _ & ->). by exists reply.
    + destruct H as [[v Hv] _]. rewrite Hres in Hv. discriminate.
    + destruct H as [(e & Hv & _) _]. rewrite Hres in Hv. discriminate.
Defined.
