(* ===== verification/FedHandles.v ===== *)
(** * hla-federate: handle conversions

    [hla-federate/src/handles.rs], and the encoders at the end of
    [ambassador.rs].  The federate library has codecs of its own, next to
    those of [hla-rti/src/handles.rs] ([Handles]); a handle that does not
    decode is [None] here.  [agreement] below: the two crates read and write
    the same bytes. *)

From S2P Require Import Prelude Float64 CoreTypes Exception Proto.

Definition encode_object_class (h : ObjectClassHandle) : ProtoHandle := to_be_bytes 4 (och_raw h).
Definition decode_object_class (p : ProtoHandle) : option ObjectClassHandle :=
  if negb (length p =? 4)%nat then None else Some (ObjectClassHandle_new (from_be_bytes p)).

Definition encode_attribute (h : AttributeHandle) : ProtoHandle := to_be_bytes 4 (ah_raw h).
Definition decode_attribute (p : ProtoHandle) : option AttributeHandle :=
  if negb (length p =? 4)%nat then None else Some (AttributeHandle_new (from_be_bytes p)).

Definition encode_interaction_class (h : InteractionClassHandle) : ProtoHandle := to_be_bytes 4 (ich_raw h).
Definition decode_interaction_class (p : ProtoHandle) : option InteractionClassHandle :=
  if negb (length p =? 4)%nat then None else Some (InteractionClassHandle_new (from_be_bytes p)).

Definition encode_parameter (h : ParameterHandle) : ProtoHandle := to_be_bytes 4 (ph_raw h).
Definition decode_parameter (p : ProtoHandle) : option ParameterHandle :=
  if negb (length p =? 4)%nat then None else Some (ParameterHandle_new (from_be_bytes p)).

Definition encode_object_instance (h : ObjectInstanceHandle) : ProtoHandle := to_be_bytes 8 (oih_raw h).
Definition decode_object_instance (p : ProtoHandle) : option ObjectInstanceHandle :=
  if negb (length p =? 8)%nat then None else Some (ObjectInstanceHandle_new (from_be_bytes p)).

Definition decode_federate (p : ProtoHandle) : option FederateHandle :=
  if negb (length p =? 4)%nat then None else Some (FederateHandle_new (from_be_bytes p)).

(** [filter_map(..).collect()]: a later entry replaces an earlier one of the
    same handle, as [HashMap::extend] inserts them in turn. *)
Definition decode_entry {H} (dec : ProtoHandle → option H) (e : option ProtoHandle * list byte)
    : option (H * list byte) := h ← (p ← e.1; dec p); Some (h, e.2).
Definition collect {H V} `{Countable H} (l : list (H * V)) : gmap H V :=
  foldl (λ m e, <[e.1 := e.2]> m) ∅ l.

Definition decode_attribute_value_map (p : ProtoValueMap) : gmap AttributeHandle (list byte) :=
  collect (omap (decode_entry decode_attribute) p).
Definition decode_parameter_value_map (p : ProtoValueMap) : gmap ParameterHandle (list byte) :=
  collect (omap (decode_entry decode_parameter) p).

(** ** The encoders of [ambassador.rs] *)

Definition encode_resign_action (a : ResignAction) : Z :=
  match a with
  | UnconditionallyDivestAttributes => 0
  | DeleteObjects => 1
  | CancelPendingOwnershipAcquisitions => 2
  | DeleteObjectsThenDivest => 3
  | CancelThenDeleteThenDivest => 4
  | NoAction => 5
  end.

Definition encode_attr_set (set : gset AttributeHandle) : list ProtoHandle := encode_attribute <$> elements set.
Definition encode_attr_value_map (map : gmap AttributeHandle (list byte)) : ProtoValueMap :=
  (λ '(h, v), (Some (encode_attribute h), v)) <$> map_to_list map.
Definition encode_param_value_map (map : gmap ParameterHandle (list byte)) : ProtoValueMap :=
  (λ '(h, v), (Some (encode_parameter h), v)) <$> map_to_list map.

(** ** What the codecs promise *)

(** Decoding inverts encoding on the values of the machine type, and encoded
    handles are always accepted. *)
Class FedWire {H : Type} (valid : H → Prop) (enc : H → ProtoHandle) (dec : ProtoHandle → option H) : Prop :=
  { fed_wire_roundtrip h : valid h → dec (enc h) = Some h;
    fed_wire_accepted h : is_Some (dec (enc h)) }.

Ltac solve_fed_wire :=
  unfold encode_object_class, decode_object_class, encode_attribute, decode_attribute,
    encode_interaction_class, decode_interaction_class, encode_parameter, decode_parameter,
    encode_object_instance, decode_object_instance, decode_federate;
  split; intros [z]; cbn [och_raw ah_raw ich_raw ph_raw oih_raw fh_raw];
  rewrite length_to_be_bytes; cbn -[to_be_bytes from_be_bytes];
  [intros Hz; f_equal; f_equal; by apply from_to_be_bytes_u | by eexists].

#[export] Instance fed_object_class_wire : FedWire (λ h, u_in 32 (och_raw h)) encode_object_class decode_object_class.
Proof. solve_fed_wire. Qed.
#[export] Instance fed_attribute_wire : FedWire (λ h, u_in 32 (ah_raw h)) encode_attribute decode_attribute.
Proof. solve_fed_wire. Qed.
#[export] Instance fed_interaction_class_wire :
  FedWire (λ h, u_in 32 (ich_raw h)) encode_interaction_class decode_interaction_class.
Proof. solve_fed_wire. Qed.
#[export] Instance fed_parameter_wire : FedWire (λ h, u_in 32 (ph_raw h)) encode_parameter decode_parameter.
Proof. solve_fed_wire. Qed.
#[export] Instance fed_object_instance_wire :
  FedWire (λ h, u_in 64 (oih_raw h)) encode_object_instance decode_object_instance.
Proof. solve_fed_wire. Qed.

Lemma decode_list {H} `{FedWire H valid enc dec} l : Forall valid l → omap dec (enc <$> l) = l.
Proof. induction 1 as [|h l Hh Hl IH]; [done|]. csimpl. by rewrite fed_wire_roundtrip, IH. Qed.

(** Collecting the entries of a map gives the map. *)
Lemma collect_lookup {H V} `{Countable H} (l : list (H * V)) (m : gmap H V) k :
  NoDup l.*1 → foldl (λ m e, <[e.1 := e.2]> m) m l !! k = (list_to_map l : gmap H V) !! k ∪ m !! k.
Proof.
  revert m. induction l as [|[h v] l IH]; intros m; csimpl; [by rewrite lookup_empty, (left_id_L None _)|].
  intros [Hh Hl]%NoDup_cons. rewrite IH by done. destruct (decide (k = h)) as [->|].
  - rewrite !lookup_insert_eq, (not_elem_of_list_to_map_1 l h) by done. by destruct (m !! h).
  - by rewrite !lookup_insert_ne.
Qed.
Lemma collect_map_to_list {H V} `{Countable H} (m : gmap H V) : collect (map_to_list m) = m.
Proof.
  apply map_eq. intros k. unfold collect. rewrite collect_lookup by apply NoDup_fst_map_to_list.
  by rewrite list_to_map_to_list, lookup_empty, (right_id_L None _).
Qed.

Lemma decode_entries {H} `{Countable H} `{!FedWire valid enc dec} (m : gmap H (list byte)) :
  map_Forall (λ h _, valid h) m →
  collect (omap (decode_entry dec) ((λ '(h, v), (Some (enc h), v)) <$> map_to_list m)) = m.
Proof.
  intros Hm. rewrite <- (collect_map_to_list m) at 2. f_equal.
  assert (Hl : ∀ h v, (h, v) ∈ map_to_list m → valid h) by (intros h v ?%elem_of_map_to_list; by eapply Hm).
  induction (map_to_list m) as [|[h v] l IH]; [done|]. csimpl.
  assert (He : decode_entry dec (Some (enc h), v) = Some (h, v)).
  { unfold decode_entry. simpl. by rewrite fed_wire_roundtrip by (eapply Hl; by left). }
  rewrite He. f_equal. apply IH.
  intros h' v' Hin. eapply Hl. by right.
Qed.
