(* ===== verification/Callbacks.v ===== *)
(** * hla-federate: callbacks

    The trait [FederateAmbassador] of [hla-federate/src/callbacks.rs] is a
    class over the state [A] of the federate's implementation: a method is
    called through [&self] and runs to its end before the pump goes on, so it
    is a function of that state.  The methods are in one class for each group
    of the trait.  [dispatch_callback] of [ambassador.rs] takes a message
    apart and calls the method it is for. *)

From S2P Require Import Prelude Float64 CoreTypes Proto FedHandles.

(** Objects, interactions, time and ownership reports. *)
Class DataCallbacks (A : Type) := {
  discover_object_instance : ObjectInstanceHandle → ObjectClassHandle → string →
    option FederateHandle → A → A;
  reflect_attribute_values : ObjectInstanceHandle → gmap AttributeHandle (list byte) → list byte →
    option FederateHandle → A → A;
  receive_interaction : InteractionClassHandle → gmap ParameterHandle (list byte) → list byte →
    option FederateHandle → A → A;
  remove_object_instance : ObjectInstanceHandle → list byte → option FederateHandle → A → A;
  time_regulation_enabled : f64 → A → A;
  time_constrained_enabled : f64 → A → A;
  time_advance_grant : f64 → A → A;
  inform_attribute_ownership : ObjectInstanceHandle → list AttributeHandle → FederateHandle → A → A
}.
(** Federation reports, save and restore, ownership outcomes, synchronization points. *)
Class FederationCallbacks (A : Type) := {
  report_federation_executions : list string → A → A;
  report_federation_execution_members : string → list (string * string) → A → A;
  report_federation_execution_does_not_exist : string → A → A;
  initiate_federate_save : string → A → A;
  federation_saved : A → A;
  federation_not_saved : Z → A → A;
  request_federation_restore_succeeded : string → A → A;
  request_federation_restore_failed : string → A → A;
  federation_restore_begun : A → A;
  initiate_federate_restore : string → string → FederateHandle → A → A;
  federation_restored : A → A;
  federation_not_restored : Z → A → A;
  attribute_is_not_owned : ObjectInstanceHandle → list AttributeHandle → A → A;
  attribute_ownership_acquisition_notification : ObjectInstanceHandle → list AttributeHandle →
    list byte → A → A;
  attribute_ownership_unavailable : ObjectInstanceHandle → list AttributeHandle → list byte → A → A;
  synchronization_point_registration_succeeded : string → A → A;
  synchronization_point_registration_failed : string → Z → A → A;
  announce_synchronization_point : string → list byte → A → A;
  federation_synchronized : string → gset FederateHandle → A → A
}.
(** Time-stamped variants of the core data-flow callbacks. *)
Class TimestampedCallbacks (A : Type) := {
  reflect_attribute_values_with_time : ObjectInstanceHandle → gmap AttributeHandle (list byte) →
    list byte → option FederateHandle → f64 → A → A;
  receive_interaction_with_time : InteractionClassHandle → gmap ParameterHandle (list byte) →
    list byte → option FederateHandle → f64 → A → A;
  remove_object_instance_with_time : ObjectInstanceHandle → list byte → option FederateHandle → f64 → A → A
}.
(** Reservation outcomes. *)
Class ReservationCallbacks (A : Type) := {
  object_instance_name_reservation_failed : string → A → A;
  multiple_object_instance_name_reservation_succeeded : list string → A → A;
  multiple_object_instance_name_reservation_failed : list string → A → A
}.
(** Advisory callbacks. *)
Class AdvisoryCallbacks (A : Type) := {
  start_registration_for_object_class : ObjectClassHandle → A → A;
  stop_registration_for_object_class : ObjectClassHandle → A → A;
  turn_interactions_on : InteractionClassHandle → A → A;
  turn_interactions_off : InteractionClassHandle → A → A;
  turn_updates_on_for_object_instance : ObjectInstanceHandle → list AttributeHandle → A → A;
  turn_updates_off_for_object_instance : ObjectInstanceHandle → list AttributeHandle → A → A;
  attributes_in_scope : ObjectInstanceHandle → list AttributeHandle → A → A;
  attributes_out_of_scope : ObjectInstanceHandle → list AttributeHandle → A → A;
  provide_attribute_value_update : ObjectInstanceHandle → list AttributeHandle → list byte → A → A
}.
(** Ownership negotiation. *)
Class OwnershipCallbacks (A : Type) := {
  request_attribute_ownership_assumption : ObjectInstanceHandle → list AttributeHandle → list byte → A → A;
  request_attribute_ownership_release : ObjectInstanceHandle → list AttributeHandle → list byte → A → A;
  request_divestiture_confirmation : ObjectInstanceHandle → list AttributeHandle → list byte → A → A;
  attribute_is_owned_by_rti : ObjectInstanceHandle → list AttributeHandle → A → A;
  confirm_attribute_ownership_acquisition_cancellation : ObjectInstanceHandle → list AttributeHandle → A → A
}.
(** Retraction and flush. *)
Class RetractionCallbacks (A : Type) := {
  request_retraction : list byte → A → A;
  flush_queue_grant : f64 → option f64 → A → A
}.
(** Save with time, save and restore status, connection lost, resigned. *)
Class StatusCallbacks (A : Type) := {
  initiate_federate_save_with_time : string → f64 → A → A;
  federation_save_status_response : A → A;
  federation_restore_status_response : A → A;
  connection_lost : string → A → A;
  federate_resigned : string → A → A
}.
(** Transportation-type reports, and callbacks without a method of their own. *)
Class TransportationCallbacks (A : Type) := {
  report_attribute_transportation_type : ObjectInstanceHandle → AttributeHandle → list byte → A → A;
  report_interaction_transportation_type : FederateHandle → InteractionClassHandle → list byte → A → A;
  raw_callback : string → A → A
}.

(** The trait.  A method is a function on the state of the implementation: it
    returns, and does not wait for anything the pump would have to read. *)
Class FederateAmbassador (A : Type) := {
  data_callbacks :: DataCallbacks A;
  federation_callbacks :: FederationCallbacks A;
  timestamped_callbacks :: TimestampedCallbacks A;
  reservation_callbacks :: ReservationCallbacks A;
  advisory_callbacks :: AdvisoryCallbacks A;
  ownership_callbacks :: OwnershipCallbacks A;
  retraction_callbacks :: RetractionCallbacks A;
  status_callbacks :: StatusCallbacks A;
  transportation_callbacks :: TransportationCallbacks A
}.

(** ** [Arc<T>]

    The pump owns the callbacks behind an [Arc]; a method called on the [Arc]
    is the one of the blanket implementation. *)

Record Arc (A : Type) := mkArc { arc_inner : A }.
Arguments mkArc {A} _.
Arguments arc_inner {A} _.
Definition deref {A} (f : A → A) (a : Arc A) : Arc A := mkArc (f (arc_inner a)).

#[export] Instance arc_data {A} `{FederateAmbassador A} : DataCallbacks (Arc A) := {
  discover_object_instance instance class name producing_federate :=
    deref (discover_object_instance instance class name producing_federate);
  reflect_attribute_values instance values user_supplied_tag producing_federate :=
    deref (reflect_attribute_values instance values user_supplied_tag producing_federate);
  receive_interaction class params user_supplied_tag producing_federate :=
    deref (receive_interaction class params user_supplied_tag producing_federate);
  remove_object_instance instance user_supplied_tag producing_federate :=
    deref (remove_object_instance instance user_supplied_tag producing_federate);
  time_regulation_enabled time := deref (time_regulation_enabled time);
  time_constrained_enabled time := deref (time_constrained_enabled time);
  time_advance_grant time := deref (time_advance_grant time);
  inform_attribute_ownership instance attributes owner :=
    deref (inform_attribute_ownership instance attributes owner)
}.
#[export] Instance arc_federation {A} `{FederateAmbassador A} : FederationCallbacks (Arc A) := {
  report_federation_executions federations := deref (report_federation_executions federations);
  report_federation_execution_members federation_name members :=
    deref (report_federation_execution_members federation_name members);
  report_federation_execution_does_not_exist federation_name :=
    deref (report_federation_execution_does_not_exist federation_name);
  initiate_federate_save label := deref (initiate_federate_save label);
  federation_saved := deref federation_saved;
  federation_not_saved reason := deref (federation_not_saved reason);
  request_federation_restore_succeeded label := deref (request_federation_restore_succeeded label);
  request_federation_restore_failed label := deref (request_federation_restore_failed label);
  federation_restore_begun := deref federation_restore_begun;
  initiate_federate_restore label federate_name post_restore_handle :=
    deref (initiate_federate_restore label federate_name post_restore_handle);
  federation_restored := deref federation_restored;
  federation_not_restored reason := deref (federation_not_restored reason);
  attribute_is_not_owned instance attributes := deref (attribute_is_not_owned instance attributes);
  attribute_ownership_acquisition_notification instance secured user_supplied_tag :=
    deref (attribute_ownership_acquisition_notification instance secured user_supplied_tag);
  attribute_ownership_unavailable instance attributes user_supplied_tag :=
    deref (attribute_ownership_unavailable instance attributes user_supplied_tag);
  synchronization_point_registration_succeeded label :=
    deref (synchronization_point_registration_succeeded label);
  synchronization_point_registration_failed label reason :=
    deref (synchronization_point_registration_failed label reason);
  announce_synchronization_point label user_supplied_tag :=
    deref (announce_synchronization_point label user_supplied_tag);
  federation_synchronized label failed_to_sync := deref (federation_synchronized label failed_to_sync)
}.
#[export] Instance arc_timestamped {A} `{FederateAmbassador A} : TimestampedCallbacks (Arc A) := {
  reflect_attribute_values_with_time instance values user_supplied_tag producing_federate time :=
    deref (reflect_attribute_values_with_time instance values user_supplied_tag producing_federate time);
  receive_interaction_with_time class params user_supplied_tag producing_federate time :=
    deref (receive_interaction_with_time class params user_supplied_tag producing_federate time);
  remove_object_instance_with_time instance user_supplied_tag producing_federate time :=
    deref (remove_object_instance_with_time instance user_supplied_tag producing_federate time)
}.
#[export] Instance arc_reservation {A} `{FederateAmbassador A} : ReservationCallbacks (Arc A) := {
  object_instance_name_reservation_failed name := deref (object_instance_name_reservation_failed name);
  multiple_object_instance_name_reservation_succeeded names :=
    deref (multiple_object_instance_name_reservation_succeeded names);
  multiple_object_instance_name_reservation_failed names :=
    deref (multiple_object_instance_name_reservation_failed names)
}.
#[export] Instance arc_advisory {A} `{FederateAmbassador A} : AdvisoryCallbacks (Arc A) := {
  start_registration_for_object_class class := deref (start_registration_for_object_class class);
  stop_registration_for_object_class class := deref (stop_registration_for_object_class class);
  turn_interactions_on class := deref (turn_interactions_on class);
  turn_interactions_off class := deref (turn_interactions_off class);
  turn_updates_on_for_object_instance instance attributes :=
    deref (turn_updates_on_for_object_instance instance attributes);
  turn_updates_off_for_object_instance instance attributes :=
    deref (turn_updates_off_for_object_instance instance attributes);
  attributes_in_scope instance attributes := deref (attributes_in_scope instance attributes);
  attributes_out_of_scope instance attributes := deref (attributes_out_of_scope instance attributes);
  provide_attribute_value_update instance attributes user_supplied_tag :=
    deref (provide_attribute_value_update instance attributes user_supplied_tag)
}.
#[export] Instance arc_ownership {A} `{FederateAmbassador A} : OwnershipCallbacks (Arc A) := {
  request_attribute_ownership_assumption instance offered user_supplied_tag :=
    deref (request_attribute_ownership_assumption instance offered user_supplied_tag);
  request_attribute_ownership_release instance candidate user_supplied_tag :=
    deref (request_attribute_ownership_release instance candidate user_supplied_tag);
  request_divestiture_confirmation instance released user_supplied_tag :=
    deref (request_divestiture_confirmation instance released user_supplied_tag);
  attribute_is_owned_by_rti instance attributes := deref (attribute_is_owned_by_rti instance attributes);
  confirm_attribute_ownership_acquisition_cancellation instance attributes :=
    deref (confirm_attribute_ownership_acquisition_cancellation instance attributes)
}.
#[export] Instance arc_retraction {A} `{FederateAmbassador A} : RetractionCallbacks (Arc A) := {
  request_retraction retraction_handle := deref (request_retraction retraction_handle);
  flush_queue_grant time optional_next_message := deref (flush_queue_grant time optional_next_message)
}.
#[export] Instance arc_status {A} `{FederateAmbassador A} : StatusCallbacks (Arc A) := {
  initiate_federate_save_with_time label time := deref (initiate_federate_save_with_time label time);
  federation_save_status_response := deref federation_save_status_response;
  federation_restore_status_response := deref federation_restore_status_response;
  connection_lost reason := deref (connection_lost reason);
  federate_resigned reason := deref (federate_resigned reason)
}.
#[export] Instance arc_transportation {A} `{FederateAmbassador A} : TransportationCallbacks (Arc A) := {
  report_attribute_transportation_type instance attribute transportation :=
    deref (report_attribute_transportation_type instance attribute transportation);
  report_interaction_transportation_type federate interaction transportation :=
    deref (report_interaction_transportation_type federate interaction transportation);
  raw_callback kind := deref (raw_callback kind)
}.
#[export] Instance arc_ambassador {A} `{FederateAmbassador A} : FederateAmbassador (Arc A) := {}.

(** ** [dispatch_callback] *)

Section dispatch.
Context {A : Type} `{FederateAmbassador A}.

(** [x.as_ref().and_then(decode)] *)
Definition decode_field {H} (dec : ProtoHandle → option H) (p : option ProtoHandle) : option H := x ← p; dec x.
(** [let Some(h) = .. else { return }] *)
Definition or_skip {H} (h : option H) (k : H → A → A) (a : A) : A :=
  match h with Some h => k h a | None => a end.
(** [s.as_ref().map(|s| s.attribute_handle.iter().filter_map(decode_attribute).collect()).unwrap_or_default()] *)
Definition attribute_list (s : option (list ProtoHandle)) : list AttributeHandle :=
  omap decode_attribute (default [] s).
(** [if lt.data.len() == 8 { Some(f64::from_be_bytes(..)) } else { None }] *)
Definition time_value (lt : ProtoTime) : option f64 :=
  if (length lt =? 8)%nat then Some (f64_from_be_bytes lt) else None.
Definition time_field (t : option ProtoTime) : option f64 := lt ← t; time_value lt.

Definition on_discover object_instance object_class name producing_federate : A → A :=
  or_skip (decode_field decode_object_instance object_instance) (λ instance,
  or_skip (decode_field decode_object_class object_class) (λ class,
  discover_object_instance instance class name (decode_field decode_federate producing_federate))).

Definition on_reflect object_instance attribute_values tag producing_federate : A → A :=
  or_skip (decode_field decode_object_instance object_instance) (λ instance,
  let values := default ∅ (decode_attribute_value_map <$> attribute_values) in
  reflect_attribute_values instance values tag (decode_field decode_federate producing_federate)).

Definition on_receive interaction_class parameter_values tag producing_federate : A → A :=
  or_skip (decode_field decode_interaction_class interaction_class) (λ class,
  let params := default ∅ (decode_parameter_value_map <$> parameter_values) in
  receive_interaction class params tag (decode_field decode_federate producing_federate)).

Definition on_remove object_instance tag producing_federate : A → A :=
  or_skip (decode_field decode_object_instance object_instance) (λ instance,
  remove_object_instance instance tag (decode_field decode_federate producing_federate)).

Definition on_members federation_name (report : option (list (string * string))) : A → A :=
  report_federation_execution_members federation_name (default [] report).
Definition on_executions (report : option (list (string * string))) : A → A :=
  report_federation_executions ((default [] report).*1).

Definition on_initiate_restore label federate_name post_restore_federate_handle : A → A :=
  let post := default (FederateHandle_new 0) (decode_field decode_federate post_restore_federate_handle) in
  initiate_federate_restore label federate_name post.

Definition on_inform_ownership object_instance attributes federate : A → A :=
  or_skip (decode_field decode_object_instance object_instance) (λ instance,
  or_skip (decode_field decode_federate federate) (λ owner,
  inform_attribute_ownership instance (attribute_list attributes) owner)).

(** The arms that hand on an instance and a list of attributes. *)
Definition on_attributes object_instance attributes (method : ObjectInstanceHandle → list AttributeHandle → A → A)
    : A → A :=
  or_skip (decode_field decode_object_instance object_instance) (λ instance,
  method instance (attribute_list attributes)).
Definition on_acquisition object_instance secured_attributes tag : A → A :=
  on_attributes object_instance secured_attributes (λ i l, attribute_ownership_acquisition_notification i l tag).
Definition on_unavailable object_instance attributes tag : A → A :=
  on_attributes object_instance attributes (λ i l, attribute_ownership_unavailable i l tag).
Definition on_not_owned object_instance attributes : A → A :=
  on_attributes object_instance attributes attribute_is_not_owned.

Definition on_synchronized label (failed_to_sync_set : option (list ProtoHandle)) : A → A :=
  let failed := default ∅ ((λ set, list_to_set (omap decode_federate set)) <$> failed_to_sync_set) in
  federation_synchronized label failed.

Definition on_reflect_with_time object_instance attribute_values tag producing_federate time : A → A :=
  or_skip (decode_field decode_object_instance object_instance) (λ instance,
  let values := default ∅ (decode_attribute_value_map <$> attribute_values) in
  reflect_attribute_values_with_time instance values tag (decode_field decode_federate producing_federate)
    (default f64_ZERO (time_field time))).

Definition on_receive_with_time interaction_class parameter_values tag producing_federate time : A → A :=
  or_skip (decode_field decode_interaction_class interaction_class) (λ class,
  let params := default ∅ (decode_parameter_value_map <$> parameter_values) in
  receive_interaction_with_time class params tag (decode_field decode_federate producing_federate)
    (default f64_ZERO (time_field time))).

Definition on_remove_with_time object_instance tag producing_federate time : A → A :=
  or_skip (decode_field decode_object_instance object_instance) (λ instance,
  remove_object_instance_with_time instance tag (decode_field decode_federate producing_federate)
    (default f64_ZERO (time_field time))).

Definition on_updates_on object_instance attributes : A → A :=
  on_attributes object_instance attributes turn_updates_on_for_object_instance.
Definition on_updates_off object_instance attributes : A → A :=
  on_attributes object_instance attributes turn_updates_off_for_object_instance.
Definition on_in_scope object_instance attributes : A → A :=
  on_attributes object_instance attributes attributes_in_scope.
Definition on_out_of_scope object_instance attributes : A → A :=
  on_attributes object_instance attributes attributes_out_of_scope.
Definition on_provide_update object_instance attributes tag : A → A :=
  on_attributes object_instance attributes (λ i l, provide_attribute_value_update i l tag).
Definition on_assumption object_instance offered_attributes tag : A → A :=
  on_attributes object_instance offered_attributes (λ i l, request_attribute_ownership_assumption i l tag).
Definition on_release object_instance candidate_attributes tag : A → A :=
  on_attributes object_instance candidate_attributes (λ i l, request_attribute_ownership_release i l tag).
Definition on_divestiture_confirmation object_instance released_attributes tag : A → A :=
  on_attributes object_instance released_attributes (λ i l, request_divestiture_confirmation i l tag).
Definition on_owned_by_rti object_instance attributes : A → A :=
  on_attributes object_instance attributes attribute_is_owned_by_rti.
Definition on_acquisition_cancelled object_instance attributes : A → A :=
  on_attributes object_instance attributes confirm_attribute_ownership_acquisition_cancellation.

Definition on_flush_queue_grant (time : option ProtoTime) : A → A :=
  flush_queue_grant (default f64_ZERO (time_field time)) None.
Definition on_initiate_save_with_time label (time : option ProtoTime) : A → A :=
  initiate_federate_save_with_time label (default f64_ZERO (time_field time)).

Definition callback_variant (variant : CallbackRequest) : A → A :=
  match variant with
  | DiscoverObjectInstance i c n p => on_discover i c n p
  | ReflectAttributeValues i v t p => on_reflect i v t p
  | ReceiveInteraction c v t p => on_receive c v t p
  | RemoveObjectInstance i t p => on_remove i t p
  | TimeRegulationEnabled t => or_skip (time_field t) time_regulation_enabled
  | TimeConstrainedEnabled t => or_skip (time_field t) time_constrained_enabled
  | TimeAdvanceGrant t => or_skip (time_field t) time_advance_grant
  | SynchronizationPointRegistrationSucceeded l => synchronization_point_registration_succeeded l
  | SynchronizationPointRegistrationFailed l r => synchronization_point_registration_failed l r
  | AnnounceSynchronizationPoint l t => announce_synchronization_point l t
  | ReportFederationExecutionMembers n r => on_members n r
  | ReportFederationExecutionDoesNotExist n => report_federation_execution_does_not_exist n
  | ReportFederationExecutions r => on_executions r
  | RequestFederationRestoreSucceeded l => request_federation_restore_succeeded l
  | RequestFederationRestoreFailed l => request_federation_restore_failed l
  | FederationRestoreBegun => federation_restore_begun
  | InitiateFederateRestore l n h => on_initiate_restore l n h
  | FederationRestored => federation_restored
  | FederationNotRestored r => federation_not_restored r
  | InitiateFederateSave l => initiate_federate_save l
  | FederationSaved => federation_saved
  | FederationNotSaved r => federation_not_saved r
  | InformAttributeOwnership i l f => on_inform_ownership i l f
  | AttributeOwnershipAcquisitionNotification i l t => on_acquisition i l t
  | AttributeOwnershipUnavailable i l t => on_unavailable i l t
  | AttributeIsNotOwned i l => on_not_owned i l
  | FederationSynchronized l s => on_synchronized l s
  | ReflectAttributeValuesWithTime i v t p time _ _ => on_reflect_with_time i v t p time
  | ReceiveInteractionWithTime c v t p time _ _ => on_receive_with_time c v t p time
  | RemoveObjectInstanceWithTime i t p time _ _ => on_remove_with_time i t p time
  | ObjectInstanceNameReservationFailed n => object_instance_name_reservation_failed n
  | MultipleObjectInstanceNameReservationSucceeded l => multiple_object_instance_name_reservation_succeeded l
  | MultipleObjectInstanceNameReservationFailed l => multiple_object_instance_name_reservation_failed l
  | StartRegistrationForObjectClass c => or_skip (decode_field decode_object_class c) start_registration_for_object_class
  | StopRegistrationForObjectClass c => or_skip (decode_field decode_object_class c) stop_registration_for_object_class
  | TurnInteractionsOn c => or_skip (decode_field decode_interaction_class c) turn_interactions_on
  | TurnInteractionsOff c => or_skip (decode_field decode_interaction_class c) turn_interactions_off
  | TurnUpdatesOnForObjectInstance i l => on_updates_on i l
  | TurnUpdatesOffForObjectInstance i l => on_updates_off i l
  | AttributesInScope i l => on_in_scope i l
  | AttributesOutOfScope i l => on_out_of_scope i l
  | ProvideAttributeValueUpdate i l t => on_provide_update i l t
  | RequestAttributeOwnershipAssumption i l t => on_assumption i l t
  | RequestAttributeOwnershipRelease i l t => on_release i l t
  | RequestDivestitureConfirmation i l t => on_divestiture_confirmation i l t
  | AttributeIsOwnedByRti i l => on_owned_by_rti i l
  | ConfirmAttributeOwnershipAcquisitionCancellation i l => on_acquisition_cancelled i l
  | RequestRetraction _ => request_retraction []
  | FlushQueueGrant t _ => on_flush_queue_grant t
  | InitiateFederateSaveWithTime l t => on_initiate_save_with_time l t
  | FederationSaveStatusResponse => federation_save_status_response
  | FederationRestoreStatusResponse => federation_restore_status_response
  | ConnectionLost d => connection_lost d
  | FederateResigned d => federate_resigned d
  | ReceiveDirectedInteraction _ _ _ _ _ | ReceiveDirectedInteractionWithTime _ _ _ _ _ _ =>
      raw_callback "DirectedInteraction"
  | ReportAttributeTransportationType _ _ _ | ReportInteractionTransportationType _ _ _ =>
      raw_callback "ReportTransportationType"
  | _ => raw_callback "<unhandled>"
  end.

Definition dispatch_callback (request : option CallbackRequest) (a : A) : A :=
  match request with Some variant => callback_variant variant a | None => a end.
End dispatch.

(** Through the [Arc], every callback runs the method of the federate's own
    implementation: no method of the blanket implementation falls back to the
    trait's empty default. *)
Lemma arc_dispatch {A} `{FederateAmbassador A} request a :
  dispatch_callback (A := Arc A) request (mkArc a) = mkArc (dispatch_callback request a).
Proof.
  destruct request as [[]|]; try reflexivity; simpl;
    unfold on_discover, on_reflect, on_receive, on_remove, on_inform_ownership, on_reflect_with_time,
      on_receive_with_time, on_remove_with_time, on_acquisition, on_unavailable, on_not_owned, on_updates_on,
      on_updates_off, on_in_scope, on_out_of_scope, on_provide_update, on_assumption, on_release,
      on_divestiture_confirmation, on_owned_by_rti, on_acquisition_cancelled, on_attributes, or_skip;
    repeat case_match; reflexivity.
Qed.

(** A federate that keeps a record of its callbacks. *)
Inductive Logged :=
| L_reflect (instance : ObjectInstanceHandle) (values : gmap AttributeHandle (list byte)) (tag : list byte)
    (producer : option FederateHandle)
| L_call (method : string).
#[export] Instance recorder_data : DataCallbacks (list Logged) := {
  discover_object_instance _ _ _ _ := cons (L_call "discover_object_instance");
  reflect_attribute_values instance values tag producer := cons (L_reflect instance values tag producer);
  receive_interaction _ _ _ _ := cons (L_call "receive_interaction");
  remove_object_instance _ _ _ := cons (L_call "remove_object_instance");
  time_regulation_enabled _ := cons (L_call "time_regulation_enabled");
  time_constrained_enabled _ := cons (L_call "time_constrained_enabled");
  time_advance_grant _ := cons (L_call "time_advance_grant");
  inform_attribute_ownership _ _ _ := cons (L_call "inform_attribute_ownership")
}.
#[export] Instance recorder_federation : FederationCallbacks (list Logged) := {
  report_federation_executions _ := cons (L_call "report_federation_executions");
  report_federation_execution_members _ _ := cons (L_call "report_federation_execution_members");
  report_federation_execution_does_not_exist _ := cons (L_call "report_federation_execution_does_not_exist");
  initiate_federate_save _ := cons (L_call "initiate_federate_save");
  federation_saved := cons (L_call "federation_saved");
  federation_not_saved _ := cons (L_call "federation_not_saved");
  request_federation_restore_succeeded _ := cons (L_call "request_federation_restore_succeeded");
  request_federation_restore_failed _ := cons (L_call "request_federation_restore_failed");
  federation_restore_begun := cons (L_call "federation_restore_begun");
  initiate_federate_restore _ _ _ := cons (L_call "initiate_federate_restore");
  federation_restored := cons (L_call "federation_restored");
  federation_not_restored _ := cons (L_call "federation_not_restored");
  attribute_is_not_owned _ _ := cons (L_call "attribute_is_not_owned");
  attribute_ownership_acquisition_notification _ _ _ := cons (L_call "attribute_ownership_acquisition_notification");
  attribute_ownership_unavailable _ _ _ := cons (L_call "attribute_ownership_unavailable");
  synchronization_point_registration_succeeded _ := cons (L_call "synchronization_point_registration_succeeded");
  synchronization_point_registration_failed _ _ := cons (L_call "synchronization_point_registration_failed");
  announce_synchronization_point _ _ := cons (L_call "announce_synchronization_point");
  federation_synchronized _ _ := cons (L_call "federation_synchronized")
}.
#[export] Instance recorder_timestamped : TimestampedCallbacks (list Logged) := {
  reflect_attribute_values_with_time _ _ _ _ _ := cons (L_call "reflect_attribute_values_with_time");
  receive_interaction_with_time _ _ _ _ _ := cons (L_call "receive_interaction_with_time");
  remove_object_instance_with_time _ _ _ _ := cons (L_call "remove_object_instance_with_time")
}.
#[export] Instance recorder_reservation : ReservationCallbacks (list Logged) := {
  object_instance_name_reservation_failed _ := cons (L_call "object_instance_name_reservation_failed");
  multiple_object_instance_name_reservation_succeeded _ := cons (L_call "multiple_object_instance_name_reservation_succeeded");
  multiple_object_instance_name_reservation_failed _ := cons (L_call "multiple_object_instance_name_reservation_failed")
}.
#[export] Instance recorder_advisory : AdvisoryCallbacks (list Logged) := {
  start_registration_for_object_class _ := cons (L_call "start_registration_for_object_class");
  stop_registration_for_object_class _ := cons (L_call "stop_registration_for_object_class");
  turn_interactions_on _ := cons (L_call "turn_interactions_on");
  turn_interactions_off _ := cons (L_call "turn_interactions_off");
  turn_updates_on_for_object_instance _ _ := cons (L_call "turn_updates_on_for_object_instance");
  turn_updates_off_for_object_instance _ _ := cons (L_call "turn_updates_off_for_object_instance");
  attributes_in_scope _ _ := cons (L_call "attributes_in_scope");
  attributes_out_of_scope _ _ := cons (L_call "attributes_out_of_scope");
  provide_attribute_value_update _ _ _ := cons (L_call "provide_attribute_value_update")
}.
#[export] Instance recorder_ownership : OwnershipCallbacks (list Logged) := {
  request_attribute_ownership_assumption _ _ _ := cons (L_call "request_attribute_ownership_assumption");
  request_attribute_ownership_release _ _ _ := cons (L_call "request_attribute_ownership_release");
  request_divestiture_confirmation _ _ _ := cons (L_call "request_divestiture_confirmation");
  attribute_is_owned_by_rti _ _ := cons (L_call "attribute_is_owned_by_rti");
  confirm_attribute_ownership_acquisition_cancellation _ _ := cons (L_call "confirm_attribute_ownership_acquisition_cancellation")
}.
#[export] Instance recorder_retraction : RetractionCallbacks (list Logged) := {
  request_retraction _ := cons (L_call "request_retraction");
  flush_queue_grant _ _ := cons (L_call "flush_queue_grant")
}.
#[export] Instance recorder_status : StatusCallbacks (list Logged) := {
  initiate_federate_save_with_time _ _ := cons (L_call "initiate_federate_save_with_time");
  federation_save_status_response := cons (L_call "federation_save_status_response");
  federation_restore_status_response := cons (L_call "federation_restore_status_response");
  connection_lost _ := cons (L_call "connection_lost");
  federate_resigned _ := cons (L_call "federate_resigned")
}.
#[export] Instance recorder_transportation : TransportationCallbacks (list Logged) := {
  report_attribute_transportation_type _ _ _ := cons (L_call "report_attribute_transportation_type");
  report_interaction_transportation_type _ _ _ := cons (L_call "report_interaction_transportation_type");
  raw_callback _ := cons (L_call "raw_callback")
}.
#[export] Instance recorder : FederateAmbassador (list Logged) := {}.
