(* ===== verification/Ambassador.v ===== *)
(** * hla-federate: the RTI ambassador

    [hla-federate/src/ambassador.rs].  The connection of a federate is a
    transition system: the calls the federate makes, each an [async] function
    that waits for room in the channel of the writer task and then for its
    response, the writer task, and the pump task that reads frames.  A step
    is what a task does between two points at which it waits.

    A typed method of [RtiAmbassador] is a [Service]: the request it builds
    and what it makes of the response; [finish] is what it returns from what
    [call] returns. *)

From Stdlib Require Import String.
From S2P Require Import Prelude Float64 CoreTypes Framing Codec Transport WireSession Exception Proto.
From S2P Require Import FederationMgmt Dispatch FedHandles Callbacks.

Open Scope list_scope.

Inductive ConnectError :=
| InvalidUrl (url : string)
| Connect (io : string)
| Session_ (e : SessionError).

Inductive CallError :=
| RtiException (name : string) (details : Details)
| UnexpectedResponse
| Decode (e : string)
| Closed
| Codec_ (e : CodecError).

(** [CallRequest::encode_to_vec], and [CallResponse::decode] and
    [CallbackRequest::decode] with the text of their errors. *)
Class ProstClient := {
  encode_request : Req → list byte;
  decode_response : list byte → result string (option Resp);
  decode_callback : list byte → result string (option CallbackRequest)
}.

(** ** The state of a connection *)

(** A [oneshot] channel as its receiver sees it. *)
Inductive Oneshot := Os_empty | Os_sent (body : list byte) | Os_dropped.

(** What the task does when the writer's channel has taken its frame. *)
Inductive CallAfter := After_call | After_disconnect.
Inductive CallPhase :=
| C_sending (frame : Frame) (after : CallAfter)
| C_awaiting
| C_returned (r : result CallError Resp)
| C_disconnected
| C_cancelled.

Record Call := mkCall { c_seq : Z; c_phase : CallPhase; c_rx : Oneshot }.
Definition set_c_phase (p : CallPhase) (c : Call) : Call := mkCall (c_seq c) p (c_rx c).
Definition set_c_rx (o : Oneshot) (c : Call) : Call := mkCall (c_seq c) (c_phase c) o.

Inductive Pump := P_running | P_sending (frame : Frame) | P_returned | P_aborted.

(** [PendingMap]: the sender of a [oneshot] is the call that holds the
    receiver. *)
Notation PendingMap := (gmap Z positive).

(** [Inner], with the two tasks it spawned, the frames the writer has put on
    the transport, the calls made so far and the federate's callbacks. *)
Record Ambassador (A : Type) := mkAmbassador {
  am_session_id : Z;
  am_frame_tx : list Frame;
  am_next_outbound_seq : Z;
  am_pending : PendingMap;
  am_pump : Pump;
  am_writer : bool;
  am_sent : list Frame;
  am_calls : gmap positive Call;
  am_callbacks : Arc A
}.
Arguments mkAmbassador {A}. Arguments am_session_id {A}. Arguments am_frame_tx {A}.
Arguments am_next_outbound_seq {A}. Arguments am_pending {A}. Arguments am_pump {A}.
Arguments am_writer {A}. Arguments am_sent {A}. Arguments am_calls {A}. Arguments am_callbacks {A}.

Section setters.
Context {A : Type}.
Implicit Type s : Ambassador A.
Definition set_am_frame_tx (q : list Frame) s := mkAmbassador (am_session_id s) q (am_next_outbound_seq s)
  (am_pending s) (am_pump s) (am_writer s) (am_sent s) (am_calls s) (am_callbacks s).
Definition set_am_next (n : Z) s := mkAmbassador (am_session_id s) (am_frame_tx s) n
  (am_pending s) (am_pump s) (am_writer s) (am_sent s) (am_calls s) (am_callbacks s).
Definition set_am_pending (p : PendingMap) s := mkAmbassador (am_session_id s) (am_frame_tx s)
  (am_next_outbound_seq s) p (am_pump s) (am_writer s) (am_sent s) (am_calls s) (am_callbacks s).
Definition set_am_pump (p : Pump) s := mkAmbassador (am_session_id s) (am_frame_tx s)
  (am_next_outbound_seq s) (am_pending s) p (am_writer s) (am_sent s) (am_calls s) (am_callbacks s).
Definition set_am_writer (w : bool) s := mkAmbassador (am_session_id s) (am_frame_tx s)
  (am_next_outbound_seq s) (am_pending s) (am_pump s) w (am_sent s) (am_calls s) (am_callbacks s).
Definition set_am_sent (l : list Frame) s := mkAmbassador (am_session_id s) (am_frame_tx s)
  (am_next_outbound_seq s) (am_pending s) (am_pump s) (am_writer s) l (am_calls s) (am_callbacks s).
Definition set_am_calls (g : gmap positive Call → gmap positive Call) s := mkAmbassador (am_session_id s)
  (am_frame_tx s) (am_next_outbound_seq s) (am_pending s) (am_pump s) (am_writer s) (am_sent s)
  (g (am_calls s)) (am_callbacks s).
Definition set_am_callbacks (g : Arc A → Arc A) s := mkAmbassador (am_session_id s) (am_frame_tx s)
  (am_next_outbound_seq s) (am_pending s) (am_pump s) (am_writer s) (am_sent s) (am_calls s)
  (g (am_callbacks s)).
End setters.

(** ** Connecting *)

Fixpoint strip_prefix (p s : string) : option string :=
  match p, s with
  | EmptyString, _ => Some s
  | String a p, String b s => if Ascii.eqb a b then strip_prefix p s else None
  | String _ _, EmptyString => None
  end.
Definition starts_with (p s : string) : bool := match strip_prefix p s with Some _ => true | None => false end.

Definition parse_rti_url (url : string) : result ConnectError string :=
  match strip_prefix "rti://" url with
  | Some rest => Ok rest
  | None => Ok url
  end.

Definition ws_url (rti_url : string) : string :=
  if starts_with "ws://" rti_url || starts_with "wss://" rti_url then rti_url
  else match strip_prefix "rti://" rti_url with
       | Some rest => ("ws://" ++ rest)%string
       | None => ("ws://" ++ rti_url)%string
       end.

Definition FRAME_CAPACITY : nat := 128.

Section connect.
Context {A : Type}.

Definition spin_up_with_transport (session_id : Z) (callbacks : A) : Ambassador A :=
  mkAmbassador session_id [] 1 ∅ P_running true [] ∅ (mkArc callbacks).

Definition connect_with_stream (stream : Stream) (callbacks : A) : result ConnectError (Stream * Ambassador A) :=
  match client_open_session stream with
  | (stream, inr ack) => Ok (stream, spin_up_with_transport (ack_session_id ack) callbacks)
  | (_, inl e) => Err (Session_ e)
  end.

(** [TcpStream::connect], the TLS connector and the WebSocket client are
    arguments. *)
Definition connect (tcp : string → result string Stream) (rti_url : string) (callbacks : A)
    : result ConnectError (Stream * Ambassador A) :=
  addr ← parse_rti_url rti_url;
  stream ← map_err Connect (tcp addr);
  connect_with_stream stream callbacks.

Definition connect_tls (tcp : string → result string Stream) (tls : Stream → result string Stream)
    (rti_url : string) (callbacks : A) : result ConnectError (Stream * Ambassador A) :=
  addr ← parse_rti_url rti_url;
  stream ← map_err Connect (tcp addr);
  stream ← map_err Connect (tls stream);
  connect_with_stream stream callbacks.

Definition connect_ws {R W} `{FrameSource R} `{FrameSink W} (dial : string → result string (R * W))
    (rti_url : string) (callbacks : A) : result ConnectError ((R * W) * Ambassador A) :=
  ws ← map_err (λ e, Connect ("ws: " ++ e)%string) (dial (ws_url rti_url));
  match client_open_session_frames ws with
  | (ws, inr ack) => Ok (ws, spin_up_with_transport (ack_session_id ack) callbacks)
  | (_, inl e) => Err (Session_ e)
  end.

(** ** The pending map *)

(** [tx.send(body)]: the receiver takes one value. *)
Definition tx_send (id : positive) (body : list byte) : gmap positive Call → gmap positive Call :=
  alter (λ c, match c_rx c with Os_empty => set_c_rx (Os_sent body) c | _ => c end) id.
(** The drop of a sender. *)
Definition tx_drop (id : positive) : gmap positive Call → gmap positive Call :=
  alter (λ c, match c_rx c with Os_empty => set_c_rx Os_dropped c | _ => c end) id.

(** The insertion drops the sender it replaces. *)
Definition pending_insert (seq : Z) (id : positive) (s : Ambassador A) : Ambassador A :=
  let s' := set_am_pending (<[seq := id]> (am_pending s)) s in
  match am_pending s !! seq with Some old => set_am_calls (tx_drop old) s' | None => s' end.
Definition pending_remove (seq : Z) (s : Ambassador A) : Ambassador A * option positive :=
  (set_am_pending (delete seq (am_pending s)) s, am_pending s !! seq).
(** [for tx in pending.drain() { tx.send(Vec::new()) }] *)
Definition pending_drain (s : Ambassador A) : Ambassador A :=
  set_am_calls (λ calls, foldr (λ id, tx_send id []) calls (map_to_list (am_pending s)).*2)
    (set_am_pending ∅ s).

(** ** Calls *)

(** [frame_tx.send(frame).await]: [None] while the channel is full, [false]
    when the writer is gone. *)
Definition frame_send (frame : Frame) (s : Ambassador A) : option (Ambassador A * bool) :=
  if negb (am_writer s) then Some (s, false)
  else if (length (am_frame_tx s) <? FRAME_CAPACITY)%nat
  then Some (set_am_frame_tx (am_frame_tx s ++ [frame]) s, true)
  else None.

Definition call_goto (id : positive) (p : CallPhase) : Ambassador A → Ambassador A :=
  set_am_calls (alter (set_c_phase p) id).

Context {PC : ProstClient}.

(** [call], up to the wait for room: the number is claimed and the waiter
    registered in one step. *)
Definition call_start (id : positive) (request : Req) (s : Ambassador A) : Ambassador A :=
  let body := encode_request request in
  let '(seq, next) := claim_next_outbound_seq (am_next_outbound_seq s) in
  let s := pending_insert seq id (set_am_next next s) in
  let frame := hla_call_request_frame seq (am_session_id s) 0 body in
  set_am_calls (insert id (mkCall seq (C_sending frame After_call) Os_empty)) s.

(** [call], from the response on. *)
Definition call_result (body : list byte) : result CallError Resp :=
  match body with
  | [] => Err Closed
  | _ =>
      envelope ← map_err Decode (decode_response body);
      match envelope with Some r => Ok r | None => Err UnexpectedResponse end
  end.

(** [disconnect], up to the wait for room, and from there on. *)
Definition disconnect_start (id : positive) (s : Ambassador A) : Ambassador A :=
  let '(seq, next) := claim_next_outbound_seq (am_next_outbound_seq s) in
  let header := with_payload_size 0 seq (am_session_id s) NO_SEQUENCE_NUMBER CtrlTerminateSession in
  set_am_calls (insert id (mkCall seq (C_sending (Frame_new header []) After_disconnect) Os_empty))
    (set_am_next next s).
Definition disconnect_finish (id : positive) (s : Ambassador A) : Ambassador A :=
  let s := pending_drain s in
  let s := match am_pump s with P_returned | P_aborted => s | _ => set_am_pump P_aborted s end in
  call_goto id C_disconnected s.

Definition call_step (id : positive) (c : Call) (s : Ambassador A) : option (Ambassador A) :=
  match c_phase c with
  | C_sending frame after =>
      '(s, ok) ← frame_send frame s;
      Some (match after with
            | After_call => call_goto id (if ok : bool then C_awaiting else C_returned (Err Closed)) s
            | After_disconnect => disconnect_finish id s
            end)
  | C_awaiting =>
      match c_rx c with
      | Os_empty => None
      | Os_sent body => Some (call_goto id (C_returned (call_result body)) s)
      | Os_dropped => Some (call_goto id (C_returned (Err Closed)) s)
      end
  | _ => None
  end.

(** ** The pump *)

Context `{FederateAmbassador A}.

Definition pump_frame (frame : Frame) (s : Ambassador A) : Ambassador A :=
  match message_type (header frame) with
  | HlaCallResponse =>
      match HlaCallResponsePayload_decode (payload frame) with
      | Err _ => s
      | Ok p =>
          let '(s, tx) := pending_remove (response_to_sequence_number p) s in
          match tx with Some id => set_am_calls (tx_send id (body p)) s | None => s end
      end
  | HlaCallbackRequest =>
      match decode_callback (payload frame) with
      | Err _ => s
      | Ok cb => set_am_callbacks (dispatch_callback cb) s
      end
  | CtrlHeartbeat =>
      let header := with_payload_size 0 NO_SEQUENCE_NUMBER (am_session_id s)
        (sequence_number (header frame)) CtrlHeartbeatResponse in
      set_am_pump (P_sending (Frame_new header [])) s
  | _ => s
  end.

Definition pump_loop (r : result CodecError Frame) (s : Ambassador A) : Ambassador A :=
  match r with
  | Ok frame => pump_frame frame s
  | Err _ => set_am_pump P_returned (pending_drain s)
  end.

(** ** Steps *)

Inductive AmbassadorEvent :=
| A_call (id : positive) (request : Req)
| A_disconnect (id : positive)
| A_go (id : positive)
| A_cancel (id : positive)
| A_write (ok : bool)
| A_recv (r : result CodecError Frame)
| A_pump.

Definition ambassador_step (e : AmbassadorEvent) (s : Ambassador A) : option (Ambassador A) :=
  match e with
  | A_call id request => match am_calls s !! id with None => Some (call_start id request s) | Some _ => None end
  | A_disconnect id => match am_calls s !! id with None => Some (disconnect_start id s) | Some _ => None end
  | A_go id => c ← am_calls s !! id; call_step id c s
  | A_cancel id =>
      c ← am_calls s !! id;
      match c_phase c with C_sending _ _ | C_awaiting => Some (call_goto id C_cancelled s) | _ => None end
  | A_write ok =>
      match am_writer s, am_frame_tx s with
      | true, f :: q =>
          Some (if ok then set_am_sent (am_sent s ++ [f]) (set_am_frame_tx q s)
                else set_am_writer false (set_am_frame_tx [] s))
      | _, _ => None
      end
  | A_recv r => match am_pump s with P_running => Some (pump_loop r s) | _ => None end
  | A_pump =>
      match am_pump s with
      | P_sending f => '(s, _) ← frame_send f s; Some (set_am_pump P_running s)
      | _ => None
      end
  end.

Fixpoint ambassador_steps (es : list AmbassadorEvent) (s : Ambassador A) : option (Ambassador A) :=
  match es with [] => Some s | e :: es => s' ← ambassador_step e s; ambassador_steps es s' end.
End connect.

(** ** Who waits for what *)

(** A call that has not returned and whose response has not come. *)
Definition waiting (c : Call) : Prop :=
  c_rx c = Os_empty ∧ (c_phase c = C_awaiting ∨ ∃ f, c_phase c = C_sending f After_call).

(** The pump received a response to number [seq] with [body]. *)
Definition received (es : list AmbassadorEvent) (seq : Z) (b : list byte) : Prop :=
  ∃ f p, A_recv (Ok f) ∈ es ∧ message_type (header f) = HlaCallResponse ∧
    HlaCallResponsePayload_decode (payload f) = Ok p ∧ response_to_sequence_number p = seq ∧ body p = b.

Definition put (b : list byte) (c : Call) : Call :=
  match c_rx c with Os_empty => set_c_rx (Os_sent b) c | _ => c end.

Lemma received_app es e seq b : received es seq b → received (es ++ e) seq b.
Proof. intros (f & p & Hin & ?). exists f, p. split; [|done]. apply elem_of_app. by left. Qed.

Lemma lookup_drained ids (calls : gmap positive Call) id :
  foldr (λ id, tx_send id []) calls ids !! id = (if decide (id ∈ ids) then put [] else λ c, c) <$> calls !! id.
Proof.
  induction ids as [|i ids IH]; simpl; [by destruct (calls !! id)|]. unfold tx_send at 1.
  destruct (decide (id = i)) as [->|Hi].
  - rewrite lookup_alter_eq, IH, (decide_True (P := i ∈ i :: ids)) by left.
    destruct (calls !! i) as [c|]; [|done]. simpl. f_equal.
    case_decide; [|done]. unfold put. by destruct (c_rx c) eqn:E; simpl; rewrite ?E.
  - rewrite lookup_alter_ne, IH by done. f_equal.
    by rewrite (decide_ext (id ∈ i :: ids) (id ∈ ids)) by (rewrite elem_of_cons; tauto).
Qed.

Section properties.
Context {A : Type} {PC : ProstClient} `{FederateAmbassador A}.
Implicit Type s : Ambassador A.

(** The invariant of a connection after the events [es]. *)
Record client_inv (sid : Z) (es : list AmbassadorEvent) s : Prop := {
  ci_sid : am_session_id s = sid;
  (* the pending map holds the senders of open channels ... *)
  ci_pending seq id : am_pending s !! seq = Some id →
    ∃ c, am_calls s !! id = Some c ∧ c_seq c = seq ∧ c_rx c = Os_empty;
  (* ... of every call that waits, *)
  ci_waiting id c : am_calls s !! id = Some c → waiting c → am_pending s !! c_seq c = Some id;
  (* what is in a channel came from the RTI, or says that the connection is closed, *)
  ci_channel id c b : am_calls s !! id = Some c → c_rx c = Os_sent b → b = [] ∨ received es (c_seq c) b;
  (* what a call returned too, *)
  ci_returned id c r : am_calls s !! id = Some c → c_phase c = C_returned (Ok r) →
    ∃ b, received es (c_seq c) b ∧ call_result b = Ok r;
  (* and a call sends its own request under its own number. *)
  ci_request id c f : am_calls s !! id = Some c → c_phase c = C_sending f After_call →
    ∃ request, A_call id request ∈ es ∧ f = hla_call_request_frame (c_seq c) sid 0 (encode_request request)
}.

(** A step that touches neither the map nor the calls. *)
Lemma inv_frame sid es e s s' :
  client_inv sid es s → am_session_id s' = am_session_id s → am_pending s' = am_pending s →
  am_calls s' = am_calls s → client_inv sid (es ++ [e]) s'.
Proof.
  intros [H1 H2 H3 H4 H5 H6] Hs Hp Hc. split; rewrite ?Hs, ?Hp, ?Hc; try done.
  - intros id c b Hid Hb. destruct (H4 id c b Hid Hb); [by left|right]. by apply received_app.
  - intros id c r Hid Hr. destruct (H5 id c r Hid Hr) as (b & Hb & Hres). exists b. split; [by apply received_app|done].
  - intros id c f Hid Hf. destruct (H6 id c f Hid Hf) as (rq & Hin & Hfr). exists rq. split; [|done].
    apply elem_of_app. by left.
Qed.

(** A call that goes on, without starting to wait. *)
Lemma inv_goto sid es id c p s :
  client_inv sid es s → am_calls s !! id = Some c →
  (waiting (set_c_phase p c) → waiting c) →
  (∀ r, p = C_returned (Ok r) → ∃ b, c_rx c = Os_sent b ∧ call_result b = Ok r) →
  (∀ f, p ≠ C_sending f After_call) → client_inv sid es (call_goto id p s).
Proof.
  intros [H1 H2 H3 H4 H5 H6] Hid Hw Hr Hf.
  assert (Hl : ∀ id' c', am_calls (call_goto id p s) !! id' = Some c' →
    (id' = id ∧ c' = set_c_phase p c) ∨ (id' ≠ id ∧ am_calls s !! id' = Some c')).
  { intros id' c'. simpl. rewrite lookup_alter_Some. intros [(<- & y & Hy & ->)|[? ?]]; [left|by right].
    split; [done|]. congruence. }
  split; [done| | | | |].
  - intros seq id' Hp. destruct (H2 seq id' Hp) as (c' & Hc' & ? & ?). simpl.
    destruct (decide (id' = id)) as [->|]; [|rewrite lookup_alter_ne by done; eauto].
    rewrite lookup_alter_eq, Hid. simplify_eq. eexists. split; [done|]. done.
  - intros id' c' [[-> ->]|[_ Hc']]%Hl; [|exact (H3 id' c' Hc')]. intros Hwait. by apply (H3 id c Hid), Hw.
  - intros id' c' b [[-> ->]|[_ Hc']]%Hl; [exact (H4 id c b Hid)|exact (H4 id' c' b Hc')].
  - intros id' c' r [[-> ->]|[_ Hc']]%Hl; [|exact (H5 id' c' r Hc')]. simpl. intros ->.
    destruct (Hr r eq_refl) as (b & Hb & Hres). destruct (H4 id c b Hid Hb) as [->|Hrec]; [done|by exists b].
  - intros id' c' f [[-> ->]|[_ Hc']]%Hl; [|exact (H6 id' c' f Hc')]. simpl. intros ->. by destruct (Hf f).
Qed.

(** Channels that take a value, and leave the pending map. *)
Lemma inv_put sid es s calls' pending' (ids : positive → Prop) (b : positive → list byte) :
  client_inv sid es s →
  (∀ id, ∃ D : {ids id} + {¬ ids id}, calls' !! id = (if D then put (b id) else λ c, c) <$> am_calls s !! id) →
  (∀ seq id, am_pending s !! seq = Some id → (ids id ∧ pending' !! seq = None) ∨ (¬ ids id ∧ pending' !! seq = Some id)) →
  (∀ seq, am_pending s !! seq = None → pending' !! seq = None) →
  (∀ id c, ids id → am_calls s !! id = Some c → b id = [] ∨ received es (c_seq c) (b id)) →
  client_inv sid es (set_am_calls (λ _, calls') (set_am_pending pending' s)).
Proof.
  intros [H1 H2 H3 H4 H5 H6] Hc Hp Hn Hb.
  assert (Hl : ∀ id c', calls' !! id = Some c' → ∃ c, am_calls s !! id = Some c ∧
     ((ids id ∧ c' = put (b id) c) ∨ (¬ ids id ∧ c' = c))).
  { intros id c' Hid. destruct (Hc id) as [D HD]. rewrite HD in Hid. destruct (am_calls s !! id) as [c|]; [|done].
    exists c. split; [done|]. destruct D; simplify_eq/=; [by left|by right]. }
  assert (Hput : ∀ x c, c_seq (put x c) = c_seq c ∧ c_phase (put x c) = c_phase c ∧ c_rx (put x c) ≠ Os_empty).
  { intros x [q ph [| |]]; done. }
  split; [done| | | | |]; simpl.
  - intros seq id Hseq. destruct (am_pending s !! seq) as [id0|] eqn:E; [|rewrite Hn in Hseq; done].
    destruct (Hp seq id0 E) as [[_ Hx]|[Hni Hx]]; rewrite Hx in Hseq; [done|]. injection Hseq as ->.
    destruct (H2 seq id E) as (c & Hid & ? & ?). exists c. destruct (Hc id) as [D ->]. rewrite Hid. by destruct D.
  - intros id c' (c & Hid & [[Hi ->]|[Hi ->]])%Hl [Hrx Hph]; [by destruct (Hput (b id) c) as (_ & _ & ?)|].
    pose proof (H3 id c Hid (conj Hrx Hph)) as E. destruct (Hp _ _ E) as [[? _]|[_ ?]]; done.
  - intros id c' x (c & Hid & [[Hi ->]|[Hi ->]])%Hl Hx; [|by apply (H4 id)].
    destruct (Hput (b id) c) as (-> & _). unfold put in Hx. destruct (c_rx c) eqn:E.
    + simpl in Hx. simplify_eq. by apply Hb.
    + apply (H4 id); congruence.
    + congruence.
  - intros id c' r (c & Hid & [[Hi ->]|[Hi ->]])%Hl Hr; [|by apply (H5 id)].
    destruct (Hput (b id) c) as (-> & Hph & _). rewrite Hph in Hr. by apply (H5 id).
  - intros id c' f (c & Hid & [[Hi ->]|[Hi ->]])%Hl Hf; [|by apply (H6 id)].
    destruct (Hput (b id) c) as (-> & Hph & _). rewrite Hph in Hf. by apply (H6 id).
Qed.

Lemma inv_drain sid es s : client_inv sid es s → client_inv sid es (pending_drain s).
Proof.
  intros Hi. apply (inv_put sid es s _ _ (λ id, id ∈ (map_to_list (am_pending s)).*2) (λ _, [])).
  - done.
  - intros id. exists (decide _). apply lookup_drained.
  - intros seq id Hp. left. split; [|apply lookup_empty]. apply list_elem_of_fmap. exists (seq, id).
    split; [done|]. by apply elem_of_map_to_list.
  - intros. apply lookup_empty.
  - intros. by left.
Qed.

(** The pump hands a response to the call it is for. *)
Lemma inv_respond sid es s p :
  client_inv sid es s → received es (response_to_sequence_number p) (body p) →
  client_inv sid es (let '(s, tx) := pending_remove (response_to_sequence_number p) s in
    match tx with Some id => set_am_calls (tx_send id (body p)) s | None => s end).
Proof.
  intros Hi Hrec. set (seq := response_to_sequence_number p) in *. unfold pending_remove.
  destruct (am_pending s !! seq) as [id|] eqn:Hp.
  2:{ destruct Hi as [H1 H2 H3 H4 H5 H6]. split; simpl; rewrite ?(delete_id _ _ Hp); done. }
  apply (inv_put sid es s _ _ (λ i, i = id) (λ _, body p)).
  - done.
  - intros i. exists (decide _). unfold tx_send. simpl. case_decide; subst.
    + by rewrite lookup_alter_eq.
    + rewrite lookup_alter_ne by done. by destruct (am_calls s !! i).
  - intros seq' id' Hp'. destruct (decide (seq' = seq)) as [->|]; simpl.
    + left. rewrite lookup_delete_eq. by simplify_eq.
    + right. rewrite lookup_delete_ne by done. split; [|done]. intros ->.
      destruct (ci_pending _ _ _ Hi _ _ Hp) as (c & Hc & ? & _).
      destruct (ci_pending _ _ _ Hi _ _ Hp') as (c' & Hc' & ? & _). congruence.
  - intros seq' Hn. apply lookup_delete_None. by right.
  - intros i c -> Hc. right. destruct (ci_pending _ _ _ Hi _ _ Hp) as (c' & Hc' & Hs & _).
    assert (c = c') as -> by congruence. by rewrite Hs.
Qed.

(** A new call; it takes the number over from the call that still holds it,
    if the numbers have come round. *)
Lemma inv_call sid es s id request :
  client_inv sid es s → am_calls s !! id = None →
  client_inv sid (es ++ [A_call id request]) (call_start id request s).
Proof.
  intros Hi Hid. unfold call_start.
  destruct (claim_next_outbound_seq (am_next_outbound_seq s)) as [seq next].
  set (s1 := pending_insert seq id (set_am_next next s)). set (es' := es ++ _).
  assert (Hi' : client_inv sid es' s) by (by eapply inv_frame).
  destruct Hi' as [H1 H2 H3 H4 H5 H6].
  assert (Hs1 : am_session_id s1 = sid) by (unfold s1, pending_insert; simpl; by destruct (am_pending s !! seq)).
  assert (Hp1 : am_pending s1 = <[seq := id]> (am_pending s)).
  { unfold s1, pending_insert. simpl. by destruct (am_pending s !! seq). }
  assert (Hl : ∀ i c', am_calls s1 !! i = Some c' → ∃ c, am_calls s !! i = Some c ∧
    ((c' = c ∧ am_pending s !! seq ≠ Some i) ∨
     (c' = set_c_rx Os_dropped c ∧ c_seq c = seq ∧ c_rx c = Os_empty ∧ am_pending s !! seq = Some i))).
  { intros i c'. unfold s1, pending_insert. simpl. destruct (am_pending s !! seq) as [old|] eqn:E.
    - unfold tx_drop. simpl. rewrite lookup_alter_Some. destruct (H2 seq old E) as (c0 & Hc0 & ? & Hrx).
      intros [(<- & c & Hc & ->)|[Hne Hc]]; exists c || exists c'; (split; [done|]).
      + right. assert (c0 = c) as -> by congruence. by rewrite Hrx.
      + left. split; [done|]. congruence.
    - simpl. intros Hc. exists c'. split; [done|]. by left. }
  assert (Hnew : ∀ i c', am_calls s1 !! i = Some c' → i ≠ id).
  { intros i c' (c & Hc & _)%Hl ->. congruence. }
  split; simpl; [done| | | | |].
  - intros seq' i. rewrite Hp1. destruct (decide (seq' = seq)) as [->|Hne].
    + rewrite lookup_insert_eq. intros [= ->]. rewrite lookup_insert_eq. by eexists.
    + rewrite lookup_insert_ne by done. intros Hp. destruct (H2 seq' i Hp) as (c & Hc & Hs & Hrx).
      rewrite lookup_insert_ne by congruence. exists c. split; [|done].
      destruct (am_calls s1 !! i) as [c'|] eqn:E.
      * destruct (Hl i c' E) as (c0 & Hc0 & [[-> _]|(-> & ? & _)]); congruence.
      * exfalso. unfold s1, pending_insert in E. simpl in E. destruct (am_pending s !! seq); simpl in E; [|congruence].
        unfold tx_drop in E. apply lookup_alter_None in E. congruence.
  - intros i c'. rewrite lookup_insert_Some. intros [[<- <-]|[Hne Hc']] Hw.
    + rewrite Hp1. simpl. by rewrite lookup_insert_eq.
    + destruct (Hl i c' Hc') as (c & Hc & [[-> Hn]|(-> & _)]); [|by destruct Hw].
      pose proof (H3 i c Hc Hw) as Hp. rewrite Hp1, lookup_insert_ne; [done|]. congruence.
  - intros i c' b. rewrite lookup_insert_Some. intros [[<- <-]|[Hne Hc']]; [done|].
    destruct (Hl i c' Hc') as (c & Hc & [[-> Hn]|(-> & _)]); [|done]. by apply (H4 i c b).
  - intros i c' r. rewrite lookup_insert_Some. intros [[<- <-]|[Hne Hc']]; [done|].
    destruct (Hl i c' Hc') as (c & Hc & [[-> Hn]|(-> & _)]); by apply (H5 i c r).
  - intros i c' f. rewrite lookup_insert_Some. intros [[<- <-]|[Hne Hc']].
    + simpl. intros [= <-]. exists request. rewrite Hs1. split; [|done]. apply elem_of_app. right. by left.
    + destruct (Hl i c' Hc') as (c & Hc & [[-> Hn]|(-> & _)]); by apply (H6 i c f).
Qed.

Lemma inv_disconnect sid es s id :
  client_inv sid es s → am_calls s !! id = None →
  client_inv sid (es ++ [A_disconnect id]) (disconnect_start id s).
Proof.
  intros Hi Hid. apply (inv_frame _ _ (A_disconnect id) _ s) in Hi; [|done..].
  destruct Hi as [H1 H2 H3 H4 H5 H6]. unfold disconnect_start.
  destruct (claim_next_outbound_seq (am_next_outbound_seq s)) as [seq next]. split; simpl; [done| | | | |].
  - intros seq' i Hp. destruct (H2 seq' i Hp) as (c & Hc & ?). exists c.
    by rewrite lookup_insert_ne by congruence.
  - intros i c. rewrite lookup_insert_Some. intros [[<- <-]|[_ Hc]]; [|by apply H3].
    by intros [_ [?|[? ?]]].
  - intros i c b. rewrite lookup_insert_Some. intros [[<- <-]|[_ Hc]]; [done|by apply (H4 i)].
  - intros i c r. rewrite lookup_insert_Some. intros [[<- <-]|[_ Hc]]; [done|by apply (H5 i)].
  - intros i c f. rewrite lookup_insert_Some. intros [[<- <-]|[_ Hc]]; [done|by apply (H6 i)].
Qed.

Lemma frame_send_inv f s s' ok :
  frame_send f s = Some (s', ok) → s' = set_am_frame_tx (am_frame_tx s') s.
Proof. unfold frame_send. intros. repeat case_match; simplify_eq/=; by destruct s'||by destruct s. Qed.

Lemma frame_send_room f s :
  am_writer s = true → (length (am_frame_tx s) < FRAME_CAPACITY)%nat →
  frame_send f s = Some (set_am_frame_tx (am_frame_tx s ++ [f]) s, true).
Proof. intros Hw Hl. unfold frame_send. by rewrite Hw, (proj2 (Nat.ltb_lt _ _) Hl). Qed.

Lemma disconnect_finish_inv sid es s id c :
  client_inv sid es s → am_calls s !! id = Some c → client_inv sid es (disconnect_finish id s).
Proof.
  intros Hi Hc. unfold disconnect_finish.
  set (s1 := match am_pump (pending_drain s) with P_returned | P_aborted => _ | _ => _ end).
  assert (Hs1 : client_inv sid es s1 ∧ am_calls s1 = am_calls (pending_drain s)).
  { apply inv_drain in Hi. unfold s1. destruct Hi as [H1 H2 H3 H4 H5 H6].
    destruct (am_pump (pending_drain s)); by split. }
  destruct Hs1 as [Hi1 Hcalls].
  assert (Hc1 : ∃ c1, am_calls s1 !! id = Some c1).
  { rewrite Hcalls. simpl. rewrite lookup_drained, Hc. by eexists. }
  destruct Hc1 as [c1 Hc1]. apply (inv_goto _ _ _ c1); [done|done| |done|done].
  by intros [_ [?|[? ?]]].
Qed.

Lemma call_step_inv sid es s s' id c :
  client_inv sid es s → am_calls s !! id = Some c → call_step id c s = Some s' → client_inv sid es s'.
Proof.
  intros Hi Hc. unfold call_step. destruct (c_phase c) as [f after| |r| |] eqn:Hph; [| |done..].
  - intros ([s1 ok] & Hf & [= <-])%bind_Some. apply frame_send_inv in Hf.
    assert (Hi1 : client_inv sid es s1) by (rewrite Hf; by destruct Hi).
    assert (Hc1 : am_calls s1 !! id = Some c) by (by rewrite Hf).
    destruct after; [|by eapply disconnect_finish_inv].
    apply (inv_goto _ _ _ c); [done|done| |by destruct ok|by destruct ok].
    intros [Hrx _]. split; [exact Hrx|]. right. by exists f.
  - destruct (c_rx c) as [|b|] eqn:Hrx; intros [= <-]; (apply (inv_goto _ _ _ c); [done|done| | |done]).
    + by intros [? [?|[? ?]]].
    + intros r [= Hr]. by exists b.
    + by intros [? [?|[? ?]]].
    + done.
Qed.

Lemma step_inv sid es e s s' :
  client_inv sid es s → ambassador_step e s = Some s' → client_inv sid (es ++ [e]) s'.
Proof.
  intros Hi. assert (Hi' : client_inv sid (es ++ [e]) s) by (by eapply inv_frame).
  destruct e as [id rq|id|id|id|ok|r|]; simpl.
  - destruct (am_calls s !! id) eqn:Hid; [done|]. intros [= <-]. by apply inv_call.
  - destruct (am_calls s !! id) eqn:Hid; [done|]. intros [= <-]. by apply inv_disconnect.
  - intros (c & Hc & Hs)%bind_Some. by eapply call_step_inv.
  - intros (c & Hc & Hs)%bind_Some. destruct (c_phase c) eqn:Hph; simplify_eq;
      (apply (inv_goto _ _ _ c); [done|done|by intros [_ [?|[? ?]]]|done|done]).
  - destruct (am_writer s), (am_frame_tx s); try done. intros [= <-]. by destruct ok; eapply inv_frame.
  - destruct (am_pump s); try done. intros [= <-]. destruct r as [f|e]; simpl.
    + unfold pump_frame. destruct (message_type (header f)) eqn:Hty; try by eapply inv_frame.
      * destruct (HlaCallResponsePayload_decode (payload f)) as [p|] eqn:Hp; [|done].
        apply inv_respond; [done|]. exists f, p. split_and!; try done. apply elem_of_app. right. by left.
      * destruct (decode_callback (payload f)); [|done]. by eapply inv_frame.
    + by apply inv_drain in Hi' as [].
  - destruct (am_pump s); try done. intros ([s1 ok] & Hf & [= <-])%bind_Some. apply frame_send_inv in Hf.
    rewrite Hf. by eapply inv_frame.
Qed.

Lemma ambassador_steps_app es es' s s' :
  ambassador_steps (es ++ es') s = Some s' ↔
  ∃ s1, ambassador_steps es s = Some s1 ∧ ambassador_steps es' s1 = Some s'.
Proof.
  revert s. induction es as [|e es IH]; intros s; simpl; [naive_solver|].
  destruct (ambassador_step e s) as [s1|]; simpl; [apply IH|naive_solver].
Qed.

Lemma steps_inv sid a es s :
  ambassador_steps es (spin_up_with_transport sid a) = Some s → client_inv sid es s.
Proof.
  revert s. induction es as [|e es IH] using rev_ind; intros s.
  - intros [= <-]. split; simpl; try done; intros *; rewrite lookup_empty; done.
  - intros (s1 & Hs1 & (s' & Hs & [= <-])%bind_Some)%ambassador_steps_app. by eapply step_inv; [apply IH|].
Qed.

(** A waiting call is the one under its number, and takes what comes for it. *)
Lemma respond_lookup sid es s f p s' id c :
  client_inv sid es s → message_type (header f) = HlaCallResponse →
  HlaCallResponsePayload_decode (payload f) = Ok p → ambassador_step (A_recv (Ok f)) s = Some s' →
  am_calls s !! id = Some c →
  am_calls s' !! id = Some (if decide (am_pending s !! response_to_sequence_number p = Some id)
                            then put (body p) c else c).
Proof.
  intros Hi Hty Hp Hs Hc. simpl in Hs. destruct (am_pump s); try done. injection Hs as <-. simpl.
  unfold pump_frame. rewrite Hty, Hp. unfold pending_remove.
  destruct (am_pending s !! response_to_sequence_number p) as [id'|] eqn:Hpen; simpl; [|done].
  unfold tx_send. destruct (decide (id = id')) as [->|].
  - by rewrite lookup_alter_eq, Hc, decide_True.
  - rewrite lookup_alter_ne, Hc, decide_False by congruence. done.
Qed.

(** C8: responses and calls match, whatever the order of calls, frames,
    cancellations and disconnects.  A call that returns a response returns
    one that the RTI sent in answer to the number of its own request; no two
    calls wait under one number; and a response frame wakes the call that
    waits under its number, with exactly the body of the frame, and disturbs
    no other waiting call: the woken call then returns what that body
    decodes to. *)
Theorem calls_get_their_responses sid a es s :
  ambassador_steps es (spin_up_with_transport sid a) = Some s →
  (∀ id c r, am_calls s !! id = Some c → c_phase c = C_returned (Ok r) →
     ∃ b, received es (c_seq c) b ∧ call_result b = Ok r) ∧
  (∀ id id' c c', am_calls s !! id = Some c → am_calls s !! id' = Some c' → waiting c → waiting c' →
     c_seq c = c_seq c' → id = id') ∧
  (∀ f p s', message_type (header f) = HlaCallResponse → HlaCallResponsePayload_decode (payload f) = Ok p →
     ambassador_step (A_recv (Ok f)) s = Some s' →
     ∀ id c, am_calls s !! id = Some c → waiting c →
       (c_seq c ≠ response_to_sequence_number p → am_calls s' !! id = Some c) ∧
       (c_seq c = response_to_sequence_number p → c_phase c = C_awaiting →
        ∃ s'', ambassador_step (A_go id) s' = Some s'' ∧
          c_phase <$> am_calls s'' !! id = Some (C_returned (call_result (body p))))).
Proof.
  intros Hi%steps_inv. split_and!.
  - apply (ci_returned _ _ _ Hi).
  - intros id id' c c' Hc Hc' Hw Hw' E. apply (ci_waiting _ _ _ Hi id c Hc) in Hw.
    apply (ci_waiting _ _ _ Hi id' c' Hc') in Hw'. congruence.
  - intros f p s' Hty Hp Hs id c Hc Hw. pose proof (ci_waiting _ _ _ Hi _ _ Hc Hw) as Hpen.
    pose proof (respond_lookup _ _ _ _ _ _ _ _ Hi Hty Hp Hs Hc) as Hl. split; intros Hseq.
    + rewrite Hl. case_decide as Hd; [|done].
      destruct (ci_pending _ _ _ Hi _ _ Hd) as (c' & Hc' & ? & _). congruence.
    + intros Hph. rewrite decide_True in Hl by congruence. unfold put in Hl. rewrite (proj1 Hw) in Hl.
      cbn [ambassador_step]. rewrite Hl. simpl. unfold call_step. simpl. rewrite Hph. eexists. split; [done|].
      simpl. by rewrite lookup_alter_eq, Hl.
Qed.

(** C33: the end of a connection wakes the calls that wait.  When the pump
    ends on a read error, and when a disconnect completes, every call that
    was waiting for its response at that moment is woken: its next step
    returns [Closed].  (A call made after that is not covered.) *)
Theorem closing_wakes_every_call sid a es s e s' :
  ambassador_steps es (spin_up_with_transport sid a) = Some s → ambassador_step e s = Some s' →
  (∃ err, e = A_recv (Err err)) ∨
  (∃ id c f, e = A_go id ∧ am_calls s !! id = Some c ∧ c_phase c = C_sending f After_disconnect) →
  ∀ id c, am_calls s !! id = Some c → c_phase c = C_awaiting → c_rx c = Os_empty →
    ∃ s'', ambassador_step (A_go id) s' = Some s'' ∧
      c_phase <$> am_calls s'' !! id = Some (C_returned (Err Closed)).
Proof.
  intros Hi%steps_inv Hs Hcase id c Hc Hph Hrx.
  assert (Hl : am_calls s' !! id = Some (set_c_rx (Os_sent []) c)).
  { assert (Hput : am_calls (pending_drain s) !! id = Some (set_c_rx (Os_sent []) c)).
    { simpl. rewrite lookup_drained, Hc, decide_True; [simpl; unfold put; by rewrite Hrx|].
      apply list_elem_of_fmap. exists (c_seq c, id). split; [done|]. apply elem_of_map_to_list.
      apply (ci_waiting _ _ _ Hi id c Hc). split; [done|by left]. }
    destruct Hcase as [[err ->]|(id' & c' & f & -> & Hc' & Hph')]; simpl in Hs.
    - destruct (am_pump s); try done. by injection Hs as <-.
    - rewrite Hc' in Hs. simpl in Hs. unfold call_step in Hs. rewrite Hph' in Hs.
      apply bind_Some in Hs as ([s1 ok] & Hf & [= <-]). apply frame_send_inv in Hf.
      assert (Hd : am_calls (pending_drain s1) = am_calls (pending_drain s)) by (by rewrite Hf).
      unfold disconnect_finish. simpl. rewrite lookup_alter_ne by congruence.
      destruct (am_pump s1); simpl; exact (eq_trans (f_equal (lookup id) Hd) Hput). }
  cbn [ambassador_step]. rewrite Hl. simpl. unfold call_step. simpl. rewrite Hph. eexists. split; [done|].
  simpl. by rewrite lookup_alter_eq, Hl.
Qed.

(** A call made when the pump is gone is queued for the writer and registered,
    and nothing can complete it: no frame is read any more, and only another
    [disconnect] drains the map. *)
Theorem late_call_waits id request s :
  am_pump s = P_returned ∨ am_pump s = P_aborted → am_calls s !! id = None →
  am_writer s = true → (length (am_frame_tx s) < FRAME_CAPACITY)%nat →
  ∃ s' c, ambassador_steps [A_call id request; A_go id] s = Some s' ∧
    am_calls s' !! id = Some c ∧ c_phase c = C_awaiting ∧ c_rx c = Os_empty ∧
    ambassador_step (A_go id) s' = None ∧ (∀ r, ambassador_step (A_recv r) s' = None).
Proof.
  intros Hp Hid Hw Hq. cbn [ambassador_steps ambassador_step]. rewrite Hid. unfold call_start.
  destruct (claim_next_outbound_seq (am_next_outbound_seq s)) as [seq next].
  set (s1 := pending_insert seq id (set_am_next next s)).
  assert (Hs1 : am_pump s1 = am_pump s ∧ am_writer s1 = true ∧ am_frame_tx s1 = am_frame_tx s).
  { unfold s1, pending_insert. simpl. destruct (am_pending s !! seq); simpl; done. }
  destruct Hs1 as (Hp1 & Hw1 & Hq1). cbn [mbind option_bind am_calls set_am_calls]. rewrite lookup_insert_eq.
  cbn [mbind option_bind]. unfold call_step. cbn [c_phase]. rewrite frame_send_room; [|done|simpl; by rewrite Hq1].
  cbn. eexists _, _. split; [done|]. cbn. rewrite lookup_alter_eq, lookup_insert_eq. cbn.
  split; [done|]. split_and!; [done|done|done|].
  intros r. rewrite Hp1. by destruct Hp as [-> | ->].
Qed.
End properties.

(** *** Witnesses *)

(** Two requests, [ConnectRequest] and [DisconnectRequest], and their
    responses. *)
Definition demo_client : ProstClient := {|
  encode_request r := match r with ConnectRequest => [x01] | _ => [x02] end;
  decode_response l :=
    match l with
    | [x01] => Ok (Some (ConnectResponse None))
    | [x02] => Ok (Some DisconnectResponse)
    | _ => Err "?"%string
    end;
  decode_callback l := match l with [] => Ok None | _ => Ok (Some FederationSaved) end
|}.

Definition demo_answer (seq : Z) (b : list byte) : Frame :=
  let p := HlaCallResponsePayload_encode {| response_to_sequence_number := seq; body := b |} in
  Frame_new (with_payload_size (Z.of_nat (length p)) NO_SEQUENCE_NUMBER 7 seq HlaCallResponse) p.

Definition demo_steps : list AmbassadorEvent → Ambassador (list Logged) → option (Ambassador (list Logged)) :=
  ambassador_steps (PC := demo_client).
(** Two calls are sent and the answer to the second comes first. *)
Definition two_calls : list AmbassadorEvent :=
  [A_call 1 ConnectRequest; A_call 2 DisconnectRequest; A_go 1; A_go 2; A_write true; A_write true].
Definition overtaken : list AmbassadorEvent := two_calls ++ [A_recv (Ok (demo_answer 2 [x02])); A_go 2].
Definition demo_ambassador : Ambassador (list Logged) := spin_up_with_transport 7 [].
Definition overtaken_state : Ambassador (list Logged) := default demo_ambassador (demo_steps overtaken demo_ambassador).

Lemma calls_get_their_responses_witness :
  (∃ b, received overtaken 2 b ∧ call_result (PC := demo_client) b = Ok DisconnectResponse) ∧
  ∃ s' s'', ambassador_step (PC := demo_client) (A_recv (Ok (demo_answer 1 [x01]))) overtaken_state = Some s' ∧
    ambassador_step (PC := demo_client) (A_go 1) s' = Some s'' ∧
    c_phase <$> am_calls s'' !! 1%positive = Some (C_returned (Ok (ConnectResponse None))).
Proof.
  assert (Hrun : ambassador_steps (PC := demo_client) overtaken demo_ambassador = Some overtaken_state)
    by (vm_compute; reflexivity).
  destruct (calls_get_their_responses (PC := demo_client) 7 [] overtaken overtaken_state Hrun) as (Hret & _ & Hresp).
  split.
  - apply (Hret 2%positive (mkCall 2 (C_returned (Ok DisconnectResponse)) (Os_sent [x02]))); vm_compute; reflexivity.
  - assert (Hs : ambassador_step (PC := demo_client) (A_recv (Ok (demo_answer 1 [x01]))) overtaken_state =
      Some (pump_frame (PC := demo_client) (demo_answer 1 [x01]) overtaken_state)) by (vm_compute; reflexivity).
    assert (Hc : am_calls overtaken_state !! 1%positive = Some (mkCall 1 C_awaiting Os_empty)) by (vm_compute; reflexivity).
    destruct (Hresp (demo_answer 1 [x01]) {| response_to_sequence_number := 1; body := [x01] |} _
      ltac:(reflexivity) ltac:(vm_compute; reflexivity) Hs _ _ Hc) as [_ Hw]; [split; [done|by left]|].
    destruct (Hw eq_refl eq_refl) as (s'' & Hgo & Hph). eexists _, s''. split; [exact Hs|]. split; [exact Hgo|exact Hph].
Defined.

Lemma closing_wakes_witness :
  ∃ s', ambassador_step (PC := demo_client) (A_go 1)
      (pump_loop (PC := demo_client) (Err Io_UnexpectedEof) overtaken_state) = Some s' ∧
    c_phase <$> am_calls s' !! 1%positive = Some (C_returned (Err Closed)).
Proof.
  assert (Hrun : ambassador_steps (PC := demo_client) overtaken demo_ambassador = Some overtaken_state)
    by (vm_compute; reflexivity).
  apply (closing_wakes_every_call (PC := demo_client) 7 [] overtaken overtaken_state (A_recv (Err Io_UnexpectedEof))
    _ Hrun ltac:(vm_compute; reflexivity) (or_introl (ex_intro _ Io_UnexpectedEof eq_refl))
    1%positive (mkCall 1 C_awaiting Os_empty)); vm_compute; reflexivity.
Defined.
