(* ===== verification/Requests.v ===== *)
(** * The requests of a connection

    What an ambassador puts on its transport: one request per call, under a
    number of its own as long as the numbers have not come round, and none
    twice. *)

From Stdlib Require Import String.
From S2P Require Import Prelude Float64 CoreTypes Framing Codec Transport WireSession Exception Proto.
From S2P Require Import FederationMgmt Dispatch FedHandles Callbacks Ambassador.

Open Scope list_scope.

Definition is_request (f : Frame) : Prop := message_type (header f) = HlaCallRequest.
#[export] Instance is_request_dec f : Decision (is_request f).
Proof. unfold is_request. apply _. Defined.
Definition requests : list Frame → list Frame := filter is_request.
Definition numbers (fs : list Frame) : list Z := (λ f, sequence_number (header f)) <$> fs.

Lemma requests_app fs fs' : requests (fs ++ fs') = requests fs ++ requests fs'.
Proof. apply filter_app. Qed.
Lemma requests_other f : ¬ is_request f → requests [f] = [].
Proof. intros Hf. unfold requests. by rewrite filter_cons_False. Qed.
Lemma requests_one f : is_request f → requests [f] = [f].
Proof. intros Hf. unfold requests. by rewrite filter_cons_True. Qed.
Lemma requests_prefix fs fs' : fs `prefix_of` fs' → requests fs `prefix_of` requests fs'.
Proof. intros [k ->]. rewrite requests_app. by exists (requests k). Qed.
Lemma numbers_app fs fs' : numbers (fs ++ fs') = numbers fs ++ numbers fs'.
Proof. apply fmap_app. Qed.

Section requests.
Context {A : Type} {PC : ProstClient} `{FederateAmbassador A}.
Implicit Type s : Ambassador A.

(** What is on the transport, and what waits for the writer. *)
Definition outbox s : list Frame := am_sent s ++ am_frame_tx s.

Definition sending (c : Call) : Prop := ∃ f, c_phase c = C_sending f After_call.

(** Calls that go on without being sent. *)
Definition calm (calls calls' : gmap positive Call) : Prop :=
  (∀ id c', calls' !! id = Some c' → ∃ c, calls !! id = Some c ∧ c_seq c' = c_seq c ∧
     (c_phase c' = c_phase c ∨ ∀ f a, c_phase c' ≠ C_sending f a ∧ c_phase c' ≠ C_awaiting) ∧
     (c_rx c' = Os_empty → c_rx c = Os_empty)) ∧
  (∀ id, is_Some (calls !! id) → is_Some (calls' !! id)).

Lemma calm_refl calls : calm calls calls.
Proof. split; [|done]. intros id c Hc. exists c. auto. Qed.
Lemma calm_trans calls1 calls2 calls3 : calm calls1 calls2 → calm calls2 calls3 → calm calls1 calls3.
Proof.
  intros [H1 H2] [H3 H4]. split; [|auto].
  intros id c3 (c2 & (c1 & Hc1 & Hs1 & Hp1 & Hr1)%H1 & Hs2 & Hp2 & Hr2)%H3. exists c1. split_and!; [done|congruence| |auto].
  destruct Hp2 as [->|?]; auto.
Qed.
Lemma calm_alter g id calls :
  (∀ c, calls !! id = Some c → c_seq (g c) = c_seq c ∧
     (c_phase (g c) = c_phase c ∨ ∀ f a, c_phase (g c) ≠ C_sending f a ∧ c_phase (g c) ≠ C_awaiting) ∧
     (c_rx (g c) = Os_empty → c_rx c = Os_empty)) →
  calm calls (alter g id calls).
Proof.
  intros Hg. split.
  - intros i c'. rewrite lookup_alter_Some. intros [(<- & c & Hc & ->)|[_ Hc]]; [|exists c'; auto].
    destruct (Hg c Hc). by exists c.
  - intros i. rewrite lookup_alter_is_Some. done.
Qed.
Lemma calm_send id b calls : calm calls (tx_send id b calls).
Proof. apply calm_alter. intros c _. destruct (c_rx c) eqn:E; simpl; rewrite ?E; auto. Qed.
Lemma calm_drop id calls : calm calls (tx_drop id calls).
Proof. apply calm_alter. intros c _. destruct (c_rx c) eqn:E; simpl; rewrite ?E; auto. Qed.
Lemma calm_drain s : calm (am_calls s) (am_calls (pending_drain s)).
Proof.
  simpl. generalize (map_to_list (am_pending s)).*2 as ids. intros ids.
  induction ids as [|id ids IH]; simpl; [apply calm_refl|]. eapply calm_trans; [exact IH|apply calm_send].
Qed.

Lemma calm_dom calls calls' : calm calls calls' → size calls' = size calls.
Proof.
  intros [H1 H2]. rewrite <-!size_dom. f_equal. apply set_eq. intros id. rewrite !elem_of_dom. split; [|auto].
  intros [c' (c & Hc & _)%H1]. by eexists.
Qed.

(** Fewer calls than numbers, so far. *)
Definition unwrapped s : Prop := Z.of_nat (size (am_calls s)) ≤ MAX_SEQUENCE_NUMBER.

Record sent_inv (sid : Z) (es : list AmbassadorEvent) s : Prop := {
  (** the numbers are claimed in order *)
  sn_next : Z.of_nat (size (am_calls s)) < MAX_SEQUENCE_NUMBER → am_next_outbound_seq s = Z.of_nat (size (am_calls s)) + 1;
  sn_range id c : am_calls s !! id = Some c → 1 ≤ c_seq c ≤ Z.of_nat (size (am_calls s));
  sn_inj id id' c c' : am_calls s !! id = Some c → am_calls s !! id' = Some c' → c_seq c = c_seq c' → id = id';
  (** a request on its way is that of a call, *)
  sn_out f : f ∈ requests (outbox s) → ∃ id c rq, am_calls s !! id = Some c ∧ A_call id rq ∈ es ∧
    f = hla_call_request_frame (c_seq c) sid 0 (encode_request rq) ∧ ¬ sending c;
  (** sent once, *)
  sn_nodup : NoDup (numbers (requests (outbox s)));
  (** and every call that waits for its response has sent its own *)
  sn_wait id c : am_writer s = true → am_calls s !! id = Some c → c_phase c = C_awaiting →
    c_seq c ∈ numbers (requests (outbox s));
  (** nothing else is a request *)
  sn_quit id c f : am_calls s !! id = Some c → c_phase c = C_sending f After_disconnect → ¬ is_request f;
  sn_pump f : am_pump s = P_sending f → ¬ is_request f
}.

(** A step that sends no request. *)
Lemma sent_keep sid es e s s' :
  sent_inv sid es s → calm (am_calls s) (am_calls s') → am_next_outbound_seq s' = am_next_outbound_seq s →
  (am_writer s' = true → requests (outbox s') = requests (outbox s)) → requests (outbox s') `prefix_of` requests (outbox s) →
  (am_writer s' = true → am_writer s = true) → (∀ f, am_pump s' = P_sending f → ¬ is_request f) →
  sent_inv sid (es ++ [e]) s'.
Proof.
  intros [H1 H2 H3 H4 H5 H6 H7 H8] Hcalm Hn Ho [k Hk] Hw Hp. pose proof (calm_dom _ _ Hcalm) as Hsz.
  destruct Hcalm as [Hc Hd]. split; rewrite ?Hsz, ?Hn; try done.
  - intros id c' (c & Hid & -> & _)%Hc. eauto.
  - intros id id' c c' (c1 & ? & -> & _)%Hc (c2 & ? & -> & _)%Hc. eauto.
  - intros f Hf. destruct (H4 f) as (id & c & rq & Hid & Hin & -> & Hns); [rewrite Hk; set_solver|].
    destruct (Hd id) as [c' Hid']; [by eexists|]. exists id, c', rq.
    destruct (Hc _ _ Hid') as (c1 & Hid1 & Hs & Hph & _). assert (c1 = c) as -> by congruence. rewrite Hs.
    split_and!; [done|set_solver|done|]. intros [f' Hf']. destruct Hph as [E|E]; [|by destruct (E f' After_call)].
    apply Hns. exists f'. congruence.
  - rewrite Hk, numbers_app in H5. by apply NoDup_app in H5 as [? _].
  - intros id c' Hw' (c & Hid & -> & [E|E] & _)%Hc Hph; [|by destruct (E (Frame_new (header new_session_frame) []) After_call)].
    rewrite Ho by done. apply (H6 id c); [by apply Hw|done|congruence].
  - intros id c' f (c & Hid & _ & [E|E] & _)%Hc Hph; [|by destruct (E f After_disconnect)]. apply (H7 id c f); [done|congruence].
Qed.

(** A call or a disconnect claims a number. *)
Lemma claim_here n v :
  0 ≤ n < MAX_SEQUENCE_NUMBER → v = n + 1 →
  (claim_next_outbound_seq v).1 = n + 1 ∧ (n + 1 < MAX_SEQUENCE_NUMBER → (claim_next_outbound_seq v).2 = n + 2).
Proof.
  intros Hn ->. unfold claim_next_outbound_seq. rewrite claim_attempt_valid by (unfold seq_valid, INITIAL_SEQUENCE_NUMBER; lia).
  split; [done|]. unfold MAX_SEQUENCE_NUMBER, i32_MAX in *. intros. cbn [snd]. rewrite Z.mod_small; lia.
Qed.

Lemma sent_start sid es e s s1 id f a :
  sent_inv sid es s → Z.of_nat (size (am_calls s)) < MAX_SEQUENCE_NUMBER → am_calls s !! id = None →
  calm (am_calls s) (am_calls s1) → outbox s1 = outbox s → am_writer s1 = am_writer s → am_pump s1 = am_pump s →
  am_next_outbound_seq s1 = (claim_next_outbound_seq (am_next_outbound_seq s)).2 → (a = After_disconnect → ¬ is_request f) →
  sent_inv sid (es ++ [e]) (set_am_calls (insert id
    (mkCall (claim_next_outbound_seq (am_next_outbound_seq s)).1 (C_sending f a) Os_empty)) s1).
Proof.
  intros Hi Hlt Hid Hcalm Ho Hw Hp Hnx Hf. pose proof (calm_dom _ _ Hcalm) as Hsz.
  destruct (claim_here (Z.of_nat (size (am_calls s))) (am_next_outbound_seq s)) as [Hcl Hn2]; [lia|by apply (sn_next _ _ _ Hi)|].
  assert (Hnone : am_calls s1 !! id = None).
  { destruct (am_calls s1 !! id) eqn:E; [|done]. destruct (proj1 Hcalm _ _ E) as (? & ? & _). congruence. }
  assert (Hi1 : sent_inv sid (es ++ [e]) (set_am_next (am_next_outbound_seq s) s1)).
  { apply (sent_keep _ _ _ s); try done; simpl; rewrite ?Hw, ?Hp; unfold outbox in *; simpl; rewrite ?Ho; try done.
    apply (sn_pump _ _ _ Hi). }
  destruct Hi1 as [H1 H2 H3 H4 H5 H6 H7 H8]. rewrite Hcl.
  assert (Hsz' : size (<[id:=mkCall (Z.of_nat (size (am_calls s)) + 1) (C_sending f a) Os_empty]> (am_calls s1)) = S (size (am_calls s)))
    by (by rewrite map_size_insert_None, Hsz).
  split; simpl in *; rewrite ?Hsz'; try done.
  - intros Hlt'. rewrite Hnx, Hn2; lia.
  - intros i c. rewrite lookup_insert_Some. intros [[<- <-]|[_ Hc]]; simpl; [lia|]. apply H2 in Hc. lia.
  - intros i j c c'. rewrite !lookup_insert_Some. intros [[<- <-]|[_ Hc]] [[<- <-]|[_ Hc']] E; simpl in E; [done|..|by eauto].
    + apply H2 in Hc'. lia.
    + apply H2 in Hc. lia.
  - intros g Hg. destruct (H4 g Hg) as (i & c & rq & Hc & ?). exists i, c, rq. rewrite lookup_insert_ne by congruence. done.
  - intros i c Hwr. rewrite lookup_insert_Some. intros [[<- <-]|[_ Hc]]; [done|]. by apply (H6 i).
  - intros i c g. rewrite lookup_insert_Some. intros [[<- <-]|[_ Hc]]; [|by apply (H7 i)]. intros [= <- ->]. by apply Hf.
Qed.

Lemma frame_send_outbox f s s' ok :
  frame_send f s = Some (s', ok) →
  s' = set_am_frame_tx (am_frame_tx s') s ∧ (ok = false → s' = s ∧ am_writer s = false) ∧
  (ok = true → am_writer s = true ∧ outbox s' = outbox s ++ [f]).
Proof.
  intros Hf. split; [by eapply frame_send_inv|]. unfold frame_send in Hf. destruct (am_writer s) eqn:Hw; simpl in Hf.
  - destruct (_ <? _)%nat; [|done]. injection Hf as <- <-. split; [done|]. intros _. split; [done|]. unfold outbox. simpl. by rewrite app_assoc.
  - injection Hf as <- <-. done.
Qed.

Lemma frame_send_requests f s s' ok :
  frame_send f s = Some (s', ok) → ¬ is_request f → requests (outbox s') = requests (outbox s).
Proof.
  intros (_ & Hno & Hok)%frame_send_outbox Hr. destruct ok.
  - destruct Hok as [_ ->]; [done|]. by rewrite requests_app, (requests_other _ Hr), app_nil_r.
  - by destruct Hno as [-> _].
Qed.

(** The request of a call goes to the writer. *)
Lemma sent_request sid es e s id c f :
  client_inv sid es s → sent_inv sid es s → am_calls s !! id = Some c → c_phase c = C_sending f After_call →
  ∀ s1, s1 = set_am_frame_tx (am_frame_tx s1) s → outbox s1 = outbox s ++ [f] →
  sent_inv sid (es ++ [e]) (call_goto id C_awaiting s1).
Proof.
  intros Hci [H1 H2 H3 H4 H5 H6 H7 H8] Hid Hph s1 Hs1 Ho. destruct (ci_request _ _ _ Hci _ _ _ Hid Hph) as (rq & Hrq & Hf).
  assert (Hr : requests (outbox (call_goto id C_awaiting s1)) = requests (outbox s) ++ [f]).
  { change (outbox (call_goto id C_awaiting s1)) with (outbox s1). rewrite Ho, requests_app, (requests_one f); [done|by rewrite Hf]. }
  assert (Hc : am_calls s1 = am_calls s) by (by rewrite Hs1).
  assert (Hl : ∀ i c', alter (set_c_phase C_awaiting) id (am_calls s) !! i = Some c' →
    ∃ c0, am_calls s !! i = Some c0 ∧ c_seq c' = c_seq c0 ∧ ((i = id ∧ c_phase c' = C_awaiting) ∨ (i ≠ id ∧ c' = c0))).
  { intros i c'. rewrite lookup_alter_Some. intros [(<- & c0 & Hc0 & ->)|[? Hc']]; eexists; (split; [done|]); auto. }
  assert (Hsz : size (alter (set_c_phase C_awaiting) id (am_calls s)) = size (am_calls s)) by (by rewrite <-!size_dom, dom_alter_L).
  assert (Hseq : sequence_number (header f) = c_seq c) by (by rewrite Hf).
  split; rewrite ?Hr; simpl; rewrite ?Hc, ?Hsz; try done.
  - rewrite Hs1. done.
  - intros i c' (c0 & Hc0 & -> & _)%Hl. eauto.
  - intros i j c1 c2 (c1' & ? & -> & _)%Hl (c2' & ? & -> & _)%Hl. eauto.
  - intros g [Hg|Hg]%elem_of_app.
    + destruct (H4 g Hg) as (i & c0 & rq0 & Hc0 & Hin & -> & Hns). assert (i ≠ id) by (intros ->; apply Hns; exists f; congruence).
      exists i, c0, rq0. rewrite lookup_alter_ne by done. set_solver.
    + apply list_elem_of_singleton in Hg as ->. exists id, (set_c_phase C_awaiting c), rq. rewrite lookup_alter_eq, Hid.
      split_and!; [done|set_solver|done|by intros [? ?]].
  - rewrite numbers_app. apply NoDup_app. split_and!; [done| |apply NoDup_singleton].
    intros x Hx Hx'. apply list_elem_of_singleton in Hx' as ->. apply list_elem_of_fmap in Hx as (g & Hg1 & Hg2).
    destruct (H4 g Hg2) as (i & c0 & rq0 & Hc0 & Hin & -> & Hns). simpl in Hg1. rewrite Hseq in Hg1.
    apply Hns. exists f. assert (i = id) as -> by (by eapply H3). congruence.
  - intros i c' Hw (c0 & Hc0 & -> & [[-> _]|[_ ->]])%Hl Hph'; rewrite numbers_app; apply elem_of_app.
    + right. apply list_elem_of_singleton. congruence.
    + left. apply (H6 i); [|done|done]. by rewrite Hs1 in Hw.
  - intros i c' g (c0 & Hc0 & _ & [[_ E]|[_ ->]])%Hl Hph'; [congruence|by apply (H7 i c0)].
  - rewrite Hs1. done.
Qed.

Lemma calm_goto id p s :
  (∀ f a, p ≠ C_sending f a) → p ≠ C_awaiting → calm (am_calls s) (am_calls (call_goto id p s)).
Proof. intros Hf Ha. apply calm_alter. intros c _. split_and!; [done|right|done]. intros f a. split; [apply Hf|done]. Qed.

Lemma sent_call_step sid es e s s' id c :
  client_inv sid es s → sent_inv sid es s → am_calls s !! id = Some c → call_step id c s = Some s' →
  sent_inv sid (es ++ [e]) s'.
Proof.
  intros Hci Hi Hid. unfold call_step. destruct (c_phase c) as [f after| |r| |] eqn:Hph; [| |done..].
  - intros ([s1 ok] & Hf & [= <-])%bind_Some. destruct (frame_send_outbox _ _ _ _ Hf) as (Hs1 & Hno & Hok). destruct after.
    + destruct ok; [destruct Hok as [_ Ho]; [done|]; by eapply sent_request|]. destruct Hno as [-> _]; [done|].
      apply (sent_keep _ _ _ s); try done; [by apply calm_goto|apply (sn_pump _ _ _ Hi)].
    + pose proof (frame_send_requests _ _ _ _ Hf (sn_quit _ _ _ Hi _ _ _ Hid Hph)) as Hr.
      unfold disconnect_finish. set (s2 := match am_pump (pending_drain s1) with P_returned | P_aborted => _ | _ => _ end).
      assert (E : am_calls s2 = am_calls (pending_drain s1) ∧ am_next_outbound_seq s2 = am_next_outbound_seq s1 ∧
        outbox s2 = outbox s1 ∧ am_writer s2 = am_writer s1 ∧ ∀ g, am_pump s2 ≠ P_sending g).
      { unfold s2. destruct (am_pump (pending_drain s1)) eqn:E; simpl in *; split_and!; try done; congruence. }
      destruct E as (E1 & E2 & E3 & E4 & E5).
      apply (sent_keep _ _ _ s); try done.
      * eapply calm_trans; [|by apply calm_goto]. rewrite E1. eapply calm_trans; [|apply calm_drain]. rewrite Hs1. apply calm_refl.
      * change (am_next_outbound_seq s2 = am_next_outbound_seq s). rewrite E2, Hs1. done.
      * intros _. change (requests (outbox s2) = requests (outbox s)). by rewrite E3.
      * change (requests (outbox s2) `prefix_of` requests (outbox s)). by rewrite E3, Hr.
      * change (am_writer s2 = true → am_writer s = true). rewrite E4, Hs1. done.
      * intros g Hg. by destruct (E5 g).
  - destruct (c_rx c); intros [= <-]; (apply (sent_keep _ _ _ s); try done; [by apply calm_goto|apply (sn_pump _ _ _ Hi)]).
Qed.

Lemma pump_calm r s : calm (am_calls s) (am_calls (pump_loop r s)).
Proof.
  destruct r as [f|e]; simpl; [|apply calm_drain]. unfold pump_frame. destruct (message_type (header f)); try apply calm_refl.
  - destruct (HlaCallResponsePayload_decode (payload f)) as [p|]; [|apply calm_refl]. unfold pending_remove.
    destruct (am_pending s !! _); simpl; [apply calm_send|apply calm_refl].
  - destruct (decode_callback (payload f)); apply calm_refl.
Qed.
Ltac pump_rest_tac := split_and!; [done..|intros Hr ? Hg; simpl in Hg; congruence].
Lemma pump_rest r s :
  am_next_outbound_seq (pump_loop r s) = am_next_outbound_seq s ∧ outbox (pump_loop r s) = outbox s ∧
  am_writer (pump_loop r s) = am_writer s ∧ (am_pump s = P_running → ∀ f, am_pump (pump_loop r s) = P_sending f → ¬ is_request f).
Proof.
  destruct r as [f|e]; simpl; [|done]. unfold pump_frame. destruct (message_type (header f)); try pump_rest_tac.
  - simpl. split_and!; [done..|]. by intros _ g [= <-].
  - destruct (HlaCallResponsePayload_decode (payload f)) as [p|]; [|pump_rest_tac]. unfold pending_remove.
    destruct (am_pending s !! _); pump_rest_tac.
  - destruct (decode_callback (payload f)); pump_rest_tac.
Qed.

Lemma sent_step sid es e s s' :
  client_inv sid es s → sent_inv sid es s → ambassador_step e s = Some s' → unwrapped s' → sent_inv sid (es ++ [e]) s'.
Proof.
  intros Hci Hi Hstep Hun. unfold unwrapped in Hun. destruct e as [id rq|id|id|id|ok|r|]; simpl in Hstep.
  - destruct (am_calls s !! id) eqn:Hid; [done|]. injection Hstep as <-. unfold call_start in *.
    destruct (claim_next_outbound_seq (am_next_outbound_seq s)) as [seq next] eqn:Hcl.
    set (s1 := pending_insert seq id (set_am_next next s)) in *.
    assert (Hc : calm (am_calls s) (am_calls s1))
      by (unfold s1, pending_insert; simpl; destruct (am_pending s !! seq); [apply calm_drop|apply calm_refl]).
    assert (Hr : outbox s1 = outbox s ∧ am_writer s1 = am_writer s ∧ am_pump s1 = am_pump s ∧ am_next_outbound_seq s1 = next)
      by (unfold s1, pending_insert; simpl; by destruct (am_pending s !! seq)).
    destruct Hr as (? & ? & ? & ?).
    assert (Hnone : am_calls s1 !! id = None).
    { destruct (am_calls s1 !! id) eqn:E; [|done]. destruct (proj1 Hc _ _ E) as (? & ? & _). congruence. }
    replace seq with (claim_next_outbound_seq (am_next_outbound_seq s)).1 at 1 by (by rewrite Hcl).
    simpl in Hun. rewrite map_size_insert_None, (calm_dom _ _ Hc) in Hun by done.
    apply sent_start; try done; [lia|by rewrite Hcl].
  - destruct (am_calls s !! id) eqn:Hid; [done|]. injection Hstep as <-. unfold disconnect_start in *.
    destruct (claim_next_outbound_seq (am_next_outbound_seq s)) as [seq next] eqn:Hcl.
    replace seq with (claim_next_outbound_seq (am_next_outbound_seq s)).1 at 1 by (by rewrite Hcl).
    simpl in Hun. rewrite map_size_insert_None in Hun by done.
    apply sent_start; try done; [lia|apply calm_refl|by rewrite Hcl].
  - apply bind_Some in Hstep as (c & Hc & Hs). by eapply sent_call_step.
  - apply bind_Some in Hstep as (c & Hc & Hs). destruct (c_phase c) eqn:Hph; simplify_eq;
      (apply (sent_keep _ _ _ s); try done; [by apply calm_goto|apply (sn_pump _ _ _ Hi)]).
  - destruct (am_writer s) eqn:Hw; [|done]. destruct (am_frame_tx s) as [|f q] eqn:Hq; [done|]. injection Hstep as <-.
    assert (Hout : outbox s = am_sent s ++ f :: q) by (unfold outbox; by rewrite Hq).
    destruct ok; (apply (sent_keep _ _ _ s); try done; simpl; rewrite ?Hout; unfold outbox; simpl; rewrite <-?app_assoc;
      try done; [apply calm_refl|..|apply (sn_pump _ _ _ Hi)]).
    rewrite app_nil_r. apply requests_prefix. by eexists.
  - destruct (am_pump s) eqn:Hp; try done. injection Hstep as <-. destruct (pump_rest r s) as (E1 & E2 & E3 & E4).
    apply (sent_keep _ _ _ s); rewrite ?E1, ?E2, ?E3; auto using pump_calm.
  - destruct (am_pump s) as [|f| |] eqn:Hp; try done. apply bind_Some in Hstep as ([s1 ok] & Hf & [= <-]).
    pose proof (frame_send_requests _ _ _ _ Hf (sn_pump _ _ _ Hi _ Hp)) as Hr.
    assert (∃ q, s1 = set_am_frame_tx q s) as [q ->] by (by eexists; eapply frame_send_inv).
    apply (sent_keep _ _ _ s); try done; [apply calm_refl|].
    change (requests (outbox (set_am_frame_tx q s)) `prefix_of` requests (outbox s)). by rewrite Hr.
Qed.

(** How a step changes the calls. *)
Inductive calls_step (calls calls' : gmap positive Call) : Prop :=
| cs_calm : calm calls calls' → calls_step calls calls'
| cs_sent id c f : calls !! id = Some c → c_phase c = C_sending f After_call →
    calls' = alter (set_c_phase C_awaiting) id calls → calls_step calls calls'
| cs_new id c calls1 f a : calls !! id = None → calm calls calls1 → c_phase c = C_sending f a →
    calls' = <[id := c]> calls1 → calls_step calls calls'.

Lemma step_calls e s s' : ambassador_step e s = Some s' → calls_step (am_calls s) (am_calls s').
Proof.
  destruct e as [i rq|i|i|i|ok|r|]; simpl.
  - destruct (am_calls s !! i) eqn:Hi; [done|]. intros [= <-]. unfold call_start.
    destruct (claim_next_outbound_seq _) as [seq next]. eapply cs_new; [exact Hi|..|reflexivity]; [|reflexivity].
    unfold pending_insert. simpl. destruct (am_pending s !! seq); [apply calm_drop|apply calm_refl].
  - destruct (am_calls s !! i) eqn:Hi; [done|]. intros [= <-]. unfold disconnect_start.
    destruct (claim_next_outbound_seq _) as [seq next]. eapply cs_new; [exact Hi|..|reflexivity]; [apply calm_refl|reflexivity].
  - intros (c & Hc & Hs)%bind_Some. revert Hs. unfold call_step. destruct (c_phase c) as [f after| |r| |] eqn:Hph; [| |done..].
    + intros ([s1 ok] & Hf & [= <-])%bind_Some. assert (∃ q, s1 = set_am_frame_tx q s) as [q ->] by (by eexists; eapply frame_send_inv).
      destruct after; [destruct ok; [exact (cs_sent _ _ i c f Hc Hph eq_refl)|apply cs_calm; by apply (calm_goto i _ (set_am_frame_tx q s))]|]. apply cs_calm.
      unfold disconnect_finish. eapply calm_trans; [apply (calm_drain s)|].
      simpl. destruct (am_pump s); by apply (calm_goto i C_disconnected (pending_drain s)).
    + destruct (c_rx c); intros [= <-]; apply cs_calm; by apply calm_goto.
  - intros (c & Hc & Hs)%bind_Some. destruct (c_phase c); simplify_eq; apply cs_calm; by apply calm_goto.
  - destruct (am_writer s), (am_frame_tx s); try done. intros [= <-]. apply cs_calm. destruct ok; apply calm_refl.
  - destruct (am_pump s); try done. intros [= <-]. apply cs_calm, pump_calm.
  - destruct (am_pump s) as [|f| |]; try done. intros ([s1 ok] & Hf & [= <-])%bind_Some. apply frame_send_inv in Hf.
    rewrite Hf. apply cs_calm, calm_refl.
Qed.

Lemma calls_grow e s s' : ambassador_step e s = Some s' → (size (am_calls s) ≤ size (am_calls s'))%nat.
Proof.
  intros [Hc|id c f _ _ ->|id c calls1 f a Hid Hc _ ->]%step_calls.
  - by rewrite (calm_dom _ _ Hc).
  - by rewrite <-!size_dom, dom_alter_L.
  - rewrite <-(calm_dom _ _ Hc), map_size_insert. destruct (calls1 !! id); simpl; lia.
Qed.

(** A call that waits was waiting, or is about to be sent. *)
Lemma waiting_before e s s' id c' :
  ambassador_step e s = Some s' → am_calls s' !! id = Some c' → waiting c' →
  sending c' ∨ ∃ c, am_calls s !! id = Some c ∧ waiting c ∧ c_seq c' = c_seq c.
Proof.
  intros Hs Hid [Hrx [Hph|[f Hph]]]; [|left; by exists f]. right.
  assert (Hcalm : ∀ calls1, calm (am_calls s) calls1 → calls1 !! id = Some c' →
    ∃ c, am_calls s !! id = Some c ∧ waiting c ∧ c_seq c' = c_seq c).
  { intros calls1 Hc H1. destruct (proj1 Hc _ _ H1) as (c & Hc1 & Hseq & Hp & Hr). exists c. split_and!; [done| |done].
    split; [auto|left]. destruct Hp as [<-|E]; [done|]. by destruct (E (Frame_new (header new_session_frame) []) After_call). }
  apply step_calls in Hs as [Hc|id0 c f Hc Hf E|id0 c calls1 f a Hn Hc Hf E]; [by eapply Hcalm|..]; rewrite E in Hid.
  - apply lookup_alter_Some in Hid as [(<- & c0 & Hc0 & ->)|[Hne Hid]]; [|by eapply Hcalm; [apply calm_refl|]].
    exists c0. assert (c0 = c) as -> by congruence. split_and!; [done| |done]. split; [done|]. right. by exists f.
  - apply lookup_insert_Some in Hid as [[<- <-]|[Hne Hid]]; [congruence|by eapply Hcalm].
Qed.

(** What is on the transport stays there. *)
Lemma sent_grows e s s' : ambassador_step e s = Some s' → am_sent s `prefix_of` am_sent s'.
Proof.
  destruct e as [i rq|i|i|i|ok|r|]; simpl.
  - destruct (am_calls s !! i); [done|]. intros [= <-]. unfold call_start, pending_insert.
    destruct (claim_next_outbound_seq _) as [seq next]. simpl. by destruct (am_pending s !! seq).
  - destruct (am_calls s !! i); [done|]. intros [= <-]. unfold disconnect_start. by destruct (claim_next_outbound_seq _).
  - intros (c & Hc & Hs)%bind_Some. revert Hs. unfold call_step. destruct (c_phase c) as [f after| |r| |]; [| |done..].
    + intros ([s1 ok] & Hf & [= <-])%bind_Some. apply frame_send_inv in Hf. rewrite Hf.
      destruct after; [done|]. unfold disconnect_finish. simpl. by destruct (am_pump s).
    + by destruct (c_rx c); intros [= <-].
  - intros (c & Hc & Hs)%bind_Some. by destruct (c_phase c); simplify_eq.
  - destruct (am_writer s), (am_frame_tx s); try done. intros [= <-]. destruct ok; [by eexists|done].
  - destruct (am_pump s); try done. intros [= <-]. destruct r as [f|e]; simpl; [|done]. unfold pump_frame, pending_remove.
    destruct (message_type (header f)); try done.
    + destruct (HlaCallResponsePayload_decode (payload f)); [|done]. by destruct (am_pending s !! _).
    + by destruct (decode_callback (payload f)).
  - destruct (am_pump s) as [|f| |]; try done. intros ([s1 ok] & Hf & [= <-])%bind_Some. apply frame_send_inv in Hf. by rewrite Hf.
Qed.

Lemma sent_init sid a : sent_inv sid [] (spin_up_with_transport sid a).
Proof. split; simpl; try done; try (intros *; rewrite ?lookup_empty; done). intros f. set_solver. constructor. Qed.

Lemma sent_steps sid a es s :
  ambassador_steps es (spin_up_with_transport sid a) = Some s → unwrapped s → sent_inv sid es s.
Proof.
  revert s. induction es as [|e es IH] using rev_ind; intros s.
  - intros [= <-] _. apply sent_init.
  - intros (s1 & Hs1 & (s' & Hs & [= <-])%bind_Some)%ambassador_steps_app Hun.
    eapply sent_step; [by eapply steps_inv|apply IH; [done|]|done|done].
    apply calls_grow in Hs. unfold unwrapped in *. lia.
Qed.
End requests.
