(* ===== verification/Services.v ===== *)
(** * hla-federate: the typed services

    The methods of [RtiAmbassador] ([hla-federate/src/ambassador.rs]).  Each
    builds a request from typed arguments, hands it to [call], turns an
    [ExceptionData] response into an error and takes its result out of the
    response it expects; any other response is [UnexpectedResponse]. *)

From Stdlib Require Import String.
From S2P Require Import Prelude Float64 CoreTypes Exception Proto FederationMgmt Dispatch FedHandles Ambassador.

Record Service (T : Type) := mkService { request : Req; accept : Resp → result CallError T }.
Arguments mkService {T}. Arguments request {T}. Arguments accept {T}.

Definition check_exception (resp : Resp) : result CallError Resp :=
  match resp with
  | ExceptionData name details => Err (RtiException name details)
  | other => Ok other
  end.

(** [let r = self.call(..).await?; match Self::check_exception(r)? { .. }] *)
Definition finish {T} (s : Service T) (outcome : result CallError Resp) : result CallError T :=
  r ← outcome;
  r ← check_exception r;
  accept s r.

(** [o.ok_or(CallError::UnexpectedResponse)] *)
Definition or_unexpected {T} (o : option T) : result CallError T :=
  match o with Some t => Ok t | None => Err UnexpectedResponse end.

Notation "'expecting' p => e" := (λ r : Resp, match r with p => e | _ => Err UnexpectedResponse end)
  (at level 200, p pattern at level 99, e at level 200, only parsing).

(** ** Federation management *)

Definition create_federation_execution (name : string) : Service unit :=
  mkService (CreateFederationExecutionRequest name None)
    (expecting CreateFederationExecutionResponse => Ok tt).

Definition create_federation_execution_with_modules (name : string) (modules : list (string * list byte)) : Service unit :=
  mkService (CreateFederationExecutionWithModulesRequest name
      (Some ((λ '(name, content), Some (FileModule name content)) <$> modules)))
    (expecting CreateFederationExecutionWithModulesResponse => Ok tt).

Definition list_federation_executions : Service unit :=
  mkService ListFederationExecutionsRequest (expecting ListFederationExecutionsResponse => Ok tt).

Definition list_federation_execution_members (federation_name : string) : Service unit :=
  mkService (ListFederationExecutionMembersRequest federation_name)
    (expecting ListFederationExecutionMembersResponse => Ok tt).

Definition connect_federation : Service unit :=
  mkService ConnectRequest (expecting ConnectResponse _ => Ok tt).

Definition disconnect_federation : Service unit :=
  mkService DisconnectRequest (expecting DisconnectResponse => Ok tt).

Definition get_federate_handle (name : string) : Service FederateHandle :=
  mkService (GetFederateHandleRequest name)
    (expecting GetFederateHandleResponse g => or_unexpected (p ← g; decode_federate p)).

Definition get_federate_name (handle : FederateHandle) : Service string :=
  mkService (GetFederateNameRequest (Some (to_be_bytes 4 (fh_raw handle))))
    (expecting GetFederateNameResponse g => Ok g).

Definition destroy_federation_execution (name : string) : Service unit :=
  mkService (DestroyFederationExecutionRequest name) (expecting DestroyFederationExecutionResponse => Ok tt).

(** [j.result] and the federate handle in it. *)
Definition joined_handle (j : option JoinResult) : result CallError FederateHandle :=
  result ← or_unexpected j;
  or_unexpected (p ← jr_federate_handle result; decode_federate p).

Definition join_federation_execution_with_name (federate_name federate_type federation : string) : Service FederateHandle :=
  mkService (JoinFederationExecutionWithNameRequest federate_name federate_type federation)
    (expecting JoinFederationExecutionWithNameResponse j => joined_handle j).

Definition join_federation_execution (federate_type federation : string) : Service FederateHandle :=
  mkService (JoinFederationExecutionRequest federate_type federation)
    (expecting JoinFederationExecutionResponse j => joined_handle j).

Definition resign_federation_execution (action : ResignAction) : Service unit :=
  mkService (ResignFederationExecutionRequest (encode_resign_action action))
    (expecting ResignFederationExecutionResponse => Ok tt).

(** ** Handle lookup *)

Definition get_object_class_handle (name : string) : Service ObjectClassHandle :=
  mkService (GetObjectClassHandleRequest name)
    (expecting GetObjectClassHandleResponse g => or_unexpected (p ← g; decode_object_class p)).

Definition get_attribute_handle (class : ObjectClassHandle) (name : string) : Service AttributeHandle :=
  mkService (GetAttributeHandleRequest (Some (encode_object_class class)) name)
    (expecting GetAttributeHandleResponse g => or_unexpected (p ← g; decode_attribute p)).

Definition get_interaction_class_handle (name : string) : Service InteractionClassHandle :=
  mkService (GetInteractionClassHandleRequest name)
    (expecting GetInteractionClassHandleResponse g => or_unexpected (p ← g; decode_interaction_class p)).

Definition get_parameter_handle (class : InteractionClassHandle) (name : string) : Service ParameterHandle :=
  mkService (GetParameterHandleRequest (Some (encode_interaction_class class)) name)
    (expecting GetParameterHandleResponse g => or_unexpected (p ← g; decode_parameter p)).

(** ** Declaration management *)

Definition publish_object_class_attributes (class : ObjectClassHandle) (attrs : gset AttributeHandle) : Service unit :=
  mkService (PublishObjectClassAttributesRequest (Some (encode_object_class class)) (Some (encode_attr_set attrs)))
    (expecting PublishObjectClassAttributesResponse => Ok tt).

Definition subscribe_object_class_attributes (class : ObjectClassHandle) (attrs : gset AttributeHandle) : Service unit :=
  mkService (SubscribeObjectClassAttributesRequest (Some (encode_object_class class)) (Some (encode_attr_set attrs)))
    (expecting SubscribeObjectClassAttributesResponse => Ok tt).

Definition unsubscribe_object_class_attributes (class : ObjectClassHandle) (attrs : gset AttributeHandle) : Service unit :=
  mkService (UnsubscribeObjectClassAttributesRequest (Some (encode_object_class class)) (Some (encode_attr_set attrs)))
    (expecting UnsubscribeObjectClassAttributesResponse => Ok tt).

Definition unsubscribe_interaction_class (class : InteractionClassHandle) : Service unit :=
  mkService (UnsubscribeInteractionClassRequest (Some (encode_interaction_class class)))
    (expecting UnsubscribeInteractionClassResponse => Ok tt).

Definition unpublish_object_class_attributes (class : ObjectClassHandle) (attrs : gset AttributeHandle) : Service unit :=
  mkService (UnpublishObjectClassAttributesRequest (Some (encode_object_class class)) (Some (encode_attr_set attrs)))
    (expecting UnpublishObjectClassAttributesResponse => Ok tt).

Definition unpublish_interaction_class (class : InteractionClassHandle) : Service unit :=
  mkService (UnpublishInteractionClassRequest (Some (encode_interaction_class class)))
    (expecting UnpublishInteractionClassResponse => Ok tt).

Definition publish_interaction_class (class : InteractionClassHandle) : Service unit :=
  mkService (PublishInteractionClassRequest (Some (encode_interaction_class class)))
    (expecting PublishInteractionClassResponse => Ok tt).

Definition subscribe_interaction_class (class : InteractionClassHandle) : Service unit :=
  mkService (SubscribeInteractionClassRequest (Some (encode_interaction_class class)))
    (expecting SubscribeInteractionClassResponse => Ok tt).

(** ** Object management *)

Definition register_object_instance (class : ObjectClassHandle) : Service ObjectInstanceHandle :=
  mkService (RegisterObjectInstanceRequest (Some (encode_object_class class)))
    (expecting RegisterObjectInstanceResponse g => or_unexpected (p ← g; decode_object_instance p)).

Definition update_attribute_values (instance : ObjectInstanceHandle) (values : gmap AttributeHandle (list byte))
    (tag : list byte) : Service unit :=
  mkService (UpdateAttributeValuesRequest (Some (encode_object_instance instance))
      (Some (encode_attr_value_map values)) tag)
    (expecting UpdateAttributeValuesResponse => Ok tt).

Definition send_interaction (class : InteractionClassHandle) (params : gmap ParameterHandle (list byte))
    (tag : list byte) : Service unit :=
  mkService (SendInteractionRequest (Some (encode_interaction_class class))
      (Some (encode_param_value_map params)) tag)
    (expecting SendInteractionResponse => Ok tt).

(** ** Ownership management *)

Definition is_attribute_owned_by_federate (instance : ObjectInstanceHandle) (attribute : AttributeHandle) : Service bool :=
  mkService (IsAttributeOwnedByFederateRequest (Some (encode_object_instance instance))
      (Some (encode_attribute attribute)))
    (expecting IsAttributeOwnedByFederateResponse b => Ok b).

Definition query_attribute_ownership (instance : ObjectInstanceHandle) (attributes : gset AttributeHandle) : Service unit :=
  mkService (QueryAttributeOwnershipRequest (Some (encode_object_instance instance)) (Some (encode_attr_set attributes)))
    (expecting QueryAttributeOwnershipResponse => Ok tt).

Definition attribute_ownership_acquisition_if_available (instance : ObjectInstanceHandle)
    (desired : gset AttributeHandle) (tag : list byte) : Service unit :=
  mkService (AttributeOwnershipAcquisitionIfAvailableRequest (Some (encode_object_instance instance))
      (Some (encode_attr_set desired)) tag)
    (expecting AttributeOwnershipAcquisitionIfAvailableResponse => Ok tt).

Definition unconditional_attribute_ownership_divestiture (instance : ObjectInstanceHandle)
    (attributes : gset AttributeHandle) (tag : list byte) : Service unit :=
  mkService (UnconditionalAttributeOwnershipDivestitureRequest (Some (encode_object_instance instance))
      (Some (encode_attr_set attributes)) tag)
    (expecting UnconditionalAttributeOwnershipDivestitureResponse => Ok tt).

Definition delete_object_instance (instance : ObjectInstanceHandle) (tag : list byte) : Service unit :=
  mkService (DeleteObjectInstanceRequest (Some (encode_object_instance instance)) tag)
    (expecting DeleteObjectInstanceResponse => Ok tt).

(** ** Regions *)

Definition dimension_bytes (d : DimensionHandle) : ProtoHandle := to_be_bytes 4 (dh_raw d).
Definition region_bytes (r : RegionHandle) : ProtoHandle := to_be_bytes 8 (rh_raw r).

Definition create_region (dimensions : list DimensionHandle) : Service RegionHandle :=
  mkService (CreateRegionRequest (Some (dimension_bytes <$> dimensions)))
    (expecting CreateRegionResponse g =>
       h ← or_unexpected g;
       if (length h =? 8)%nat then Ok (RegionHandle_new (from_be_bytes h)) else Err UnexpectedResponse).

Definition delete_region (region : RegionHandle) : Service unit :=
  mkService (DeleteRegionRequest (Some (region_bytes region))) (expecting DeleteRegionResponse => Ok tt).

Definition set_range_bounds (region : RegionHandle) (dimension : DimensionHandle) (lower upper : Z) : Service unit :=
  mkService (SetRangeBoundsRequest (Some (region_bytes region)) (Some (dimension_bytes dimension))
      (Some {| rb_lower := lower; rb_upper := upper |}))
    (expecting SetRangeBoundsResponse => Ok tt).

Definition get_range_bounds (region : RegionHandle) (dimension : DimensionHandle) : Service (Z * Z) :=
  mkService (GetRangeBoundsRequest (Some (region_bytes region)) (Some (dimension_bytes dimension)))
    (expecting GetRangeBoundsResponse g => b ← or_unexpected g; Ok (rb_lower b, rb_upper b)).

Definition commit_region_modifications (regions : list RegionHandle) : Service unit :=
  mkService (CommitRegionModificationsRequest (Some (region_bytes <$> regions)))
    (expecting CommitRegionModificationsResponse => Ok tt).

(** ** Time management *)

Definition enable_time_regulation (lookahead : f64) : Service unit :=
  mkService (EnableTimeRegulationRequest (Some (f64_to_be_bytes lookahead)))
    (expecting EnableTimeRegulationResponse => Ok tt).

Definition enable_time_constrained : Service unit :=
  mkService EnableTimeConstrainedRequest (expecting EnableTimeConstrainedResponse => Ok tt).

Definition time_advance_request (time : f64) : Service unit :=
  mkService (TimeAdvanceRequestRequest (Some (f64_to_be_bytes time)))
    (expecting TimeAdvanceRequestResponse => Ok tt).

(** ** Save and restore *)

Definition request_federation_save (label : string) : Service unit :=
  mkService (RequestFederationSaveRequest label) (expecting RequestFederationSaveResponse => Ok tt).
Definition federate_save_begun : Service unit :=
  mkService FederateSaveBegunRequest (expecting FederateSaveBegunResponse => Ok tt).
Definition federate_save_complete : Service unit :=
  mkService FederateSaveCompleteRequest (expecting FederateSaveCompleteResponse => Ok tt).
Definition request_federation_restore (label : string) : Service unit :=
  mkService (RequestFederationRestoreRequest label) (expecting RequestFederationRestoreResponse => Ok tt).
Definition federate_restore_complete : Service unit :=
  mkService FederateRestoreCompleteRequest (expecting FederateRestoreCompleteResponse => Ok tt).
Definition federate_restore_not_complete : Service unit :=
  mkService FederateRestoreNotCompleteRequest (expecting FederateRestoreNotCompleteResponse => Ok tt).
Definition federate_save_not_complete : Service unit :=
  mkService FederateSaveNotCompleteRequest (expecting FederateSaveNotCompleteResponse => Ok tt).

(** ** Synchronization points *)

Definition register_federation_synchronization_point (label : string) (tag : list byte) : Service unit :=
  mkService (RegisterFederationSynchronizationPointRequest label tag)
    (expecting RegisterFederationSynchronizationPointResponse => Ok tt).
Definition synchronization_point_achieved (label : string) (successfully : bool) : Service unit :=
  mkService (SynchronizationPointAchievedRequest label successfully)
    (expecting SynchronizationPointAchievedResponse => Ok tt).
