(* ===== verification/Federate.v ===== *)
(** * Federate and RTI together

    [hla-federate] and [hla-rti] are two crates that share the message types
    and nothing else.  This file relates them: every typed service of the
    federate library understands the answers of the dispatcher, every
    callback the RTI builds runs the method of the federate it is for, and an
    attribute update arrives at the subscribers as it was sent. *)

From S2P Require Import Prelude Float64 CoreTypes Framing Codec Transport WireSession Fom Merge Exception Proto State.
From S2P Require Import Handles Routing Handler Tso TimeMgmt Declaration Ddm ObjectMgmt DataFlow Causality Ownership SyncPoints.
From S2P Require Import FederationMgmt Persistence SaveRestore Advisories Lookup Dispatch Isolation Server Atomicity Sessions.
From S2P Require Import FedHandles Callbacks Ambassador Services.

(** ** What a handler returns

    [Yields E F m]: an early return of [m] is in [E], its value in [F]. *)
Definition Yields {S R A} (E : R → Prop) (F : A → Prop) (m : M S R A) : Prop :=
  ∀ s, match (m s).2 with inl r => E r | inr a => F a end.

Section yields.
Context {S R : Type} (E : R → Prop).

Lemma yields_bind {A B} (m : M S R A) (f : A → M S R B) (F1 : A → Prop) (F : B → Prop) :
  Yields E F1 m → (∀ a, F1 a → Yields E F (f a)) → Yields E F (m ≫= f).
Proof.
  intros Hm Hf s. unfold mbind, M_bind. specialize (Hm s).
  destruct (m s) as [s' [r|a]]; simpl in *; [done|]. by apply Hf.
Qed.
Lemma yields_ret {A} (a : A) (F : A → Prop) : F a → Yields E F (mret a : M S R A).
Proof. by intros ? s. Qed.
Lemma yields_early {A} (r : R) (F : A → Prop) : E r → Yields E F (ret_early r : M S R A).
Proof. by intros ? s. Qed.
Lemma yields_gets {A} (f : S → A) : Yields E (λ _, True) (gets f : M S R A).
Proof. by intros s. Qed.
Lemma yields_modify (f : S → S) : Yields E (λ _, True) (modify f : M S R unit).
Proof. by intros s. Qed.
Lemma yields_some {A} (o : option A) r : E r → Yields E (λ _, True) (some_or_return o r : M S R A).
Proof. intros ? s. by destruct o. Qed.
Lemma yields_ok {X A} (x : result X A) g : (∀ e, x = Err e → E (g e)) → Yields E (λ _, True) (ok_or_return x g : M S R A).
Proof. intros ? s. destruct x; simpl; auto. Qed.
Lemma yields_return_if b r : E r → Yields E (λ _, True) (return_if b r : M S R unit).
Proof. intros ? s. by destruct b. Qed.
Lemma yields_weaken {A} (m : M S R A) (F G : A → Prop) : Yields E F m → (∀ a, F a → G a) → Yields E G m.
Proof. intros Hm HG s. specialize (Hm s). destruct (m s) as [s' [r|a]]; simpl in *; auto. Qed.
Lemma run_yields (m : M S R R) s : Yields E E m → E (run m s).2.
Proof. intros Hm. specialize (Hm s). unfold run. by destruct (m s) as [s' [r|r]]. Qed.
End yields.

(** The response is an exception or one that service [sv] takes. *)
Definition understood {T} (sv : Service T) (r : Resp) : Prop :=
  match check_exception r with Ok r => ∃ t, accept sv r = Ok t | Err _ => True end.

Lemma understood_exception {T} (sv : Service T) k d : understood sv (exception_variant k d).
Proof. done. Qed.

(** The handler named by the goal is unfolded; a step of it that does not
    depend on the state is resolved by the lemmas above. *)
Ltac yields :=
  repeat first
    [ progress cbv zeta
    | lazymatch goal with
      | |- Yields _ _ (_ ≫= _) => apply (yields_bind _ _ _ (λ _, True)); [|intros ? _]
      | |- Yields _ _ (mbind _ _) => apply (yields_bind _ _ _ (λ _, True)); [|intros ? _]
      | |- Yields _ _ (mret _) => apply yields_ret
      | |- Yields _ _ (ret_early _) => apply yields_early
      | |- Yields _ _ (gets _) => apply yields_gets
      | |- Yields _ _ (modify _) => apply yields_modify
      | |- Yields _ _ (some_or_return _ _) => apply yields_some
      | |- Yields _ _ (ok_or_return _ _) => apply yields_ok; intros ? ?
      | |- Yields _ _ (return_if _ _) => apply yields_return_if
      | |- Yields _ _ (match ?x with _ => _ end) => destruct x
      | |- True => exact I
      | |- understood _ (match ?e with _ => _ end) => destruct e
      | |- understood _ (exception_variant _ _) => apply understood_exception
      | |- Yields _ _ ?m => let h := head_of m in unfold h
      end ].

(** ** Services and dispatcher *)

(** The services of the federate library. *)
Inductive offered : ∀ T : Type, Service T → Prop :=
| of_create name : offered _ (create_federation_execution name)
| of_create_modules name modules : offered _ (create_federation_execution_with_modules name modules)
| of_list_executions : offered _ Services.list_federation_executions
| of_list_members name : offered _ (Services.list_federation_execution_members name)
| of_connect : offered _ connect_federation
| of_disconnect : offered _ disconnect_federation
| of_federate_handle name : offered _ (Services.get_federate_handle name)
| of_federate_name h : offered _ (Services.get_federate_name h)
| of_destroy name : offered _ (Services.destroy_federation_execution name)
| of_join_with_name n t f : offered _ (join_federation_execution_with_name n t f)
| of_join t f : offered _ (join_federation_execution t f)
| of_resign a : offered _ (resign_federation_execution a)
| of_object_class n : offered _ (Services.get_object_class_handle n)
| of_attribute c n : offered _ (Services.get_attribute_handle c n)
| of_interaction_class n : offered _ (Services.get_interaction_class_handle n)
| of_parameter c n : offered _ (Services.get_parameter_handle c n)
| of_publish c l : offered _ (Services.publish_object_class_attributes c l)
| of_subscribe c l : offered _ (Services.subscribe_object_class_attributes c l)
| of_unsubscribe c l : offered _ (Services.unsubscribe_object_class_attributes c l)
| of_unsubscribe_interaction c : offered _ (Services.unsubscribe_interaction_class c)
| of_unpublish c l : offered _ (Services.unpublish_object_class_attributes c l)
| of_unpublish_interaction c : offered _ (Services.unpublish_interaction_class c)
| of_publish_interaction c : offered _ (Services.publish_interaction_class c)
| of_subscribe_interaction c : offered _ (Services.subscribe_interaction_class c)
| of_register c : offered _ (Services.register_object_instance c)
| of_update i v t : offered _ (Services.update_attribute_values i v t)
| of_send c v t : offered _ (Services.send_interaction c v t)
| of_is_owned i a : offered _ (Services.is_attribute_owned_by_federate i a)
| of_query_ownership i l : offered _ (Services.query_attribute_ownership i l)
| of_acquire i l t : offered _ (Services.attribute_ownership_acquisition_if_available i l t)
| of_create_region l : offered _ (Services.create_region l)
| of_delete_region r : offered _ (Services.delete_region r)
| of_set_bounds r d l u : offered _ (Services.set_range_bounds r d l u)
| of_get_bounds r d : offered _ (Services.get_range_bounds r d)
| of_commit l : offered _ (Services.commit_region_modifications l)
| of_divest i l t : offered _ (Services.unconditional_attribute_ownership_divestiture i l t)
| of_delete i t : offered _ (Services.delete_object_instance i t)
| of_regulation l : offered _ (Services.enable_time_regulation l)
| of_constrained : offered _ Services.enable_time_constrained
| of_save l : offered _ (Services.request_federation_save l)
| of_save_begun : offered _ Services.federate_save_begun
| of_save_complete : offered _ Services.federate_save_complete
| of_restore l : offered _ (Services.request_federation_restore l)
| of_restore_complete : offered _ Services.federate_restore_complete
| of_restore_not_complete : offered _ Services.federate_restore_not_complete
| of_save_not_complete : offered _ Services.federate_save_not_complete
| of_register_sync l t : offered _ (register_federation_synchronization_point l t)
| of_achieved l b : offered _ (Services.synchronization_point_achieved l b)
| of_advance t : offered _ (Services.time_advance_request t).

Section dispatcher.
Context {P : Prost} {X : QuickXml} {J : Serde} {O : Os}.

Lemma decode_set_err {H} `{Countable H} (dec : ProtoHandle → result HandleError H) l out r :
  decode_set dec l out = Err r → ∃ e d, r = ExceptionData e d.
Proof.
  revert out. induction l as [|p l IH]; intros out; simpl; [done|].
  destruct (dec p) as [h|[n]]; [apply IH|]. intros [= <-]. unfold exception_variant. eauto.
Qed.
Lemma decode_handle_set_err l r : decode_handle_set l = Err r → ∃ e d, r = ExceptionData e d.
Proof. destruct l; [apply decode_set_err|done]. Qed.
Lemma decode_parameter_value_map_err pv r :
  DataFlow.decode_parameter_value_map pv = Err r → ∃ e d, r = ExceptionData e d.
Proof.
  unfold DataFlow.decode_parameter_value_map. destruct pv; [|done].
  apply decode_value_list_err. unfold exception_variant. eauto.
Qed.

Lemma commit_yields {T} (sv : Service T) m rhs : Yields (understood sv) (λ _, True) (commit_regions m rhs).
Proof. induction rhs as [|rh rhs IH]; simpl; yields; exact IH. Qed.

Lemma join_yields {T} (sv : Service T) name federation :
  Yields (understood sv) (λ jr, ∃ z, jr_federate_handle jr = Some (to_be_bytes 4 z)) (join name federation).
Proof. unfold join. yields. by eexists. Qed.

Lemma joined_handle_ok jr z :
  jr_federate_handle jr = Some (to_be_bytes 4 z) → ∃ h, joined_handle (Some jr) = Ok h.
Proof.
  intros Hj. unfold joined_handle, or_unexpected. cbn. rewrite Hj. cbn [mbind option_bind]. unfold decode_federate.
  rewrite length_to_be_bytes. by eexists.
Qed.

Lemma dispatch_understood T (sv : Service T) :
  offered T sv → Yields (understood sv) (understood sv) (dispatch_variant (request sv)).
Proof.
  destruct 1; match goal with |- Yields _ _ (dispatch_variant ?r) =>
    let r' := eval hnf in r in change r with r' end; arm.
  all: lazymatch goal with
    | |- Yields _ _ (join_call _ _ _) =>
        eapply yields_bind; [apply join_yields|]; intros jr [z Hj]; apply yields_ret;
        exact (joined_handle_ok jr z Hj)
    | |- Yields _ _ (Ddm.commit_region_modifications _) =>
        unfold Ddm.commit_region_modifications; eapply yields_bind; [yields|]; intros m _;
        eapply yields_bind; [apply commit_yields|]; yields; by eexists
    | |- _ => yields; try done; try (by eexists)
    end.
  all: match goal with
    | He : decode_handle_set _ = Err _ |- _ => destruct (decode_handle_set_err _ _ He) as (? & ? & ->)
    | He : DataFlow.decode_attribute_value_map _ = Err _ |- _ =>
        destruct (decode_attribute_value_map_err _ _ He) as (? & ? & ->)
    | He : DataFlow.decode_parameter_value_map _ = Err _ |- _ =>
        destruct (decode_parameter_value_map_err _ _ He) as (? & ? & ->)
    end; exact I.
Qed.
End dispatcher.

(** *** A service, from the dispatcher's answer to the caller's result *)

(** The response as the federate sees it: an exception carries the rendered
    text of its details. *)
Definition rendered (r r' : Resp) : Prop :=
  match r with ExceptionData name _ => ∃ text, r' = ExceptionData name text | _ => r' = r end.

(** What a service makes of the dispatcher's answer [r]: the exception the RTI
    raised, or a result; never "unexpected response". *)
Definition settled {T} (sv : Service T) (r : Resp) (outcome : result CallError T) : Prop :=
  (∃ name d d', r = ExceptionData name d ∧ outcome = Err (RtiException name d')) ∨
  (∃ t, finish sv (Ok r) = Ok t ∧ outcome = Ok t).

Lemma understood_settled {T} (sv : Service T) r r' :
  understood sv r → rendered r r' → settled sv r (finish sv (Ok r')).
Proof.
  unfold understood, settled, finish. destruct r; simpl; try (intros [t Ht] ->; right; exists t; simpl; by rewrite Ht).
  intros _ [text ->]. left. by eexists _, _, _.
Qed.

Section services.
Context {P : Prost} {X : QuickXml} {J : Serde} {O : Os} {PS : ProstCalls} {PC : ProstClient}.
Context {A : Type} `{FederateAmbassador A}.

(** C13: federate and RTI agree on the answers.  Whatever state the RTI is in,
    its answer to the request of a typed service of the federate library is
    an exception, which the service reports under its name, or the response
    the service expects, with handles it can decode: no service ever reports
    an unexpected response.  This holds end to end: when the frame with that
    answer reaches the connection that waits for it, the call returns, and
    the service with it. *)
Theorem services_understand_the_rti T (sv : Service T) sid a es (s : Ambassador A) id c ds node_sid r' :
  offered T sv →
  ambassador_steps es (spin_up_with_transport sid a) = Some s → am_pump s = P_running →
  am_calls s !! id = Some c → c_phase c = C_awaiting → c_rx c = Os_empty → s_in 32 (c_seq c) →
  let r := (run (dispatch_call (Some (request sv))) ds).2 in
  encode_response r ≠ [] → decode_response (encode_response r) = Ok (Some r') → rendered r r' →
  settled sv r (finish sv (Ok r)) ∧
  ∃ s' outcome, ambassador_steps [A_recv (Ok (response_frame node_sid (c_seq c) r)); A_go id] s = Some s' ∧
    c_phase <$> am_calls s' !! id = Some (C_returned outcome) ∧ settled sv r (finish sv outcome).
Proof.
  intros Hof Hi%steps_inv Hrun Hc Hph Hrx Hseq r Hne Hdec Hren.
  assert (Hu : understood sv r) by (apply run_yields, dispatch_understood, Hof).
  split; [apply understood_settled; [done|]; destruct r; simpl; eauto|].
  set (f := response_frame node_sid (c_seq c) r).
  assert (Hp : HlaCallResponsePayload_decode (payload f) =
    Ok {| response_to_sequence_number := c_seq c; Framing.body := encode_response r |}) by (by apply call_response_decode).
  assert (Hs : ambassador_step (A_recv (Ok f)) s = Some (pump_frame f s)) by (simpl; by rewrite Hrun).
  pose proof (respond_lookup _ _ _ f _ _ _ _ Hi eq_refl Hp Hs Hc) as Hl. cbn [response_to_sequence_number] in Hl.
  rewrite decide_True in Hl by (apply (ci_waiting _ _ _ Hi _ _ Hc); split; [done|by left]).
  unfold put in Hl. rewrite Hrx in Hl. cbn [Framing.body] in Hl.
  cbn [ambassador_steps]. rewrite Hs. cbn [mbind option_bind ambassador_steps ambassador_step].
  rewrite Hl. cbn [mbind option_bind]. unfold call_step. simpl c_phase. rewrite Hph. simpl c_rx. cbv match.
  cbn [option_bind]. eexists _, _. split; [done|]. simpl. rewrite lookup_alter_eq, Hl. split; [done|].
  unfold call_result. destruct (encode_response r) as [|b l]; [done|]. rewrite Hdec. simpl.
  by apply (understood_settled sv r r').
Qed.
End services.

(** ** Callbacks *)

#[export] Instance fed_federate_wire : FedWire (λ h, u_in 32 (fh_raw h)) Handles.encode_federate decode_federate.
Proof. unfold Handles.encode_federate, encode_u32. solve_fed_wire. Qed.

(** The two crates encode handles alike. *)
#[export] Instance rti_object_class_wire :
  FedWire (λ h, u_in 32 (och_raw h)) Handles.encode_object_class decode_object_class := fed_object_class_wire.
#[export] Instance rti_attribute_wire :
  FedWire (λ h, u_in 32 (ah_raw h)) Handles.encode_attribute decode_attribute := fed_attribute_wire.
#[export] Instance rti_interaction_class_wire :
  FedWire (λ h, u_in 32 (ich_raw h)) Handles.encode_interaction_class decode_interaction_class := fed_interaction_class_wire.
#[export] Instance rti_parameter_wire :
  FedWire (λ h, u_in 32 (ph_raw h)) Handles.encode_parameter decode_parameter := fed_parameter_wire.
#[export] Instance rti_object_instance_wire :
  FedWire (λ h, u_in 64 (oih_raw h)) Handles.encode_object_instance decode_object_instance := fed_object_instance_wire.

Definition instance_ok (i : ObjectInstanceHandle) : Prop := u_in 64 (oih_raw i).
Definition class_ok (c : ObjectClassHandle) : Prop := u_in 32 (och_raw c).
Definition interaction_ok (c : InteractionClassHandle) : Prop := u_in 32 (ich_raw c).
Definition federate_ok (h : FederateHandle) : Prop := u_in 32 (fh_raw h).
Definition attribute_ok (a : AttributeHandle) : Prop := u_in 32 (ah_raw a).
Definition parameter_ok (p : ParameterHandle) : Prop := u_in 32 (ph_raw p).
Definition time_ok (t : f64) : Prop := u_in 64 (f64_bits t).

Lemma time_field_encoded t : time_ok t → time_field (Some (encode_logical_time t)) = Some t.
Proof.
  intros Ht. unfold time_field, time_value, encode_logical_time. cbn [mbind option_bind].
  replace (length (f64_to_be_bytes t)) with 8%nat by (symmetry; apply length_to_be_bytes).
  cbn [Nat.eqb]. by rewrite f64_from_to_be_bytes.
Qed.

Section callbacks.
Context {A : Type} `{F : FederateAmbassador A}.

(** The callback messages of [routing.rs] and the method of the federate that
    each of them is for. *)
Inductive announces : CallbackRequest → (A → A) → Prop :=
| an_discover i c n p : instance_ok i → class_ok c → federate_ok p →
    announces (Routing.discover_object_instance i c n p) (discover_object_instance i c n (Some p))
| an_reflect i v t p : instance_ok i → map_Forall (λ a _, attribute_ok a) v → federate_ok p →
    announces (Routing.reflect_attribute_values i v t p) (reflect_attribute_values i v t (Some p))
| an_reflect_time i v t p x : instance_ok i → map_Forall (λ a _, attribute_ok a) v → federate_ok p → time_ok x →
    announces (Routing.reflect_attribute_values_with_time i v t p x) (reflect_attribute_values_with_time i v t (Some p) x)
| an_receive c v t p : interaction_ok c → map_Forall (λ a _, parameter_ok a) v → federate_ok p →
    announces (Routing.receive_interaction c v t p) (receive_interaction c v t (Some p))
| an_receive_time c v t p x : interaction_ok c → map_Forall (λ a _, parameter_ok a) v → federate_ok p → time_ok x →
    announces (Routing.receive_interaction_with_time c v t p x) (receive_interaction_with_time c v t (Some p) x)
| an_remove i t p : instance_ok i → federate_ok p →
    announces (Routing.remove_object_instance i t p) (remove_object_instance i t (Some p))
| an_remove_time i t p x : instance_ok i → federate_ok p → time_ok x →
    announces (Routing.remove_object_instance_with_time i t p x) (remove_object_instance_with_time i t (Some p) x)
| an_members n l : announces (Routing.report_federation_execution_members n l) (report_federation_execution_members n l)
| an_no_execution n : announces (Routing.report_federation_execution_does_not_exist n) (report_federation_execution_does_not_exist n)
| an_executions l : announces (Routing.report_federation_executions l) (report_federation_executions l)
| an_acquired i l t : instance_ok i → Forall attribute_ok l →
    announces (Routing.attribute_ownership_acquisition_notification i l t) (attribute_ownership_acquisition_notification i l t)
| an_unavailable i l t : instance_ok i → Forall attribute_ok l →
    announces (Routing.attribute_ownership_unavailable i l t) (attribute_ownership_unavailable i l t)
| an_owner i l f : instance_ok i → Forall attribute_ok l → federate_ok f →
    announces (Routing.inform_attribute_ownership i l f) (inform_attribute_ownership i l f)
| an_not_owned i l : instance_ok i → Forall attribute_ok l →
    announces (Routing.attribute_is_not_owned i l) (attribute_is_not_owned i l)
| an_restore_ok l : announces (Routing.request_federation_restore_succeeded l) (request_federation_restore_succeeded l)
| an_restore_failed l : announces (Routing.request_federation_restore_failed l) (request_federation_restore_failed l)
| an_restore_begun : announces Routing.federation_restore_begun federation_restore_begun
| an_restore l n h : federate_ok h → announces (Routing.initiate_federate_restore l n h) (initiate_federate_restore l n h)
| an_restored : announces Routing.federation_restored federation_restored
| an_not_restored r : announces (Routing.federation_not_restored r) (federation_not_restored r)
| an_save l : announces (Routing.initiate_federate_save l) (initiate_federate_save l)
| an_saved : announces Routing.federation_saved federation_saved
| an_not_saved r : announces (Routing.federation_not_saved r) (federation_not_saved r)
| an_point_ok l : announces (Routing.synchronization_point_registration_succeeded l) (synchronization_point_registration_succeeded l)
| an_point_failed l r : announces (Routing.synchronization_point_registration_failed l r) (synchronization_point_registration_failed l r)
| an_point l t : announces (Routing.announce_synchronization_point l t) (announce_synchronization_point l t)
| an_synchronized l s : set_Forall federate_ok s → announces (Routing.federation_synchronized l s) (federation_synchronized l s)
| an_start_class c : class_ok c → announces (Routing.start_registration_for_object_class c) (start_registration_for_object_class c)
| an_stop_class c : class_ok c → announces (Routing.stop_registration_for_object_class c) (stop_registration_for_object_class c)
| an_interactions_on c : interaction_ok c → announces (Routing.turn_interactions_on c) (turn_interactions_on c)
| an_interactions_off c : interaction_ok c → announces (Routing.turn_interactions_off c) (turn_interactions_off c)
| an_regulation x : time_ok x → announces (Routing.time_regulation_enabled x) (time_regulation_enabled x)
| an_constrained x : time_ok x → announces (Routing.time_constrained_enabled x) (time_constrained_enabled x)
| an_granted x : time_ok x → announces (Routing.time_advance_grant x) (time_advance_grant x).

Lemma field_decoded {H} `{!FedWire valid enc dec} (h : H) : valid h → decode_field dec (Some (enc h)) = Some h.
Proof. intros Hv. exact (fed_wire_roundtrip h Hv). Qed.

Lemma attribute_list_encoded l : Forall attribute_ok l → attribute_list (Some (Handles.encode_attribute <$> l)) = l.
Proof. apply (decode_list (enc := Handles.encode_attribute)). Qed.

Lemma attribute_values_decoded v :
  map_Forall (λ a _, attribute_ok a) v →
  FedHandles.decode_attribute_value_map (Routing.attribute_value_map v) = v.
Proof. apply (decode_entries (enc := Handles.encode_attribute)). Qed.
Lemma parameter_values_decoded v :
  map_Forall (λ a _, parameter_ok a) v →
  FedHandles.decode_parameter_value_map (Routing.parameter_value_map v) = v.
Proof. apply (decode_entries (enc := Handles.encode_parameter)). Qed.

Lemma synchronized_decoded (s : gset FederateHandle) :
  set_Forall federate_ok s → list_to_set (omap decode_federate (Handles.encode_federate <$> elements s)) = s.
Proof.
  intros Hs. rewrite (decode_list (enc := Handles.encode_federate)).
  - apply list_to_set_elements_L.
  - apply Forall_forall. intros x Hx%elem_of_elements. by apply Hs.
Qed.

Lemma executions_decoded (l : list string) : ((λ name, (name, "HLAfloat64Time"%string)) <$> l).*1 = l.
Proof. induction l; csimpl; congruence. Qed.

Ltac decoded :=
  rewrite ?(field_decoded (enc := Handles.encode_object_instance)), ?(field_decoded (enc := Handles.encode_object_class)),
    ?(field_decoded (enc := Handles.encode_interaction_class)), ?(field_decoded (enc := Handles.encode_federate)),
    ?attribute_list_encoded, ?time_field_encoded by done;
  cbn [or_skip from_option fmap option_fmap option_map];
  rewrite ?attribute_values_decoded, ?parameter_values_decoded, ?synchronized_decoded by done; try reflexivity.

Lemma announced cb f a : announces cb f → dispatch_callback (Some cb) a = f a.
Proof.
  destruct 1; try reflexivity; cbn [dispatch_callback callback_variant
    Routing.discover_object_instance Routing.reflect_attribute_values Routing.reflect_attribute_values_with_time
    Routing.receive_interaction Routing.receive_interaction_with_time Routing.remove_object_instance
    Routing.remove_object_instance_with_time Routing.report_federation_executions
    Routing.attribute_ownership_acquisition_notification Routing.attribute_ownership_unavailable
    Routing.inform_attribute_ownership Routing.attribute_is_not_owned Routing.initiate_federate_restore
    Routing.federation_synchronized Routing.start_registration_for_object_class
    Routing.stop_registration_for_object_class Routing.turn_interactions_on Routing.turn_interactions_off
    Routing.time_regulation_enabled Routing.time_constrained_enabled Routing.time_advance_grant].
  all: unfold on_discover, on_reflect, on_receive, on_remove, on_executions, on_initiate_restore, on_inform_ownership,
    on_acquisition, on_unavailable, on_not_owned, on_attributes, on_synchronized, on_reflect_with_time,
    on_receive_with_time, on_remove_with_time.
  all: decoded.
  cbn [id]. by rewrite executions_decoded.
Qed.

Context {P : Prost} {PC : ProstClient}.

(** A callback frame, at the federate. *)
Lemma callback_arrives cb f node conn (s : Ambassador A) :
  announces cb f → decode_callback (encode_callback cb) = Ok (Some cb) → am_pump s = P_running →
  let '(_, frame) := into_frame (mkOutboundCallback conn (encode_callback cb)) node in
  ambassador_step (A_recv (Ok frame)) s = Some (set_am_callbacks (deref f) s).
Proof.
  intros Han Hdec Hrun.
  assert (Hd : dispatch_callback (Some cb) (am_callbacks s) = deref f (am_callbacks s)).
  { destruct (am_callbacks s) as [a]. etransitivity; [exact (arc_dispatch (Some cb) a)|].
    unfold deref. f_equal. by apply announced. }
  unfold into_frame. destruct (claim_next_outbound_seq _) as [seq next]. simpl. rewrite Hrun. simpl.
  unfold pump_frame. simpl. rewrite Hdec. f_equal. unfold set_am_callbacks. by rewrite Hd.
Qed.

(** C20: every callback arrives.  Each kind of callback message that the RTI
    builds (directed interactions apart), put in a frame for a connection,
    makes the federate at the other end of it run the method that the message
    is for, with exactly the handles, values, tag and time the RTI put in; and
    the frame has no other effect on the federate's connection. *)
Theorem callbacks_reach_the_federate cb f node conn (s : Ambassador A) :
  announces cb f → decode_callback (encode_callback cb) = Ok (Some cb) → am_pump s = P_running →
  let '(_, frame) := into_frame (mkOutboundCallback conn (encode_callback cb)) node in
  ambassador_step (A_recv (Ok frame)) s = Some (set_am_callbacks (deref f) s).
Proof. apply callback_arrives. Qed.
End callbacks.

(** ** An update, from one federate to the others *)

Lemma decode_values_encoded {H} `{Countable H} `{!Wire valid enc dec} missing (m : gmap H (list byte)) :
  map_Forall (λ h _, valid h) m →
  decode_value_list dec missing ((λ '(h, v), (Some (enc h), v)) <$> map_to_list m) ∅ = Ok m.
Proof.
  intros Hm. rewrite <- (collect_map_to_list m) at 2. unfold collect.
  assert (Hl : ∀ h v, (h, v) ∈ map_to_list m → valid h) by (intros h v ?%elem_of_map_to_list; by eapply Hm).
  generalize (∅ : gmap H (list byte)). induction (map_to_list m) as [|[h v] l IH]; intros out; [done|]. csimpl.
  rewrite wire_roundtrip by (eapply Hl; by left). apply IH. intros h' v' Hin. eapply Hl. by right.
Qed.

Section update.
Context {P : Prost} {X : QuickXml} {J : Serde} {O : Os} {PC : ProstClient}.
Context {A : Type} `{F : FederateAmbassador A}.

(** C6: an attribute update arrives as it was sent.  A federate that owns the
    attributes calls [update_attribute_values] of the federate library with an
    instance, a map of values and a tag.  The RTI accepts the request, and
    queues last, once for every live connection of a federate that subscribes
    to one of the attributes and matches its regions, a callback whose frame
    makes that federate's library call [reflect_attribute_values] with the
    same instance, the same map of values, the same tag and the handle of the
    sender. *)
Theorem update_arrives ds m fed instance inst values tag :
  let self := m_federate_handle m in
  let service := Services.update_attribute_values instance values tag in
  let cb := Routing.reflect_attribute_values instance values tag self in
  membership (ds_ctx ds) = Some m → at_fed m ds fed → object_instances fed !! instance = Some inst →
  (∀ a, a ∈ dom values → attribute_owners inst !! a = Some self) →
  instance_ok instance → map_Forall (λ a _, attribute_ok a) values → federate_ok self →
  decode_callback (encode_callback cb) = Ok (Some cb) →
  let '(ds', r) := run (dispatch_call (Some (request service))) ds in
  let targets := update_subscribers fed instance (inst_class inst) (map_to_list values).*1 self in
  finish service (Ok r) = Ok tt ∧
  (∃ before, ds_callbacks ds `prefix_of` before ∧
    ds_callbacks ds' = before ++
      ((λ conn, mkOutboundCallback conn (encode_callback cb)) <$> live_connections (ds_node ds) fed targets)) ∧
  ∀ conn node (s : Ambassador A), am_pump s = P_running →
    let '(_, frame) := into_frame (mkOutboundCallback conn (encode_callback cb)) node in
    ambassador_step (A_recv (Ok frame)) s =
      Some (set_am_callbacks (deref (reflect_attribute_values instance values tag (Some self))) s).
Proof.
  intros self service cb Hm Hfed Hi Hown Hiok Hvok Hfok Hdec.
  assert (Hvals : DataFlow.decode_attribute_value_map (Some (encode_attr_value_map values)) = Ok values)
    by (by apply (decode_values_encoded (enc := Handles.encode_attribute))).
  assert (Hinst : Handles.decode_object_instance (FedHandles.encode_object_instance instance) = Ok instance)
    by (by apply (wire_roundtrip (enc := Handles.encode_object_instance))).
  pose proof (update_owned ds m fed _ instance inst _ values tag Hm Hfed Hinst Hvals Hi Hown) as Hrun.
  cbv zeta in Hrun. change (run (DataFlow.update_attribute_values _ _ _) ds)
    with (run (dispatch_call (Some (request service))) ds) in Hrun.
  destruct (run _ ds) as [ds' r]. destruct Hrun as (-> & fed' & late & _ & _ & Hcbs & _). split_and!; [done| |].
  - rewrite Hcbs, (fan_out_app (fan_out _ _ _)). eexists. split; [|done]. rewrite fan_out_app. by apply prefix_app_r.
  - intros conn node s Hs.
    apply (callback_arrives cb (reflect_attribute_values instance values tag (Some self)) node conn s); [|done|done].
    by apply an_reflect.
Qed.
End update.

(** *** Witnesses *)

Lemma services_understand_witness :
  ∃ s' outcome, ambassador_steps (PC := demo_client)
      [A_recv (Ok (response_frame (PC := demo_calls) 7 1 (ConnectResponse None))); A_go 1] overtaken_state = Some s' ∧
    c_phase <$> am_calls s' !! 1%positive = Some (C_returned outcome) ∧
    settled connect_federation (ConnectResponse None) (finish connect_federation outcome).
Proof.
  assert (Hrun : ambassador_steps (PC := demo_client) overtaken demo_ambassador = Some overtaken_state)
    by (vm_compute; reflexivity).
  assert (Hc : am_calls overtaken_state !! 1%positive = Some (mkCall 1 C_awaiting Os_empty)) by (vm_compute; reflexivity).
  refine (proj2 (services_understand_the_rti (P := demo_prost) (X := no_xml) (J := digit_serde) (O := reliable_os)
    (PS := demo_calls) (PC := demo_client) unit connect_federation 7 [] overtaken overtaken_state 1%positive
    (mkCall 1 C_awaiting Os_empty) created_state 7 (ConnectResponse None) of_connect Hrun _ Hc eq_refl eq_refl _ _ _ _)).
  - vm_compute; reflexivity.
  - split; vm_compute; [discriminate|reflexivity].
  - discriminate.
  - reflexivity.
  - reflexivity.
Defined.

Definition one_byte_prost : Prost := {| encode_callback := λ _, [x01] |}.

Lemma callbacks_reach_witness :
  ambassador_step (PC := demo_client) (A_recv (Ok (into_frame (mkOutboundCallback 1%positive
      (encode_callback (Prost := one_byte_prost) FederationSaved)) (ds_node created_state)).2)) demo_ambassador =
    Some (set_am_callbacks (λ _, mkArc [L_call "federation_saved"]) demo_ambassador).
Proof.
  pose proof (callbacks_reach_the_federate (P := one_byte_prost) (PC := demo_client) FederationSaved federation_saved
    (ds_node created_state) 1%positive demo_ambassador an_saved eq_refl eq_refl) as H.
  destruct (into_frame _ _) as [node frame]. exact H.
Defined.

(** Federate 1 of [upd_federation] updates attribute 1 of its instance. *)
Definition upd_values : gmap AttributeHandle (list byte) := {[ AttributeHandle_new 1 := [x2a] ]}.
Definition reflect_client : ProstClient := {|
  encode_request _ := [];
  decode_response _ := Ok None;
  decode_callback _ := Ok (Some (Routing.reflect_attribute_values (ObjectInstanceHandle_new 1) upd_values [x07]
    (FederateHandle_new 1)))
|}.

Lemma update_arrives_witness :
  let '(ds', r) := run (dispatch_call (P := one_byte_prost) (X := no_xml) (J := digit_serde) (O := reliable_os)
    (Some (request (Services.update_attribute_values (ObjectInstanceHandle_new 1) upd_values [x07]))))
    (demo_state 1 upd_federation) in
  r = UpdateAttributeValuesResponse ∧
  ambassador_step (PC := reflect_client) (A_recv (Ok (into_frame (mkOutboundCallback 1%positive [x01])
      (ds_node created_state)).2)) demo_ambassador =
    Some (set_am_callbacks (λ _, mkArc [L_reflect (ObjectInstanceHandle_new 1) upd_values [x07]
      (Some (FederateHandle_new 1))]) demo_ambassador).
Proof.
  pose proof (update_arrives (P := one_byte_prost) (X := no_xml) (J := digit_serde) (O := reliable_os)
    (PC := reflect_client) (A := list Logged) (demo_state 1 upd_federation) (demo_member 1) upd_federation
    (ObjectInstanceHandle_new 1) upd_instance upd_values [x07] eq_refl eq_refl eq_refl) as H. cbv zeta in H.
  assert (Hr : (run (dispatch_call (P := one_byte_prost) (X := no_xml) (J := digit_serde) (O := reliable_os)
    (Some (request (Services.update_attribute_values (ObjectInstanceHandle_new 1) upd_values [x07]))))
    (demo_state 1 upd_federation)).2 = UpdateAttributeValuesResponse) by (vm_compute; reflexivity).
  destruct (run _ _) as [ds' r]. split; [exact Hr|]. destruct H as (_ & _ & Hs).
  - intros a Ha. unfold upd_values in Ha. rewrite dom_singleton_L in Ha. by apply elem_of_singleton in Ha as ->.
  - split; vm_compute; [discriminate|reflexivity].
  - unfold upd_values. intros a v [<- <-]%lookup_singleton_Some. split; vm_compute; [discriminate|reflexivity].
  - split; vm_compute; [discriminate|reflexivity].
  - reflexivity.
  - specialize (Hs 1%positive (ds_node created_state) demo_ambassador eq_refl).
    destruct (into_frame _ _) as [node frame]. exact Hs.
Defined.
