(* ===== verification/System.v ===== *)
(** * The system: an RTI node and its federates

    [Server] and any number of [Ambassador]s, joined by transports.  A
    transport takes every frame it is given ([Backpressure] looks at those
    that do not), carries frames in order in both directions and may fail at
    any time on either side; [Transport] shows that the byte streams and message
    channels of [hla-wire] are such transports.  A federate dials, reads the
    answer of the handshake as [client_open_session] does, and from then on
    runs [spin_up_with_transport].  Other peers, which need not be ambassadors
    at all, may be connected to the same server.

    The steps of the server and of the federates interleave in every way. *)

From Stdlib Require Import String.
From S2P Require Import Prelude Float64 CoreTypes Framing Codec Fom Merge Exception Proto State Handles Routing.
From S2P Require Import Declaration Transport WireSession Handler FederationMgmt Persistence SaveRestore Dispatch Isolation.
From S2P Require Import Members Confinement Server Sessions Connections Answers Ledger FedHandles Callbacks Ambassador Requests.

Open Scope list_scope.

Section system.
Context {P : Prost} {PC : ProstCalls} {X : QuickXml} {J : Serde} {O : Os}.
Context {PCl : ProstClient} {A : Type} `{F : FederateAmbassador A}.

(** A federate: waiting for the answer to its first frame, connected with the
    events since then, or turned away. *)
Inductive Peer :=
| Dialling (callbacks : A)
| Connected (sid : Z) (callbacks : A) (es : list AmbassadorEvent) (am : Ambassador A)
| Refused.

(** What the federate has put on the transport. *)
Definition peer_out (p : Peer) : list Frame :=
  match p with Connected _ _ _ am => new_session_frame :: am_sent am | _ => [new_session_frame] end.

(** A transport between a federate and a task of the server, as long as the
    task runs.  [lk_sent] is what the server has put on it; [lk_up] and
    [lk_down] are how many frames the server and the federate have read;
    [lk_log] the calls the server has executed for it. *)
Record Link := mkLink {
  lk_task : option positive;
  lk_sent : list Frame;
  lk_log : list Exec;
  lk_up : nat;
  lk_down : nat;
  lk_peer : Peer
}.

Record System := mkSystem { sys_server : Server; sys_links : gmap positive Link }.

Inductive SysEvent :=
(** a step of the server, other than reading from a federate's transport *)
| Sys_server (e : Event)
(** the federate [k] is at the other end of the connection of task [t] *)
| Sys_dial (k t : positive) (callbacks : A)
(** the server reads the next frame of federate [k], or fails to *)
| Sys_up (k : positive) (err : option CodecError)
(** federate [k] reads the next frame of the server, or fails to *)
| Sys_down (k : positive) (err : option CodecError)
(** federate [k] goes on *)
| Sys_client (k : positive) (e : AmbassadorEvent).

Definition linked (sys : System) (t : positive) : bool :=
  existsb (λ lk, bool_decide (lk_task lk = Some t)) (map_to_list (sys_links sys)).*2.

(** What the server has written by now is on the transports. *)
Definition sync (s : Server) (lk : Link) : Link :=
  match lk_task lk with
  | Some t =>
      match sv_tasks s !! t with
      | Some task => mkLink (Some t) (t_sent task) (lk_log lk) (lk_up lk) (lk_down lk) (lk_peer lk)
      | None => mkLink None (lk_sent lk) (lk_log lk) (lk_up lk) (lk_down lk) (lk_peer lk)
      end
  | None => lk
  end.
Definition sync_all (s : Server) (links : gmap positive Link) : System := mkSystem s (sync s <$> links).

(** What [source.recv_frame()] gives the server on a transport. *)
Definition up_result (lk : Link) (err : option CodecError) : option (result CodecError Frame) :=
  match err with Some e => Some (Err e) | None => Ok <$> peer_out (lk_peer lk) !! lk_up lk end.
Definition down_result (lk : Link) (err : option CodecError) : option (result CodecError Frame) :=
  match err with Some e => Some (Err e) | None => Ok <$> lk_sent lk !! lk_down lk end.

(** The server's part of an event. *)
Definition server_event (e : SysEvent) (sys : System) : option Event :=
  match e with
  | Sys_server e => Some e
  | Sys_up k err =>
      lk ← sys_links sys !! k; t ← lk_task lk; r ← up_result lk err;
      Some (Ev_task t (T_frame r))
  | _ => None
  end.

(** A frame the server has read, with the call it executed. *)
Definition read_up (t : positive) (r : result CodecError Frame) (s : Server) (lk : Link) : Link :=
  match r with
  | Ok _ => mkLink (lk_task lk) (lk_sent lk) (lk_log lk ++ executes t r s) (S (lk_up lk)) (lk_down lk) (lk_peer lk)
  | Err _ => lk
  end.

Definition set_peer (p : Peer) (lk : Link) : Link :=
  mkLink (lk_task lk) (lk_sent lk) (lk_log lk) (lk_up lk) (lk_down lk) p.
(** The federate has read what there was to read. *)
Definition read_down (r : result CodecError Frame) (p : Peer) (lk : Link) : Link :=
  mkLink (lk_task lk) (lk_sent lk) (lk_log lk) (lk_up lk)
    (match r with Ok _ => S (lk_down lk) | Err _ => lk_down lk end) p.

(** The handshake, from the answer on: [parse_new_session_status] and
    [spin_up_with_transport]. *)
Definition answered (r : result CodecError Frame) (callbacks : A) : Peer :=
  match map_err CodecErr r ≫= parse_new_session_status with
  | Ok ack => Connected (ack_session_id ack) callbacks [] (spin_up_with_transport (ack_session_id ack) callbacks)
  | Err _ => Refused
  end.

Definition client_step (e : AmbassadorEvent) (p : Peer) : option Peer :=
  match p with
  | Connected sid a es am => am' ← ambassador_step e am; Some (Connected sid a (es ++ [e]) am')
  | _ => None
  end.

Definition reads (e : AmbassadorEvent) : bool := match e with A_recv _ => true | _ => false end.

Definition sys_step (e : SysEvent) (sys : System) : option System :=
  let s := sys_server sys in
  match e with
  | Sys_server ev =>
      match ev with
      | Ev_task t (T_frame _) => if linked sys t then None else s' ← step ev s; Some (sync_all s' (sys_links sys))
      | _ => s' ← step ev s; Some (sync_all s' (sys_links sys))
      end
  | Sys_dial k t a =>
      task ← sv_tasks s !! t;
      match t_phase task, t_sent task, sys_links sys !! k with
      | Opening, [], None =>
          if linked sys t then None
          else Some (mkSystem s (<[k := mkLink (Some t) [] [] 0 0 (Dialling a)]> (sys_links sys)))
      | _, _, _ => None
      end
  | Sys_up k err =>
      lk ← sys_links sys !! k; t ← lk_task lk; r ← up_result lk err;
      s' ← step (Ev_task t (T_frame r)) s;
      Some (sync_all s' (<[k := read_up t r s lk]> (sys_links sys)))
  | Sys_down k err =>
      lk ← sys_links sys !! k; r ← down_result lk err;
      p ← match lk_peer lk with Dialling a => Some (answered r a) | p => client_step (A_recv r) p end;
      Some (mkSystem s (<[k := read_down r p lk]> (sys_links sys)))
  | Sys_client k ev =>
      if reads ev then None
      else lk ← sys_links sys !! k; p ← client_step ev (lk_peer lk);
           Some (mkSystem s (<[k := set_peer p lk]> (sys_links sys)))
  end.

(** The states of a system whose server started as [s0]. *)
Inductive sys_reachable (s0 : Server) : System → Prop :=
| sr_start : sys_reachable s0 (mkSystem s0 ∅)
| sr_step e sys sys' :
    sys_reachable s0 sys → (∀ ev, server_event e sys = Some ev → bounded ev (sys_server sys)) →
    sys_step e sys = Some sys' → sys_reachable s0 sys'.

(** The server's step in a step of the system. *)
Lemma sys_server_step e sys sys' :
  sys_step e sys = Some sys' →
  match server_event e sys with
  | Some ev => step ev (sys_server sys) = Some (sys_server sys')
  | None => sys_server sys' = sys_server sys
  end.
Proof.
  destruct e as [ev|k t a|k err|k err|k ev]; simpl.
  - intros Hs. assert (∃ s', step ev (sys_server sys) = Some s' ∧ sys' = sync_all s' (sys_links sys)) as (s' & Hstep & ->); [|done].
    destruct ev as [|t [|r| | | | |]| | | | | | |]; try (destruct (linked sys t); [done|]); apply bind_Some in Hs as (s' & ? & [= <-]); eauto.
  - intros (task & _ & Hs)%bind_Some. repeat case_match; by simplify_eq.
  - destruct (sys_links sys !! k) as [lk|]; simpl; [|done]. destruct (lk_task lk) as [t|]; simpl; [|done].
    destruct (up_result lk err) as [r|]; simpl; [|done]. intros (s' & Hstep & [= <-])%bind_Some. done.
  - intros (lk & _ & (r & _ & (p & _ & [= <-])%bind_Some)%bind_Some)%bind_Some. done.
  - destruct (reads ev); [done|]. intros (lk & _ & (p & _ & [= <-])%bind_Some)%bind_Some. done.
Qed.

(** The server of the system runs as the server does on its own. *)
Lemma sys_reachable_server s0 sys : sys_reachable s0 sys → ∃ lossy, reachable s0 lossy (sys_server sys).
Proof.
  intros Hr. induction Hr as [|e sys sys' Hr [lossy IH] Hb Hs]; [eexists; constructor|].
  apply sys_server_step in Hs. destruct (server_event e sys) as [ev|]; [|rewrite Hs; eauto].
  eexists. econstructor; [exact IH|by apply Hb|done].
Qed.

(** ** What is under way *)

(** The frames the pump of a connection has read. *)
Definition read_frames (es : list AmbassadorEvent) : list Frame :=
  omap (λ e, match e with A_recv (Ok f) => Some f | _ => None end) es.

(** The responses the federate has read. *)
Definition heard (lk : Link) : list Frame := responses (take (lk_down lk) (lk_sent lk)).

(** A connection agrees with what its federate and the server did so far:
    [am] is the connection after [es], of which the first frame was the
    answer of the handshake, and a call still waits only if its response is
    not among those heard. *)
Definition peer_ok (lk : Link) (p : Peer) : Prop :=
  match p with
  | Dialling _ => lk_down lk = 0%nat
  | Connected sid a es am =>
      ambassador_steps es (spin_up_with_transport sid a) = Some am ∧
      (∃ f0, take (lk_down lk) (lk_sent lk) = f0 :: read_frames es ∧ ¬ is_response f0) ∧
      (unwrapped am → ∀ id c, am_calls am !! id = Some c → waiting c →
         c_seq c ∉ take (length (heard lk)) (numbers (requests (outbox am))))
  | Refused => True
  end.

Record link_ok (s : Server) (lk : Link) : Prop := {
  lo_task t : lk_task lk = Some t → ∃ task, sv_tasks s !! t = Some task ∧ lk_sent lk = t_sent task ∧
    task_ok (lk_log lk) s task ∧ t_phase task ≠ Upgrading ∧ (t_phase task = Opening → lk_up lk = 0%nat);
  lo_sent : responses (lk_sent lk) `prefix_of` exec_frame <$> lk_log lk;
  lo_up : x_frame <$> lk_log lk = requests (take (lk_up lk) (peer_out (lk_peer lk)));
  lo_read : (lk_up lk ≤ length (peer_out (lk_peer lk)))%nat;
  lo_down : (lk_down lk ≤ length (lk_sent lk))%nat;
  lo_peer : peer_ok lk (lk_peer lk)
}.

(** Links have tasks of their own. *)
Definition links_apart (links : gmap positive Link) : Prop :=
  ∀ k k' lk lk' t, links !! k = Some lk → links !! k' = Some lk' →
    lk_task lk = Some t → lk_task lk' = Some t → k = k'.
Record sys_ok (sys : System) : Prop := {
  sk_links k lk : sys_links sys !! k = Some lk → link_ok (sys_server sys) lk;
  sk_apart : links_apart (sys_links sys)
}.

Lemma linked_false sys t :
  linked sys t = false ↔ ∀ k lk, sys_links sys !! k = Some lk → lk_task lk ≠ Some t.
Proof.
  unfold linked. rewrite <-not_true_iff_false, existsb_exists. split.
  - intros Hn k lk Hk Ht. apply Hn. exists lk. split; [|by apply bool_decide_eq_true_2].
    apply list_elem_of_In, list_elem_of_fmap. exists (k, lk). split; [done|]. by apply elem_of_map_to_list.
  - intros Hf (lk & Hin & Ht%bool_decide_eq_true). apply list_elem_of_In, list_elem_of_fmap in Hin as ([k lk'] & -> & Hin).
    apply elem_of_map_to_list in Hin. by apply (Hf k lk').
Qed.

Lemma heard_read lk sid a es am : peer_ok lk (Connected sid a es am) → responses (read_frames es) = heard lk.
Proof.
  intros (_ & (f0 & E & Hf0) & _). unfold heard. rewrite E. change (f0 :: read_frames es) with ([f0] ++ read_frames es).
  by rewrite responses_app, (responses_other _ Hf0).
Qed.

(** The requests heard of, executed and sent are prefixes of each other. *)
Lemma heard_log s lk : link_ok s lk → heard lk `prefix_of` exec_frame <$> lk_log lk.
Proof. intros Hl. etransitivity; [|apply (lo_sent _ _ Hl)]. apply responses_prefix, prefix_take. Qed.

Lemma log_sent s lk sid a es am :
  link_ok s lk → lk_peer lk = Connected sid a es am → x_frame <$> lk_log lk `prefix_of` requests (am_sent am).
Proof.
  intros Hl Hp. rewrite (lo_up _ _ Hl), Hp. simpl. change (requests (am_sent am)) with (requests (new_session_frame :: am_sent am)).
  apply requests_prefix, prefix_take.
Qed.

Lemma heard_length s lk sid a es am :
  link_ok s lk → lk_peer lk = Connected sid a es am →
  (length (heard lk) ≤ length (lk_log lk) ≤ length (requests (am_sent am)))%nat.
Proof.
  intros Hl Hp. pose proof (prefix_length _ _ (heard_log _ _ Hl)) as H1. pose proof (prefix_length _ _ (log_sent _ _ _ _ _ _ Hl Hp)) as H2.
  rewrite !length_fmap in *. lia.
Qed.

(** ** The server's steps *)

Lemma link_server ev s s' lk new up fs :
  node_wf (sv_node s) → bounded ev s → conn_ok s → sends_ok s → step ev s = Some s' → link_ok s lk →
  (∀ t, lk_task lk = Some t → new = executed_by ev t s) → (lk_task lk = None → new = []) →
  take up (peer_out (lk_peer lk)) = take (lk_up lk) (peer_out (lk_peer lk)) ++ fs → x_frame <$> new = requests fs →
  (up ≤ length (peer_out (lk_peer lk)))%nat → (∀ t, lk_task lk = Some t → takes_step ev t = false → up = lk_up lk) →
  link_ok s' (sync s' (mkLink (lk_task lk) (lk_sent lk) (lk_log lk ++ new) up (lk_down lk) (lk_peer lk))).
Proof.
  intros Hwf Hb Hok Hs Hstep [H1 H2 H3 H4 H5 H6] Hnew Hnone Hup Hreq Hle Hstay.
  assert (Hpre : responses (lk_sent lk) `prefix_of` exec_frame <$> (lk_log lk ++ new)) by (rewrite fmap_app; by apply prefix_app_r).
  assert (Hlog : x_frame <$> (lk_log lk ++ new) = requests (take up (peer_out (lk_peer lk))))
    by (by rewrite fmap_app, H3, Hreq, Hup, requests_app).
  unfold sync. cbn [lk_task lk_log lk_up lk_down lk_peer lk_sent]. destruct (lk_task lk) as [t|] eqn:Hlt; [|by split].
  destruct (sv_tasks s' !! t) as [task'|] eqn:Ht'; [|by split].
  destruct (H1 t eq_refl) as (task & Ht & Hsent & Htok & Hup0 & Hopen).
  destruct (step_answers ev s s' t task task' _ Hwf Hb Hok Hs Hstep Ht Ht' Htok) as (Htok' & Hsp & Hadv).
  rewrite <-(Hnew t eq_refl) in Htok'. rewrite Hsent in *.
  split; cbn [lk_task lk_log lk_up lk_down lk_peer lk_sent]; try done.
  - intros t0 [= <-]. exists task'. split_and!; try done.
    + destruct (takes_step ev t); [|by subst]. intros Hp. rewrite Hp in Hadv. by specialize (Hadv eq_refl); simpl in Hadv; lia.
    + intros Hp. destruct (takes_step ev t) eqn:Hts.
      * rewrite Hp in Hadv. specialize (Hadv eq_refl). destruct (t_phase task); simpl in Hadv; (done || lia).
      * subst task'. rewrite (Hstay t eq_refl Hts). auto.
  - apply (to_sent _ _ _ Htok').
  - apply prefix_length in Hsp. lia.
  - assert (E : take (lk_down lk) (t_sent task') = take (lk_down lk) (lk_sent lk)).
    { destruct Hsp as [k ->]. rewrite Hsent. by rewrite take_app_le. }
    unfold peer_ok, heard in *. cbn [lk_down lk_sent]. rewrite E. exact H6.
Qed.

Lemma apart_sync s links : links_apart links → links_apart (sync s <$> links).
Proof.
  intros Ha k k' lk lk' t. rewrite !lookup_fmap_Some. intros (l1 & <- & H1) (l2 & <- & H2).
  assert (Hs : ∀ l, lk_task (sync s l) = Some t → lk_task l = Some t).
  { intros l. unfold sync. destruct (lk_task l) as [t0|] eqn:E; [|congruence]. by destruct (sv_tasks s !! t0). }
  intros E1%Hs E2%Hs. eauto.
Qed.
Lemma apart_insert k lk lk' links :
  links_apart links → links !! k = Some lk → lk_task lk' = lk_task lk → links_apart (<[k := lk']> links).
Proof.
  intros Ha Hk Ht k1 k2 l1 l2 t. rewrite !lookup_insert_Some.
  intros [[<- <-]|[? H1]] [[<- <-]|[? H2]]; rewrite ?Ht; eauto.
Qed.

(** ** The federates' steps *)

(** The first requests of a connection do not change. *)
Lemma take_numbers n (am am' : Ambassador A) :
  am_sent am `prefix_of` am_sent am' → (n ≤ length (requests (am_sent am)))%nat →
  take n (numbers (requests (outbox am'))) = take n (numbers (requests (outbox am))).
Proof.
  intros [k Hk] Hn. unfold outbox. rewrite Hk, !requests_app, !numbers_app.
  rewrite <-app_assoc, !take_app_le by (unfold numbers; by rewrite length_fmap). done.
Qed.

Lemma sending_number sid es (am : Ambassador A) id c :
  sent_inv sid es am → am_calls am !! id = Some c → sending c → c_seq c ∉ numbers (requests (outbox am)).
Proof.
  intros Hi Hc Hs Hin. apply list_elem_of_fmap in Hin as (f & Hf & Hin).
  destruct (sn_out _ _ _ Hi f Hin) as (id' & c' & rq & Hc' & _ & -> & Hn). simpl in Hf.
  assert (id' = id) as -> by (by eapply (sn_inj _ _ _ Hi)). congruence.
Qed.

Lemma waits_kept s lk sid a es am e am' id c' :
  link_ok s lk → lk_peer lk = Connected sid a es am → ambassador_step e am = Some am' → unwrapped am' →
  am_calls am' !! id = Some c' → waiting c' →
  c_seq c' ∉ take (length (heard lk)) (numbers (requests (outbox am'))).
Proof.
  intros Hl Hp Hs Hun Hc' Hw. pose proof (heard_length _ _ _ _ _ _ Hl Hp) as Hlen.
  pose proof (lo_peer _ _ Hl) as Hpo. rewrite Hp in Hpo. destruct Hpo as (Hrun & _ & Hwait).
  assert (Hrun' : ambassador_steps (es ++ [e]) (spin_up_with_transport sid a) = Some am').
  { apply ambassador_steps_app. exists am. split; [done|]. simpl. by rewrite Hs. }
  destruct (waiting_before e am am' id c' Hs Hc' Hw) as [Hsend|(c & Hc & Hwc & ->)].
  - intros (i & Hi & _)%elem_of_take. apply list_elem_of_lookup_2 in Hi. revert Hi.
    eapply sending_number; [by eapply sent_steps|done|done].
  - rewrite (take_numbers _ am am'); [|by eapply sent_grows|lia]. apply (Hwait) with id; [|done|done].
    pose proof (calls_grow _ _ _ Hs). unfold unwrapped in *. lia.
Qed.

(** The federate's side of a link after a step that leaves the rest alone. *)
Lemma link_peer s lk sid a es am e am' down :
  link_ok s lk → lk_peer lk = Connected sid a es am → ambassador_step e am = Some am' →
  (down ≤ length (lk_sent lk))%nat →
  let lk' := mkLink (lk_task lk) (lk_sent lk) (lk_log lk) (lk_up lk) down (Connected sid a (es ++ [e]) am') in
  (∃ f0, take down (lk_sent lk) = f0 :: read_frames (es ++ [e]) ∧ ¬ is_response f0) →
  (unwrapped am' → ∀ id c, am_calls am' !! id = Some c → waiting c →
     c_seq c ∉ take (length (heard lk')) (numbers (requests (outbox am')))) →
  link_ok s lk'.
Proof.
  intros Hl Hp Hs Hd lk' Hread Hwait. pose proof (sent_grows _ _ _ Hs) as [k Hk].
  destruct Hl as [H1 H2 H3 H4 H5 H6]. rewrite Hp in H3, H4, H6. simpl in H3, H4. destruct H6 as (Hrun & _).
  split; cbn [lk_task lk_log lk_up lk_down lk_peer lk_sent peer_out lk']; try done.
  - rewrite H3, Hk. f_equal. change (new_session_frame :: am_sent am ++ k) with ((new_session_frame :: am_sent am) ++ k).
    by rewrite take_app_le.
  - rewrite Hk. simpl in *. rewrite length_app. lia.
  - split_and!; [|done|done]. apply ambassador_steps_app. exists am. split; [done|]. simpl. by rewrite Hs.
Qed.

Lemma link_client s lk ev p :
  link_ok s lk → reads ev = false → client_step ev (lk_peer lk) = Some p → link_ok s (set_peer p lk).
Proof.
  intros Hl Hr Hs. destruct (lk_peer lk) as [|sid a es am|] eqn:Hp; [done| |done]. simpl in Hs.
  apply bind_Some in Hs as (am' & Hs & [= <-]). pose proof (lo_peer _ _ Hl) as Hpo. rewrite Hp in Hpo. destruct Hpo as (_ & Hread & _).
  apply (link_peer s lk sid a es am ev am'); [done|done|done|apply (lo_down _ _ Hl)| |].
  - unfold read_frames. rewrite omap_app. simpl. destruct ev; try done; simpl; rewrite app_nil_r; exact Hread.
  - intros Hun id c Hc Hw. exact (waits_kept s lk sid a es am ev am' id c Hl Hp Hs Hun Hc Hw).
Qed.

Lemma read_response lk f :
  lk_sent lk !! lk_down lk = Some f → responses (take (S (lk_down lk)) (lk_sent lk)) = heard lk ++ responses [f].
Proof. intros Hf. by rewrite (take_S_r _ _ f), responses_app. Qed.

(** The response a federate reads next is to the first of its requests that
    is not answered. *)
Lemma next_response s lk sid a es am f :
  link_ok s lk → lk_peer lk = Connected sid a es am → lk_sent lk !! lk_down lk = Some f → is_response f →
  ∃ x, lk_log lk !! length (heard lk) = Some x ∧ f = exec_frame x ∧
    requests (am_sent am) !! length (heard lk) = Some (x_frame x).
Proof.
  intros Hl Hp Hf Hr. pose proof (lo_down _ _ Hl) as Hd.
  assert (Hpre : heard lk ++ [f] `prefix_of` exec_frame <$> lk_log lk).
  { replace (heard lk ++ [f]) with (responses (take (S (lk_down lk)) (lk_sent lk))).
    - etransitivity; [apply responses_prefix, prefix_take|apply (lo_sent _ _ Hl)].
    - rewrite (read_response lk f Hf). f_equal. unfold responses. by rewrite filter_cons_True. }
  destruct Hpre as [k Hk].
  assert (Hx : (exec_frame <$> lk_log lk) !! length (heard lk) = Some f).
  { rewrite Hk, <-app_assoc, lookup_app_r, Nat.sub_diag by lia. done. }
  apply list_lookup_fmap_Some in Hx as (x & -> & Hx). exists x. split_and!; [done|done|].
  destruct (log_sent _ _ _ _ _ _ Hl Hp) as [k' ->]. apply lookup_app_l_Some. by rewrite list_lookup_fmap, Hx.
Qed.

Lemma request_number s lk sid a es am x :
  link_ok s lk → lk_peer lk = Connected sid a es am → unwrapped am → x ∈ lk_log lk →
  s_in 32 (sequence_number (header (x_frame x))).
Proof.
  intros Hl Hp Hun Hx. pose proof (lo_peer _ _ Hl) as Hpo. rewrite Hp in Hpo. destruct Hpo as (Hrun & _).
  pose proof (sent_steps _ _ _ _ Hrun Hun) as Hi.
  assert (Hin : x_frame x ∈ requests (outbox am)).
  { unfold outbox. rewrite requests_app. apply elem_of_app. left. destruct (log_sent _ _ _ _ _ _ Hl Hp) as [k ->].
    apply elem_of_app. left. apply list_elem_of_fmap. by exists x. }
  destruct (sn_out _ _ _ Hi _ Hin) as (id & c & rq & Hc & _ & -> & _). simpl. apply (sn_range _ _ _ Hi) in Hc.
  unfold unwrapped, MAX_SEQUENCE_NUMBER, i32_MAX in Hun. unfold s_in. simpl. lia.
Qed.

Lemma exec_frame_decode x :
  s_in 32 (sequence_number (header (x_frame x))) →
  HlaCallResponsePayload_decode (payload (exec_frame x)) =
    Ok {| response_to_sequence_number := sequence_number (header (x_frame x)); Framing.body := encode_response (exec_response x) |}.
Proof. intros Hs. by apply call_response_decode. Qed.

Lemma link_response s lk sid a es am f am' :
  link_ok s lk → lk_peer lk = Connected sid a es am → lk_sent lk !! lk_down lk = Some f → is_response f →
  ambassador_step (A_recv (Ok f)) am = Some am' → unwrapped am' →
  ∀ id c, am_calls am' !! id = Some c → waiting c →
    c_seq c ∉ take (S (length (heard lk))) (numbers (requests (outbox am'))).
Proof.
  intros Hl Hp Hf Hr Hs Hun id c Hc Hw. destruct (next_response _ _ _ _ _ _ _ Hl Hp Hf Hr) as (x & Hx & -> & Hreq).
  assert (Hun0 : unwrapped am) by (pose proof (calls_grow _ _ _ Hs); unfold unwrapped in *; lia).
  pose proof (request_number _ _ _ _ _ _ x Hl Hp Hun0 (list_elem_of_lookup_2 _ _ _ Hx)) as Hn.
  pose proof (lo_peer _ _ Hl) as Hpo. rewrite Hp in Hpo. destruct Hpo as (Hrun & _ & _).
  assert (Hnum : numbers (requests (outbox am')) !! length (heard lk) = Some (sequence_number (header (x_frame x)))).
  { destruct (sent_grows _ _ _ Hs) as [k Hk]. unfold outbox, numbers. rewrite Hk, !requests_app, !fmap_app, <-app_assoc.
    apply lookup_app_l_Some. by rewrite list_lookup_fmap, Hreq. }
  rewrite (take_S_r _ _ _ Hnum), elem_of_app, list_elem_of_singleton. intros [Hin|Heq].
  { revert Hin. by eapply waits_kept. }
  assert (Hrun' : ambassador_steps (es ++ [A_recv (Ok (exec_frame x))]) (spin_up_with_transport sid a) = Some am').
  { apply ambassador_steps_app. exists am. split; [done|]. cbn [ambassador_steps]. by rewrite Hs. }
  destruct (waiting_before _ am am' id c Hs Hc Hw) as [Hsend|(c0 & Hc0 & Hw0 & Hseq)].
  - apply (sending_number _ _ _ _ _ (sent_steps _ _ _ _ Hrun' Hun) Hc Hsend). rewrite Heq. by eapply list_elem_of_lookup_2.
  - pose proof (steps_inv _ _ _ _ Hrun) as Hci. pose proof (ci_waiting _ _ _ Hci _ _ Hc0 Hw0) as Hpen.
    pose proof (respond_lookup _ _ _ _ _ _ _ _ Hci Hr (exec_frame_decode x Hn) Hs Hc0) as Hl'.
    cbn [response_to_sequence_number] in Hl'. rewrite decide_True in Hl' by congruence. rewrite Hl' in Hc. injection Hc as <-.
    destruct Hw as [Hrx _]. unfold put in Hrx. rewrite (proj1 Hw0) in Hrx. done.
Qed.

Lemma link_down s lk err r p :
  link_ok s lk → down_result lk err = Some r →
  match lk_peer lk with Dialling a => Some (answered r a) | p => client_step (A_recv r) p end = Some p →
  link_ok s (read_down r p lk).
Proof.
  intros Hl Hr Hs.
  assert (Hf : ∀ f, r = Ok f → lk_sent lk !! lk_down lk = Some f).
  { intros f ->. destruct err; [done|]. by apply fmap_Some in Hr as (f' & Hf & [= <-]). }
  assert (Hd : ((match r with Ok _ => S (lk_down lk) | Err _ => lk_down lk end) ≤ length (lk_sent lk))%nat).
  { destruct r as [f|]; [|apply (lo_down _ _ Hl)]. apply (lookup_lt_Some _ _ f). by apply Hf. }
  destruct (lk_peer lk) as [a|sid a es am|] eqn:Hp; [| |done].
  - injection Hs as <-. pose proof (lo_peer _ _ Hl) as Hpo. destruct Hl as [H1 H2 H3 H4 H5 _]. rewrite Hp in H3, H4, Hpo. simpl in Hpo.
    assert (Hout : peer_out (answered r a) = [new_session_frame]).
    { unfold answered. by destruct (_ ≫= _). }
    split; cbn [lk_task lk_log lk_up lk_down lk_peer lk_sent read_down]; rewrite ?Hout; try done.
    unfold answered. destruct r as [f|]; [|done]. simpl. destruct (parse_new_session_status f) as [ack|] eqn:Hparse; [|done].
    split_and!; [done| |done]. exists f. cbn [lk_down lk_sent read_down].
    rewrite (take_S_r _ _ _ (Hf f eq_refl)), Hpo. split; [done|].
    intros Hresp. unfold parse_new_session_status in Hparse. rewrite Hresp in Hparse. done.
  - apply bind_Some in Hs as (am' & Hs & [= <-]). apply (link_peer s lk sid a es am (A_recv r) am'); try done.
    + pose proof (lo_peer _ _ Hl) as Hpo. rewrite Hp in Hpo. destruct Hpo as (_ & Hread & _).
      destruct Hread as (f0 & E & Hf0). exists f0. split; [|done]. unfold read_frames in *. rewrite omap_app.
      destruct r as [f|e]; simpl; [by rewrite (take_S_r _ _ _ (Hf f eq_refl)), E|by rewrite app_nil_r].
    + intros Hun id c Hc Hw. unfold heard. simpl. destruct r as [f|e].
      * rewrite (read_response lk f (Hf f eq_refl)). destruct (decide (is_response f)) as [Hr'|Hr'].
        -- replace (responses [f]) with [f] by (unfold responses; by rewrite filter_cons_True).
           rewrite length_app, Nat.add_1_r. by eapply link_response; eauto.
        -- rewrite (responses_other _ Hr'), app_nil_r. by eapply waits_kept.
      * by eapply (waits_kept s lk).
Qed.

(** ** Every reachable system *)

Lemma sys_ok_server s' ev sys :
  node_wf (sv_node (sys_server sys)) → bounded ev (sys_server sys) → conn_ok (sys_server sys) → sends_ok (sys_server sys) →
  step ev (sys_server sys) = Some s' → sys_ok sys →
  (∀ k lk t, sys_links sys !! k = Some lk → lk_task lk = Some t → executed_by ev t (sys_server sys) = []) →
  sys_ok (sync_all s' (sys_links sys)).
Proof.
  intros Hwf Hb Hok Hs Hstep [Hl Ha] Hno. split; [|by apply apart_sync].
  intros k lk'. simpl. rewrite lookup_fmap_Some. intros (lk & <- & Hk). pose proof (Hl _ _ Hk) as Hlk.
  pose proof (link_server ev (sys_server sys) s' lk [] (lk_up lk) [] Hwf Hb Hok Hs Hstep Hlk) as H.
  rewrite !app_nil_r in H. destruct lk. apply H; try done.
  - intros t Ht. symmetry. by eapply Hno.
  - apply (lo_read _ _ Hlk).
Qed.

Lemma sys_ok_up s' k lk t r err sys :
  node_wf (sv_node (sys_server sys)) → bounded (Ev_task t (T_frame r)) (sys_server sys) → conn_ok (sys_server sys) →
  sends_ok (sys_server sys) → step (Ev_task t (T_frame r)) (sys_server sys) = Some s' → sys_ok sys →
  sys_links sys !! k = Some lk → lk_task lk = Some t → up_result lk err = Some r →
  sys_ok (sync_all s' (<[k := read_up t r (sys_server sys) lk]> (sys_links sys))).
Proof.
  intros Hwf Hb Hok Hs Hstep [Hl Ha] Hk Ht Hr. split.
  2:{ apply apart_sync. eapply apart_insert; [done|done|]. unfold read_up. by destruct r. }
  intros k' lk'. simpl. rewrite lookup_fmap_Some. intros (lk1 & <- & Hk1).
  apply lookup_insert_Some in Hk1 as [[<- <-]|[Hne Hk1]].
  - pose proof (Hl _ _ Hk) as Hlk. destruct (lo_task _ _ Hlk t Ht) as (task & Htask & _ & _ & _ & Hopen).
    destruct r as [f|e].
    + assert (Hf : peer_out (lk_peer lk) !! lk_up lk = Some f).
      { destruct err; [done|]. by apply fmap_Some in Hr as (f' & Hf & [= <-]). }
      apply (link_server (Ev_task t (T_frame (Ok f))) (sys_server sys) s' lk _ _ [f]); try done.
      * intros t' Ht'. assert (t' = t) as -> by congruence. simpl. by rewrite decide_True.
      * congruence.
      * by apply take_S_r.
      * unfold executes. rewrite Htask. simpl.
        cbn [step] in Hstep. rewrite Htask in Hstep. simpl in Hstep. unfold task_step in Hstep.
        destruct (t_phase task) as [| |reply next|sid om|l|l c0 f0 after|l|sid c0|c0| |] eqn:Hp; try done.
        -- rewrite (Hopen eq_refl) in Hf. assert (f = new_session_frame) as -> by (destruct (lk_peer lk); simpl in Hf; congruence). done.
        -- case_decide as Hty; [by rewrite requests_one|by rewrite requests_other].
      * apply lookup_lt_Some in Hf. lia.
      * intros t' Ht'. simpl. rewrite bool_decide_eq_true_2 by congruence. done.
    + pose proof (link_server (Ev_task t (T_frame (Err e))) (sys_server sys) s' lk [] (lk_up lk) [] Hwf Hb Hok Hs Hstep Hlk) as H.
      rewrite !app_nil_r in H. destruct lk. apply H; try done; [|apply (lo_read _ _ Hlk)].
      intros t' _. simpl. by case_decide.
  - pose proof (Hl _ _ Hk1) as Hlk.
    pose proof (link_server (Ev_task t (T_frame r)) (sys_server sys) s' lk1 [] (lk_up lk1) [] Hwf Hb Hok Hs Hstep Hlk) as H.
    rewrite !app_nil_r in H. destruct lk1. apply H; try done; [|apply (lo_read _ _ Hlk)].
    intros t' Ht'. simpl. rewrite decide_False; [done|]. intros <-. apply Hne. by eapply Ha.
Qed.

Lemma sys_ok_step e sys sys' :
  node_wf (sv_node (sys_server sys)) → (∀ ev, server_event e sys = Some ev → bounded ev (sys_server sys)) →
  conn_ok (sys_server sys) → sends_ok (sys_server sys) → sys_ok sys → sys_step e sys = Some sys' → sys_ok sys'.
Proof.
  intros Hwf Hb Hok Hs Hsys. destruct e as [ev|k t a|k err|k err|k ev]; simpl.
  - assert (Hgo : (∀ k lk t, sys_links sys !! k = Some lk → lk_task lk = Some t → executed_by ev t (sys_server sys) = []) →
      ∀ sys', (s' ← step ev (sys_server sys); Some (sync_all s' (sys_links sys))) = Some sys' → sys_ok sys').
    { intros Hno sys1 (s' & Hstep & [= <-])%bind_Some. apply (sys_ok_server s' ev); try done. by apply Hb. }
    destruct ev as [|t [|r| | | | |]| | | | | | |]; try (apply Hgo; intros; simpl; try case_decide; done).
    destruct (linked sys t) eqn:Hln; [done|]. apply Hgo. intros k lk t' Hk Ht'. simpl. rewrite decide_False; [done|].
    intros <-. by eapply linked_false.
  - intros (task & Ht & Hstep)%bind_Some. destruct (t_phase task) eqn:Hp, (t_sent task) eqn:Hsent; try done.
    destruct (sys_links sys !! k) eqn:Hk; [done|]. destruct (linked sys t) eqn:Hln; [done|]. injection Hstep as <-.
    rewrite linked_false in Hln. destruct Hsys as [Hl Ha]. split; simpl.
    + intros k' lk. rewrite lookup_insert_Some. intros [[<- <-]|[_ Hk']]; [|by eapply Hl].
      split; simpl; try done; try lia. intros t0 [= <-]. exists task. rewrite Hsent, Hp. split_and!; try done.
      split; rewrite ?Hp, ?Hsent; done.
    + intros k1 k2 l1 l2 t0. rewrite !lookup_insert_Some. intros [[<- <-]|[? H1]] [[<- <-]|[? H2]]; simpl; eauto.
      * intros [= <-] E. by destruct (Hln _ _ H2).
      * intros E [= <-]. by destruct (Hln _ _ H1).
  - intros (lk & Hk & (t & Ht & (r & Hr & (s' & Hstep & [= <-])%bind_Some)%bind_Some)%bind_Some)%bind_Some.
    eapply sys_ok_up; try done. apply Hb. simpl. rewrite Hk. simpl. rewrite Ht. simpl. by rewrite Hr.
  - intros (lk & Hk & (r & Hr & (p & Hp & [= <-])%bind_Some)%bind_Some)%bind_Some. destruct Hsys as [Hl Ha]. split; simpl.
    + intros k' lk'. rewrite lookup_insert_Some. intros [[<- <-]|[_ Hk']]; [|by eapply Hl]. eapply link_down; eauto.
    + by eapply apart_insert.
  - destruct (reads ev) eqn:Hr; [done|]. intros (lk & Hk & (p & Hp & [= <-])%bind_Some)%bind_Some. destruct Hsys as [Hl Ha]. split; simpl.
    + intros k' lk'. rewrite lookup_insert_Some. intros [[<- <-]|[_ Hk']]; [|by eapply Hl]. eapply link_client; eauto.
    + by eapply apart_insert.
Qed.

(** A server nobody is connected to. *)
Definition idle (s0 : Server) : Prop := unconnected s0 ∧ sv_closed s0 = ∅ ∧ sv_heartbeats s0 = ∅.

Lemma sys_reachable_ok s0 sys :
  starts s0 → idle s0 → sys_reachable s0 sys →
  conn_ok (sys_server sys) ∧ sends_ok (sys_server sys) ∧ sys_ok sys.
Proof.
  intros Hs (Hu & Hcl & Hh) Hr. assert (Hserver : conn_ok (sys_server sys) ∧ sends_ok (sys_server sys)).
  { destruct (sys_reachable_server _ _ Hr) as [lossy Hr']. split; [by eapply reachable_conn|by eapply reachable_sends]. }
  destruct Hserver as [Hok Hsd]. split_and!; [done|done|]. clear Hok Hsd.
  induction Hr as [|e sys sys' Hr IH Hb Hstep]; [split; [|intros k k' lk lk' t]; simpl; intros *; by rewrite lookup_empty|].
  destruct (sys_reachable_server _ _ Hr) as [lossy Hr']. destruct (reachable_inv _ _ _ Hs Hr') as (Hwf & _).
  eapply (sys_ok_step e sys); try done; [by eapply reachable_conn|by eapply reachable_sends].
Qed.

(** ** Properties *)

(** The calls of the log are steps the server took. *)
Lemma log_executed s0 sys k lk x :
  sys_reachable s0 sys → sys_links sys !! k = Some lk → x ∈ lk_log lk →
  ∃ lossy t, reachable s0 lossy (x_server x) ∧ is_Some (step (Ev_task t (T_frame (Ok (x_frame x)))) (x_server x)).
Proof.
  intros Hr. revert k lk x. induction Hr as [|e sys sys' Hr IH Hb Hstep]; intros k lk x; [simpl; by rewrite lookup_empty|].
  assert (Hsync : ∀ s l, lk_log (sync s l) = lk_log l).
  { intros s l. unfold sync. destruct (lk_task l) as [t|]; [|done]. by destruct (sv_tasks s !! t). }
  destruct e as [ev|k0 t a|k0 err|k0 err|k0 ev]; simpl in Hstep.
  - assert (∃ s', sys' = sync_all s' (sys_links sys)) as [s' ->].
    { destruct ev as [|t [|r| | | | |]| | | | | | |]; try (destruct (linked sys t); [done|]);
        apply bind_Some in Hstep as (s' & _ & [= <-]); by eexists. }
    simpl. rewrite lookup_fmap_Some. intros (l & <- & Hl). rewrite Hsync. eauto.
  - apply bind_Some in Hstep as (task & _ & Hstep). repeat case_match; simplify_eq/=.
    rewrite lookup_insert_Some. intros [[<- <-]|[_ Hk]] Hx; [set_solver|eauto].
  - apply bind_Some in Hstep as (l0 & Hk0 & (t & Ht & (r & Hres & (s' & Hs & [= <-])%bind_Some)%bind_Some)%bind_Some).
    simpl. rewrite lookup_fmap_Some. intros (l & <- & Hl). rewrite Hsync.
    apply lookup_insert_Some in Hl as [[<- <-]|[_ Hl]]; [|eauto]. destruct r as [f|]; [|eauto].
    simpl. rewrite elem_of_app. intros [Hx|Hx]; [eauto|]. destruct (sys_reachable_server _ _ Hr) as [lossy Hsr].
    assert (x_server x = sys_server sys ∧ x_frame x = f) as [-> ->]; [|by eauto].
    unfold executes in Hx. destruct (t_phase <$> _) as [[]|]; try set_solver. case_decide; set_solver.
  - apply bind_Some in Hstep as (l0 & Hk0 & (r & _ & (p & _ & [= <-])%bind_Some)%bind_Some).
    simpl. rewrite lookup_insert_Some. intros [[<- <-]|[_ Hk]]; simpl; eauto.
  - destruct (reads ev); [done|]. apply bind_Some in Hstep as (l0 & Hk0 & (p & _ & [= <-])%bind_Some).
    simpl. rewrite lookup_insert_Some. intros [[<- <-]|[_ Hk]]; simpl; eauto.
Qed.

(** C3: a call is executed exactly once, and returns what that execution
    answered.  However the steps of the server, of this federate and of all
    others interleave, and wherever transports fail: the requests the server
    has executed for a federate are the first ones it sent, in that order and
    none twice; the responses the federate has read are the first ones of
    their answers; and a call that returned a response was executed once, on a
    state the server was in, with exactly its own request, and returned what
    the federate makes of the encoded answer of that execution.  The numbers
    of the calls must not have come round. *)
Theorem calls_exactly_once s0 sys k lk sid a es am :
  starts s0 → idle s0 → sys_reachable s0 sys →
  sys_links sys !! k = Some lk → lk_peer lk = Connected sid a es am →
  x_frame <$> lk_log lk `prefix_of` requests (am_sent am) ∧
  responses (read_frames es) `prefix_of` exec_frame <$> lk_log lk ∧
  (unwrapped am → ∀ id c r, am_calls am !! id = Some c → c_phase c = C_returned (Ok r) →
     ∃ i x rq, lk_log lk !! i = Some x ∧ A_call id rq ∈ es ∧
       x_frame x = hla_call_request_frame (c_seq c) sid 0 (encode_request rq) ∧
       (∃ lossy t, reachable s0 lossy (x_server x) ∧
          is_Some (step (Ev_task t (T_frame (Ok (x_frame x)))) (x_server x))) ∧
       call_result (encode_response (exec_response x)) = Ok r ∧
       ∀ j y, lk_log lk !! j = Some y → x_frame y = x_frame x → j = i).
Proof.
  intros Hs Hidle Hr Hk Hp. destruct (sys_reachable_ok s0 sys Hs Hidle Hr) as (_ & _ & Hok).
  pose proof (sk_links _ Hok _ _ Hk) as Hl. pose proof (lo_peer _ _ Hl) as Hpo. rewrite Hp in Hpo. pose proof (heard_read _ _ _ _ _ Hpo) as Hread. destruct Hpo as (Hrun & _).
  pose proof (log_sent _ _ _ _ _ _ Hl Hp) as Hlog. split_and!; [done|rewrite Hread; by eapply heard_log|].
  intros Hun id c r Hc Hph. pose proof (sent_steps _ _ _ _ Hrun Hun) as Hi.
  destruct (ci_returned _ _ _ (steps_inv _ _ _ _ Hrun) _ _ _ Hc Hph) as (b & (f & p & Hin & Hty & Hdec & Hseq & Hb) & Hres).
  assert (Hf : f ∈ exec_frame <$> lk_log lk).
  { destruct (heard_log _ _ Hl) as [rest ->]. apply elem_of_app. left. rewrite <-Hread.
    apply list_elem_of_filter. split; [done|]. apply list_elem_of_omap. by exists (A_recv (Ok f)). }
  apply list_elem_of_fmap in Hf as (x & -> & Hx). pose proof (request_number _ _ _ _ _ _ _ Hl Hp Hun Hx) as Hn.
  rewrite (exec_frame_decode x Hn) in Hdec. injection Hdec as <-. simpl in Hseq, Hb. subst b.
  assert (Hout : ∀ y, y ∈ lk_log lk → x_frame y ∈ requests (outbox am)).
  { intros y Hy. unfold outbox. rewrite requests_app. apply elem_of_app. left. destruct Hlog as [rest ->].
    apply elem_of_app. left. apply list_elem_of_fmap. by exists y. }
  destruct (sn_out _ _ _ Hi _ (Hout x Hx)) as (id' & c' & rq & Hc' & Hin' & Hfr & _).
  assert (id' = id) as -> by (eapply (sn_inj _ _ _ Hi); [done|done|]; rewrite Hfr in Hseq; done).
  assert (c' = c) as -> by congruence. apply list_elem_of_lookup in Hx as Hx'. destruct Hx' as [i Hxi].
  exists i, x, rq. split_and!; try done; [by eapply log_executed|].
  intros j y Hy Hxy. pose proof (sn_nodup _ _ _ Hi) as Hnd.
  assert (Hnum : ∀ j y, lk_log lk !! j = Some y → numbers (requests (outbox am)) !! j = Some (sequence_number (header (x_frame y)))).
  { intros j' y' Hy'. unfold outbox. rewrite requests_app, numbers_app. destruct Hlog as [rest ->]. unfold numbers.
    apply lookup_app_l_Some. rewrite fmap_app. apply lookup_app_l_Some. by rewrite !list_lookup_fmap, Hy'. }
  eapply (NoDup_lookup _ _ _ _ Hnd); [by apply Hnum|]. rewrite Hxy. by apply Hnum.
Qed.

(** What a frame does to the federate's own implementation. *)
Definition run_frame (a : A) (f : Frame) : A :=
  match message_type (header f) with
  | HlaCallbackRequest => match decode_callback (payload f) with Ok cb => dispatch_callback cb a | Err _ => a end
  | _ => a
  end.

Lemma step_callbacks e (am am' : Ambassador A) :
  ambassador_step e am = Some am' →
  am_callbacks am' = mkArc (foldl run_frame (arc_inner (am_callbacks am)) (read_frames [e])).
Proof.
  assert (Hid : am_callbacks am = mkArc (arc_inner (am_callbacks am))) by (by destruct (am_callbacks am)).
  destruct e as [i rq|i|i|i|ok|r|]; simpl.
  - destruct (am_calls am !! i); [done|]. intros [= <-]. unfold call_start, pending_insert.
    destruct (claim_next_outbound_seq _) as [seq next]. simpl. by destruct (am_pending am !! seq).
  - destruct (am_calls am !! i); [done|]. intros [= <-]. unfold disconnect_start. by destruct (claim_next_outbound_seq _).
  - intros (c & Hc & Hs)%bind_Some. revert Hs. unfold call_step. destruct (c_phase c) as [f after| |r| |]; [| |done..].
    + intros ([s1 ok] & Hf & [= <-])%bind_Some. apply frame_send_inv in Hf. rewrite Hf.
      destruct after; [done|]. unfold disconnect_finish. simpl. by destruct (am_pump am).
    + by destruct (c_rx c); intros [= <-].
  - intros (c & Hc & Hs)%bind_Some. by destruct (c_phase c); simplify_eq.
  - destruct (am_writer am), (am_frame_tx am); try done. intros [= <-]. by destruct ok.
  - destruct (am_pump am); try done. intros [= <-]. destruct r as [f|err]; simpl; [|done].
    unfold pump_frame, pending_remove, run_frame. destruct (message_type (header f)); try done.
    + destruct (HlaCallResponsePayload_decode (payload f)); [|done]. by destruct (am_pending am !! _).
    + destruct (decode_callback (payload f)) as [cb|]; [|done]. simpl. rewrite Hid. apply arc_dispatch.
  - destruct (am_pump am) as [|f| |]; try done. intros ([s1 ok] & Hf & [= <-])%bind_Some. apply frame_send_inv in Hf. by rewrite Hf.
Qed.

Lemma steps_callbacks sid a es (am : Ambassador A) :
  ambassador_steps es (spin_up_with_transport sid a) = Some am →
  am_callbacks am = mkArc (foldl run_frame a (read_frames es)).
Proof.
  revert am. induction es as [|e es IH] using rev_ind; intros am; [by intros [= <-]|].
  intros (am1 & H1 & (am' & Hs & [= <-])%bind_Some)%ambassador_steps_app. rewrite (step_callbacks _ _ _ Hs), (IH _ H1).
  unfold read_frames. by rewrite omap_app, foldl_app.
Qed.

(** The server's part of a run of the system is a run of the server. *)
Lemma sys_reachable_runs s0 sys : sys_reachable s0 sys → ∃ h, runs s0 h (sys_server sys).
Proof.
  intros Hr. induction Hr as [|e sys sys' Hr [h IH] Hb Hs]; [eexists; constructor|].
  apply sys_server_step in Hs. destruct (server_event e sys) as [ev|]; [|rewrite Hs; eauto].
  eexists. econstructor; [exact IH|by apply Hb|done].
Qed.

Lemma take_heard {B} n (sent : list B) reply arr : sent `prefix_of` reply :: arr → drop 1 (take n sent) `prefix_of` arr.
Proof.
  intros [k E]. destruct sent as [|x sent]; [by destruct n; apply prefix_nil|]. injection E as _ ->.
  destruct n as [|n]; [apply prefix_nil|]. simpl. rewrite drop_0. apply prefix_app_r, prefix_take.
Qed.

(** C12: callbacks run in the order in which the server's sessions sent them,
    each once, and none is invented.  What a federate's implementation has
    become is exactly what the callbacks make of it that it has read, run one
    after the other.  As long as the task of the federate's connection runs on
    the server, on every run of the server to this state, the frames it has
    read are the first ones that the channel of the connection took from the
    sessions and the heartbeat; and if the writer of the connection has not
    exited, the channel is empty and the transport read, they are all of
    them.  (When the writer has failed, frames the channel took are lost.) *)
Theorem callbacks_in_order s0 sys k lk sid a es am :
  starts s0 → idle s0 → sys_reachable s0 sys →
  sys_links sys !! k = Some lk → lk_peer lk = Connected sid a es am →
  arc_inner (am_callbacks am) = foldl run_frame a (drop 1 (take (lk_down lk) (lk_sent lk))) ∧
  (∃ h, runs s0 h (sys_server sys)) ∧
  ∀ h t task c,
    runs s0 h (sys_server sys) → lk_task lk = Some t → sv_tasks (sys_server sys) !! t = Some task →
    conn_of (t_phase task) = Some c →
    drop 1 (take (lk_down lk) (lk_sent lk)) `prefix_of` arrivals c h ∧
    (c ∉ sv_closed (sys_server sys) → queue (sys_server sys) c = [] → (length (lk_sent lk) ≤ lk_down lk)%nat →
     arc_inner (am_callbacks am) = foldl run_frame a (arrivals c h)).
Proof.
  intros Hs (Hu & Hcl & Hh) Hr Hk Hp. destruct (sys_reachable_ok s0 sys Hs (conj Hu (conj Hcl Hh)) Hr) as (_ & _ & Hok).
  pose proof (sk_links _ Hok _ _ Hk) as Hl. pose proof (lo_peer _ _ Hl) as Hpo. rewrite Hp in Hpo.
  destruct Hpo as (Hrun & (f0 & E & _) & _).
  assert (Hnow : arc_inner (am_callbacks am) = foldl run_frame a (drop 1 (take (lk_down lk) (lk_sent lk))))
    by (by rewrite E, (steps_callbacks _ _ _ _ Hrun)).
  split_and!; [done|by apply sys_reachable_runs|]. intros h t task c Hrs Ht Htask Hc.
  destruct (lo_task _ _ Hl t Ht) as (task1 & Ht1 & Hsent & _). assert (task1 = task) as -> by congruence.
  destruct (lg_conn _ _ (ledger_runs s0 h _ Hs Hu Hcl Hh Hrs) t task c Htask Hc) as (reply & Hpre & Hopen).
  rewrite Hnow, Hsent. split; [by eapply take_heard|]. intros Hncl Hq Hle. specialize (Hopen Hncl).
  rewrite Hq, app_nil_r in Hopen. by rewrite take_ge, Hopen.
Qed.

Definition enabled (e : SysEvent) (sys : System) : Prop := is_Some (sys_step e sys).

(** The session loop runs, or is about to. *)
Definition session_up (ph : Phase) : bool :=
  match ph with Registering _ _ | Serving _ | Sending _ _ _ _ => true | _ => false end.

(** The task [t] can go on, or the writer it waits for can. *)
Definition task_moves (t : positive) (task : Task) (sys : System) : Prop :=
  enabled (Sys_server (Ev_task t T_go)) sys ∨
  ∃ t' task' c, sv_tasks (sys_server sys) !! t' = Some task' ∧ conn_of (t_phase task') = Some c ∧
    c ∈ pending_targets (t_phase task) ∧ enabled (Sys_server (Ev_task t' (T_writer true))) sys.

(** Where a call that waits for the response to number [seq] is, and what
    moves it on. *)
Inductive under_way (k t : positive) (task : Task) (lk : Link) (am : Ambassador A) (sys : System) (seq : Z) : Prop :=
| Uw_channel f : f ∈ am_frame_tx am → is_request f → sequence_number (header f) = seq →
    enabled (Sys_client k (A_write true)) sys → under_way k t task lk am sys seq
| Uw_going_up f : f ∈ drop (lk_up lk) (peer_out (lk_peer lk)) → is_request f → sequence_number (header f) = seq →
    enabled (Sys_up k None) sys ∨ task_moves t task sys → under_way k t task lk am sys seq
| Uw_answering x : x ∈ lk_log lk → sequence_number (header (x_frame x)) = seq → exec_frame x ∈ own_send (t_phase task) →
    task_moves t task sys → under_way k t task lk am sys seq
| Uw_queued x c : x ∈ lk_log lk → sequence_number (header (x_frame x)) = seq → conn_of (t_phase task) = Some c →
    exec_frame x ∈ queue (sys_server sys) c → enabled (Sys_server (Ev_task t (T_writer true))) sys → under_way k t task lk am sys seq
| Uw_coming_down x : x ∈ lk_log lk → sequence_number (header (x_frame x)) = seq →
    exec_frame x ∈ drop (lk_down lk) (lk_sent lk) →
    enabled (Sys_down k None) sys ∨ enabled (Sys_client k A_pump) sys ∨ enabled (Sys_client k (A_write true)) sys →
    under_way k t task lk am sys seq.

Lemma enabled_server ev sys :
  match ev with Ev_task _ (T_frame _) => False | _ => True end → is_Some (step ev (sys_server sys)) → enabled (Sys_server ev) sys.
Proof.
  intros Hev [s' Hs]. unfold enabled. simpl.
  destruct ev as [|t [|r| | | | |]| | | | | | |]; try done; rewrite Hs; simpl; by eexists.
Qed.

Lemma task_goes_on t task sys :
  conn_ok (sys_server sys) → sv_tasks (sys_server sys) !! t = Some task → session_up (t_phase task) = true →
  (∀ l, t_phase task ≠ Serving l) → task_moves t task sys.
Proof.
  intros Hok Ht Hup Hns. destruct (t_phase task) as [| | |sid om|l|l c f after| | | | |] eqn:Hp; try done.
  - left. apply enabled_server; [done|]. cbn [step]. rewrite Ht. simpl. unfold task_step. rewrite Hp. by eexists.
  - by destruct (Hns l).
  - destruct (send_unblocked _ t task l c f after Hok Ht Hp) as [Hgo|(t' & task' & Ht' & Hc & Hw)].
    + left. by apply enabled_server.
    + right. exists t', task', c. rewrite Hp. split_and!; [done|done|by left|]. destruct (Hw true) as (s' & Hs & _).
      apply enabled_server; [done|by eexists].
Qed.

Lemma client_enabled k lk sid a es am e sys :
  sys_links sys !! k = Some lk → lk_peer lk = Connected sid a es am → reads e = false → is_Some (ambassador_step e am) →
  enabled (Sys_client k e) sys.
Proof. intros Hk Hp Hr [am' Hs]. unfold enabled. cbn [sys_step]. rewrite Hr, Hk. simpl. rewrite Hp. cbn [client_step]. rewrite Hs. simpl. by eexists. Qed.

Lemma write_enabled k lk sid a es am sys :
  sys_links sys !! k = Some lk → lk_peer lk = Connected sid a es am → am_writer am = true → am_frame_tx am ≠ [] →
  enabled (Sys_client k (A_write true)) sys.
Proof.
  intros Hk Hp Hw Hq. eapply client_enabled; [done|done|done|]. simpl. rewrite Hw. destruct (am_frame_tx am); [done|by eexists].
Qed.

(** The pump can read, or make room for what it has to answer first. *)
Lemma pump_goes_on k lk sid a es am sys :
  sys_links sys !! k = Some lk → lk_peer lk = Connected sid a es am → am_writer am = true →
  am_pump am = P_running ∨ (∃ f, am_pump am = P_sending f) → (lk_down lk < length (lk_sent lk))%nat →
  enabled (Sys_down k None) sys ∨ enabled (Sys_client k A_pump) sys ∨ enabled (Sys_client k (A_write true)) sys.
Proof.
  intros Hk Hp Hw Hpump Hd. destruct Hpump as [Hrun|[f Hf]].
  - left. apply lookup_lt_is_Some in Hd as [f Hf]. unfold enabled. cbn [sys_step]. rewrite Hk. simpl. rewrite Hf, Hp. simpl.
    rewrite Hrun. by eexists.
  - right. destruct (decide (length (am_frame_tx am) < FRAME_CAPACITY)%nat) as [Hl|Hl].
    + left. eapply client_enabled; [done|done|done|]. cbn [ambassador_step]. rewrite Hf, (frame_send_room _ _ Hw Hl). by eexists.
    + right. eapply write_enabled; [done|done|done|]. intros E. rewrite E in Hl. unfold FRAME_CAPACITY in Hl. simpl in Hl. lia.
Qed.

Lemma up_enabled k lk t task l f sys :
  sys_links sys !! k = Some lk → lk_task lk = Some t → sv_tasks (sys_server sys) !! t = Some task → t_phase task = Serving l →
  shutdown_flag (sv_node (sys_server sys)) = false → f ∈ drop (lk_up lk) (peer_out (lk_peer lk)) → enabled (Sys_up k None) sys.
Proof.
  intros Hk Ht Htask Hp Hsd Hf. apply list_elem_of_lookup in Hf as [j Hj]. rewrite lookup_drop in Hj.
  assert (Hlt : (lk_up lk < length (peer_out (lk_peer lk)))%nat) by (apply lookup_lt_Some in Hj; lia).
  apply lookup_lt_is_Some in Hlt as [g Hg]. unfold enabled. cbn [sys_step]. rewrite Hk. simpl. rewrite Ht. simpl. rewrite Hg. simpl.
  rewrite Htask. simpl. unfold task_step. rewrite Hp, Hsd. simpl. by eexists.
Qed.

(** The request of a call that waits, among those sent. *)
Lemma waiting_request s lk sid a es am id c :
  link_ok s lk → lk_peer lk = Connected sid a es am → unwrapped am → am_writer am = true →
  am_calls am !! id = Some c → c_phase c = C_awaiting → c_rx c = Os_empty →
  ∃ i f, requests (outbox am) !! i = Some f ∧ sequence_number (header f) = c_seq c ∧ (length (heard lk) ≤ i)%nat.
Proof.
  intros Hl Hp Hun Hw Hc Hph Hrx. pose proof (lo_peer _ _ Hl) as Hpo. rewrite Hp in Hpo. destruct Hpo as (Hrun & _ & Hwait).
  pose proof (sn_wait _ _ _ (sent_steps _ _ _ _ Hrun Hun) _ _ Hw Hc Hph) as Hin.
  apply list_elem_of_lookup in Hin as [i Hi]. pose proof Hi as Hi'. apply list_lookup_fmap_Some in Hi' as (f & Hseq & Hf).
  exists i, f. split_and!; [done|done|]. destruct (decide (length (heard lk) ≤ i)%nat) as [|Hlt]; [done|exfalso].
  apply (Hwait Hun id c Hc); [split; [done|by left]|]. apply elem_of_take. exists i. split; [done|lia].
Qed.

(** A request the server has not executed is on its way to it. *)
Lemma unexecuted s lk sid a es am i f :
  link_ok s lk → lk_peer lk = Connected sid a es am → requests (outbox am) !! i = Some f → (length (lk_log lk) ≤ i)%nat →
  is_request f ∧ (f ∈ drop (lk_up lk) (peer_out (lk_peer lk)) ∨ f ∈ am_frame_tx am).
Proof.
  intros Hl Hp Hf Hi. apply list_elem_of_lookup_2 in Hf as Hreq. apply list_elem_of_filter in Hreq as [Hreq _]. split; [done|].
  assert (E : requests (outbox am) = (x_frame <$> lk_log lk) ++ requests (drop (lk_up lk) (peer_out (lk_peer lk))) ++ requests (am_frame_tx am)).
  { rewrite (lo_up _ _ Hl), app_assoc, <-requests_app, take_drop, Hp. unfold outbox. by rewrite requests_app. }
  rewrite E, lookup_app_r in Hf by (by rewrite length_fmap). apply list_elem_of_lookup_2 in Hf.
  rewrite <-requests_app in Hf. apply list_elem_of_filter in Hf as [_ Hf]. by apply elem_of_app in Hf.
Qed.

(** The answer to a request that was executed and not heard of is on its way back. *)
Lemma unheard s lk task i x :
  link_ok s lk → task_ok (lk_log lk) s task → lk_sent lk = t_sent task → session_up (t_phase task) = true →
  (∀ c, conn_of (t_phase task) = Some c → c ∉ sv_closed s) → lk_log lk !! i = Some x → (length (heard lk) ≤ i)%nat →
  exec_frame x ∈ drop (lk_down lk) (lk_sent lk) ∨
  (∃ c, conn_of (t_phase task) = Some c ∧ exec_frame x ∈ queue s c) ∨ exec_frame x ∈ own_send (t_phase task).
Proof.
  intros Hl Htok Hsent Hup Hcl Hx Hi. destruct (conn_of (t_phase task)) as [c|] eqn:Hc.
  2:{ destruct (to_before _ _ _ Htok) as [E _]; [by destruct (t_phase task)|]. by rewrite E in Hx. }
  pose proof (to_open _ _ _ Htok c Hc (Hcl c eq_refl)) as E.
  assert (Hf : (exec_frame <$> lk_log lk) !! i = Some (exec_frame x)) by (by rewrite list_lookup_fmap, Hx).
  rewrite <-E, <-Hsent, <-(take_drop (lk_down lk) (lk_sent lk)), responses_app, <-!app_assoc, lookup_app_r in Hf by exact Hi.
  apply list_elem_of_lookup_2 in Hf. rewrite <-!responses_app in Hf. apply list_elem_of_filter in Hf as [_ Hf].
  rewrite !elem_of_app in Hf. destruct Hf as [?|[?|?]]; eauto.
Qed.

(** C7: no call is lost and none is stuck.  While a federate's connection and
    its session are up and no shutdown was requested, with fewer calls on the
    connection than sequence numbers, a call that waits for its response is at one
    of the places it passes - in the channel of the federate's writer, on the
    way to the server, with the task that answers it, in the channel of the
    server's writer, or on the way back - and at each place something that is
    no failure can move it on: full channels, this federate's or those of any
    other the server has callbacks for, never stop it for good, as long as
    the transports themselves take what is written and the federate's
    callbacks return. *)
Theorem no_call_stuck s0 sys k lk sid a es am t task id c :
  starts s0 → idle s0 → sys_reachable s0 sys →
  sys_links sys !! k = Some lk → lk_peer lk = Connected sid a es am → unwrapped am →
  am_writer am = true → am_pump am = P_running ∨ (∃ f, am_pump am = P_sending f) →
  lk_task lk = Some t → sv_tasks (sys_server sys) !! t = Some task → session_up (t_phase task) = true →
  (∀ c, conn_of (t_phase task) = Some c → c ∉ sv_closed (sys_server sys)) → shutdown_flag (sv_node (sys_server sys)) = false →
  am_calls am !! id = Some c → c_phase c = C_awaiting → c_rx c = Os_empty →
  under_way k t task lk am sys (c_seq c).
Proof.
  intros Hs Hidle Hr Hk Hp Hun Hw Hpump Ht Htask Hup Hcl Hsd Hc Hph Hrx.
  destruct (sys_reachable_ok s0 sys Hs Hidle Hr) as (Hco & _ & Hok). pose proof (sk_links _ Hok _ _ Hk) as Hl.
  destruct (waiting_request _ _ _ _ _ _ _ _ Hl Hp Hun Hw Hc Hph Hrx) as (i & f & Hf & Hseq & Hi).
  destruct (decide (length (lk_log lk) ≤ i)%nat) as [Hlog|Hlog].
  - destruct (unexecuted _ _ _ _ _ _ _ _ Hl Hp Hf Hlog) as [Hreq [Hin|Hin]].
    + apply (Uw_going_up _ _ _ _ _ _ _ f); try done. destruct (t_phase task) as [| | |sid' om|l|l c0 f0 after| | | | |] eqn:Hph'; try done.
      * right. apply task_goes_on; rewrite ?Hph'; done.
      * left. by eapply up_enabled.
      * right. apply task_goes_on; rewrite ?Hph'; done.
    + apply (Uw_channel _ _ _ _ _ _ _ f); try done. eapply write_enabled; [done|done|done|]. intros E. rewrite E in Hin. set_solver.
  - apply Nat.nle_gt in Hlog. apply lookup_lt_is_Some in Hlog as [x Hx]. apply list_elem_of_lookup_2 in Hx as Hxin.
    assert (Hseqx : sequence_number (header (x_frame x)) = c_seq c).
    { assert (Hfx : requests (outbox am) !! i = Some (x_frame x)); [|congruence].
      unfold outbox. rewrite requests_app. apply lookup_app_l_Some. destruct (log_sent _ _ _ _ _ _ Hl Hp) as [rest ->].
      apply lookup_app_l_Some. by rewrite list_lookup_fmap, Hx. }
    destruct (lo_task _ _ Hl t Ht) as (task' & Ht' & Hsent & Htok & _). assert (task' = task) as -> by congruence.
    destruct (unheard _ _ _ _ _ Hl Htok Hsent Hup Hcl Hx Hi) as [Hd|[(c0 & Hc0 & Hq)|Ho]].
    + apply (Uw_coming_down _ _ _ _ _ _ _ x); try done. eapply pump_goes_on; try done.
      apply list_elem_of_lookup in Hd as [j Hj]. rewrite lookup_drop in Hj. apply lookup_lt_Some in Hj. lia.
    + apply (Uw_queued _ _ _ _ _ _ _ x c0); try done. apply enabled_server; [done|].
      eapply writer_ready; [done|done|by apply Hcl|]. intros E. unfold queue in Hq. rewrite E in Hq. set_solver.
    + apply (Uw_answering _ _ _ _ _ _ _ x); try done. apply task_goes_on; [done|done|done|]. intros l E. rewrite E in Ho. set_solver.
Qed.
End system.

(** *** Witnesses *)

(** A federate that logs its callbacks asks the server of [Sessions] for the
    federations it has. *)
Definition list_client : ProstClient := {|
  encode_request r := match r with ListFederationExecutionsRequest => [x04] | _ => [x02] end;
  decode_response l := match l with [x01] => Ok (Some ListFederationExecutionsResponse) | _ => Err "?"%string end;
  decode_callback l := Ok (Some FederationSaved)
|}.
Notation demo_system := (System (A := list Logged)).
Notation demo_sys_event := (SysEvent (A := list Logged)).
Definition demo_sys_step : demo_sys_event → demo_system → option demo_system :=
  sys_step (P := demo_prost) (PC := demo_calls) (X := no_xml) (J := digit_serde) (O := reliable_os) (PCl := list_client).
Definition demo_sys_reachable : Server → demo_system → Prop :=
  sys_reachable (P := demo_prost) (PC := demo_calls) (X := no_xml) (J := digit_serde) (O := reliable_os) (PCl := list_client).

Fixpoint sys_trace (es : list demo_sys_event) (sys : demo_system) : option demo_system :=
  match es with
  | [] => Some sys
  | e :: es =>
      if from_option (λ ev, demo_bounded ev (sys_server sys)) true (server_event e sys)
      then sys' ← demo_sys_step e sys; sys_trace es sys' else None
  end.

Lemma sys_trace_reachable es s0 sys sys' :
  demo_sys_reachable s0 sys → sys_trace es sys = Some sys' → demo_sys_reachable s0 sys'.
Proof.
  revert sys. induction es as [|e es IH]; intros sys Hr; simpl; [by intros [= <-]|].
  destruct (from_option _ true (server_event e sys)) eqn:Hb; [|done].
  destruct (demo_sys_step e sys) as [sys1|] eqn:Hs; simpl; [|done]. apply IH. apply (sr_step s0 e sys sys1 Hr); [|exact Hs].
  intros ev Hev. rewrite Hev in Hb. by apply demo_bounded_ok.
Defined.

(** The federate connects and calls; the server has executed the call. *)
Definition connects : list demo_sys_event :=
  [Sys_server (Ev_accept L_tcp 9); Sys_dial 1 1 []; Sys_up 1 None; Sys_server (Ev_task 1 (T_reply (Ok tt)));
   Sys_down 1 None; Sys_server (Ev_task 1 T_go)].
Definition asks : list demo_sys_event :=
  [Sys_client 1 (A_call 1 ListFederationExecutionsRequest); Sys_client 1 (A_go 1); Sys_client 1 (A_write true); Sys_up 1 None].
(** The answer comes back. *)
Definition hears : list demo_sys_event :=
  [Sys_server (Ev_task 1 T_go); Sys_server (Ev_task 1 (T_writer true)); Sys_down 1 None; Sys_client 1 (A_go 1)].

Definition empty_system : demo_system := mkSystem (demo_server 100) ∅.
Definition asked_system : demo_system := default empty_system (sys_trace (connects ++ asks) empty_system).
Definition told_system : demo_system := default empty_system (sys_trace (connects ++ asks ++ hears) empty_system).
(** The report that follows the answer is called back, too. *)
Definition reports : list demo_sys_event :=
  [Sys_server (Ev_task 1 T_go); Sys_server (Ev_task 1 (T_writer true)); Sys_down 1 None].
Definition reported_system : demo_system := default empty_system (sys_trace (connects ++ asks ++ hears ++ reports) empty_system).
Definition link_of (sys : demo_system) : Link := default (mkLink None [] [] 0 0 Refused) (sys_links sys !! 1%positive).
Definition am_of (sys : demo_system) : Ambassador (list Logged) :=
  match lk_peer (link_of sys) with Connected _ _ _ am => am | _ => demo_ambassador end.
Definition events_of (sys : demo_system) : list AmbassadorEvent :=
  match lk_peer (link_of sys) with Connected _ _ es _ => es | _ => [] end.
Definition task_of (sys : demo_system) : Task := default (mkTask 0 0 Releasing []) (sv_tasks (sys_server sys) !! 1%positive).

Lemma demo_idle : idle (demo_server 100).
Proof. split_and!; [split|..]; reflexivity. Defined.
Lemma asked_reachable : demo_sys_reachable (demo_server 100) asked_system.
Proof. apply (sys_trace_reachable (connects ++ asks) _ empty_system); [apply sr_start|vm_compute; reflexivity]. Defined.
Lemma told_reachable : demo_sys_reachable (demo_server 100) told_system.
Proof. apply (sys_trace_reachable (connects ++ asks ++ hears) _ empty_system); [apply sr_start|vm_compute; reflexivity]. Defined.

Lemma reported_reachable : demo_sys_reachable (demo_server 100) reported_system.
Proof. apply (sys_trace_reachable (connects ++ asks ++ hears ++ reports) _ empty_system); [apply sr_start|vm_compute; reflexivity]. Defined.

Lemma callbacks_in_order_witness :
  arc_inner (am_callbacks (am_of reported_system)) =
    foldl (run_frame (PCl := list_client)) [] (drop 1 (take 3 (lk_sent (link_of reported_system)))) ∧
  arc_inner (am_callbacks (am_of reported_system)) = [L_call "federation_saved"] ∧
  ∃ h, runs (P := demo_prost) (PC := demo_calls) (X := no_xml) (J := digit_serde) (O := reliable_os)
         (demo_server 100) h (sys_server reported_system) ∧
    foldl (run_frame (PCl := list_client)) [] (arrivals 1%positive h) = [L_call "federation_saved"].
Proof.
  assert (Hlk : sys_links reported_system !! 1%positive = Some (link_of reported_system)) by (vm_compute; reflexivity).
  assert (Hp : lk_peer (link_of reported_system) = Connected 1 [] (events_of reported_system) (am_of reported_system)) by (vm_compute; reflexivity).
  destruct (callbacks_in_order (P := demo_prost) (PC := demo_calls) (X := no_xml) (J := digit_serde) (O := reliable_os)
    (PCl := list_client) (demo_server 100) reported_system 1 (link_of reported_system) 1 [] (events_of reported_system)
    (am_of reported_system) (demo_starts 100) demo_idle reported_reachable Hlk Hp) as (H & (h & Hr) & Hh).
  assert (Hend : arc_inner (am_callbacks (am_of reported_system)) = [L_call "federation_saved"]) by (vm_compute; reflexivity).
  split_and!; [exact H|exact Hend|]. exists h. split; [exact Hr|]. rewrite <-Hend. symmetry.
  assert (Ht : sv_tasks (sys_server reported_system) !! 1%positive = Some (task_of reported_system)) by (vm_compute; reflexivity).
  apply (Hh h 1%positive (task_of reported_system) 1%positive Hr); [vm_compute; reflexivity|exact Ht|vm_compute; reflexivity| | |vm_compute; lia].
  - assert (Hcl : sv_closed (sys_server reported_system) = ∅) by (vm_compute; reflexivity). rewrite Hcl. apply not_elem_of_empty.
  - vm_compute. reflexivity.
Defined.

Lemma calls_exactly_once_witness :
  ∃ i x rq, lk_log (link_of told_system) !! i = Some x ∧ A_call 1 rq ∈ events_of told_system ∧
    x_frame x = hla_call_request_frame 1 1 0 (encode_request (ProstClient := list_client) rq) ∧
    call_result (PC := list_client) (encode_response (ProstCalls := demo_calls)
      (exec_response (P := demo_prost) (PC := demo_calls) (X := no_xml) (J := digit_serde) (O := reliable_os) x)) =
      Ok ListFederationExecutionsResponse.
Proof.
  assert (Hlk : sys_links told_system !! 1%positive = Some (link_of told_system)) by (vm_compute; reflexivity).
  assert (Hp : lk_peer (link_of told_system) = Connected 1 [] (events_of told_system) (am_of told_system)) by (vm_compute; reflexivity).
  assert (Hc : am_calls (am_of told_system) !! 1%positive =
    Some (mkCall 1 (C_returned (Ok ListFederationExecutionsResponse)) (Os_sent [x01]))) by (vm_compute; reflexivity).
  assert (Hun : unwrapped (am_of told_system)) by (vm_compute; discriminate).
  destruct (calls_exactly_once (P := demo_prost) (PC := demo_calls) (X := no_xml) (J := digit_serde) (O := reliable_os)
    (PCl := list_client) (demo_server 100) told_system 1 (link_of told_system) 1 [] (events_of told_system) (am_of told_system)
    (demo_starts 100) demo_idle told_reachable Hlk Hp) as (_ & _ & H).
  destruct (H Hun _ _ _ Hc eq_refl) as (i & x & rq & Hx & Hin & Hf & _ & Hres & _). exists i, x, rq. split_and!; assumption.
Defined.

Lemma no_call_stuck_witness :
  under_way (P := demo_prost) (PC := demo_calls) (X := no_xml) (J := digit_serde) (O := reliable_os) (PCl := list_client)
    1 1 (task_of asked_system) (link_of asked_system) (am_of asked_system) asked_system 1.
Proof.
  assert (Hlk : sys_links asked_system !! 1%positive = Some (link_of asked_system)) by (vm_compute; reflexivity).
  assert (Hp : lk_peer (link_of asked_system) = Connected 1 [] (events_of asked_system) (am_of asked_system)) by (vm_compute; reflexivity).
  assert (Hc : am_calls (am_of asked_system) !! 1%positive = Some (mkCall 1 C_awaiting Os_empty)) by (vm_compute; reflexivity).
  assert (Hun : unwrapped (am_of asked_system)) by (vm_compute; discriminate).
  assert (Ht : sv_tasks (sys_server asked_system) !! 1%positive = Some (task_of asked_system)) by (vm_compute; reflexivity).
  assert (Hcl : sv_closed (sys_server asked_system) = ∅) by (vm_compute; reflexivity).
  apply (no_call_stuck (P := demo_prost) (PC := demo_calls) (X := no_xml) (J := digit_serde) (O := reliable_os)
    (PCl := list_client) (demo_server 100) asked_system 1 (link_of asked_system) 1 [] (events_of asked_system) (am_of asked_system)
    1 (task_of asked_system) 1 (mkCall 1 C_awaiting Os_empty) (demo_starts 100) demo_idle asked_reachable Hlk Hp Hun);
    try (vm_compute; reflexivity).
  - left. vm_compute. reflexivity.
  - intros c _. rewrite Hcl. apply not_elem_of_empty.
Defined.
