(* ===== verification/Backpressure.v ===== *)
(** * Transports with a capacity

    [System] lets a transport take every frame.  Sockets have buffers of some
    size: when one is full, the writer on that side waits.  This file looks at
    the system with transports of a given capacity, and at the cycle in which
    every part of a connection waits for the next. *)

From S2P Require Import Prelude Float64 CoreTypes Framing Codec Fom Merge Exception Proto State Handles Routing.
From S2P Require Import Declaration Transport WireSession Handler FederationMgmt Persistence SaveRestore Dispatch Isolation.
From S2P Require Import Members Confinement Server Sessions Connections Answers FedHandles Callbacks Ambassador Requests System.

(** The frames on a transport that the other side has not read. *)
Definition in_flight_up {A} (lk : Link (A := A)) : nat := (length (peer_out (lk_peer lk)) - lk_up lk)%nat.
Definition in_flight_down {A} (lk : Link (A := A)) : nat := (length (lk_sent lk) - lk_down lk)%nat.

(** The writer of an event has to wait: its transport holds [n] frames. *)
Definition held_back {A} (n : nat) (e : SysEvent (A := A)) (sys : System (A := A)) : bool :=
  match e with
  | Sys_client k (A_write true) => from_option (λ lk, (n <=? in_flight_up lk)%nat) false (sys_links sys !! k)
  | Sys_server (Ev_task t (T_writer true)) =>
      existsb (λ lk, bool_decide (lk_task lk = Some t) && (n <=? in_flight_down lk)%nat) (map_to_list (sys_links sys)).*2
  | _ => false
  end.

Definition step_within (n : nat) (e : demo_sys_event) (sys : demo_system) : option demo_system :=
  if held_back n e sys then None else demo_sys_step e sys.
Fixpoint run_within (n : nat) (es : list demo_sys_event) (sys : demo_system) : option demo_system :=
  match es with [] => Some sys | e :: es => sys' ← step_within n e sys; run_within n es sys' end.

(** A federate makes call [i], without waiting for others. *)
Definition call_begins (i : positive) : list demo_sys_event :=
  [Sys_client 1 (A_call i ListFederationExecutionsRequest); Sys_client 1 (A_go i)].
Definition call_arrives (i : positive) : list demo_sys_event := call_begins i ++ [Sys_client 1 (A_write true); Sys_up 1 None].
(** The server queues the response and the report. *)
Definition call_served (i : positive) : list demo_sys_event :=
  call_arrives i ++ [Sys_server (Ev_task 1 T_go); Sys_server (Ev_task 1 T_go)].

Definition heartbeat_out : list demo_sys_event :=
  [Sys_server (Ev_heartbeat_tick 1%positive); Sys_server (Ev_heartbeat_send 1%positive); Sys_server (Ev_task 1 (T_writer true))].
Definition ids (first count : nat) : list positive := Pos.of_nat <$> seq first count.

(** A heartbeat is on its way to the federate, which does not read for a
    while and keeps calling: the channel of the server's writer fills, the
    session loop waits for it, the transport and the channel of the
    federate's writer fill.  Then the federate reads the heartbeat. *)
Definition floods : list demo_sys_event :=
  connects ++ heartbeat_out ++ (ids 1 64 ≫= call_served) ++ call_arrives 65 ++
  call_begins 66 ++ [Sys_client 1 (A_write true)] ++ (ids 67 128 ≫= call_begins) ++
  [Sys_down 1 None; Sys_server (Ev_task 1 (T_writer true)); Sys_server (Ev_task 1 T_go)].

(** What could move the connection: the two writers, the two readers, the
    session loop (also for its liveness check, or on shutdown), the pump, the
    heartbeat, the calls. *)
Definition movers (calls : list positive) : list demo_sys_event :=
  [Sys_client 1 (A_write true); Sys_client 1 A_pump; Sys_up 1 None; Sys_down 1 None; Sys_server (Ev_task 1 T_go);
   Sys_server (Ev_task 1 (T_writer true)); Sys_server (Ev_task 1 T_liveness); Sys_server (Ev_task 1 T_cancelled);
   Sys_server (Ev_heartbeat_stop 1%positive)] ++ ((λ i, Sys_client 1 (A_go i)) <$> calls).
Definition stuck (n : nat) (calls : list positive) (sys : demo_system) : bool :=
  forallb (λ e, match step_within n e sys with None => true | Some _ => false end) (movers calls).

(** The pump answers a heartbeat through the channel of the federate's writer
    and reads nothing until it has room; the session loop sends through the
    channel of the server's writer and reads nothing until it has room.  With
    a federate that has enough calls under way the two wait for each other:
    nothing moves, 194 calls wait, and neither the liveness check nor a
    shutdown of the node reaches the session.  Here a transport holds one
    frame; a larger one only takes more calls. *)
Theorem full_transports_deadlock :
  match run_within 1 floods empty_system with
  | Some sys =>
      stuck 1 (ids 1 194) sys = true ∧
      stuck 1 (ids 1 194) (mkSystem (set_sv_node shutdown (sys_server sys)) (sys_links sys)) = true
  | None => False
  end.
Proof. vm_compute. split; reflexivity. Qed.
