(* ===== verification/Rtiexec.v ===== *)
(** * hla-cli: the rtiexec process

    [hla-cli/src/main.rs], with [RtiNode::run] and [serve] of
    [hla-rti/src/lib.rs]: the bind address, the task that waits for a signal,
    the accept loop and the end of the process.  [str::parse::<SocketAddr>] is
    the parser of the standard library, on characters. *)

From Stdlib Require Import String Ascii.
From stdpp Require Import pretty.
From S2P Require Import Prelude Float64 CoreTypes Framing Codec Transport WireSession Fom Merge Exception Proto State.
From S2P Require Import Handles Routing Declaration Handler FederationMgmt Persistence SaveRestore Dispatch Isolation.
From S2P Require Import Members Confinement Server Sessions Connections.

Open Scope list_scope.

(** ** [std::net::SocketAddr] *)

Inductive SocketAddr :=
| V4 (ip : list Z) (port : Z)
| V6 (ip : list Z) (port scope_id : Z).

(** A parser takes a prefix of its input or leaves it alone. *)
Definition Reader (A : Type) : Type := list ascii → option (A * list ascii).

Definition to_digit (radix : Z) (c : ascii) : option Z :=
  let n := Z.of_nat (nat_of_ascii c) in
  let d := if (48 <=? n) && (n <=? 57) then n - 48
           else if (97 <=? n) && (n <=? 122) then n - 87
           else if (65 <=? n) && (n <=? 90) then n - 55 else radix in
  if d <? radix then Some d else None.

Definition read_given_char (c : ascii) : Reader unit := λ s,
  match s with c' :: s => if Ascii.eqb c c' then Some (tt, s) else None | [] => None end.

(** The digits at the front, their value, or [None] past [max]. *)
Fixpoint read_digits (radix : Z) (acc : Z) (count : nat) (s : list ascii) : Z * nat * list ascii :=
  match s with
  | c :: s' =>
      match to_digit radix c with
      | Some d => read_digits radix (acc * radix + d) (S count) s'
      | None => (acc, count, s)
      end
  | [] => (acc, count, [])
  end.

(** [read_number]: [max] is the greatest value of the type. *)
Definition read_number (radix max : Z) (max_digits : option nat) (allow_zero_prefix : bool) : Reader Z := λ s,
  let '(n, count, rest) := read_digits radix 0 0 s in
  let leading_zero := match s with c :: _ => Ascii.eqb c "0" | [] => false end in
  if (count =? 0)%nat then None
  else if from_option (λ m, (m <? count)%nat) false max_digits then None
  else if negb allow_zero_prefix && leading_zero && (1 <? count)%nat then None
  else if max <? n then None
  else Some (n, rest).

Definition read_separator {A} (sep : ascii) (index : nat) (inner : Reader A) : Reader A := λ s,
  match index with
  | O => inner s
  | S _ => '(_, s) ← read_given_char sep s; inner s
  end.

Definition read_octet (i : nat) : Reader Z := read_separator "." i (read_number 10 255 (Some 3%nat) false).
Definition read_ipv4_addr : Reader (list Z) := λ s,
  '(a, s) ← read_octet 0 s; '(b, s) ← read_octet 1 s; '(c, s) ← read_octet 2 s; '(d, s) ← read_octet 3 s;
  Some ([a; b; c; d], s).

(** [read_groups]: [left] groups are still free; the groups read, and whether
    the last two were an IPv4 address. *)
Fixpoint read_groups (left i : nat) (s : list ascii) : list Z * bool * list ascii :=
  match left with
  | O => ([], false, s)
  | S left' =>
      match (if (1 <? left)%nat then read_separator ":" i read_ipv4_addr s else None) with
      | Some ([a; b; c; d], s) => ([a * 256 + b; c * 256 + d], true, s)
      | _ =>
          match read_separator ":" i (read_number 16 65535 (Some 4%nat) true) s with
          | Some (g, s) => let '(gs, v4, s) := read_groups left' (S i) s in (g :: gs, v4, s)
          | None => ([], false, s)
          end
      end
  end.

Definition read_ipv6_addr : Reader (list Z) := λ s,
  let '(head, head_ipv4, s) := read_groups 8 0 s in
  if (length head =? 8)%nat then Some (head, s)
  else if head_ipv4 then None
  else
    '(_, s) ← read_given_char ":" s; '(_, s) ← read_given_char ":" s;
    let '(tail, _, s) := read_groups (8 - (length head + 1)) 0 s in
    Some (head ++ replicate (8 - length head - length tail) 0 ++ tail, s).

Definition read_port : Reader Z := λ s,
  '(_, s) ← read_given_char ":" s; read_number 10 65535 None true s.
Definition read_scope_id : Reader Z := λ s,
  '(_, s) ← read_given_char "%" s; read_number 10 4294967295 None true s.

Definition read_socket_addr : Reader SocketAddr := λ s,
  match ('(ip, s) ← read_ipv4_addr s; '(port, s) ← read_port s; Some (V4 ip port, s)) with
  | Some r => Some r
  | None =>
      '(_, s) ← read_given_char "[" s; '(ip, s) ← read_ipv6_addr s;
      let '(scope_id, s) := default (0, s) (read_scope_id s) in
      '(_, s) ← read_given_char "]" s; '(port, s) ← read_port s; Some (V6 ip port scope_id, s)
  end.

(** [str::parse]: the whole text must be an address. *)
Definition parse_socket_addr (text : string) : option SocketAddr :=
  match read_socket_addr (list_ascii_of_string text) with Some (addr, []) => Some addr | _ => None end.

(** ** [Args] *)

Record Args := mkArgs { bind : string }.
(** [default_value_t = format!("0.0.0.0:{DEFAULT_PORT}")] *)
Definition default_bind : string := ("0.0.0.0:" +:+ pretty DEFAULT_PORT)%string.
(** What [Args::parse] makes of the value given with [--bind], if any. *)
Definition Args_parse (given : option string) : Args := mkArgs (default default_bind given).

(** The default is the unspecified address and the port of the standard; the
    parser is strict about what it takes. *)
Lemma default_bind_parses : parse_socket_addr (bind (Args_parse None)) = Some (V4 [0; 0; 0; 0] DEFAULT_PORT).
Proof. vm_compute. reflexivity. Qed.
Example parse_examples :
  parse_socket_addr "[::1]:8080" = Some (V6 [0; 0; 0; 0; 0; 0; 0; 1] 8080 0) ∧
  parse_socket_addr "[2001:db8::192.0.2.33%7]:1" = Some (V6 [8193; 3512; 0; 0; 0; 0; 49152; 545] 1 7) ∧
  parse_socket_addr "127.0.0.01:1" = None ∧ parse_socket_addr "127.0.0.1:65536" = None ∧
  parse_socket_addr "localhost:15164" = None ∧ parse_socket_addr "127.0.0.1:1 " = None.
Proof. vm_compute. split_and!; reflexivity. Qed.

(** ** [wait_for_shutdown_signal] *)

Inductive Why := Sigint | Sigterm | Handler_failed.

(** Where the function waits: for the handler of SIGTERM to be installed, for
    ctrl-c with its result ignored, for either signal, for ctrl-c (targets
    that are not Unix); or why it returned. *)
Inductive Waiter := W_install | W_ctrl_c_only | W_select | W_ctrl_c | W_returned (why : Why).

Definition wait_for_shutdown_signal (unix : bool) : Waiter := if unix then W_install else W_ctrl_c.

Inductive Signal := Installed (ok : bool) | Ctrl_c (r : result string unit) | Term.

Definition waiter_step (e : Signal) (w : Waiter) : option Waiter :=
  match w, e with
  | W_install, Installed true => Some W_select
  | W_install, Installed false => Some W_ctrl_c_only
  | W_ctrl_c_only, Ctrl_c _ => Some (W_returned Sigint)
  | W_select, Ctrl_c r | W_ctrl_c, Ctrl_c r =>
      Some (W_returned (match r with Ok _ => Sigint | Err _ => Handler_failed end))
  | W_select, Term => Some (W_returned Sigterm)
  | _, _ => None
  end.

(** ** [main] *)

Inductive RtiServerError := Bind (io : string) | Accept (io : string).

(** The main task: in [TcpListener::bind], in [accept_loop], or done. *)
Inductive MainPhase := M_bind | M_accept | M_exited (r : result RtiServerError unit).

(** [pr_told]: the spawned task has called [shutdown]. *)
Record Process := mkProcess {
  pr_addr : SocketAddr;
  pr_server : Server;
  pr_waiter : Waiter;
  pr_told : bool;
  pr_main : MainPhase
}.

(** [main], up to the first [await]: [None] when the address is not one. *)
Definition main (unix : bool) (given : option string) (disk : gmap string string) : option Process :=
  addr ← parse_socket_addr (bind (Args_parse given));
  Some (mkProcess addr (Server_new RtiNode_new disk) (wait_for_shutdown_signal unix) false M_bind).

Inductive ProcessEvent :=
| Pr_bind (r : result string unit)
| Pr_accept_failed (io : string)
| Pr_drain
| Pr_signal (e : Signal)
| Pr_shutdown
| Pr_server (e : Event).

(** The events of a server that only listens on TCP, is not administered and
    has no janitor: [main] spawns none. *)
Definition plain (e : Event) : bool :=
  match e with
  | Ev_accept L_ws _ | Ev_accept L_tls _ | Ev_admin _ | Ev_janitor_scan | Ev_janitor_expire => false
  | _ => true
  end.
Definition accepts (e : Event) : bool := match e with Ev_accept _ _ => true | _ => false end.

Section process.
Context {P : Prost} {PC : ProstCalls} {X : QuickXml} {J : Serde} {O : Os}.

(** [RtiNode::run] *)
Definition run_step (e : ProcessEvent) (p : Process) : option MainPhase :=
  let down := shutdown_flag (sv_node (pr_server p)) in
  match pr_main p, e with
  | M_bind, Pr_bind r => Some (match r with Ok _ => M_accept | Err io => M_exited (Err (Bind io)) end)
  | M_accept, Pr_drain => if down then Some (M_exited (Ok tt)) else None
  | M_accept, Pr_accept_failed io => if down then None else Some (M_exited (Err (Accept io)))
  | _, _ => None
  end.

Definition set_main (m : MainPhase) (p : Process) : Process :=
  mkProcess (pr_addr p) (pr_server p) (pr_waiter p) (pr_told p) m.

Definition exited (m : MainPhase) : bool := match m with M_exited _ => true | _ => false end.
Definition accepting (m : MainPhase) : bool := match m with M_accept => true | _ => false end.

(** The end of [main] ends every task. *)
Definition process_step (e : ProcessEvent) (p : Process) : option Process :=
  if exited (pr_main p) then None
  else match e with
  | Pr_bind _ | Pr_accept_failed _ | Pr_drain => m ← run_step e p; Some (set_main m p)
  | Pr_signal sig =>
      w ← waiter_step sig (pr_waiter p); Some (mkProcess (pr_addr p) (pr_server p) w (pr_told p) (pr_main p))
  | Pr_shutdown =>
      match pr_waiter p, pr_told p with
      | W_returned _, false =>
          Some (mkProcess (pr_addr p) (set_sv_node shutdown (pr_server p)) (pr_waiter p) true (pr_main p))
      | _, _ => None
      end
  | Pr_server ev =>
      if plain ev && (negb (accepts ev) || accepting (pr_main p))
      then s' ← step ev (pr_server p); Some (mkProcess (pr_addr p) s' (pr_waiter p) (pr_told p) (pr_main p))
      else None
  end.
Fixpoint process_steps (es : list ProcessEvent) (p : Process) : option Process :=
  match es with [] => Some p | e :: es => p' ← process_step e p; process_steps es p' end.

(** The server's part of an event. *)
Definition process_server_event (e : ProcessEvent) : option Event :=
  match e with Pr_server ev => Some ev | Pr_shutdown => Some (Ev_admin Admin_shutdown) | _ => None end.

Inductive process_reachable (p0 : Process) : Process → Prop :=
| pr_start : process_reachable p0 p0
| pr_step e p p' :
    process_reachable p0 p → (∀ ev, process_server_event e = Some ev → bounded ev (pr_server p)) →
    process_step e p = Some p' → process_reachable p0 p'.

(** ** Properties *)

Lemma write_flag t c w s s' : write_next t c w s = Some s' → shutdown_flag (sv_node s') = shutdown_flag (sv_node s).
Proof. unfold write_next. intros. repeat case_match; by simplify_eq. Qed.
Lemma send_flag c f s s' b : channel_send c f s = Some (s', b) → shutdown_flag (sv_node s') = shutdown_flag (sv_node s).
Proof. unfold channel_send. intros. repeat case_match; by simplify_eq. Qed.
Lemma deliver_flag t l cbs s : shutdown_flag (sv_node (deliver t l cbs s)) = shutdown_flag (sv_node s).
Proof.
  unfold deliver. destruct cbs as [|cb cbs]; [done|]. unfold into_frame. by destruct (claim_next_outbound_seq _).
Qed.

(** Only an administrator sets the flag. *)
Lemma task_flag t task e s s' :
  node_wf (sv_node s) → bounded (Ev_task t e) s → task_step t task e s = Some s' →
  shutdown_flag (sv_node s') = shutdown_flag (sv_node s).
Proof.
  intros Hwf Hb. unfold task_step.
  destruct (t_phase task) as [| |reply next|sid om|l|l c f after|l|sid c|c| |];
    destruct e as [ok|r|r| | |w|]; try done; cbn [conn_of mbind option_bind].
  all: try apply write_flag.
  - by destruct ok; intros [= <-].
  - destruct r as [f|]; intros [= <-]; [|done]. unfold first_frame. destruct (message_type (header f)); try done.
    + by destruct (new_session_reply _ _) as [[? []]|].
    + by destruct (restored_session _ _ _).
  - intros [= <-]. unfold reply_sent. destruct r as [[]|]; [|done]. by destruct next as [[]|].
  - by intros [= <-].
  - destruct (shutdown_flag _) eqn:Hd; [done|]. intros [= <-]. destruct r as [f|]; simpl; [|done].
    unfold on_frame. destruct (message_type (header f)); try done. unfold on_call. cbn [sl_ctx].
    destruct Hb as (Hleft & _ & Hsmall). pose proof (call_outcome_rest (sl_ctx l) (payload f) s Hwf Hleft Hsmall) as Hr.
    destruct (call_outcome _ _ _) as [ds r]. destruct (Hr r (length (ds_callbacks ds))) as (_ & _ & _ & E & _). by rewrite <-Hd.
  - destruct (shutdown_flag _) eqn:Hd; [done|]. intros [= <-]. unfold liveness_tick. by destruct (_ <? _).
  - destruct (shutdown_flag _) eqn:Hd; [|done]. by intros [= <-].
  - destruct (channel_send c f s) as [[s1 b]|] eqn:Hc; simpl; [|done]. intros [= <-]. rewrite <-(send_flag _ _ _ _ _ Hc).
    destruct after; [destruct b|..]; simpl; try done; apply deliver_flag.
  - intros [= <-]. unfold close_session. by destruct (membership (sl_ctx l)); [destruct (0 <? _)|].
  - by intros [= <-].
  - destruct (_ && _); [|done]. by intros [= <-].
  - intros [= <-]. unfold release_ip. by destruct (_ !! t_ip task) as [[|n]|].
  - by intros [= <-].
Qed.

Lemma step_flag e s s' :
  node_wf (sv_node s) → bounded e s → plain e = true → step e s = Some s' →
  shutdown_flag (sv_node s') = shutdown_flag (sv_node s).
Proof.
  intros Hwf Hb Hp. destruct e as [l ip|t e|c|c|c| | |d|a]; cbn [step]; [..|done].
  - destruct (shutdown_flag _) eqn:Hd; [done|]. intros [= <-]. destruct l; try done. simpl. unfold accept_loop.
    by destruct (check_limits _ _).
  - intros (task & Ht & Hs)%bind_Some. by eapply task_flag.
  - intros (h & _ & Hs)%bind_Some. destruct (hb_pending h); simplify_eq. unfold heartbeat_tick. by destruct (claim_next_outbound_seq _).
  - intros (h & _ & (f & _ & Hs)%bind_Some)%bind_Some. unfold heartbeat_send in Hs.
    destruct (channel_send c f s) as [[s1 []]|] eqn:Hc; simplify_eq; by apply send_flag in Hc.
  - intros (h & _ & Hs)%bind_Some. by destruct (hb_aborted h); simplify_eq.
  - destruct (sv_expired s); [|done]. destruct (shutdown_flag _) eqn:Hd; [done|]. by intros [= <-].
  - destruct (sv_expired s) as [|sid rest]; [done|]. intros [= <-]. unfold janitor_expire.
    destruct (_ !! sid) as [ss|]; [|done]. by destruct (ss_membership ss).
  - destruct (0 <=? d); [|done]. by intros [= <-].
Qed.

(** *** No reconnect window, no suspended sessions *)

Definition loop_of (ph : Phase) : option SessionLoop :=
  match ph with Serving l | Sending l _ _ _ | Ended l => Some l | _ => None end.
Definition no_window (ph : Phase) : Prop := ∀ l, loop_of ph = Some l → reconnect_window (sl_hb l) = 0.

Record windowless (s : Server) : Prop := {
  wl_node : reconnect_window (heartbeat (sv_node s)) = 0;
  wl_none : suspended_sessions (sv_node s) = ∅;
  wl_task t task : sv_tasks s !! t = Some task → no_window (t_phase task)
}.
Definition kept (s s' : Server) : Prop :=
  heartbeat (sv_node s') = heartbeat (sv_node s) ∧ suspended_sessions (sv_node s') = suspended_sessions (sv_node s).
Lemma kept_refl s : kept s s.
Proof. done. Qed.
#[local] Hint Resolve kept_refl : core.

Lemma windowless_same s s' : windowless s → kept s s' → sv_tasks s' = sv_tasks s → windowless s'.
Proof. intros [H1 H2 H3] [E1 E2] Ht. split; rewrite ?E1, ?E2, ?Ht; done. Qed.
Lemma windowless_delete t s s' : windowless s → kept s s' → sv_tasks s' = sv_tasks s → windowless (finish t s').
Proof.
  intros [H1 H2 H3] [E1 E2] Ht. split; simpl; rewrite ?E1, ?E2, ?Ht; [done|done|]. intros t' task [_ ?]%lookup_delete_Some. eauto.
Qed.
Lemma windowless_alter g t s s' :
  (∀ task, no_window (t_phase task) → no_window (t_phase (g task))) →
  windowless s → kept s s' → sv_tasks s' = alter g t (sv_tasks s) → windowless s'.
Proof.
  intros Hg [H1 H2 H3] [E1 E2] Ht. split; rewrite ?E1, ?E2, ?Ht; [done|done|]. intros t' task.
  rewrite lookup_alter_Some. intros [(_ & task0 & H0 & ->)|[_ H0]]; eauto.
Qed.
Lemma windowless_goto t ph s s' : windowless s → kept s s' → sv_tasks s' = sv_tasks s → no_window ph → windowless (goto t ph s').
Proof. intros Hw Hk Ht Hp. eapply (windowless_alter (set_phase ph) t s); [done|done|done|]. simpl. by rewrite Ht. Qed.

Lemma deliver_windowless t l cbs s :
  windowless s → reconnect_window (sl_hb l) = 0 → windowless (deliver t l cbs s).
Proof.
  intros Hw Hl. unfold deliver. destruct cbs as [|cb cbs]; [apply (windowless_goto _ _ s); [done..|by intros ? [= <-]]|].
  unfold into_frame. destruct (claim_next_outbound_seq _). apply (windowless_goto _ _ s); [done..|by intros ? [= <-]].
Qed.

Lemma task_windowless t task e s s' :
  node_wf (sv_node s) → bounded (Ev_task t e) s → sv_tasks s !! t = Some task →
  windowless s → task_step t task e s = Some s' → windowless s'.
Proof.
  intros Hwf Hb Ht Hw. pose proof (wl_task _ Hw t task Ht) as Hl. unfold task_step.
  assert (Hgo : ∀ ph s1, kept s s1 → sv_tasks s1 = sv_tasks s → loop_of ph = None ∨ loop_of ph = loop_of (t_phase task) →
    windowless (goto t ph s1)).
  { intros ph s1 Hk He Hph. apply (windowless_goto t ph s); [done..|]. intros l Hlo. apply Hl. destruct Hph; congruence. }
  assert (Hwr : ∀ c w, write_next t c w s = Some s' → windowless s').
  { intros c w. unfold write_next. case_decide; [done|]. destruct (frame_tx _); [destruct (has_sender _ _); [done|]|destruct w]; intros [= <-].
    - by apply (windowless_same s).
    - by apply (windowless_alter (add_sent f) t s).
    - by apply (windowless_same s). }
  destruct (t_phase task) as [| |reply next|sid om|l|l c f after|l|sid c|c| |];
    destruct e as [ok|r|r| | |w|]; try done; cbn [conn_of mbind option_bind]; try apply Hwr.
  all: try (assert (Hl0 : reconnect_window (sl_hb l) = 0) by (by apply Hl)).
  - destruct ok; intros [= <-]; [apply Hgo; (done || auto)|by apply (windowless_delete t s)].
  - destruct r as [f|]; intros [= <-]; [|apply Hgo; (done || auto)]. unfold first_frame. destruct (message_type (header f)); try (apply Hgo; (done || by auto)).
    + destruct (new_session_reply _ _) as [[? []]|]; apply Hgo; (done || auto).
    + assert (Hk : kept s (set_sv_node (set_suspended_sessions (delete (session_id (header f)))) s)).
      { split; [done|]. simpl. by rewrite (wl_none _ Hw), delete_empty. }
      destruct (restored_session _ _ _); apply Hgo; (done || auto).
  - intros [= <-]. unfold reply_sent. destruct r as [[]|]; [|apply Hgo; (done || auto)].
    assert (Hw1 : windowless (set_sv_tasks (alter (add_sent reply) t) s)) by (by apply (windowless_alter (add_sent reply) t s)).
    destruct next as [[]|]; by eapply (windowless_goto _ _ _ _ Hw1).
  - intros [= <-]. unfold register. eapply (windowless_goto t _ s); [done..|]. intros ? [= <-]. apply (wl_node _ Hw).
  - destruct (shutdown_flag _) eqn:Hd; [done|]. intros [= <-]. destruct r as [f|]; simpl; [|apply Hgo; (done || auto)].
    unfold on_frame. destruct (message_type (header f)); try (apply (windowless_goto t _ s); [done..|by intros ? [= <-]]).
    unfold on_call. cbn [sl_ctx sl_hb]. destruct Hb as (Hleft & _ & Hsmall).
    pose proof (call_outcome_rest (sl_ctx l) (payload f) s Hwf Hleft Hsmall) as Hr.
    destruct (call_outcome _ _ _) as [ds r]. destruct (Hr r (length (ds_callbacks ds))) as (_ & _ & _ & _ & E).
    apply (windowless_goto t _ s); [done|exact E|done|by intros ? [= <-]].
  - destruct (shutdown_flag _) eqn:Hd; [done|]. intros [= <-]. unfold liveness_tick. destruct (_ <? _); [apply Hgo; (done || auto)|done].
  - destruct (shutdown_flag _) eqn:Hd; [|done]. intros [= <-]. apply Hgo; (done || auto).
  - destruct (channel_send c f s) as [[s1 b]|] eqn:Hc; simpl; [|done]. intros [= <-].
    assert (Hk : kept s s1 ∧ sv_tasks s1 = sv_tasks s) by (unfold channel_send in Hc; by repeat case_match; simplify_eq).
    destruct Hk as [Hk He]. pose proof (windowless_same s s1 Hw Hk He) as Hw1.
    destruct after; [destruct b|..]; simpl; try (apply Hgo; (done || by auto)); by apply deliver_windowless.
  - intros [= <-]. unfold close_session. destruct (membership (sl_ctx l)); [|apply Hgo; (done || auto)]. rewrite Hl0. apply Hgo; (done || auto).
  - intros [= <-]. apply Hgo; (done || auto).
  - destruct (_ && _); [|done]. intros [= <-]. apply Hgo; (done || auto).
  - intros [= <-]. unfold release_ip. destruct (_ !! t_ip task) as [[|n]|]; first [apply Hgo; (done || by auto)|by apply (windowless_delete t s)].
  - intros [= <-]. by apply (windowless_delete t s).
Qed.

Lemma step_windowless e s s' :
  node_wf (sv_node s) → bounded e s → plain e = true → windowless s → step e s = Some s' → windowless s'.
Proof.
  intros Hwf Hb Hp Hw. destruct e as [l ip|t e|c|c|c| | |d|a]; try done; cbn [step].
  - destruct (shutdown_flag _) eqn:Hd; [done|]. intros [= <-]. destruct l; try done. simpl. unfold accept_loop.
    destruct (check_limits _ _); [|by apply (windowless_same s)]. destruct Hw as [H1 H2 H3]. split; [done|done|].
    intros t task. unfold spawn. simpl. rewrite lookup_insert_Some. intros [[_ <-]|[_ ?]]; [done|eauto].
  - intros (task & Ht & Hs)%bind_Some. by eapply task_windowless.
  - intros (h & _ & Hs)%bind_Some. destruct (hb_pending h); simplify_eq. unfold heartbeat_tick.
    destruct (claim_next_outbound_seq _). by apply (windowless_same s).
  - intros (h & _ & (f & _ & Hs)%bind_Some)%bind_Some. unfold heartbeat_send in Hs.
    destruct (channel_send c f s) as [[s1 b]|] eqn:Hc; [|done].
    assert (Hk : kept s s1 ∧ sv_tasks s1 = sv_tasks s) by (unfold channel_send in Hc; by repeat case_match; simplify_eq).
    destruct Hk as [Hk He]. destruct b; injection Hs as <-; by apply (windowless_same s).
  - intros (h & _ & Hs)%bind_Some. destruct (hb_aborted h); simplify_eq. by apply (windowless_same s).
  - destruct (0 <=? d); [|done]. intros [= <-]. by apply (windowless_same s).
Qed.

Lemma fresh_starts disk : starts (Server_new RtiNode_new disk).
Proof. by split. Qed.

Record process_ok (disk : gmap string string) (p : Process) : Prop := {
  po_server : ∃ lossy, reachable (Server_new RtiNode_new disk) lossy (pr_server p);
  po_window : windowless (pr_server p);
  po_flag : shutdown_flag (sv_node (pr_server p)) = pr_told p;
  po_told : pr_told p = true → ∃ why, pr_waiter p = W_returned why;
  po_exit : pr_main p = M_exited (Ok tt) → pr_told p = true
}.

Lemma process_ok_step disk e p p' :
  process_ok disk p → (∀ ev, process_server_event e = Some ev → bounded ev (pr_server p)) →
  process_step e p = Some p' → process_ok disk p'.
Proof.
  intros [[lossy Hr] Hwl Hf Ht Hx] Hb. unfold process_step.
  destruct (reachable_inv _ _ _ (fresh_starts disk) Hr) as (Hwf & _).
  destruct (exited (pr_main p)) eqn:Hex; [done|].
  assert (Hrun : (m ← run_step e p; Some (set_main m p)) = Some p' → process_ok disk p').
  { intros (m & Hm & [= <-])%bind_Some. split; simpl; [by eexists|done|done|done|]. intros ->. unfold run_step in Hm.
    rewrite <-Hf. destruct (pr_main p), e as [rb|io| | | |]; try done; [by destruct rb|by destruct (shutdown_flag _)..]. }
  destruct e as [r|io| |sig| |ev]; [exact Hrun..| | |]; clear Hrun.
  - intros (w & Hw & [= <-])%bind_Some. split; simpl; [by eexists|done|done| |done].
    intros [why Hy]%Ht. rewrite Hy in Hw. by destruct sig.
  - destruct (pr_waiter p) as [| | | |why] eqn:Hy, (pr_told p) eqn:Htold; try done. intros [= <-].
    split; simpl; [|by apply (windowless_same (pr_server p))|done|by eexists|done]. eexists. eapply (reach_step _ (Ev_admin Admin_shutdown)); [done|by apply Hb|done].
  - destruct (plain ev) eqn:Hp; [|done]. destruct (_ || _); [|done]. intros (s' & Hs & [= <-])%bind_Some.
    split; simpl; [|by eapply (step_windowless ev); [|by apply Hb|..]|by rewrite (step_flag _ _ _ Hwf (Hb _ eq_refl) Hp Hs)|done|done].
    eexists. eapply reach_step; [done|by apply Hb|done].
Qed.

Lemma process_reachable_ok unix given disk p0 p :
  main unix given disk = Some p0 → process_reachable p0 p → process_ok disk p.
Proof.
  intros (addr & _ & [= <-])%bind_Some Hr. induction Hr as [|e p p' Hr IH Hb Hs]; [|by eapply process_ok_step].
  split; simpl; try done. eexists; constructor.
Qed.

(** C35: the process runs the node from start to end.  The node is one that
    starts without sessions, so what holds of every reachable server holds of
    it; it never suspends a session, so that it needs no janitor, and runs
    none; [rtiexec] reports a clean exit only after the task that waits for a
    signal has returned and asked for the shutdown, and nothing else in the
    process asks for it; and once that task has returned, a process that
    accepts connections can exit, whatever its sessions are doing. *)
Theorem rtiexec_lifecycle unix given disk p0 p :
  main unix given disk = Some p0 → process_reachable p0 p →
  (starts (Server_new RtiNode_new disk) ∧ ∃ lossy, reachable (Server_new RtiNode_new disk) lossy (pr_server p)) ∧
  suspended_sessions (sv_node (pr_server p)) = ∅ ∧
  (shutdown_flag (sv_node (pr_server p)) = true ↔ pr_told p = true) ∧
  (pr_main p = M_exited (Ok tt) → pr_told p = true ∧ ∃ why, pr_waiter p = W_returned why) ∧
  (∀ why, pr_waiter p = W_returned why → pr_main p = M_accept →
     ∃ p', process_steps ((if pr_told p then [] else [Pr_shutdown]) ++ [Pr_drain]) p = Some p' ∧ pr_main p' = M_exited (Ok tt)).
Proof.
  intros Hm Hr. destruct (process_reachable_ok _ _ _ _ _ Hm Hr) as [Hs Hwl Hf Ht Hx].
  split; [split; [apply fresh_starts|done]|]. split; [apply (wl_none _ Hwl)|]. split; [by rewrite Hf|]. split; [auto|].
  intros why Hw Ha. destruct (pr_told p) eqn:Htold; cbn [app process_steps process_step]; unfold process_step; rewrite ?Ha, ?Hw, ?Htold; simpl.
  - unfold run_step. rewrite Ha, Hf. simpl. by eexists.
  - unfold run_step. simpl. by eexists.
Qed.
End process.

(** *** Witness *)

Definition started : Process := default (mkProcess (V4 [] 0) (demo_server 0) W_install false M_bind) (main true None ∅).
Definition signalled : list ProcessEvent :=
  [Pr_bind (Ok tt); Pr_signal (Installed true); Pr_server (Ev_accept L_tcp 9); Pr_signal Term].
Definition demo_process_steps : list ProcessEvent → Process → option Process :=
  process_steps (P := demo_prost) (PC := demo_calls) (X := no_xml) (J := digit_serde) (O := reliable_os).
Definition signalled_process : Process := default started (demo_process_steps signalled started).

Lemma signalled_reachable :
  process_reachable (P := demo_prost) (PC := demo_calls) (X := no_xml) (J := digit_serde) (O := reliable_os) started signalled_process.
Proof.
  assert (Hb : ∀ ev p, process_server_event (Pr_server ev) = Some ev → demo_bounded ev (pr_server p) = true →
    bounded (PC := demo_calls) (X := no_xml) ev (pr_server p)) by (intros; by apply demo_bounded_ok).
  pose (st n := default started (demo_process_steps (take n signalled) started)).
  assert (H1 : process_reachable (P := demo_prost) (PC := demo_calls) (X := no_xml) (J := digit_serde) (O := reliable_os) started (st 1%nat))
    by (eapply (pr_step _ (Pr_bind (Ok tt)) started); [apply pr_start|done|vm_compute; reflexivity]).
  assert (H2 : process_reachable (P := demo_prost) (PC := demo_calls) (X := no_xml) (J := digit_serde) (O := reliable_os) started (st 2%nat))
    by (eapply (pr_step _ (Pr_signal (Installed true)) (st 1%nat)); [exact H1|done|vm_compute; reflexivity]).
  assert (H3 : process_reachable (P := demo_prost) (PC := demo_calls) (X := no_xml) (J := digit_serde) (O := reliable_os) started (st 3%nat)).
  { eapply (pr_step _ (Pr_server (Ev_accept L_tcp 9)) (st 2%nat)); [exact H2| |vm_compute; reflexivity].
    intros ev [= <-]. apply Hb; [done|]. vm_compute. reflexivity. }
  eapply (pr_step _ (Pr_signal Term) (st 3%nat)); [exact H3|done|vm_compute; reflexivity].
Defined.

Lemma rtiexec_lifecycle_witness :
  ∃ p', demo_process_steps [Pr_shutdown; Pr_drain] signalled_process = Some p' ∧ pr_main p' = M_exited (Ok tt).
Proof.
  assert (Hm : main true None ∅ = Some started) by (vm_compute; reflexivity).
  destruct (rtiexec_lifecycle (P := demo_prost) (PC := demo_calls) (X := no_xml) (J := digit_serde) (O := reliable_os)
    true None ∅ started signalled_process Hm signalled_reachable) as (_ & _ & _ & _ & H).
  assert (Ht : pr_told signalled_process = false) by (vm_compute; reflexivity). rewrite Ht in H.
  apply (H Sigterm); vm_compute; reflexivity.
Defined.

(** *** What goes wrong *)

(** A failing ctrl-c handler is reported and then treated as a signal: the
    node shuts down and the process exits cleanly, though no signal came. *)
Theorem handler_failure_stops_node :
  match demo_process_steps [Pr_bind (Ok tt); Pr_signal (Installed true); Pr_signal (Ctrl_c (Err "?"%string)); Pr_shutdown; Pr_drain] started with
  | Some p => pr_waiter p = W_returned Handler_failed ∧ pr_main p = M_exited (Ok tt)
  | None => False
  end.
Proof. vm_compute. done. Qed.

(** The process does not wait for its sessions: it exits with a connection
    whose session loop has not even noticed the shutdown. *)
Theorem exit_leaves_sessions :
  match demo_process_steps (signalled ++ [Pr_shutdown; Pr_drain]) started with
  | Some p => pr_main p = M_exited (Ok tt) ∧ size (sv_tasks (pr_server p)) = 1%nat
  | None => False
  end.
Proof. vm_compute. done. Qed.
